(* ===== verification/_CoqProject ===== *)
-Q . S2P
Prelude.v
Lvl4Buffer.v
Leeloo.v
Target.v
HostSM.v
Lvl4SM.v
Framing.v
Stream.v
Closures.v
SSL.v
SSH.v
SIP.v
Protocols.v
Speak.v
SpeakSSL.v
Conversation.v
Servers.v
Respects.v
Rescan.v
Properties.v
TargetSet.v
IPV4Set.v
TargetFile.v
Engine.v
AsyncEngine.v
Frames.v
Sockets.v
Rounds.v
Accounting.v
Stays.v
Liveness.v
Ledger.v
Ends.v
IPV4Scan.v
FileScan.v
IPV4Silent.v
Talks.v
Outcomes.v
PyBinding.v
Sim.v
Scenarios.v
WitnessesData.v
WitnessesProtocols.v
WitnessesServers.v
WitnessesEngine.v
Lab.v
Snake.v
Switchboard.v
Tape.v
