(* ===== verification/Prelude.v ===== *)
(** * A verification library for nodescan

    nodescan (src/src/) is an asynchronous network scanner: an engine keeps a
    bounded number of non-blocking sockets, connects them to the targets of a
    set, hands what the peers send to the trigger of each connection, and
    reports how each target ended. This library is a model of it in Gallina,
    with the theorems that make it correct.

    ** How the parts interact

    [AsyncEngine::launch] (async_engine.cpp) initialises the target set and runs
    rounds: [process_events] dispatches what epoll reports, to
    [process_connecting_ready] (which runs the user's connection function) or
    to [process_connected_ready] (which reads into the buffer of the connection
    and runs its trigger); [process_dirty_and_timeouts] runs the triggers
    installed since and ends the connections that timed out;
    [process_free_socks] launches targets while sockets are left. Every end
    goes through [socket_finished]: the user's finish function, then the target
    set's [target_finished], then [free_socket]. A connection function is often
    a protocol object (SSL, SSH, SIP), which sends its request and installs
    triggers whose lambdas read the answer.

    ** The files

    - Prelude: this comment; the result monad ([Ok], [Fail]), machine integers,
      bytes in both orders, access to a block of memory.
    - Lvl4Buffer: include/ns/buffer.h. Leeloo: the interfaces of what is not in
      the repository (libleeloo's ports; the system calls) with their laws.
    - Target: target.h, target.cpp, connected_target.cpp, ipstr.cpp and
      [target_hash] of the Python binding. HostSM: state_machine and
      host_state_machine. Lvl4SM: lvl4_state_machine, the data triggers and
      their variant, static_max_size.h. Framing: the theorems on the
      processing loop. Stream: a connection as a reader of bytes, whatever its
      callbacks and however its stream is cut.
    - Closures: the lambdas the protocols install, as data. SSL, SSH, SIP:
      protocols/ssl.cpp, ssh.cpp, sip.cpp and their headers. Protocols: the
      behaviour of every lambda, and whole conversations. Speak: the functions
      of the user as handlers of lists of bytes. SpeakSSL and Conversation: the
      protocols as functions of the bytes received. Servers: what whole answers
      of SSL, SSH and SIP servers give the user. Respects: the protocols change a
      connection through a few operations only. Rescan: where a trigger may
      start to search.
    - Properties: lvl4_properties_storage.h. TargetSet and IPV4Set:
      target_set.h and target_set.cpp, with the archives the sets are saved
      to. TargetFile: target_file.cpp.
    - Engine: engine.h and engine.cpp. AsyncEngine: async_engine.h and
      async_engine.cpp.
    - Three files carry invariants through the engine. Frames: the rules of
      [post] and the functions that respect any relation that allows a few
      things ([Frame]; [Touches] and [Stamps] for those that write connections). Sockets: the accounts of the engine and what creating and ending a
      socket does to them. Rounds: an invariant next to the accounts through a
      whole scan, from what it says of sockets, launches and events. Accounting,
      Ledger and Talks are its three instances: the accounts themselves; which
      targets are given, reported and in flight; the conversations of a scan
      with a protocol, which do not mix.
    - Stays: invariants that need no accounts, and one connection in the loops
      over all. Liveness: scans of silent peers. Ends: scans of peers that answer,
      in a world that gives finitely much. IPV4Scan: the engine and
      [IPV4TargetSet] together; IPV4Silent: its scans that nobody answers, with
      their hosts. FileScan: the engine and [TargetAsyncFile] together.
      Outcomes: what single operations of the engine do.
    - PyBinding: bindings/python/pynodescan.cpp, as instances of the
      interfaces the engine and the connections are written against.
    - Sim: a concrete kernel, user and set, instances of every interface.
      Scenarios: whole scans evaluated. WitnessesData, WitnessesProtocols,
      WitnessesServers, WitnessesEngine: the theorems that have hypotheses
      applied to a concrete input on these instances. Lab: a kernel where nobody
      answers, Snake: a small Python, Switchboard: servers that all answer, Tape:
      a file to read, with the theorems that are applied in them.

    ** Correspondence

    A class of the program is a record with its fields ([Buffer], [Target],
    [HostSM], [Lvl4SM], [SSL], [SimpleTargetSet], [Engine], [AsyncEngine], ...);
    a method is the definition of the same name, taking the object and
    returning it. What can go wrong is in [result]: [Fail UB] for undefined
    behaviour and violated assertions, [Fail BadFunctionCall] for an empty
    [std::function], [Fail OutOfFuel] for a loop cut short,
    [Fail ArchiveException] and [Fail PythonError] for the exceptions of boost's
    archives and of the interpreter, which nothing catches. A heap block is
    the list of its bytes, a pointer into the buffer of a connection an offset
    into the block, so callbacks that write through it change the connection.
    An uninitialised field is [None] and reading it is [Fail UB]. The engine
    runs in a state monad over itself and the world. Integers are [Z] with
    their wrap-around written out where they are narrow ([u16], [u32], ...);
    the counters of targets ([size_t]) and the clock are unbounded.

    ** The theorems

    - The engine: at every round the open descriptors, the connections and
      the targets match, sockets in use and sockets left add up, and launched
      targets are done or in flight ([Accounting]); the targets given by the
      set are those reported to the user and those in flight, each as many
      times, however the peers behave ([every_target_once]); in the scan of a
      list of addresses and ports each pair is left to be given, in flight or
      reported, exactly once, and none is left when [launch] returns
      ([ipv4_scan_partitions], [ipv4_scan_complete]); in the scan of a file
      the addresses of the lines read are in flight or reported, however the
      reads cut the lines ([file_scan_launches]); a scan ends when the targets
      and the events are finitely many, unless a round of it fails
      ([scan_ends]); one whose peers
      never answer has no such round ([silent_scan_ends]), nor has one of addresses
      and ports, where [target_finished] and the indices of the hosts come in,
      and where the engine ends with no host but those with an open socket
      ([ipv4_silent_scan]); the effect of ending a socket and of one pass over a connection ([Outcomes]).
    - Connections: however reads cut the stream, the lines delivered are those
      of the byte-by-byte reader ([deliver_refines_consume]); the loop ends when
      triggers have positive size ([process_loop_terminates]); it does for SSH
      and SIP whatever the peer sends; searching from the previous position
      is searching from the beginning ([rescan_equivalent]). The connections
      of the protocols refine a reader without buffers that takes one byte at a
      time, so that a conversation is a function of the bytes of the server
      and not of the reads ([protocol_conversation]). For SSL this holds of
      the streams on which the reader is defined: an empty record, a short
      ServerHello, and a certificate list whose lengths lead past its end
      ([certificate_overruns]) break it.
      The same holds of every connection at every round of a scan: whatever
      the order of the events, the other connections, the timeouts and the
      descriptors used again, each descriptor is where that reader is after
      the bytes read from it since it was opened ([scan_conversations]).
    - Protocols: what a whole SSL, SSH or SIP answer makes the user's functions
      see, in whatever pieces it comes ([ssl_server_delivers],
      [ssh_server_delivers], [sip_answer_delivers]); every branch of the SIP line and SSH reply
      readers; the ClientHello is well formed for an independent reader
      ([client_hello_well_formed]). The suite the user is shown of a ServerHello
      is the number read in memory order from the two bytes before its last,
      which is that of the server, its bytes swapped, when there are no
      extensions.
    - Containers: the buffer refines a list; [SimpleTargetSet] a queue with a
      sorted set; the file of targets its specification on plain bytes;
      [IPV4TargetSet] gives every pair once, an address after the other, and
      reports the last port of a host; restored at the address it was saved at,
      it goes on as the saved one ([ipv4_restored_gives]); the property storage refines a partial function.
    - Conversions and orders: dotted addresses, socket addresses, hash, order
      of targets, period of the saves.
    - Defects, each as a theorem about the code as it is: the 32-bit wrap of
      the buffer, bytes left by short reads, empty TLS records, reads outside
      a ServerHello and a certificate list, lost targets of [reconnect], double
      finish, failing [socket], uninitialised index, scans stopped in flight;
      a set of addresses restored at another address, whose ports it leaves
      out ([ipv4_restored_forgets]); in the Python binding, triggers written
      in Python that end the scan when their buffer is processed, target sets
      that end it at the end of any socket, and headers that are not UTF-8.

    ** Fuel

    Two kinds of loops have no structural measure. [process_loop] and
    [certificates_loop] take fuel: [process_loop_terminates] and
    [certificates_loop_terminates] show how much is enough (one more than the
    number of bytes buffered, or listed), and [empty_record_diverges] that no
    fuel is enough for an empty TLS record. The loops of a scan
    ([launch_next], [scan_loop]) depend on the peers and on the target set:
    they take a number of attempts and of rounds, the engine's invariant holds
    after any number of rounds, and [launch] returns [OutOfFuel] when they
    are not enough. For silent peers [silent_scan_ends] gives a number of
    rounds that is enough, from the number of targets and the longest
    timeout, and [ipv4_silent_scan] from the numbers of addresses and ports.

    ** Not modelled

    Logging; the tests and the build; the class [TargetFile] (under [#if 0]);
    [init_shrd], which does nothing in any set; [Lvl4PropertiesStorage::clear],
    which cannot be instantiated; failing allocations. Functions of the user
    run on their connection and on the world; they do not call back into the
    engine. What the interpreter and boost.python do with reference counts and
    the lifetime of the objects handed to Python is not modelled. The lists of
    an [IPV4TargetSet] are references to those of the caller in the program
    and values here: changes of the caller after the set is built are not
    modelled. The comparison of an iterator that was not initialised
    ([add_target] before [init]), formally undefined, answers here that it is
    not at the end; reading through it is [Fail UB]. The fields that the
    constructor of the engine leaves indeterminate are 0 here; none is read
    before it is set. Where leeloo restores an iterator on addresses is a
    parameter ([v4_saved]). *)

From stdpp Require Export base tactics option list gmap numbers sorting.
From Stdlib Require Export ZArith Lia.

#[global] Open Scope Z_scope.

Declare Scope ns_scope.
Delimit Scope ns_scope with ns.
#[global] Open Scope ns_scope.

(** Lengths and positions are integers of the program, hence [Z]. *)
Notation "'zlen' l" := (Z.of_nat (length l)) (at level 10, l at level 9) : ns_scope.
Abbreviation ztake n l := (take (Z.to_nat n) l) (only parsing).
Abbreviation zdrop n l := (drop (Z.to_nat n) l) (only parsing).

(** ** Fallible computations *)

(** How a call can fail: undefined behaviour (an access outside its object,
    the use of an indeterminate value, a dangling iterator, a violated
    [assert]), a call through an empty [std::function], an exception of boost's
    archives or one raised by Python code; or, for a loop, more iterations than
    the fuel it was given. *)
Inductive failure :=
| UB | BadFunctionCall | OutOfFuel | ArchiveException | PythonError.

Inductive result (A : Type) :=
| Ok (a : A)
| Fail (e : failure).
Arguments Ok {A} a.
Arguments Fail {A} e.

#[export] Instance failure_eq_dec : EqDecision failure.
Proof. solve_decision. Defined.

#[export] Instance result_ret : MRet result := fun A a => Ok a.
#[export] Instance result_bind : MBind result := fun A B f m =>
  match m with Ok a => f a | Fail e => Fail e end.

(** [assume_defined b]: the operation is defined only when [b] holds. *)
Definition assume_defined (b : bool) : result unit :=
  if b then Ok () else Fail UB.

Definition of_option {A} (e : failure) (o : option A) : result A :=
  match o with Some a => Ok a | None => Fail e end.

Lemma bind_Ok_inv {A B} (m : result A) (f : A → result B) b :
  (m ≫= f) = Ok b → ∃ a, m = Ok a ∧ f a = Ok b.
Proof. destruct m; simpl; [eauto|discriminate]. Qed.

Lemma of_option_Ok_inv {A} e (o : option A) a : of_option e o = Ok a → o = Some a.
Proof. destruct o; simpl; congruence. Qed.

Lemma assume_defined_Ok b u : assume_defined b = Ok u → b = true.
Proof. destruct b; simpl; congruence. Qed.

(** Takes the hypotheses saying that a computation succeeded apart. *)
Ltac inv_ok :=
  repeat match goal with
  | H : Ok _ = Ok _ |- _ => injection H as H; subst
  | H : mret _ = Ok _ |- _ => injection H as H; subst
  | H : Fail _ = Ok _ |- _ => discriminate H
  | H : (mbind _ _) = Ok _ |- _ =>
      let a := fresh "r" in let E := fresh "E" in
      apply bind_Ok_inv in H as (a & E & H)
  | H : of_option _ _ = Ok _ |- _ => apply of_option_Ok_inv in H
  | H : assume_defined _ = Ok _ |- _ => apply assume_defined_Ok in H
  | H : (_, _) = (_, _) |- _ => injection H as H; subst
  | x : (_ * _)%type |- _ => destruct x; simpl in *
  end.

(** ** Machine integers *)

Definition u8 (z : Z) : Z := z mod 2 ^ 8.
Definition u16 (z : Z) : Z := z mod 2 ^ 16.
Definition u32 (z : Z) : Z := z mod 2 ^ 32.
Definition u64 (z : Z) : Z := z mod 2 ^ 64.

(** [lia] with the machine integers and division unfolded. *)
Ltac zlia := unfold u8, u16, u32, u64 in *; Z.to_euclidean_division_equations; lia.

Lemma u32_small z : 0 ≤ z < 2 ^ 32 → u32 z = z.
Proof. apply Z.mod_small. Qed.
Lemma u32_range z : 0 ≤ u32 z < 2 ^ 32.
Proof. unfold u32. apply Z.mod_pos_bound. lia. Qed.
Lemma u16_small z : 0 ≤ z < 2 ^ 16 → u16 z = z.
Proof. apply Z.mod_small. Qed.
Lemma u64_small z : 0 ≤ z < 2 ^ 64 → u64 z = z.
Proof. apply Z.mod_small. Qed.

(** ** Bytes and byte order *)

Definition is_byte (b : Z) : Prop := 0 ≤ b < 2 ^ 8.

(** The value of a byte sequence read as the (little-endian) target machine
    reads an integer, and the bytes it stores for one. *)
Fixpoint le_value (l : list Z) : Z :=
  match l with [] => 0 | b :: l => b + 2 ^ 8 * le_value l end.
Fixpoint le_bytes (n : nat) (z : Z) : list Z :=
  match n with O => [] | S n => u8 z :: le_bytes n (z / 2 ^ 8) end.

(** The network order. *)
Definition be_value (l : list Z) : Z := le_value (reverse l).
Definition be_bytes (n : nat) (z : Z) : list Z := reverse (le_bytes n z).

(** [htons]/[ntohs] and [htonl]/[ntohl] on a little-endian machine. *)
Definition htons (z : Z) : Z := le_value (reverse (le_bytes 2 z)).
Definition htonl (z : Z) : Z := le_value (reverse (le_bytes 4 z)).
Abbreviation ntohs := htons (only parsing).
Abbreviation ntohl := htonl (only parsing).

Lemma le_bytes_length n z : length (le_bytes n z) = n.
Proof. revert z; induction n; intros; simpl; auto. Qed.

Lemma le_bytes_byte n z : Forall is_byte (le_bytes n z).
Proof.
  revert z; induction n as [|n IH]; intros z; constructor; [|apply IH].
  unfold is_byte, u8. apply Z.mod_pos_bound. lia.
Qed.

Lemma le_value_bytes n z : le_value (le_bytes n z) = z mod 2 ^ (8 * Z.of_nat n).
Proof.
  revert z; induction n as [|n IH]; intros z; cbn [le_value le_bytes].
  { by rewrite Z.mod_1_r. }
  rewrite IH. unfold u8.
  replace (8 * Z.of_nat (S n)) with (8 + 8 * Z.of_nat n) by lia.
  rewrite Z.pow_add_r by lia.
  assert (0 < 2 ^ (8 * Z.of_nat n)) by (apply Z.pow_pos_nonneg; lia).
  by rewrite (Z.rem_mul_r z (2 ^ 8)) by lia.
Qed.

Lemma le_bytes_value l : Forall is_byte l → le_bytes (length l) (le_value l) = l.
Proof.
  induction 1 as [|b l Hb _ IH]; [done|]. cbn [length le_bytes le_value].
  unfold is_byte in Hb. f_equal; [zlia|].
  etrans; [|exact IH]. f_equal. zlia.
Qed.

Lemma le_value_range l : Forall is_byte l → 0 ≤ le_value l < 2 ^ (8 * zlen l).
Proof.
  intros Hl. rewrite <- (le_bytes_value l Hl), le_value_bytes, le_bytes_length.
  apply Z.mod_pos_bound. lia.
Qed.

(** Reading a big-endian field of the wire in machine order and swapping it
    gives its value. *)
Lemma htonl_le_value l :
  length l = 4%nat → Forall is_byte l → htonl (le_value l) = be_value l.
Proof. intros Hn Hl. unfold htonl. by rewrite <- Hn, le_bytes_value. Qed.

Lemma htons_le_value l :
  length l = 2%nat → Forall is_byte l → htons (le_value l) = be_value l.
Proof. intros Hn Hl. unfold htons. by rewrite <- Hn, le_bytes_value. Qed.

Lemma htonl_involutive z : 0 ≤ z < 2 ^ 32 → htonl (htonl z) = z.
Proof.
  intros Hz. unfold htonl at 1.
  assert (Hl : length (reverse (le_bytes 4 z)) = 4%nat) by done.
  assert (Hb : Forall is_byte (reverse (le_bytes 4 z))).
  { apply Forall_reverse, le_bytes_byte. }
  unfold htonl. rewrite <- Hl at 1. rewrite le_bytes_value by done.
  rewrite reverse_involutive, le_value_bytes. by apply Z.mod_small.
Qed.

(** ** Memory blocks *)

(** A block of memory is the list of its bytes; an access outside it is
    undefined behaviour. *)
Definition load (m : list Z) (off : Z) : result Z :=
  _ ← assume_defined (0 <=? off);
  of_option UB (m !! Z.to_nat off).

Definition load_n (m : list Z) (off n : Z) : result (list Z) :=
  _ ← assume_defined ((0 <=? off) && (0 <=? n) && (off + n <=? zlen m));
  Ok (ztake n (zdrop off m)).

Definition store_n (m : list Z) (off : Z) (data : list Z) : result (list Z) :=
  _ ← assume_defined ((0 <=? off) && (off + zlen data <=? zlen m));
  Ok (ztake off m ++ data ++ zdrop (off + zlen data) m).

(** [memmove(m + dst, m + src, n)]. *)
Definition memmove (m : list Z) (dst src n : Z) : result (list Z) :=
  data ← load_n m src n; store_n m dst data.

(** [memchr]/[std::find]: the index of the first [c] of [l]. *)
Fixpoint find_byte (c : Z) (l : list Z) : option nat :=
  match l with
  | [] => None
  | b :: l => if b =? c then Some 0%nat else S <$> find_byte c l
  end.

Lemma assume_defined_true b : b = true → assume_defined b = Ok ().
Proof. by intros ->. Qed.

Lemma assume_leb a b : a ≤ b → assume_defined (a <=? b) = Ok ().
Proof. intros. by apply assume_defined_true, Z.leb_le. Qed.

Lemma assume_some {A} (x : A) : assume_defined (bool_decide (is_Some (Some x))) = Ok ().
Proof. apply assume_defined_true, bool_decide_eq_true. eauto. Qed.

Lemma load_n_Ok m off n :
  0 ≤ off → 0 ≤ n → off + n ≤ zlen m → load_n m off n = Ok (ztake n (zdrop off m)).
Proof. intros. unfold load_n. rewrite assume_defined_true; [done|lia]. Qed.

Lemma store_n_Ok m off data :
  0 ≤ off → off + zlen data ≤ zlen m →
  store_n m off data = Ok (ztake off m ++ data ++ zdrop (off + zlen data) m).
Proof. intros. unfold store_n. rewrite assume_defined_true; [done|lia]. Qed.

Lemma store_n_length m off data m' :
  store_n m off data = Ok m' → length m' = length m.
Proof.
  unfold store_n. intros H. inv_ok.
  rewrite !length_app, length_take, length_drop. lia.
Qed.

Lemma store_n_middle pre x post b :
  store_n (pre ++ x :: post) (zlen pre) [b] = Ok (pre ++ b :: post).
Proof.
  rewrite store_n_Ok by (rewrite ?length_app; simpl; lia).
  rewrite Nat2Z.id, take_app_length. cbn [length].
  replace (Z.to_nat _) with (S (length pre)) by lia.
  rewrite drop_app_ge by lia. by replace (S _ - _)%nat with 1%nat by lia.
Qed.

Lemma load_Ok m off :
  0 ≤ off < zlen m → ∃ b, load m off = Ok b ∧ m !! Z.to_nat off = Some b.
Proof.
  intros H. unfold load. rewrite assume_defined_true by lia. simpl.
  destruct (lookup_lt_is_Some_2 m (Z.to_nat off)) as [b Hb]; [lia|].
  exists b. by rewrite Hb.
Qed.

Lemma load_inv m off b : load m off = Ok b → 0 ≤ off < zlen m ∧ m !! Z.to_nat off = Some b.
Proof.
  unfold load. intros H. inv_ok. pose proof (lookup_lt_Some _ _ _ H). split; [lia|done].
Qed.

Lemma take_more {A} n m (l : list A) : take (n + m) l = take n l ++ take m (drop n l).
Proof.
  revert l; induction n as [|n IH]; intros l; [done|]. destruct l; simpl; [by rewrite take_nil|].
  by rewrite IH.
Qed.

Lemma find_byte_Some c l i :
  find_byte c l = Some i ↔ l !! i = Some c ∧ c ∉ take i l.
Proof.
  revert i. induction l as [|b l IH]; intros i; simpl.
  { split; [done|]. by intros [? _]. }
  destruct (b =? c) eqn:Hb; simpl.
  - apply Z.eqb_eq in Hb as ->. split.
    + intros [= <-]. split; [done|]. simpl. set_solver.
    + intros [Hi Hn]. destruct i; [done|]. simpl in Hn. set_solver.
  - apply Z.eqb_neq in Hb. rewrite fmap_Some. setoid_rewrite IH. split.
    + intros (j & [Hj Hn] & ->). split; [done|]. simpl. set_solver.
    + intros [Hi Hn]. destruct i as [|i]; [simpl in Hi; congruence|].
      exists i. split; [|done]. split; [done|]. simpl in Hn. set_solver.
Qed.

Lemma find_byte_None c l : find_byte c l = None ↔ c ∉ l.
Proof.
  induction l as [|b l IH]; simpl; [set_solver|].
  destruct (b =? c) eqn:Hb.
  - apply Z.eqb_eq in Hb as ->. set_solver.
  - apply Z.eqb_neq in Hb. rewrite fmap_None, IH. set_solver.
Qed.

Lemma find_byte_lt c l i : find_byte c l = Some i → (i < length l)%nat.
Proof. rewrite find_byte_Some. intros [? _]. by eapply lookup_lt_Some. Qed.

Lemma find_byte_app c l1 l2 :
  c ∉ l1 → find_byte c (l1 ++ l2) = Nat.add (length l1) <$> find_byte c l2.
Proof.
  induction l1 as [|b l1 IH]; simpl; intros Hc.
  { by destruct (find_byte c l2). }
  rewrite (proj2 (Z.eqb_neq b c)), IH by set_solver.
  by destruct (find_byte c l2).
Qed.

Lemma find_byte_first c l i x :
  find_byte c l = Some i → find_byte c (l ++ x) = Some i.
Proof.
  rewrite !find_byte_Some. intros [Hi Hn]. pose proof (lookup_lt_Some _ _ _ Hi).
  rewrite lookup_app_l, take_app_le by lia. done.
Qed.

(** Splitting a list around the first occurrence. *)
Lemma find_byte_split c l i :
  find_byte c l = Some i → l = take i l ++ c :: drop (S i) l.
Proof.
  rewrite find_byte_Some. intros [Hi _]. by rewrite take_drop_middle.
Qed.

Create HintDb ns.
Create Rewrite HintDb ns.
#[export] Hint Resolve u32_range : ns.
#[export] Hint Rewrite u32_small u16_small u64_small using lia : ns.
#[export] Hint Rewrite @length_app @length_take @length_drop @length_fmap
  @length_seq @length_reverse @length_insert : ns.

(** Goals about the lengths of lists built from other lists. *)
Ltac solve_length := autorewrite with ns; simpl; try lia.

Lemma htons_involutive z : 0 ≤ z < 2 ^ 16 → htons (htons z) = z.
Proof.
  intros Hz. unfold htons at 1.
  assert (Hl : length (reverse (le_bytes 2 z)) = 2%nat) by done.
  assert (Hb : Forall is_byte (reverse (le_bytes 2 z))).
  { apply Forall_reverse, le_bytes_byte. }
  unfold htons. rewrite <- Hl at 1. rewrite le_bytes_value by done.
  rewrite reverse_involutive, le_value_bytes. by apply Z.mod_small.
Qed.

(** [a | (b << n)] is a sum when [a] fits in [n] bits. *)
Lemma lor_disjoint a b n : 0 ≤ n → 0 ≤ a < 2 ^ n → Z.lor a (b * 2 ^ n) = a + b * 2 ^ n.
Proof.
  intros Hn Ha. rewrite <- Z.shiftl_mul_pow2 by done.
  assert (Hland : Z.land a (Z.shiftl b n) = 0).
  { apply Z.bits_inj'. intros i Hi. rewrite Z.land_spec, Z.bits_0.
    destruct (decide (i < n)).
    - by rewrite Z.shiftl_spec_low, andb_false_r.
    - rewrite <- (Z.mod_small a (2 ^ n)), Z.mod_pow2_bits_high by lia. done. }
  by rewrite Z.add_nocarry_lxor, Z.lxor_lor.
Qed.

(** [bs] is what the block [m] holds at the offset [off]. *)
Definition bytes_at (m : list Z) (off : Z) (bs : list Z) : Prop :=
  ∃ pre post, m = pre ++ bs ++ post ∧ off = zlen pre.

Lemma bytes_at_app m off a b :
  bytes_at m off (a ++ b) → bytes_at m off a ∧ bytes_at m (off + zlen a) b.
Proof.
  intros (pre & post & -> & ->). split.
  - exists pre, (b ++ post). by rewrite <- !app_assoc.
  - exists (pre ++ a), post. rewrite <- !app_assoc. split; [done|]. solve_length.
Qed.

Lemma bytes_at_take m off n bs : bytes_at m off bs → bytes_at m off (take n bs).
Proof. rewrite <- (take_drop n bs) at 1. by intros [? _]%bytes_at_app. Qed.

Lemma bytes_at_drop m off n bs :
  (n ≤ length bs)%nat → bytes_at m off bs → bytes_at m (off + Z.of_nat n) (drop n bs).
Proof.
  intros Hn. rewrite <- (take_drop n bs) at 1. intros [_ H]%bytes_at_app.
  by rewrite length_take, Nat.min_l in H.
Qed.

Lemma bytes_at_cons m off b bs :
  bytes_at m off (b :: bs) → load m off = Ok b ∧ bytes_at m (off + 1) bs.
Proof.
  intros (pre & post & -> & ->). split.
  - unfold load. rewrite assume_leb by lia. simpl.
    rewrite Nat2Z.id, lookup_app_r, Nat.sub_diag by lia. done.
  - exists (pre ++ [b]), post. rewrite <- !app_assoc. split; [done|]. solve_length.
Qed.

Lemma bytes_at_load_n m off bs : bytes_at m off bs → load_n m off (zlen bs) = Ok bs.
Proof.
  intros (pre & post & -> & ->). rewrite load_n_Ok by solve_length.
  by rewrite !Nat2Z.id, drop_app_length, take_app_length.
Qed.

Lemma bytes_at_bound m off bs : bytes_at m off bs → 0 ≤ off ∧ off + zlen bs ≤ zlen m.
Proof. intros (pre & post & -> & ->). solve_length. Qed.

Lemma load_n_bytes_at m off n bs :
  load_n m off n = Ok bs → bytes_at m off bs ∧ zlen bs = n.
Proof.
  unfold load_n. intros H. inv_ok. split; [|solve_length].
  exists (ztake off m), (zdrop (off + n) m).
  rewrite (Z2Nat.inj_add off n), <- drop_drop, take_drop, take_drop by lia.
  split; [done|]. solve_length.
Qed.

Lemma le_bytes_htonl z : le_bytes 4 (htonl z) = be_bytes 4 z.
Proof.
  unfold htonl, be_bytes. apply (le_bytes_value (reverse (le_bytes 4 z))).
  apply Forall_reverse, le_bytes_byte.
Qed.

Lemma be_value_bytes n z : be_value (be_bytes n z) = z mod 2 ^ (8 * Z.of_nat n).
Proof. unfold be_value, be_bytes. by rewrite reverse_involutive, le_value_bytes. Qed.

Lemma be_bytes_length n z : length (be_bytes n z) = n.
Proof. unfold be_bytes. by rewrite length_reverse, le_bytes_length. Qed.

Lemma be_bytes_byte n z : Forall is_byte (be_bytes n z).
Proof. apply Forall_reverse, le_bytes_byte. Qed.

#[export] Hint Rewrite le_bytes_length be_bytes_length : ns.
