(* ===== verification/Lvl4Buffer.v ===== *)
(** * The growing byte buffer: src/src/include/ns/buffer.h

    [Buffer<unsigned char, uint32_t>], the one instance the program uses
    ([ns::Lvl4Buffer], lvl4_buffer.h). The heap block is the list of its
    bytes, with the bytes of a fresh allocation left to the environment
    ([Malloc]); allocation is taken to succeed, as the code takes it.
    The main results: [grow_by] keeps the contents and returns a region that
    lies in the block as long as the size stays under 2^30, at which the
    32-bit size computation wraps; and any run of buffer operations
    behaves like the same run on a plain list of bytes. *)

From S2P Require Import Prelude.

(** What a fresh allocation holds at each offset. *)
Class Malloc := fresh_byte : nat → Z.

Module Buffer.

Record Buffer := mkBuffer {
  _buffer : option (list Z);   (* None is nullptr *)
  _buf_size : Z;
  _buf_pos : Z;
}.

Definition Buffer_ctor : Buffer := mkBuffer None 0 0.

Definition allocated_size (b : Buffer) : Z := _buf_size b.
Definition size (b : Buffer) : Z := _buf_pos b.

(** [sizeof(size_type)] is 4. *)
Definition size_buf (n : Z) : Z := u32 (n * 4).

Section Operations.
Context {M : Malloc}.

Definition malloc (n : Z) : list Z := fresh_byte <$> seq 0 (Z.to_nat n).

Definition realloc (m : list Z) (n : Z) : list Z :=
  ztake n m ++ (fresh_byte <$> seq (length m) (Z.to_nat n - length m)).

Definition allocate (n : Z) (b : Buffer) : Buffer :=
  match _buffer b with
  | Some m =>
      if allocated_size b <? n
      then mkBuffer (Some (realloc m (size_buf n))) n (_buf_pos b)
      else b
  | None => mkBuffer (Some (malloc (size_buf n))) n (_buf_pos b)
  end.

(** The new buffer, and the offset of the region that was added. *)
Definition grow_by (n : Z) (b : Buffer) : Buffer * Z :=
  let old_pos := size b in
  let b := allocate (u32 (size b + n)) b in
  (mkBuffer (_buffer b) (_buf_size b) (u32 (_buf_pos b + n)), old_pos).

Definition pop_by (n : Z) (b : Buffer) : result Buffer :=
  _ ← assume_defined (n <=? _buf_pos b);
  let rem := u32 (size b - n) in
  m ← match _buffer b with
      | Some m => m ← memmove m 0 n rem; Ok (Some m)
      | None => _ ← assume_defined (rem =? 0); Ok None
      end;
  Ok (mkBuffer m (_buf_size b) (u32 (_buf_pos b - n))).

Definition free (b : Buffer) : Buffer :=
  match _buffer b with
  | Some _ => mkBuffer None 0 0
  | None => b
  end.

(** The bytes at and after [begin()]. *)
Definition block (b : Buffer) : list Z := default [] (_buffer b).

Definition copy (o b : Buffer) : result Buffer :=
  let b := allocate (size o) b in
  data ← load_n (block o) 0 (size_buf (size o));
  m ← store_n (block b) 0 data;
  Ok (mkBuffer (Some m) (_buf_size b) (size o)).

Definition Buffer_copy_ctor (o : Buffer) : result Buffer := copy o Buffer_ctor.

(** The destination and what is left of the source. *)
Definition move (o b : Buffer) : Buffer * Buffer :=
  (mkBuffer (_buffer o) (allocated_size o) (size o), mkBuffer None 0 0).

(** The new buffer and what is left of the source. *)
Definition Buffer_move_ctor (o : Buffer) : Buffer * Buffer := move o Buffer_ctor.

(** [operator=]: [self] says that both are the same object. *)
Definition assign_copy (self : bool) (o b : Buffer) : result Buffer :=
  if self then Ok b else copy o b.
Definition assign_move (self : bool) (o b : Buffer) : Buffer * Buffer :=
  if self then (b, b) else move o b.

(** A write of [data] through a pointer [begin()+off]. *)
Definition write_at (off : Z) (data : list Z) (b : Buffer) : result Buffer :=
  m ← store_n (block b) off data;
  Ok (mkBuffer ((λ _, m) <$> _buffer b) (_buf_size b) (_buf_pos b)).

End Operations.

(** ** Well-formed buffers *)

(** The bytes between [begin()] and [end()]. *)
Definition contents (b : Buffer) : list Z := ztake (_buf_pos b) (block b).

(** The largest size for which [size_buf] does not wrap. *)
Definition max_size : Z := 2 ^ 30.

Definition wf (b : Buffer) : Prop :=
  0 ≤ _buf_pos b ≤ _buf_size b ∧ _buf_size b < max_size ∧
  zlen (block b) = 4 * _buf_size b.

Lemma size_buf_small n : 0 ≤ n < max_size → size_buf n = 4 * n.
Proof. unfold size_buf, max_size. intros. rewrite u32_small; lia. Qed.

Lemma wf_ctor : wf Buffer_ctor.
Proof. unfold wf, max_size; simpl. lia. Qed.

Lemma contents_length b : wf b → zlen (contents b) = _buf_pos b.
Proof. unfold wf, contents. intros. solve_length. Qed.

Lemma contents_size b : wf b → size b = zlen (contents b).
Proof. intros. by rewrite contents_length. Qed.

Section Lemmas.
Context {M : Malloc}.

Lemma malloc_length n : 0 ≤ n → zlen (malloc n) = n.
Proof. intros. unfold malloc. solve_length. Qed.

Lemma realloc_length m n : 0 ≤ n → zlen (realloc m n) = n.
Proof. intros. unfold realloc. solve_length. Qed.

Lemma take_realloc m n k :
  0 ≤ k ≤ zlen m → k ≤ n → ztake k (realloc m n) = ztake k m.
Proof.
  intros. unfold realloc. rewrite take_app_le by solve_length.
  rewrite take_take. f_equal. lia.
Qed.

Lemma allocate_spec n b :
  wf b → 0 ≤ n < max_size → _buf_pos b ≤ n →
  wf (allocate n b) ∧ _buf_pos (allocate n b) = _buf_pos b ∧
  n ≤ _buf_size (allocate n b) ∧ contents (allocate n b) = contents b.
Proof.
  intros (Hp & Hs & Hl) Hn Hpn. unfold allocate, wf, contents, block, allocated_size in *.
  destruct (_buffer b) as [m|] eqn:Hb; simpl in *.
  - destruct (_buf_size b <? n) eqn:E; simpl; rewrite ?Hb; simpl.
    + rewrite realloc_length, take_realloc; rewrite ?size_buf_small by done; lia || (split_and!; lia || done).
    + split_and!; lia || done.
  - rewrite malloc_length by (rewrite size_buf_small; lia).
    rewrite size_buf_small by done. replace (_buf_pos b) with 0 by lia.
    split_and!; lia || done.
Qed.

(** What the clients of [grow_by] rely on: the old contents are kept, the
    size grows by [n], and the region at the returned offset is in the block. *)
Lemma grow_by_spec n b b' off :
  wf b → 0 ≤ n → size b + n < max_size → grow_by n b = (b', off) →
  wf b' ∧ off = size b ∧ size b' = size b + n ∧
  ztake (size b) (contents b') = contents b ∧ off + n ≤ zlen (block b').
Proof.
  intros Hwf Hn Hmax [= <- <-]. pose proof Hwf as (Hp & Hs & Hl).
  unfold size in *.
  rewrite (u32_small (_buf_pos b + n)) by (unfold max_size in *; lia).
  destruct (allocate_spec (_buf_pos b + n) b) as (Hwf' & Hpos & Hsz & Hc);
    [done|lia|lia|].
  destruct Hwf' as (Hp' & Hs' & Hl').
  rewrite Hpos, u32_small in * by (unfold max_size in *; lia).
  unfold wf, contents, block in *; simpl in *. rewrite Hpos in Hc.
  split_and!; try lia.
  rewrite take_take, <- Hc. f_equal. lia.
Qed.

Lemma write_at_spec off data b :
  wf b → 0 ≤ off → off + zlen data ≤ zlen (block b) → _buffer b ≠ None →
  ∃ b', write_at off data b = Ok b' ∧ wf b' ∧ size b' = size b ∧
        allocated_size b' = allocated_size b ∧
        block b' = ztake off (block b) ++ data ++ zdrop (off + zlen data) (block b).
Proof.
  intros (Hp & Hs & Hl) Hoff Hlen Hb. unfold write_at.
  rewrite store_n_Ok by done. eexists; split; [done|].
  unfold wf, block, size, allocated_size in *; simpl.
  destruct (_buffer b) as [m|]; [|done]; simpl in *.
  split_and!; try lia; [|done].
  rewrite !length_app, length_take, length_drop. lia.
Qed.

(** [pop_by(n)] drops the first [n] bytes; [n] above the size violates its
    assertion. *)
Lemma pop_by_spec n b :
  wf b → 0 ≤ n →
  if bool_decide (n ≤ size b)
  then ∃ b', pop_by n b = Ok b' ∧ wf b' ∧ contents b' = zdrop n (contents b)
  else pop_by n b = Fail UB.
Proof.
  intros (Hp & Hs & Hl) Hn. unfold pop_by, size.
  case_bool_decide as Hle; [|rewrite (proj2 (Z.leb_gt _ _)) by lia; done].
  rewrite (assume_defined_true (n <=? _buf_pos b)) by lia. simpl.
  rewrite u32_small by (unfold max_size in *; lia).
  unfold wf, contents, block in *. destruct (_buffer b) as [m|]; simpl in *.
  - unfold memmove. rewrite load_n_Ok by lia. simpl.
    rewrite store_n_Ok by solve_length. simpl.
    eexists; split; [done|]. simpl. split_and!; try lia.
    + solve_length.
    + rewrite take_app_le by solve_length. rewrite take_take, skipn_firstn_comm.
      f_equal; lia.
  - rewrite assume_defined_true by lia. simpl. eexists; split; [done|]. simpl.
    split_and!; try lia. by rewrite !take_nil, drop_nil.
Qed.

Lemma free_spec b : wf b → wf (free b) ∧ contents (free b) = [].
Proof.
  intros Hwf. unfold free. destruct (_buffer b) as [m|] eqn:Hb.
  - split; [apply wf_ctor|done].
  - split; [done|]. unfold contents, block. rewrite Hb. apply take_nil.
Qed.

(** The copy constructor's result holds the same bytes in its own block. *)
Lemma copy_ctor_spec b :
  wf b → ∃ b', Buffer_copy_ctor b = Ok b' ∧ wf b' ∧ contents b' = contents b.
Proof.
  intros (Hp & Hs & Hl). unfold Buffer_copy_ctor, copy.
  destruct (allocate_spec (size b) Buffer_ctor) as ((Hp' & Hs' & Hl') & _ & Hsz & _);
    [apply wf_ctor|unfold size; lia|unfold size; simpl; lia|].
  unfold size in *. rewrite size_buf_small by lia.
  rewrite load_n_Ok by lia. simpl. rewrite drop_0.
  assert (Hlen : zlen (ztake (4 * _buf_pos b) (block b)) = 4 * _buf_pos b) by solve_length.
  rewrite store_n_Ok by lia. simpl.
  eexists; split; [done|]. unfold wf, contents, block in *; simpl in *.
  split_and!; try lia.
  - solve_length.
  - rewrite take_app_le by lia. rewrite take_take. f_equal. lia.
Qed.

(** ** The buffer as a list of bytes *)

(** A client's use of the buffer: [Append] is [grow_by] followed by a write
    of the whole region, as [process_lvl4_data] and [TargetAsyncFile] do. *)
Inductive op := Append (data : list Z) | Pop (n : nat) | Free | Copy | Move.

Definition run_op (o : op) (b : Buffer) : result Buffer :=
  match o with
  | Append data => let '(b, off) := grow_by (zlen data) b in write_at off data b
  | Pop n => pop_by (Z.of_nat n) b
  | Free => Ok (free b)
  | Copy => Buffer_copy_ctor b
  | Move => Ok (fst (Buffer_move_ctor b))
  end.

Fixpoint run_ops (os : list op) (b : Buffer) : result Buffer :=
  match os with [] => Ok b | o :: os => b ← run_op o b; run_ops os b end.

(** The specification: a list of bytes; [None] is a violated assertion. *)
Definition spec_op (o : op) (l : list Z) : option (list Z) :=
  match o with
  | Append data => Some (l ++ data)
  | Pop n => if bool_decide (n ≤ length l)%nat then Some (drop n l) else None
  | Free => Some []
  | Copy | Move => Some l
  end.

Fixpoint spec_ops (os : list op) (l : list Z) : option (list Z) :=
  match os with [] => Some l | o :: os => l ← spec_op o l; spec_ops os l end.

Fixpoint appended (os : list op) : Z :=
  match os with
  | [] => 0
  | Append data :: os => zlen data + appended os
  | _ :: os => appended os
  end.

Lemma appended_nonneg os : 0 ≤ appended os.
Proof. induction os as [|[] ?]; simpl; lia. Qed.

Lemma spec_op_length o l l' : spec_op o l = Some l' → zlen l' ≤ zlen l + appended [o].
Proof.
  destruct o; simpl; intros H; try case_bool_decide; simplify_eq; simpl; solve_length.
Qed.

Lemma append_spec data b :
  wf b → size b + zlen data < max_size →
  ∃ b', run_op (Append data) b = Ok b' ∧ wf b' ∧ contents b' = contents b ++ data.
Proof.
  intros Hwf Hmax. cbn [run_op]. destruct (grow_by (zlen data) b) as [b1 off] eqn:Hg.
  pose proof Hwf as (Hp & _ & _). unfold size in *.
  assert (Hb1 : _buffer b1 ≠ None).
  { injection Hg as <- _. simpl. unfold allocate.
    destruct (_buffer b) as [m|] eqn:E; [destruct (_ <? _); simpl; rewrite ?E; done|done]. }
  destruct (grow_by_spec (zlen data) b b1 off) as (Hwf1 & -> & Hsz & Hc & Hin);
    [done|lia|done|done|]. unfold size in *.
  destruct (write_at_spec (_buf_pos b) data b1) as (b2 & -> & Hwf2 & Hsz2 & _ & Hbl);
    [done|lia|done|done|].
  exists b2. split_and!; [done|done|]. unfold size in *. unfold contents at 1.
  rewrite Hbl, Hsz2, Hsz.
  rewrite app_assoc, take_app_le by solve_length.
  rewrite take_ge by solve_length. f_equal.
  rewrite <- Hc. unfold contents. rewrite take_take, Hsz. f_equal. lia.
Qed.

Lemma run_op_spec o b l :
  wf b → contents b = l → zlen l + appended [o] < max_size →
  match spec_op o l with
  | Some l' => ∃ b', run_op o b = Ok b' ∧ wf b' ∧ contents b' = l'
  | None => run_op o b = Fail UB
  end.
Proof.
  intros Hwf <- Hmax. pose proof (contents_length b Hwf) as Hlen.
  destruct o as [data|n| | |]; cbn [spec_op].
  - apply append_spec; [done|]. unfold size. simpl in Hmax. lia.
  - pose proof (pop_by_spec (Z.of_nat n) b Hwf ltac:(lia)) as H.
    unfold size in H. rewrite <- Hlen in H.
    case_bool_decide as Hn; case_bool_decide as Hn'; try lia; [|exact H].
    destruct H as (b' & ? & ? & Hc). exists b'. by rewrite Hc, Nat2Z.id.
  - destruct (free_spec b Hwf) as [? ?]. eauto.
  - by apply copy_ctor_spec.
  - eexists; split; [done|]. split; [exact Hwf|done].
Qed.

(** C16. Any run of buffer operations behaves like the same run on a plain
    list of bytes, as long as the bytes appended stay under 2^30: it is
    defined exactly when no [pop_by] asks for more than the size (its
    assertion), every block access lies inside its block, and the contents
    are those of the list. *)
Theorem buffer_refines_list os b :
  wf b → zlen (contents b) + appended os < max_size →
  match spec_ops os (contents b) with
  | Some l => ∃ b', run_ops os b = Ok b' ∧ wf b' ∧ contents b' = l
  | None => run_ops os b = Fail UB
  end.
Proof.
  revert b. induction os as [|o os IH]; intros b Hwf Hmax; simpl.
  { eauto. }
  pose proof (appended_nonneg os).
  assert (Happ : appended (o :: os) = appended [o] + appended os)
    by (destruct o; simpl; lia).
  pose proof (run_op_spec o b _ Hwf eq_refl ltac:(lia)) as Ho.
  destruct (spec_op o (contents b)) as [l|] eqn:Hs; simpl; [|by rewrite Ho].
  destruct Ho as (b' & -> & Hwf' & <-). simpl. apply IH; [done|].
  pose proof (spec_op_length _ _ _ Hs). lia.
Qed.

(** C40. At 2^30 bytes the 32-bit product of [size_buf] wraps to 0: a
    [grow_by] that reaches exactly this size records a capacity of 2^30 and a
    position of 2^30 over a block of no bytes, so that the region it hands
    out lies wholly outside the block. *)
Theorem grow_by_wraps b b' off n :
  wf b → _buffer b ≠ None → 0 < n → size b + n = max_size → grow_by n b = (b', off) →
  off = size b ∧ size b' = max_size ∧ allocated_size b' = max_size ∧ block b' = [].
Proof.
  intros (Hp & Hs & Hl) Hb Hn Hmax [= <- <-]. unfold size, allocated_size in *.
  rewrite Hmax. simpl. rewrite (u32_small max_size) by (unfold max_size; lia).
  unfold allocate, allocated_size, block.
  destruct (_buffer b) as [m|]; [|done]. rewrite (proj2 (Z.ltb_lt _ _)) by lia.
  simpl. rewrite Hmax, u32_small by (unfold max_size; lia).
  split_and!; done.
Qed.

End Lemmas.
End Buffer.

Abbreviation Lvl4Buffer := Buffer.Buffer.
