(* ===== verification/Leeloo.v ===== *)
(** * The interfaces of the code nodescan is built on

    libleeloo and the kernel are not part of the repository. This file states
    what the sources use of them: [Leeloo] (ports and lists of ports) with its
    laws, and [OS], the system calls on an environment [W], with the laws the
    invariants need. The results of the development hold for every instance; the
    instances [LeelooPair] and, in the other files, small simulated kernels
    show that the laws can hold and let the witnesses run. *)

From S2P Require Import Prelude.

(** [leeloo::port] and [leeloo::port_list_intervals]. *)
Class Leeloo := {
  port : Type;
  #[global] port_eq_dec :: EqDecision port;      (* operator== *)
  port_value : port → Z;                         (* value() *)
  port_protocol : port → Z;                      (* protocol() *)
  port_as_u32 : port → Z;                        (* as_u32() *)
  make_port : Z → Z → port;                      (* port(value, protocol) *)
  port_of_u32 : Z → port;                        (* port(uint32_t) *)
  UNSUPPORTED : Z;                               (* protocol_enum::UNSUPPORTED *)
  socket_type : port → Z;                        (* socket_type() *)
  socket_proto : port → Z;                       (* socket_proto() *)
  protocol_from_socket_type : Z → Z → Z;
  port_list : Type;                              (* port_list_intervals *)
  pl_empty : port_list;
  pl_add : port → port_list → port_list;
  pl_size : port_list → Z;                       (* size() *)
  pl_intervals : port_list → Z;                  (* intervals().size() *)
  pl_aggregate : port_list → port_list;
}.

Class LeelooLaws (L : Leeloo) := {
  port_value_range p : 0 ≤ port_value p < 2 ^ 16;
  port_as_u32_range p : 0 ≤ port_as_u32 p < 2 ^ 32;
  port_as_u32_inj p q : port_as_u32 p = port_as_u32 q → p = q;
  port_value_make v pr : 0 ≤ v < 2 ^ 16 → port_value (make_port v pr) = v;
  make_port_eta p : make_port (port_value p) (port_protocol p) = p;
  (** a socket opened for a port reports the port's protocol *)
  protocol_of_socket p :
    protocol_from_socket_type (socket_type p) (socket_proto p) = port_protocol p;
}.

(** A port as the pair of its 16-bit value and protocol, the protocol numbers
    being those of IP; a list of ports as the list of its elements. *)
Definition port_in_range (p : Z * Z) : bool :=
  (0 <=? p.1) && (p.1 <? 2 ^ 16) && (0 <=? p.2) && (p.2 <? 2 ^ 16).
Definition PairPort : Type := { p : Z * Z | Is_true (port_in_range p) }.

Lemma u16_in_range v p : Is_true (port_in_range (u16 v, u16 p)).
Proof.
  apply (proj2 (Is_true_true _)). unfold port_in_range. simpl.
  pose proof (Z.mod_pos_bound v (2 ^ 16)). pose proof (Z.mod_pos_bound p (2 ^ 16)).
  unfold u16. lia.
Qed.

Definition pair_port (v p : Z) : PairPort := (u16 v, u16 p) ↾ u16_in_range v p.

#[export] Instance LeelooPair : Leeloo := {|
  port := PairPort;
  port_eq_dec := _;
  port_value := λ p, (`p).1;
  port_protocol := λ p, (`p).2;
  port_as_u32 := λ p, (`p).2 * 2 ^ 16 + (`p).1;
  make_port := pair_port;
  port_of_u32 := λ z, pair_port z (z / 2 ^ 16);
  UNSUPPORTED := 0;
  socket_type := λ p, if (`p).2 =? 17 then 2 else 1;
  socket_proto := λ p, (`p).2;
  protocol_from_socket_type := λ _ pr, pr;
  port_list := list PairPort;
  pl_empty := [];
  pl_add := λ p l, p :: l;
  pl_size := λ l, zlen l;
  pl_intervals := λ l, zlen l;
  pl_aggregate := λ l, remove_dups l;
|}.

Lemma pair_port_range (p : PairPort) : 0 ≤ (`p).1 < 2 ^ 16 ∧ 0 ≤ (`p).2 < 2 ^ 16.
Proof. destruct p as [p Hp]. pose proof (proj1 (Is_true_true _) Hp) as Hr. unfold port_in_range in Hr. simpl. lia. Qed.

Lemma pair_port_eq (p q : PairPort) : `p = `q → p = q.
Proof. apply (sig_eq_pi _). Qed.

#[export] Instance LeelooPair_laws : LeelooLaws LeelooPair.
Proof.
  split; simpl.
  - intros p. apply pair_port_range.
  - intros p. pose proof (pair_port_range p). lia.
  - intros p q H. pose proof (pair_port_range p). pose proof (pair_port_range q).
    apply pair_port_eq. rewrite (surjective_pairing (`p)), (surjective_pairing (`q)).
    f_equal; lia.
  - intros v pr H. simpl. by apply u16_small.
  - intros p. apply pair_port_eq. simpl. destruct (pair_port_range p).
    rewrite !u16_small by done. by destruct (`p).
  - done.
Qed.

(** [struct sockaddr_in], its address and port in network order. *)
Record sockaddr_in := mkSockaddr {
  sin_family : Z;
  sin_port : Z;
  sin_addr : Z;
}.

Definition AF_INET : Z := 2.
Definition EPOLLIN : Z := 1.
Definition EPOLLOUT : Z := 4.
Definition EINPROGRESS : Z := 115.
Definition ECONNRESET : Z := 104.
Definition STDIN_FILENO : Z := 0.

(** The system calls, on the state [W] of everything outside the library's
    objects: the kernel, the network, the user's data. *)
Class OS (W : Type) := {
  sys_socket : Z → Z → W → Z * W;                 (* type, protocol *)
  sys_set_nonblock : Z → W → W;                   (* fcntl(F_SETFL) *)
  sys_connect : Z → sockaddr_in → W → Z * W;
  sys_close : Z → W → W;
  sys_epoll_create : Z → W → Z * W;
  sys_epoll_add : Z → Z → Z → W → W;              (* epfd, fd, events *)
  sys_epoll_del : Z → Z → W → W;
  sys_epoll_wait : Z → nat → W → option (list (Z * Z)) * W;
                                                  (* fd and events; None: -1 *)
  sys_so_error : Z → W → Z * W;
  sys_so_type : Z → W → Z;
  sys_so_protocol : Z → W → Z;
  sys_getpeername : Z → W → option sockaddr_in;   (* None: it failed *)
  stack_sockaddr : W → sockaddr_in;               (* an uninitialised one *)
  sys_fionread : Z → W → option Z;                (* None: ioctl is -1 *)
  stack_int : W → Z;                              (* an uninitialised int *)
  sys_select_read : Z → W → Z;                    (* select's return value *)
  sys_read : Z → Z → W → Z * list Z * W;
  sys_write : Z → list Z → W → Z * W;
  sys_time : W → Z * W;
  errno : W → Z;
}.

(** Descriptors: [socket] gives one that is not open, [close] frees one, and
    no other call touches them. *)
Class OSFdLaws (W : Type) (O : OS W) := {
  open_fds : W → gset Z;
  socket_fresh ty pr w s w' :
    sys_socket ty pr w = (s, w') →
    s = (-1) ∧ open_fds w' = open_fds w ∨
    0 ≤ s ∧ s ∉ open_fds w ∧ open_fds w' = {[s]} ∪ open_fds w;
  open_fds_nonneg s w : s ∈ open_fds w → 0 ≤ s;
  (** [fcntl] on -1 fails with [EBADF] *)
  socket_errno ty pr w w' :
    sys_socket ty pr w = (-1, w') →
    errno (sys_set_nonblock (-1) w') ≠ 0 ∧ errno (sys_set_nonblock (-1) w') ≠ EINPROGRESS;
  close_fds s w : open_fds (sys_close s w) = open_fds w ∖ {[s]};
  set_nonblock_fds s w : open_fds (sys_set_nonblock s w) = open_fds w;
  connect_fds s a w r w' : sys_connect s a w = (r, w') → open_fds w' = open_fds w;
  epoll_create_fds n w ep w' : sys_epoll_create n w = (ep, w') → open_fds w ⊆ open_fds w';
  epoll_add_fds e s ev w : open_fds (sys_epoll_add e s ev w) = open_fds w;
  epoll_del_fds e s w : open_fds (sys_epoll_del e s w) = open_fds w;
  epoll_wait_fds e n w l w' :
    sys_epoll_wait e n w = (l, w') → open_fds w' = open_fds w;
  so_error_fds s w r w' : sys_so_error s w = (r, w') → open_fds w' = open_fds w;
  read_fds s n w r d w' : sys_read s n w = (r, d, w') → open_fds w' = open_fds w;
  write_fds s d w r w' : sys_write s d w = (r, w') → open_fds w' = open_fds w;
  time_fds w t w' : sys_time w = (t, w') → open_fds w' = open_fds w;
}.
