(* ===== verification/Target.v ===== *)
(** * Targets: src/src/include/ns/target.h, src/src/target.cpp,
      src/src/ipstr.cpp, src/src/connected_target.cpp and the hash of the
      Python binding

    A target is an IPv4 address and a port. The order used as the key order
    of [std::map] and [std::set] is a strict total order compatible with
    [operator==]; the socket address round-trips through network order; the
    binding's hash and the dotted notation are injective. *)

From S2P Require Import Prelude Leeloo.

Section Target.
Context {L : Leeloo}.

Record Target := mkTarget { _ipv4 : Z; _port : port }.

#[export] Instance Target_eq_dec : EqDecision Target.
Proof. solve_decision. Defined.

Definition ipv4 (t : Target) : Z := _ipv4 t.
Definition t_port_value (t : Target) : Z := port_value (_port t).
Definition t_port_protocol (t : Target) : Z := port_protocol (_port t).

Definition is_end (t : Target) : bool :=
  (_ipv4 t =? 0xFFFFFFFF) && (t_port_value t =? 0xFFFF).

Definition Target_end : Target := mkTarget 0xFFFFFFFF (make_port 0xFFFF UNSUPPORTED).

(** [operator<] *)
Definition target_ltb (t o : Target) : bool :=
  if ipv4 t =? ipv4 o then port_as_u32 (_port t) <? port_as_u32 (_port o)
  else ipv4 t <? ipv4 o.

(** [operator==] and [operator!=] *)
Definition target_eqb (t o : Target) : bool :=
  (ipv4 t =? ipv4 o) && bool_decide (_port t = _port o).
Definition target_neqb (t o : Target) : bool :=
  negb (ipv4 t =? ipv4 o) || negb (bool_decide (_port t = _port o)).

Definition to_sockaddr_in (t : Target) : sockaddr_in :=
  mkSockaddr AF_INET (htons (t_port_value t)) (htonl (ipv4 t)).

(** [Target::from_socket]: when [getpeername] fails, [sa] keeps what the stack
    held. *)
Definition from_socket {W} {OSW : OS W} (s : Z) (w : W) : Target :=
  let sa := default (stack_sockaddr w) (sys_getpeername s w) in
  mkTarget (ntohl (sin_addr sa))
    (make_port (ntohs (sin_port sa))
       (protocol_from_socket_type (sys_so_type s w) (sys_so_protocol s w))).

(** [target_hash] of the Python binding. *)
Definition target_hash (t : Target) : Z :=
  Z.lor (u64 (ipv4 t)) (u64 (Z.shiftl (port_as_u32 (_port t)) 32)).

(** [ConnectedTarget]: a target and its socket. *)
Record ConnectedTarget := mkConnected { ct_t : Target; ct_s : Z }.

Definition send {W} {OSW : OS W} (ct : ConnectedTarget) (buf : list Z) (w : W) : Z * W :=
  sys_write (ct_s ct) buf w.

End Target.

(** ** The dotted notation of an address *)

(** [%d] of a non-negative [int]: at most ten digits. *)
Fixpoint print_digits (fuel : nat) (n : Z) : list Z :=
  match fuel with
  | O => []
  | S fuel => (if n <? 10 then [] else print_digits fuel (n / 10)) ++ [48 + n mod 10]
  end.
Definition print_d (n : Z) : list Z := print_digits 10 n.

(** [snprintf(ipstr, 18, "%d.%d.%d.%d", ...)] keeps 17 characters. *)
Definition ipstr_full (ip : Z) : list Z :=
  print_d (Z.shiftr ip 24) ++ 46 :: print_d (Z.land (Z.shiftr ip 16) 0xFF) ++
  46 :: print_d (Z.land (Z.shiftr ip 8) 0xFF) ++ 46 :: print_d (Z.land ip 0xFF).
Definition ipstr (ip : Z) : list Z := take 17 (ipstr_full ip).

(** ** The order *)

Section TargetOrder.
Context {L : Leeloo} {LL : LeelooLaws L}.

Lemma is_end_Target_end : is_end Target_end = true.
Proof. unfold is_end, t_port_value. simpl. by rewrite port_value_make. Qed.

Lemma target_ltb_irrefl t : target_ltb t t = false.
Proof. unfold target_ltb. rewrite Z.eqb_refl. lia. Qed.

Lemma target_ltb_trans t u v :
  target_ltb t u = true → target_ltb u v = true → target_ltb t v = true.
Proof.
  unfold target_ltb. intros Htu Huv.
  destruct (Z.eqb_spec (ipv4 t) (ipv4 u)), (Z.eqb_spec (ipv4 u) (ipv4 v)),
    (Z.eqb_spec (ipv4 t) (ipv4 v)); lia.
Qed.

Lemma target_ltb_total t u : target_ltb t u = false → target_ltb u t = false → t = u.
Proof.
  unfold target_ltb, ipv4. destruct t as [a p], u as [b q]; simpl. intros.
  destruct (a =? b) eqn:E, (b =? a) eqn:E'; try lia.
  f_equal; [lia|]. apply port_as_u32_inj. lia.
Qed.

Lemma target_eqb_eq t u : target_eqb t u = true ↔ t = u.
Proof.
  unfold target_eqb, ipv4. destruct t as [a p], u as [b q]; simpl.
  rewrite andb_true_iff, bool_decide_eq_true, Z.eqb_eq. naive_solver.
Qed.

(** [operator<] is a strict total order whose equivalence is
    [operator==], and [operator!=] is the negation of [operator==]: the keys of
    the maps and sets of targets are told apart exactly as [==] does. *)
Theorem target_order :
  (∀ t, target_ltb t t = false) ∧
  (∀ t u v, target_ltb t u = true → target_ltb u v = true → target_ltb t v = true) ∧
  (∀ t u, target_eqb t u = negb (target_ltb t u) && negb (target_ltb u t)) ∧
  (∀ t u, target_neqb t u = negb (target_eqb t u)).
Proof.
  split_and!; [apply target_ltb_irrefl|apply target_ltb_trans| |].
  - intros t u. apply eq_bool_prop_intro. rewrite !Is_true_true, andb_true_iff, !negb_true_iff.
    rewrite target_eqb_eq. split; [intros ->; split; apply target_ltb_irrefl|].
    intros []. by apply target_ltb_total.
  - intros t u. unfold target_neqb, target_eqb. by rewrite negb_andb.
Qed.

(** ** Socket addresses *)

(** C30. Reading back the peer of a connected socket gives the target it was
    connected to: the address and the port survive the two conversions to
    network order and back. *)
Theorem from_socket_to_sockaddr {W} {OSW : OS W} (s : Z) (w : W) t :
  0 ≤ ipv4 t < 2 ^ 32 →
  sys_getpeername s w = Some (to_sockaddr_in t) →
  sys_so_type s w = socket_type (_port t) →
  sys_so_protocol s w = socket_proto (_port t) →
  from_socket s w = t.
Proof.
  intros Hip Hpeer Hty Hpr. unfold from_socket.
  rewrite Hpeer, Hty, Hpr, protocol_of_socket. simpl.
  rewrite htonl_involutive, htons_involutive by (try done; apply port_value_range).
  unfold t_port_value. rewrite make_port_eta. by destruct t.
Qed.

(** The hash packs the address and the port in 64 bits. *)
Lemma target_hash_eq t u :
  0 ≤ ipv4 t < 2 ^ 32 → 0 ≤ ipv4 u < 2 ^ 32 →
  target_hash t = target_hash u → t = u.
Proof.
  intros Ht Hu. unfold target_hash.
  pose proof (port_as_u32_range (_port t)). pose proof (port_as_u32_range (_port u)).
  rewrite !Z.shiftl_mul_pow2, !u64_small by lia.
  rewrite !lor_disjoint by lia. intros Heq.
  destruct t as [a p], u as [b q]; unfold ipv4 in *; simpl in *.
  f_equal; [|apply port_as_u32_inj]; lia.
Qed.

End TargetOrder.

(** ** The dotted notation *)

(** A reader of the dotted notation. *)
Fixpoint split_on (c : Z) (acc l : list Z) : list (list Z) :=
  match l with
  | [] => [acc]
  | b :: l => if b =? c then acc :: split_on c [] l else split_on c (acc ++ [b]) l
  end.

Fixpoint parse_dec (acc : Z) (l : list Z) : option Z :=
  match l with
  | [] => Some acc
  | d :: l => if (48 <=? d) && (d <=? 57) then parse_dec (10 * acc + (d - 48)) l else None
  end.

Definition parse_dotted (l : list Z) : option Z :=
  match split_on 46 [] l with
  | [a; b; c; d] =>
      a ← parse_dec 0 a; b ← parse_dec 0 b; c ← parse_dec 0 c; d ← parse_dec 0 d;
      Some (a * 2 ^ 24 + b * 2 ^ 16 + c * 2 ^ 8 + d)
  | _ => None
  end.

Lemma split_on_app c acc l l' :
  c ∉ l → split_on c acc (l ++ c :: l') = (acc ++ l) :: split_on c [] l'.
Proof.
  revert acc; induction l as [|b l IH]; intros acc Hc; simpl.
  - by rewrite Z.eqb_refl, app_nil_r.
  - rewrite (proj2 (Z.eqb_neq b c)), IH, <- app_assoc by set_solver. done.
Qed.

Lemma split_on_last c acc l : c ∉ l → split_on c acc l = [acc ++ l].
Proof.
  revert acc; induction l as [|b l IH]; intros acc Hc; simpl.
  - by rewrite app_nil_r.
  - rewrite (proj2 (Z.eqb_neq b c)), IH, <- app_assoc by set_solver. done.
Qed.

Definition octet_ok (n : Z) : bool :=
  bool_decide (parse_dec 0 (print_d n) = Some n) &&
  bool_decide (46 ∉ print_d n) && bool_decide (length (print_d n) ≤ 3)%nat.

Lemma octets_ok : forallb (λ n, octet_ok (Z.of_nat n)) (seq 0 256) = true.
Proof. vm_compute. reflexivity. Qed.

Lemma print_octet n :
  0 ≤ n < 256 →
  parse_dec 0 (print_d n) = Some n ∧ 46 ∉ print_d n ∧ (length (print_d n) ≤ 3)%nat.
Proof.
  intros Hn. pose proof octets_ok as H. rewrite forallb_forall in H.
  specialize (H (Z.to_nat n)). rewrite Z2Nat.id in H by lia.
  unfold octet_ok in H. rewrite !andb_true_iff, !bool_decide_eq_true in H.
  destruct H as [[? ?] ?]; [|done]. apply in_seq. lia.
Qed.

Lemma land_octet x : Z.land x 0xFF = x mod 256.
Proof. change 0xFF with (Z.ones 8). rewrite Z.land_ones by lia. done. Qed.

(** C29. Every address prints in at most 15 characters, so the 18-byte buffer
    never truncates it, and the printed string reads back as the address. *)
Theorem ipstr_reads_back ip :
  0 ≤ ip < 2 ^ 32 →
  ipstr ip = ipstr_full ip ∧ (length (ipstr ip) ≤ 15)%nat ∧ parse_dotted (ipstr ip) = Some ip.
Proof.
  intros Hip.
  assert (Hfull : (length (ipstr_full ip) ≤ 15)%nat ∧ parse_dotted (ipstr_full ip) = Some ip).
  { unfold ipstr_full. rewrite !land_octet, !Z.shiftr_div_pow2 by lia.
    destruct (print_octet (ip / 2 ^ 24)) as (Ha & Hda & Hla); [zlia|].
    destruct (print_octet (ip / 2 ^ 16 mod 256)) as (Hb & Hdb & Hlb); [zlia|].
    destruct (print_octet (ip / 2 ^ 8 mod 256)) as (Hc & Hdc & Hlc); [zlia|].
    destruct (print_octet (ip mod 256)) as (Hd & Hdd & Hld); [zlia|].
    split; [rewrite !length_app; simpl; rewrite !length_app; simpl; rewrite length_app; simpl; lia|].
    unfold parse_dotted.
    rewrite !split_on_app, split_on_last by done. rewrite !app_nil_l, Ha, Hb, Hc, Hd.
    simpl. f_equal. zlia. }
  destruct Hfull as [Hlen Hparse]. unfold ipstr. rewrite take_ge by lia. done.
Qed.
