(* ===== verification/HostSM.v ===== *)
(** * State machines and hosts: src/src/state_machine.cpp,
      src/src/host_state_machine.cpp and their headers

    [StateMachine] carries the timestamps that the engine compares with its
    timeouts; [HostSM] counts the ports of a host that are done. The
    constructor of [HostSM] does not set [_rand_idx_ip]: its value is
    indeterminate ([None]) until [set_rand_idx_ip]. *)

From S2P Require Import Prelude Leeloo Target.

(** The code the user hands to the library as [std::function]s and Python
    objects, known by name; what the names do is given by [Calls]
    (Lvl4SM.v). *)
Class Closures := {
  data_closure : Type;      (* Lvl4DataAction *)
  connect_closure : Type;   (* Lvl4Action *)
  host_closure : Type;      (* HostAction *)
  python_object : Type;
}.

Definition timestamp {W} {OSW : OS W} (w : W) : Z * W := sys_time w.

Module StateMachine.

Record StateMachine := mkSM { _valid : bool; _ts : Z; _watch_ts : Z }.

Definition StateMachine_ctor {W} {OSW : OS W} (w : W) : StateMachine * W :=
  let '(now, w) := timestamp w in (mkSM false 0 now, w).

Definition update_ts {W} {OSW : OS W} (m : StateMachine) (w : W) : StateMachine * W :=
  let '(now, w) := timestamp w in (mkSM (_valid m) now (_watch_ts m), w).

Definition update_watch_ts (ts : Z) (m : StateMachine) : StateMachine :=
  mkSM (_valid m) (_ts m) ts.

Definition set_valid (v : bool) (m : StateMachine) : StateMachine :=
  mkSM v (_ts m) (_watch_ts m).

End StateMachine.
Abbreviation StateMachine := StateMachine.StateMachine.

Section HostSM.
Context {L : Leeloo} {C : Closures}.

Record HostSM := mkHostSM {
  h_sm : StateMachine;
  _on_alive : option host_closure;
  _ports_done : port_list;
  _rand_idx_ip : option Z;
}.

Definition HostSM_ctor {W} {OSW : OS W} (w : W) : HostSM * W :=
  let '(m, w) := StateMachine.StateMachine_ctor w in
  (mkHostSM m None pl_empty None, w).

Definition set_on_alive (ha : option host_closure) (h : HostSM) : HostSM :=
  mkHostSM (h_sm h) ha (_ports_done h) (_rand_idx_ip h).

(** [_on_alive( *this)], [call] being what the function does. *)
Definition on_alive {W} (call : host_closure → HostSM → W → result (HostSM * W))
    (h : HostSM) (w : W) : result (HostSM * W) :=
  f ← of_option BadFunctionCall (_on_alive h); call f h w.

Definition port_done (p : port) (h : HostSM) : HostSM :=
  let done := pl_add p (_ports_done h) in
  let done := if 100 <? pl_intervals done then pl_aggregate done else done in
  mkHostSM (h_sm h) (_on_alive h) done (_rand_idx_ip h).

Definition ports_done_count (h : HostSM) : Z := u32 (pl_size (_ports_done h)).

Definition set_rand_idx_ip (idx : Z) (h : HostSM) : HostSM :=
  mkHostSM (h_sm h) (_on_alive h) (_ports_done h) (Some idx).

(** Reading an index that was never set is undefined behaviour. *)
Definition rand_idx_ip (h : HostSM) : result Z := of_option UB (_rand_idx_ip h).

End HostSM.
