(* ===== verification/Lvl4SM.v ===== *)
(** * Connections and their triggers: src/src/lvl4_state_machine.cpp,
      src/src/data_triggers.cpp, the trigger headers and static_max_size.h

    A connection ([Lvl4SM]) accumulates what it reads in a buffer and hands
    it to its data trigger. A callback receives the connection itself by
    reference and a pointer into the connection's own buffer: here it runs on
    a [ctx] (the connection, its host and the outside world) and is given an
    offset into the buffer's block, so that what it writes through the pointer
    is seen by the connection.

    The theorems about the processing loop (the framing of lines, termination,
    divergence, short reads) are in Framing.v. *)

From S2P Require Import Prelude Lvl4Buffer Leeloo Target HostSM.

(** [static_max_size<Types...>], on the sizes of the types. *)
Fixpoint static_max_size (l : list Z) : Z :=
  match l with
  | [] => 0
  | [s] => s
  | [s; s'] => Z.max s s'
  | s :: l => Z.max s (static_max_size l)
  end.

(** [DataTrigger::ProcessReturnCode] *)
Inductive ProcessReturnCode := NoMoreToProcess | CanProcessAgain | ConnectionEnd.

#[export] Instance ProcessReturnCode_eq_dec : EqDecision ProcessReturnCode.
Proof. solve_decision. Defined.

Section Lvl4SM.
Context {L : Leeloo} {C : Closures} {M : Malloc}.

(** What a [DataTriggersVariant] holds. *)
Inductive trigger :=
| DataTrigger
| SizeDataTrigger (_size : Z) (_f : option data_closure)
| CharDataTrigger (_c : Z) (_f : option data_closure)
| PythonDataTrigger (_trigger : python_object).

Record Lvl4SM := mkLvl4SM {
  l_sm : StateMachine;
  _reconnect : bool;
  _reprocess : bool;
  _func_connect : option connect_closure;
  _trigger : trigger;
  _buf : Lvl4Buffer;
}.

Definition Lvl4SM_ctor {W} {OSW : OS W} (w : W) : Lvl4SM * W :=
  let '(m, w) := StateMachine.StateMachine_ctor w in
  (mkLvl4SM m false false None DataTrigger Buffer.Buffer_ctor, w).

Definition set_sm (m : StateMachine) (l : Lvl4SM) : Lvl4SM :=
  mkLvl4SM m (_reconnect l) (_reprocess l) (_func_connect l) (_trigger l) (_buf l).

Definition set_buf (b : Lvl4Buffer) (l : Lvl4SM) : Lvl4SM :=
  mkLvl4SM (l_sm l) (_reconnect l) (_reprocess l) (_func_connect l) (_trigger l) b.

Definition set_reconnect (v : bool) (l : Lvl4SM) : Lvl4SM :=
  mkLvl4SM (l_sm l) v (_reprocess l) (_func_connect l) (_trigger l) (_buf l).

Definition set_on_connect (f : option connect_closure) (l : Lvl4SM) : Lvl4SM :=
  mkLvl4SM (l_sm l) (_reconnect l) (_reprocess l) f (_trigger l) (_buf l).

Definition set_trigger (t : trigger) (l : Lvl4SM) : Lvl4SM :=
  mkLvl4SM (l_sm l) (_reconnect l) true (_func_connect l) t (_buf l).

Definition should_process_buffer (l : Lvl4SM) : bool * Lvl4SM :=
  if _reprocess l
  then (true, mkLvl4SM (l_sm l) (_reconnect l) false (_func_connect l) (_trigger l) (_buf l))
  else (false, l).

Definition remove_data_trigger (l : Lvl4SM) : Lvl4SM :=
  let l := set_trigger DataTrigger l in
  mkLvl4SM (l_sm l) (_reconnect l) false (_func_connect l) (_trigger l) (_buf l).

Definition free_buffer (l : Lvl4SM) : Lvl4SM := set_buf (Buffer.free (_buf l)) l.

Definition update_ts {W} {OSW : OS W} (l : Lvl4SM) (w : W) : Lvl4SM * W :=
  let '(m, w) := StateMachine.update_ts (l_sm l) w in (set_sm m l, w).

(** ** Callbacks *)

(** What a callback can reach through its references. *)
Record ctx (W : Type) := mkCtx { c_sm : Lvl4SM; c_hsm : HostSM; c_world : W }.
Arguments mkCtx {W} _ _ _.
Arguments c_sm {W} _.
Arguments c_hsm {W} _.
Arguments c_world {W} _.

Definition with_sm {W} (f : Lvl4SM → Lvl4SM) (c : ctx W) : ctx W :=
  mkCtx (f (c_sm c)) (c_hsm c) (c_world c).
Definition with_world {W} (w : W) (c : ctx W) : ctx W := mkCtx (c_sm c) (c_hsm c) w.
Definition c_buf {W} (c : ctx W) : Lvl4Buffer := _buf (c_sm c).

(** What the functions behind the names do. A data callback is given the
    offset of its [unsigned char*] in the block of the connection's buffer,
    and a size. *)
Class Calls (W : Type) := {
  call_data : data_closure → ConnectedTarget → Z → Z → ctx W → result (bool * ctx W);
  call_connect : connect_closure → ConnectedTarget → ctx W → result (bool * ctx W);
  call_python : python_object → ConnectedTarget → Z → ctx W →
                result (ProcessReturnCode * ctx W);
}.

(** A call of a [std::function], empty ones included. *)
Definition call_function {W} {K : Calls W} (f : option data_closure)
    (t : ConnectedTarget) (off size : Z) (c : ctx W) : result (bool * ctx W) :=
  f ← of_option BadFunctionCall f; call_data f t off size c.

(** [call_cb<def>]: the default value when the function is empty. *)
Definition call_cb {W A} (def : bool) (f : option (A → ctx W → result (bool * ctx W)))
    (a : A) (c : ctx W) : result (bool * ctx W) :=
  match f with Some f => f a c | None => Ok (def, c) end.

(** ** Processing the buffer *)

Section Process.
Context {W : Type} {OSW : OS W} {K : Calls W}.

Definition SizeDataTrigger_process_buffer (_size : Z) (_f : option data_closure)
    (target : ConnectedTarget) (c : ctx W) : result (ProcessReturnCode * ctx W) :=
  if Buffer.size (c_buf c) <? _size then Ok (NoMoreToProcess, c) else
  _ ← assume_defined (bool_decide (is_Some _f));
  let size := _size in
  '(ret, c) ← call_function _f target 0 size c;
  if negb ret then Ok (ConnectionEnd, c) else
  b ← Buffer.pop_by size (c_buf c);
  Ok (CanProcessAgain, with_sm (set_buf b) c).

Definition CharDataTrigger_process_buffer (_c : Z) (_f : option data_closure)
    (target : ConnectedTarget) (prev_pos : Z) (c : ctx W) :
    result (ProcessReturnCode * ctx W) :=
  range ← load_n (Buffer.block (c_buf c)) prev_pos (Buffer.size (c_buf c) - prev_pos);
  match find_byte _c range with
  | None => Ok (NoMoreToProcess, c)
  | Some i =>
      let pos := prev_pos + Z.of_nat i in
      '(ret, c) ← call_function _f target 0 pos c;
      if negb ret then Ok (ConnectionEnd, c) else
      b ← Buffer.pop_by (pos + 1) (c_buf c);
      Ok (CanProcessAgain, with_sm (set_buf b) c)
  end.

(** The dispatch of [DataTriggerVariant::process_buffer]. *)
Definition trigger_process_buffer (target : ConnectedTarget) (prev_pos : Z)
    (c : ctx W) : result (ProcessReturnCode * ctx W) :=
  match _trigger (c_sm c) with
  | DataTrigger => Ok (NoMoreToProcess, c)
  | SizeDataTrigger n f => SizeDataTrigger_process_buffer n f target c
  | CharDataTrigger ch f => CharDataTrigger_process_buffer ch f target prev_pos c
  | PythonDataTrigger o => call_python o target prev_pos c
  end.

(** The [do ... while (ret == CanProcessAgain)] of both entry points. *)
Fixpoint process_loop (fuel : nat) (target : ConnectedTarget) (prev_pos : Z)
    (c : ctx W) : result (ProcessReturnCode * ctx W) :=
  match fuel with
  | O => Fail OutOfFuel
  | S fuel =>
      '(ret, c) ← trigger_process_buffer target prev_pos c;
      match ret with
      | CanProcessAgain => process_loop fuel target 0 c
      | _ => Ok (ret, c)
      end
  end.

Definition process_buffer (fuel : nat) (s : Z) (target : Target) (c : ctx W) :
    result (bool * ctx W) :=
  '(ret, c) ← process_loop fuel (mkConnected target s) 0 c;
  Ok (bool_decide (ret = NoMoreToProcess), c).

Definition process_lvl4_data (fuel : nat) (s navail : Z) (target : Target) (c : ctx W) :
    result (bool * ctx W) :=
  let prev_pos := Buffer.size (c_buf c) in
  let '(b, buf_read) := Buffer.grow_by navail (c_buf c) in
  let '(nread, data, w) := sys_read s navail (c_world c) in
  b ← Buffer.write_at buf_read data b;
  let c := with_world w (with_sm (set_buf b) c) in
  if nread <=? 0 then Ok (false, c) else
  '(ret, c) ← process_loop fuel (mkConnected target s) prev_pos c;
  Ok (bool_decide (ret = NoMoreToProcess), c).

Definition on_connect (s : Z) (target : Target) (c : ctx W) : result (bool * ctx W) :=
  match _func_connect (c_sm c) with
  | None => Ok (false, c)
  | Some f => call_connect f (mkConnected target s) c
  end.

End Process.
End Lvl4SM.

Arguments mkCtx {L C W} _ _ _.
Arguments c_sm {L C W} _.
Arguments c_hsm {L C W} _.
Arguments c_world {L C W} _.
