(* ===== verification/Framing.v ===== *)
(** * What the processing loop of a connection does

    The theorems about [process_loop] and its two entry points (Lvl4SM.v):
    the line framing of [CharDataTrigger], the termination of the loop, its
    divergence on a trigger of size 0, and what a short read leaves in the
    buffer. *)

From S2P Require Import Prelude Lvl4Buffer Leeloo Target HostSM Lvl4SM.

Section Framing.
Context {L : Leeloo} {C : Closures} {M : Malloc}.
Context {W : Type} {OSW : OS W} {K : Calls W}.

(** ** Lines, one byte at a time *)

(** The specification of a [CharDataTrigger]: read a byte at a time,
    keeping the current line; at the separator, hand the line to [h]; stop at
    the first line it refuses, which stays unread. *)
Fixpoint consume {U} (ch : Z) (h : list Z → U → bool * U) (line l : list Z) (u : U) :
    bool * list Z * U :=
  match l with
  | [] => (true, line, u)
  | b :: l =>
      if b =? ch then
        let '(go, u) := h line u in
        if go then consume ch h [] l u else (false, line ++ b :: l, u)
      else consume ch h (line ++ [b]) l u
  end.

Section Consume.
Context {U : Type} (ch : Z) (h : list Z → U → bool * U).

Lemma consume_none line l u :
  ch ∉ l → consume ch h line l u = (true, line ++ l, u).
Proof.
  revert line; induction l as [|b l IH]; intros line Hl; simpl.
  - by rewrite app_nil_r.
  - rewrite (proj2 (Z.eqb_neq b ch)), IH, <- app_assoc by set_solver. done.
Qed.

Lemma consume_line line l1 l2 u :
  ch ∉ l1 →
  consume ch h line (l1 ++ ch :: l2) u =
    let '(go, u) := h (line ++ l1) u in
    if go then consume ch h [] l2 u else (false, line ++ l1 ++ ch :: l2, u).
Proof.
  revert line; induction l1 as [|b l1 IH]; intros line Hl; simpl.
  - rewrite Z.eqb_refl, app_nil_r. done.
  - rewrite (proj2 (Z.eqb_neq b ch)), IH, <- !app_assoc by set_solver. done.
Qed.

(** Reading on after a prefix that was accepted. *)
Lemma consume_app line l1 l2 u :
  consume ch h line (l1 ++ l2) u =
    let '(go, rest, u) := consume ch h line l1 u in
    if go then consume ch h rest l2 u else (false, rest ++ l2, u).
Proof.
  revert line u; induction l1 as [|b l1 IH]; intros line u; simpl; [done|].
  destruct (b =? ch); [|apply IH].
  destruct (h line u) as [[] u']; [apply IH|].
  by rewrite <- app_assoc.
Qed.

Lemma consume_rest line l u rest u' :
  ch ∉ line → consume ch h line l u = (true, rest, u') → ch ∉ rest.
Proof.
  revert line u; induction l as [|b l IH]; intros line u Hl; simpl.
  { by intros [= <- _]. }
  destruct (b =? ch) eqn:Hb; [|apply IH; apply Z.eqb_neq in Hb; set_solver].
  destruct (h line u) as [[] u'']; [apply IH; set_solver|done].
Qed.

Lemma consume_length line l u go rest u' :
  consume ch h line l u = (go, rest, u') → (length rest ≤ length line + length l)%nat.
Proof.
  revert line u; induction l as [|b l IH]; intros line u; simpl.
  { intros [= _ <- _]. lia. }
  destruct (b =? ch).
  - destruct (h line u) as [[] u'']; [intros H%IH; simpl in H; lia|].
    intros [= _ <- _]. solve_length.
  - intros H%IH. rewrite length_app in H. simpl in H. lia.
Qed.
End Consume.

(** ** One call of the loop *)

(** Changes of the fields a data callback may leave alone. *)
Record same_but_data (c c' : ctx W) : Prop := {
  same_hsm : c_hsm c' = c_hsm c;
  same_sm : c_sm c' = set_buf (c_buf c') (c_sm c);
}.

Lemma same_but_data_refl c : same_but_data c c.
Proof. split; [done|]. by destruct c as [[]]. Qed.

Lemma same_but_data_world w c : same_but_data c (with_world w c).
Proof. split; [done|]. by destruct c as [[]]. Qed.

Lemma same_but_data_trans c1 c2 c3 :
  same_but_data c1 c2 → same_but_data c2 c3 → same_but_data c1 c3.
Proof. intros [Hh1 Hs1] [Hh2 Hs2]. split; [congruence|]. by rewrite Hs2, Hs1. Qed.

Lemma same_but_data_trigger c c' : same_but_data c c' → _trigger (c_sm c') = _trigger (c_sm c).
Proof. by intros [_ ->]. Qed.

Lemma contents_load b pos :
  Buffer.wf b → 0 ≤ pos ≤ Buffer.size b →
  load_n (Buffer.block b) pos (Buffer.size b - pos) = Ok (zdrop pos (Buffer.contents b)).
Proof.
  intros (Hp & Hs & Hl) Hpos. unfold Buffer.size in *.
  rewrite load_n_Ok by lia. unfold Buffer.contents. rewrite skipn_firstn_comm.
  do 2 f_equal. lia.
Qed.

Lemma block_prefix b n :
  0 ≤ n ≤ Buffer.size b → ztake n (Buffer.block b) = ztake n (Buffer.contents b).
Proof.
  intros Hn. unfold Buffer.contents, Buffer.size in *. rewrite take_take. f_equal. lia.
Qed.

Lemma pop_by_contents b n :
  Buffer.wf b → 0 ≤ n ≤ Buffer.size b →
  ∃ b', Buffer.pop_by n b = Ok b' ∧ Buffer.wf b' ∧
        Buffer.contents b' = zdrop n (Buffer.contents b).
Proof.
  intros Hwf Hn. pose proof (Buffer.pop_by_spec n b Hwf ltac:(lia)) as H.
  rewrite bool_decide_true in H by lia. exact H.
Qed.

Section Lines.
Context {U : Type} (ch : Z) (h : list Z → U → bool * U).
Context (usr : W → U) (avail : W → list Z).
Context (s : Z) (target : Target) (f : data_closure).

(** The callback [f] is the handler [h] run on the user's part [usr] of the
    world: it leaves the connection and what the kernel still holds alone. *)
Definition runs_handler : Prop := ∀ n c,
  ∃ w', call_data f (mkConnected target s) 0 n c =
          Ok ((h (ztake n (Buffer.block (c_buf c))) (usr (c_world c))).1, with_world w' c) ∧
        usr w' = (h (ztake n (Buffer.block (c_buf c))) (usr (c_world c))).2 ∧
        avail w' = avail (c_world c).

(** Reading from [s] takes the bytes the kernel holds for it, in order. *)
Definition reads_stream : Prop := ∀ n w, 0 ≤ n →
  ∃ w', sys_read s n w = (zlen (ztake n (avail w)), ztake n (avail w), w') ∧
        usr w' = usr w ∧ avail w' = zdrop n (avail w).

Context (f_runs : runs_handler).

Lemma process_loop_lines fuel c line l go rest u :
  _trigger (c_sm c) = CharDataTrigger ch (Some f) →
  Buffer.wf (c_buf c) → Buffer.contents (c_buf c) = line ++ l → ch ∉ line →
  (length l < fuel)%nat →
  consume ch h line l (usr (c_world c)) = (go, rest, u) →
  ∃ c', process_loop fuel (mkConnected target s) (zlen line) c =
          Ok (if go then NoMoreToProcess else ConnectionEnd, c') ∧
        same_but_data c c' ∧ Buffer.wf (c_buf c') ∧ Buffer.contents (c_buf c') = rest ∧
        usr (c_world c') = u ∧ avail (c_world c') = avail (c_world c).
Proof.
  revert c line l. induction fuel as [|fuel IH]; intros c line l Htr Hwf Hc Hch Hfuel Hcons; [lia|].
  pose proof (Buffer.contents_size _ Hwf) as Hsz.
  cbn [process_loop]. unfold trigger_process_buffer. rewrite Htr.
  unfold CharDataTrigger_process_buffer.
  rewrite contents_load by (done || (rewrite Hsz, Hc; solve_length)).
  rewrite Hc, Nat2Z.id, drop_app_length. simpl.
  destruct (find_byte ch l) as [i|] eqn:Hf; simpl.
  2: { rewrite consume_none in Hcons by by apply find_byte_None.
       injection Hcons as <- <- <-. exists c. split_and!; auto using same_but_data_refl. }
  pose proof (find_byte_lt _ _ _ Hf) as Hi.
  destruct (proj1 (find_byte_Some _ _ _) Hf) as [_ Hni].
  pose proof (find_byte_split _ _ _ Hf) as Hl.
  assert (Hline : ztake (zlen line + Z.of_nat i) (Buffer.block (c_buf c)) = line ++ take i l).
  { rewrite block_prefix by (rewrite Hsz, Hc; solve_length).
    rewrite Hc, <- Nat2Z.inj_add, Nat2Z.id, take_app_add. done. }
  destruct (f_runs (zlen line + Z.of_nat i) c) as (w' & Hcall & Husr & Hav).
  unfold call_function. simpl. rewrite Hcall. simpl. rewrite Hline in *.
  rewrite Hl, consume_line in Hcons by done.
  destruct (h (line ++ take i l) (usr (c_world c))) as [[] u'] eqn:Hh; simpl in *.
  2: { injection Hcons as <- <- <-. eexists; split; [done|]. split_and!; auto.
       - apply same_but_data_world.
       - cbn. unfold c_buf in Hc. rewrite Hc, Hl at 1. done. }
  destruct (pop_by_contents (c_buf c) (zlen line + Z.of_nat i + 1)) as (b' & Hpop & Hwf' & Hc');
    [done|rewrite Hsz, Hc; solve_length|].
  change (c_buf (with_world w' c)) with (c_buf c). rewrite Hpop. simpl.
  rewrite Hc in Hc'.
  replace (Z.to_nat (zlen line + Z.of_nat i + 1)) with (length line + S i)%nat in Hc' by lia.
  rewrite drop_app_add in Hc'.
  edestruct (IH (with_sm (set_buf b') (with_world w' c)) [] (drop (S i) l))
    as (c' & Hloop & Hsame & Hwf'' & Hcc & Hu & Ha);
    [exact Htr|exact Hwf'|exact Hc'|set_solver|rewrite length_drop; lia| |].
  { cbn. rewrite Husr. exact Hcons. }
  simpl in Hloop. exists c'. split; [done|]. split_and!; auto.
  - eapply same_but_data_trans; [|exact Hsame]. by split.
  - rewrite Ha. exact Hav.
Qed.

(** One readiness event: [navail] bytes are read after the current line. *)
Lemma process_lvl4_data_lines fuel c n go rest u :
  reads_stream →
  _trigger (c_sm c) = CharDataTrigger ch (Some f) →
  Buffer.wf (c_buf c) → ch ∉ Buffer.contents (c_buf c) →
  0 < n ≤ zlen (avail (c_world c)) →
  Buffer.size (c_buf c) + n < Buffer.max_size →
  n < Z.of_nat fuel →
  consume ch h (Buffer.contents (c_buf c)) (ztake n (avail (c_world c)))
    (usr (c_world c)) = (go, rest, u) →
  ∃ c', process_lvl4_data fuel s n target c = Ok (go, c') ∧
        same_but_data c c' ∧ Buffer.wf (c_buf c') ∧ Buffer.contents (c_buf c') = rest ∧
        usr (c_world c') = u ∧ avail (c_world c') = zdrop n (avail (c_world c)).
Proof.
  intros Hread Htr Hwf Hch Hn Hmax Hfuel Hcons. unfold process_lvl4_data.
  destruct (Hread n (c_world c)) as (w' & Hr & Husr & Hav); [lia|]. rewrite Hr.
  pose proof (Buffer.contents_size _ Hwf) as Hsz.
  set (data := ztake n (avail (c_world c))) in *.
  assert (Hdata : zlen data = n) by (unfold data; solve_length).
  pose proof (Buffer.append_spec data (c_buf c) Hwf ltac:(lia)) as (b' & Happ & Hwf' & Hc').
  cbn [Buffer.run_op] in Happ. rewrite Hdata in Happ.
  destruct (Buffer.grow_by n (c_buf c)) as [b1 off]. rewrite Happ. simpl.
  rewrite Hdata, (proj2 (Z.leb_gt _ _)) by lia.
  edestruct (process_loop_lines fuel (with_world w' (with_sm (set_buf b') c))
               (Buffer.contents (c_buf c)) data)
    as (c' & Hloop & Hsame & Hwf'' & Hcc & Hu & Ha);
    [exact Htr|exact Hwf'|exact Hc'|done|lia|cbn; rewrite Husr; exact Hcons|].
  rewrite Hsz, Hloop. simpl. exists c'. split; [by destruct go|]. split_and!; auto.
  - eapply same_but_data_trans; [|exact Hsame]. by split.
  - rewrite Ha. exact Hav.
Qed.

(** A connection's successive readiness events, one per element of [ns],
    the number of bytes then available; the engine stops calling at the first
    [false]. *)
Fixpoint deliver (fuel : nat) (ns : list Z) (c : ctx W) : result (bool * ctx W) :=
  match ns with
  | [] => Ok (true, c)
  | n :: ns =>
      '(go, c) ← process_lvl4_data fuel s n target c;
      if (go : bool) then deliver fuel ns c else Ok (false, c)
  end.

Definition total (ns : list Z) : Z := foldr Z.add 0 ns.

Lemma total_nonneg ns : Forall (Z.lt 0) ns → 0 ≤ total ns.
Proof. induction 1; simpl; lia. Qed.

Lemma take_add_zdrop (n m : Z) (l : list Z) :
  0 ≤ n → 0 ≤ m → ztake (n + m) l = ztake n l ++ ztake m (zdrop n l).
Proof. intros. rewrite Z2Nat.inj_add by done. by rewrite take_take_drop. Qed.

(** C10. However the kernel cuts the stream into reads, a connection with a
    [CharDataTrigger] runs its callback on the same lines, in the same order
    and with the same effect, as reading the stream one byte at a time: it
    stops at the same line, and if it does not stop it keeps the same
    unfinished line in its buffer. In particular starting the search at
    [prev_pos] misses no separator, and the loop needs no more iterations than
    there are bytes. *)
Theorem deliver_refines_consume fuel ns c go rest u :
  reads_stream →
  _trigger (c_sm c) = CharDataTrigger ch (Some f) →
  Buffer.wf (c_buf c) → ch ∉ Buffer.contents (c_buf c) →
  Forall (Z.lt 0) ns → total ns ≤ zlen (avail (c_world c)) →
  Buffer.size (c_buf c) + total ns < Buffer.max_size →
  total ns < Z.of_nat fuel →
  consume ch h (Buffer.contents (c_buf c)) (ztake (total ns) (avail (c_world c)))
    (usr (c_world c)) = (go, rest, u) →
  ∃ c', deliver fuel ns c = Ok (go, c') ∧ same_but_data c c' ∧ usr (c_world c') = u ∧
        (go = true → Buffer.contents (c_buf c') = rest ∧
                     avail (c_world c') = zdrop (total ns) (avail (c_world c))).
Proof.
  intros Hread. revert c. induction ns as [|n ns IH]; intros c Htr Hwf Hch Hns Htot Hmax Hfuel.
  { simpl. intros [= <- <- <-].
    exists c. split_and!; auto using same_but_data_refl. }
  apply Forall_cons in Hns as [Hn Hns]. pose proof (total_nonneg ns Hns).
  cbn [total foldr deliver] in *. fold (total ns) in *.
  rewrite take_add_zdrop, consume_app by lia.
  destruct (consume ch h (Buffer.contents (c_buf c)) (ztake n (avail (c_world c)))
              (usr (c_world c))) as [[go1 rest1] u1] eqn:Hc1.
  destruct (process_lvl4_data_lines fuel c n go1 rest1 u1)
    as (c1 & Hp & Hsame & Hwf1 & Hrest & Hu & Ha); auto; [lia..|].
  rewrite Hp. simpl. destruct go1.
  2: { intros [= <- _ <-]. exists c1. split_and!; auto. done. }
  intros Hcons. pose proof (consume_rest _ _ _ _ _ _ _ Hch Hc1) as Hch1.
  pose proof (consume_length _ _ _ _ _ _ _ _ Hc1) as Hlen.
  pose proof (Buffer.contents_size _ Hwf). pose proof (Buffer.contents_size _ Hwf1).
  destruct (IH c1) as (c' & Hd & Hsame' & Hu' & Hend); rewrite ?Hrest, ?Hu, ?Ha; auto.
  - by rewrite (same_but_data_trigger _ _ Hsame).
  - solve_length.
  - rewrite length_take in Hlen. rewrite Hrest in *. lia.
  - lia.
  - exists c'. split_and!; auto; [by eapply same_but_data_trans|].
    intros Hgo. destruct (Hend Hgo) as [? Hav]. split; [done|].
    rewrite Hav, Ha, drop_drop. f_equal. lia.
Qed.

End Lines.

(** ** Termination *)

Section Termination.

(** [good d n]: the callback [d] may be called on [n] bytes. *)
Context (good : data_closure → Z → Prop).

(** A trigger that makes progress each time it asks to be run again. Python
    triggers pop what they like and are left out. *)
Definition usable (t : trigger) : Prop :=
  match t with
  | DataTrigger => True
  | SizeDataTrigger n f => 0 < n ∧ ∃ d, f = Some d ∧ good d n
  | CharDataTrigger _ f => ∃ d, f = Some d ∧ ∀ n, 0 ≤ n → good d n
  | PythonDataTrigger _ => False
  end.

(** Called on the first bytes of the buffer, data callbacks return, leave the
    size of the buffer alone, and do not replace a usable trigger by one that
    is not. *)
Definition callbacks_keep_usable : Prop := ∀ d ct n (c : ctx W),
  Buffer.wf (c_buf c) → usable (_trigger (c_sm c)) →
  good d n → 0 ≤ n ≤ Buffer.size (c_buf c) →
  ∃ r c', call_data d ct 0 n c = Ok (r, c') ∧ Buffer.wf (c_buf c') ∧
          Buffer.size (c_buf c') = Buffer.size (c_buf c) ∧ usable (_trigger (c_sm c')).

Lemma size_nonneg b : Buffer.wf b → 0 ≤ Buffer.size b.
Proof. unfold Buffer.wf, Buffer.size. lia. Qed.

(** What a trigger does with the answer of its callback: it ends the
    connection, or drops the [k] bytes it has handled. *)
Lemma pop_after_call (c1 : ctx W) k :
  Buffer.wf (c_buf c1) → usable (_trigger (c_sm c1)) → 0 < k ≤ Buffer.size (c_buf c1) →
  ∃ b, Buffer.pop_by k (c_buf c1) = Ok b ∧
       Buffer.wf (c_buf (with_sm (set_buf b) c1)) ∧
       usable (_trigger (c_sm (with_sm (set_buf b) c1))) ∧
       Buffer.size (c_buf (with_sm (set_buf b) c1)) < Buffer.size (c_buf c1).
Proof.
  intros Hwf Hu Hk. destruct (pop_by_contents (c_buf c1) k) as (b & Hpop & Hwf' & Hc);
    [done|lia|].
  exists b. split_and!; [done|done|done|].
  cbn. rewrite !Buffer.contents_size, Hc by done.
  rewrite Buffer.contents_size in Hk by done. solve_length.
Qed.

Lemma trigger_progress ct prev_pos (c : ctx W) :
  callbacks_keep_usable → Buffer.wf (c_buf c) → usable (_trigger (c_sm c)) →
  0 ≤ prev_pos ≤ Buffer.size (c_buf c) →
  ∃ r c', trigger_process_buffer ct prev_pos c = Ok (r, c') ∧
          Buffer.wf (c_buf c') ∧ usable (_trigger (c_sm c')) ∧
          Buffer.size (c_buf c') ≤ Buffer.size (c_buf c) ∧
          (r = CanProcessAgain → Buffer.size (c_buf c') < Buffer.size (c_buf c)).
Proof.
  intros Hcalls Hwf Hu Hpos. unfold trigger_process_buffer.
  destruct (_trigger (c_sm c)) as [|n f|ch f|o] eqn:Htr; [| | |done].
  - exists NoMoreToProcess, c. rewrite Htr. split_and!; done.
  - pose proof Hu as (Hn & d & -> & Hd). unfold SizeDataTrigger_process_buffer.
    destruct (_ <? _) eqn:Hlt.
    { exists NoMoreToProcess, c. rewrite Htr. split_and!; try done; lia. }
    destruct (Hcalls d ct n c) as (r & c1 & Hcall & Hwf1 & Hsz1 & Hu1);
      [done|by rewrite Htr|done|lia|].
    rewrite ?assume_some. unfold call_function. simpl. rewrite Hcall. destruct r; simpl.
    + destruct (pop_after_call c1 n) as (b & -> & ? & ? & ?); [done|done|lia|].
      simpl. eexists _, _. split; [done|]. split_and!; try done; lia.
    + exists ConnectionEnd, c1. split_and!; try done. lia.
  - pose proof Hu as (d & -> & Hd). unfold CharDataTrigger_process_buffer.
    rewrite contents_load by done. simpl.
    destruct (find_byte _ _) as [i|] eqn:Hf.
    2: { exists NoMoreToProcess, c. rewrite Htr. split_and!; try done; lia. }
    apply find_byte_lt in Hf. rewrite length_drop in Hf.
    pose proof (Buffer.contents_size _ Hwf).
    destruct (Hcalls d ct (prev_pos + Z.of_nat i) c) as (r & c1 & Hcall & Hwf1 & Hsz1 & Hu1);
      [done|by rewrite Htr|apply Hd; lia|lia|].
    rewrite ?assume_some. unfold call_function. simpl. rewrite Hcall. destruct r; simpl.
    + destruct (pop_after_call c1 (prev_pos + Z.of_nat i + 1)) as (b & -> & ? & ? & ?);
        [done|done|lia|].
      simpl. eexists _, _. split; [done|]. split_and!; try done; lia.
    + exists ConnectionEnd, c1. split_and!; try done. lia.
Qed.

Lemma process_loop_returns fuel ct prev_pos (c : ctx W) :
  callbacks_keep_usable → Buffer.wf (c_buf c) → usable (_trigger (c_sm c)) →
  0 ≤ prev_pos ≤ Buffer.size (c_buf c) → Buffer.size (c_buf c) < Z.of_nat fuel →
  ∃ r c', process_loop fuel ct prev_pos c = Ok (r, c') ∧ r ≠ CanProcessAgain ∧
          Buffer.wf (c_buf c') ∧ usable (_trigger (c_sm c')) ∧
          Buffer.size (c_buf c') ≤ Buffer.size (c_buf c).
Proof.
  intros Hcalls. revert prev_pos c.
  induction fuel as [|fuel IH]; intros prev_pos c Hwf Hu Hpos Hfuel.
  { pose proof (size_nonneg _ Hwf). lia. }
  destruct (trigger_progress ct prev_pos c) as (r & c1 & Ht & Hwf1 & Hu1 & Hle & Hlt); auto.
  simpl. rewrite Ht. simpl. pose proof (size_nonneg _ Hwf1).
  destruct r; [exists NoMoreToProcess, c1; split_and!; done| |
               exists ConnectionEnd, c1; split_and!; done].
  specialize (Hlt eq_refl).
  destruct (IH 0 c1) as (r' & c' & Hl & ? & ? & ? & ?); [done|done|lia|lia|].
  exists r', c'. split_and!; auto. lia.
Qed.

(** C27. The processing loop returns: with usable triggers, and callbacks that
    return and install usable triggers, as many iterations as the buffer has
    bytes (and one more) are enough, every access to the buffer is defined,
    and the answer is never to process again. *)
Theorem process_loop_terminates fuel ct prev_pos (c : ctx W) :
  callbacks_keep_usable → Buffer.wf (c_buf c) → usable (_trigger (c_sm c)) →
  0 ≤ prev_pos ≤ Buffer.size (c_buf c) → Buffer.size (c_buf c) < Z.of_nat fuel →
  ∃ r c', process_loop fuel ct prev_pos c = Ok (r, c') ∧ r ≠ CanProcessAgain ∧
          Buffer.wf (c_buf c') ∧ usable (_trigger (c_sm c')) ∧
          Buffer.size (c_buf c') ≤ Buffer.size (c_buf c).
Proof. apply process_loop_returns. Qed.

End Termination.

Lemma pop_by_zero b : Buffer.wf b → Buffer.pop_by 0 b = Ok b.
Proof.
  intros (Hp & Hs & Hl). unfold Buffer.pop_by, Buffer.size.
  unfold Buffer.max_size in *.
  rewrite (assume_defined_true (0 <=? _)), !Z.sub_0_r, u32_small by lia. simpl.
  destruct b as [[m|] sz pos]; unfold Buffer.block in Hl; simpl in *.
  - unfold memmove. rewrite load_n_Ok by lia. simpl.
    rewrite store_n_Ok by solve_length. simpl. rewrite drop_0.
    rewrite length_take.
    replace (Z.to_nat (0 + _)) with (Z.to_nat pos) by lia. by rewrite take_drop.
  - rewrite assume_defined_true by lia. done.
Qed.

(** A [SizeDataTrigger] of size 0 is always satisfied: if its callback
    returns [true] and leaves the connection as it is, the loop runs for ever,
    whatever the buffer holds. *)
Lemma zero_size_trigger_diverges ct d prev_pos (c : ctx W) :
  (∀ c : ctx W, ∃ w, call_data d ct 0 0 c = Ok (true, with_world w c)) →
  Buffer.wf (c_buf c) → _trigger (c_sm c) = SizeDataTrigger 0 (Some d) →
  ∀ fuel, process_loop fuel ct prev_pos c = Fail OutOfFuel.
Proof.
  intros Hd Hwf Htr fuel. revert prev_pos c Hwf Htr.
  induction fuel as [|fuel IH]; intros prev_pos c Hwf Htr; [done|].
  simpl. unfold trigger_process_buffer. rewrite Htr. unfold SizeDataTrigger_process_buffer.
  pose proof (size_nonneg _ Hwf). rewrite (proj2 (Z.ltb_ge _ _)) by lia.
  destruct (Hd c) as [w Hw]. rewrite assume_some. unfold call_function. simpl.
  rewrite Hw. simpl.
  change (c_buf (with_world w c)) with (c_buf c). rewrite pop_by_zero by done. simpl.
  by apply IH.
Qed.

(** ** Fuel *)

(** More turns change nothing once the loop has ended. *)
Lemma process_loop_fuel fuel fuel' ct pos (c : ctx W) r :
  process_loop fuel ct pos c = Ok r → (fuel ≤ fuel')%nat → process_loop fuel' ct pos c = Ok r.
Proof.
  revert fuel' pos c. induction fuel as [|fuel IH]; intros fuel' pos c H Hle; [done|].
  destruct fuel' as [|fuel']; [lia|]. simpl in H |- *.
  destruct (trigger_process_buffer ct pos c) as [[[] c1]|]; simpl in *; try done.
  apply IH; [done|lia].
Qed.

Lemma process_lvl4_data_fuel fuel fuel' s n target (c : ctx W) r :
  process_lvl4_data fuel s n target c = Ok r → (fuel ≤ fuel')%nat →
  process_lvl4_data fuel' s n target c = Ok r.
Proof.
  unfold process_lvl4_data. intros H Hle. destruct (Buffer.grow_by _ _).
  destruct (sys_read _ _ _) as [[nread data] w]. destruct (Buffer.write_at _ _ _); [|done].
  simpl in *. destruct (nread <=? 0); [done|].
  destruct (process_loop fuel _ _ _) as [rc|] eqn:E; [|done].
  by rewrite (process_loop_fuel _ _ _ _ _ _ E Hle).
Qed.

(** ** Short reads *)

(** A readiness event grows the buffer by what the kernel announced
    before it reads. When the read returns less, the size is not taken back:
    the buffer ends with bytes that were never received; when it returns
    nothing the call answers [false] and leaves all of them. *)
Theorem short_read_leaves_junk fuel s target n (c : ctx W) nread data w :
  Buffer.wf (c_buf c) → 0 ≤ n → Buffer.size (c_buf c) + n < Buffer.max_size →
  sys_read s n (c_world c) = (nread, data, w) → nread ≤ 0 → data = [] →
  ∃ c' junk, process_lvl4_data fuel s n target c = Ok (false, c') ∧
             zlen junk = n ∧
             Buffer.contents (c_buf c') = Buffer.contents (c_buf c) ++ junk.
Proof.
  intros Hwf Hn Hmax Hread Hnread ->. unfold process_lvl4_data. rewrite Hread.
  destruct (Buffer.grow_by n (c_buf c)) as [b1 off] eqn:Hg.
  destruct (Buffer.grow_by_spec n (c_buf c) b1 off) as (Hwf1 & -> & Hsz & Hc & Hin); auto.
  pose proof (size_nonneg _ Hwf).
  unfold Buffer.write_at. rewrite store_n_Ok by (simpl; lia). simpl.
  rewrite (proj2 (Z.leb_le _ _)) by lia.
  eexists _, (zdrop (Buffer.size (c_buf c)) (Buffer.contents b1)). split; [done|].
  pose proof (Buffer.contents_size _ Hwf1). split; [solve_length|].
  rewrite <- Hc, take_drop. cbn. unfold Buffer.contents, Buffer.block. simpl.
  destruct (Buffer._buffer b1) as [m|] eqn:Hb; simpl; [|done].
  by rewrite Z.add_0_r, take_drop.
Qed.

End Framing.
