(* ===== verification/Stream.v ===== *)
(** * A connection as a reader of bytes

    What a connection makes of a stream does not depend on its reads. The
    reference is a reader of one byte at a time ([converse]): it has a trigger,
    the message read so far, and a function that answers each whole message with
    whether to go on and with the next trigger, if the code is defined on the
    message. A connection whose callbacks follow that function ([runs_act]) refines it, however the kernel cuts the
    stream ([deliver_converses]): the triggers are replaced in the middle of a
    read, the processing loop runs over what is left of it, and searches start
    at [prev_pos]. *)

From S2P Require Import Prelude Lvl4Buffer Leeloo Target HostSM Lvl4SM Framing.

Section Stream.
Context {L : Leeloo} {C : Closures} {M : Malloc}.
Context {W : Type} {OSW : OS W} {K : Calls W}.
Context {U : Type}.

(** ** The reference reader *)

(** What a function makes of a message: whether the connection goes on, the
    trigger it installs, and what the user has seen. *)
Record answer := mkAnswer { goes_on : bool; installs : option trigger; seen : U }.

(** [None]: the code is not defined on the message. *)
Context (act : data_closure → list Z → U → option answer).

(** The call that the next byte [b] causes after the bytes [msg]. *)
Definition fires (tr : trigger) (msg : list Z) (b : Z) : option (data_closure * list Z) :=
  match tr with
  | SizeDataTrigger n (Some d) => if zlen msg + 1 =? n then Some (d, msg ++ [b]) else None
  | CharDataTrigger ch (Some d) => if b =? ch then Some (d, msg) else None
  | _ => None
  end.

Inductive outcome :=
| Ended (u : U)
| Waiting (tr : trigger) (msg : list Z) (u : U)
| Broken (u : U).

Fixpoint converse (tr : trigger) (msg l : list Z) (u : U) : outcome :=
  match l with
  | [] => Waiting tr msg u
  | b :: l =>
      match fires tr msg b with
      | None => converse tr (msg ++ [b]) l u
      | Some (d, m) =>
          match act d m u with
          | None => Broken u
          | Some a =>
              if goes_on a then converse (default tr (installs a)) [] l (seen a) else Ended (seen a)
          end
      end
  end.

(** Reading on. *)
Lemma converse_app tr msg l1 l2 u :
  converse tr msg (l1 ++ l2) u =
    match converse tr msg l1 u with
    | Ended u => Ended u
    | Waiting tr msg u => converse tr msg l2 u
    | Broken u => Broken u
    end.
Proof.
  revert tr msg u; induction l1 as [|b l1 IH]; intros tr msg u; simpl; [done|].
  destruct (fires tr msg b) as [[d m]|]; [|apply IH].
  destruct (act d m u) as [a|]; [|done]. destruct (goes_on _); [apply IH|done].
Qed.

(** The trigger has no reason to run on these bytes. *)
Definition waits (tr : trigger) (msg : list Z) : Prop :=
  match tr with
  | DataTrigger => True
  | SizeDataTrigger n _ => zlen msg < n
  | CharDataTrigger ch _ => ch ∉ msg
  | PythonDataTrigger _ => False
  end.

Lemma fires_waits tr msg b : waits tr (msg ++ [b]) → fires tr msg b = None.
Proof.
  destruct tr as [|n [d|]|ch [d|]|]; simpl; try done.
  - rewrite length_app. simpl. intros. by rewrite (proj2 (Z.eqb_neq _ _)) by lia.
  - intros. by rewrite (proj2 (Z.eqb_neq _ _)) by set_solver.
Qed.

Lemma waits_app tr msg l : waits tr (msg ++ l) → waits tr msg.
Proof. destruct tr; simpl; rewrite ?length_app; try done; [lia|set_solver]. Qed.

Lemma converse_waits tr msg l u :
  waits tr (msg ++ l) → converse tr msg l u = Waiting tr (msg ++ l) u.
Proof.
  revert msg; induction l as [|b l IH]; intros msg Hw; simpl; [by rewrite app_nil_r|].
  replace (msg ++ b :: l) with ((msg ++ [b]) ++ l) in * by (rewrite <- app_assoc; done).
  rewrite fires_waits by by eapply waits_app. by apply IH.
Qed.

(** What follows the answer to a message. *)
Definition converse_on (tr : trigger) (u : U) (a : option answer) (l : list Z) : outcome :=
  match a with
  | None => Broken u
  | Some a => if goes_on a then converse (default tr (installs a)) [] l (seen a) else Ended (seen a)
  end.

Lemma converse_size msg l1 l2 d u :
  l1 ≠ [] →
  converse (SizeDataTrigger (zlen (msg ++ l1)) (Some d)) msg (l1 ++ l2) u =
    converse_on (SizeDataTrigger (zlen (msg ++ l1)) (Some d)) u (act d (msg ++ l1) u) l2.
Proof.
  destruct l1 as [|b l1 _] using rev_ind; [done|]. intros _.
  rewrite <- app_assoc, converse_app, converse_waits.
  2:{ simpl. rewrite !length_app. simpl. lia. }
  simpl. rewrite !length_app, app_assoc. simpl. rewrite (proj2 (Z.eqb_eq _ _)) by lia. done.
Qed.

Lemma converse_char msg l1 l2 ch d u :
  ch ∉ msg ++ l1 →
  converse (CharDataTrigger ch (Some d)) msg (l1 ++ ch :: l2) u =
    converse_on (CharDataTrigger ch (Some d)) u (act d (msg ++ l1) u) l2.
Proof.
  intros Hch. rewrite converse_app, converse_waits by done. simpl. by rewrite Z.eqb_refl.
Qed.

(** ** The reader stays in a state where it waits *)

Context (good : data_closure → Z → Prop).

Definition installs_usable : Prop := ∀ d msg u a tr,
  good d (zlen msg) → act d msg u = Some a → installs a = Some tr → usable good tr.

Lemma usable_waits tr : usable good tr → waits tr [].
Proof. destruct tr; simpl; try done; [by intros [? _]|intros _; apply not_elem_of_nil]. Qed.

Lemma fires_good tr msg b d m :
  usable good tr → fires tr msg b = Some (d, m) → good d (zlen m).
Proof.
  destruct tr as [|n [d'|]|ch [d'|]|]; simpl; try done.
  - intros (_ & ? & [= <-] & Hg). destruct (Z.eqb_spec (zlen msg + 1) n) as [<-|]; [|done].
    intros [= <- <-]. rewrite length_app. simpl. by rewrite Nat2Z.inj_add.
  - intros (? & [= <-] & Hg). destruct (_ =? _); [|done]. intros [= <- <-]. apply Hg. lia.
Qed.

Lemma fires_not tr msg b :
  usable good tr → waits tr msg → fires tr msg b = None → waits tr (msg ++ [b]).
Proof.
  destruct tr as [|n f|ch f|]; simpl; try done.
  - intros (_ & d & -> & _) Hw. rewrite length_app. simpl.
    destruct (Z.eqb_spec (zlen msg + 1) n); [done|]. lia.
  - intros (d & -> & _) Hw. destruct (Z.eqb_spec b ch); [done|]. set_solver.
Qed.

Lemma converse_usable tr msg l u tr' msg' u' :
  installs_usable → usable good tr → waits tr msg →
  converse tr msg l u = Waiting tr' msg' u' →
  usable good tr' ∧ waits tr' msg' ∧ (length msg' ≤ length msg + length l)%nat.
Proof.
  intros Hact. revert tr msg u; induction l as [|b l IH]; intros tr msg u Hu Hw; simpl.
  { intros [= <- <- <-]. split_and!; [done..|lia]. }
  destruct (fires tr msg b) as [[d m]|] eqn:Hf.
  - destruct (act d m u) as [a|] eqn:Ha; [|done]. destruct (goes_on _); [|done].
    assert (Hu' : usable good (default tr (installs a))).
    { destruct (installs _) as [tr1|] eqn:E; [|done]. simpl.
      eapply Hact; [|exact Ha|exact E]. by eapply fires_good. }
    intros H. destruct (IH _ _ _ Hu' (usable_waits _ Hu') H) as (? & ? & Hl).
    split_and!; [done..|]. simpl in Hl. lia.
  - intros H. destruct (IH _ _ _ Hu (fires_not _ _ _ Hu Hw Hf) H) as (? & ? & Hl).
    split_and!; [done..|]. rewrite length_app in Hl. simpl in Hl. lia.
Qed.

(** The reader has an answer for every message it meets. *)
Definition unbroken (o : outcome) : Prop := match o with Broken _ => False | _ => True end.

Lemma converse_unbroken tr msg l u :
  installs_usable → (∀ d msg u, good d (zlen msg) → is_Some (act d msg u)) →
  usable good tr → waits tr msg → unbroken (converse tr msg l u).
Proof.
  intros Hact Hsome. revert tr msg u; induction l as [|b l IH]; intros tr msg u Hu Hw; simpl; [done|].
  destruct (fires tr msg b) as [[d m]|] eqn:Hf; [|by apply IH, fires_not].
  pose proof (fires_good _ _ _ _ _ Hu Hf) as Hd. destruct (Hsome d m u Hd) as [a Ha]. rewrite Ha.
  destruct (goes_on a); [|done].
  assert (Hu' : usable good (default tr (installs a))).
  { destruct (installs a) as [tr'|] eqn:E; [by eapply Hact|done]. }
  apply IH; [done|by apply usable_waits].
Qed.

(** ** The connection follows the reader *)

(** [usr] is what the user has seen, [kept] what the calls leave alone. *)
Context {A : Type} (usr : W → U) (kept : W → A) (s : Z) (target : Target).

(** The connection after the call on the message [msg], which may have been
    written over; [rest] follows it in the buffer. *)
Record after_call (msg rest : list Z) (a : answer) (c c' : ctx W) : Prop := {
  ac_wf : Buffer.wf (c_buf c');
  ac_contents : ∃ msg', length msg' = length msg ∧ Buffer.contents (c_buf c') = msg' ++ rest;
  ac_trigger : _trigger (c_sm c') = default (_trigger (c_sm c)) (installs a);
  ac_seen : usr (c_world c') = seen a;
  ac_kept : kept (c_world c') = kept (c_world c);
}.

(** Called on the first bytes of the buffer, the callbacks do what [act]
    says, and look at no other byte. *)
Definition runs_act : Prop := ∀ d msg rest a (c : ctx W),
  Buffer.wf (c_buf c) → Buffer.contents (c_buf c) = msg ++ rest → good d (zlen msg) →
  act d msg (usr (c_world c)) = Some a →
  ∃ c', call_data d (mkConnected target s) 0 (zlen msg) c = Ok (goes_on a, c') ∧
        after_call msg rest a c c'.

(** The connection in a state of the reader. *)
Record holds (tr : trigger) (msg : list Z) (u : U) (left : A) (c : ctx W) : Prop := {
  ho_wf : Buffer.wf (c_buf c);
  ho_trigger : _trigger (c_sm c) = tr;
  ho_contents : Buffer.contents (c_buf c) = msg;
  ho_seen : usr (c_world c) = u;
  ho_kept : kept (c_world c) = left;
}.

(** A result of the processing loop, with [w] the answer that keeps the
    connection and [e] the one that ends it; nothing is said of a connection
    that met a message on which the code is not defined. *)
Definition follows {R} (w e : R) (o : outcome) (left : A) (r : result (R * ctx W)) : Prop :=
  match o with
  | Ended u => ∃ c, r = Ok (e, c) ∧ usr (c_world c) = u ∧ kept (c_world c) = left
  | Waiting tr msg u => ∃ c, r = Ok (w, c) ∧ holds tr msg u left c
  | Broken _ => True
  end.

Context (act_usable : installs_usable) (act_runs : runs_act).

(** The loop on what follows a message that was handled. *)
Lemma pop_message msg rest a (c c1 : ctx W) (k : list Z) l :
  after_call msg rest a c c1 → rest = k ++ l →
  ∃ b, Buffer.pop_by (zlen (msg ++ k)) (c_buf c1) = Ok b ∧
       holds (default (_trigger (c_sm c)) (installs a)) l (seen a) (kept (c_world c))
         (with_sm (set_buf b) c1).
Proof.
  intros [Hwf (msg' & Hlen & Hc) Htr Hs Ha] ->.
  destruct (pop_by_contents (c_buf c1) (zlen (msg ++ k))) as (b & Hpop & Hwf' & Hc'); [done| |].
  { rewrite Buffer.contents_size, Hc, !length_app by done. lia. }
  exists b. split; [done|]. split; try done. cbn. rewrite Hc', Hc, Nat2Z.id, !length_app, <- Hlen.
  rewrite app_assoc, <- length_app. apply drop_app_length.
Qed.

Lemma installs_default d msg u a tr :
  good d (zlen msg) → act d msg u = Some a → usable good tr → usable good (default tr (installs a)).
Proof.
  intros Hd Ha Hu. destruct (installs _) as [tr'|] eqn:E; [|done]. simpl. by eapply act_usable.
Qed.

(** A turn of the loop that calls [d] on [m] and drops [m] and the separator [k]. *)
Lemma message_handled fuel pos (c : ctx W) tr d m k l u left :
  holds tr (m ++ k ++ l) u left c → good d (zlen m) → usable good tr →
  trigger_process_buffer (mkConnected target s) pos c =
    ('(ret, c) ← call_data d (mkConnected target s) 0 (zlen m) c;
     if negb ret then Ok (ConnectionEnd, c) else
     b ← Buffer.pop_by (zlen (m ++ k)) (c_buf c);
     Ok (CanProcessAgain, with_sm (set_buf b) c)) →
  (∀ tr u c, holds tr l u left c → usable good tr →
     follows NoMoreToProcess ConnectionEnd (converse tr [] l u) left
       (process_loop fuel (mkConnected target s) 0 c)) →
  follows NoMoreToProcess ConnectionEnd (converse_on tr u (act d m u) l) left
    (process_loop (S fuel) (mkConnected target s) pos c).
Proof.
  intros [Hwf <- Hc <- <-] Hd Hu Hstep IH. simpl. rewrite Hstep.
  unfold converse_on. destruct (act d m _) as [a|] eqn:Ha; [|done].
  destruct (act_runs d m (k ++ l) a c Hwf Hc Hd Ha) as (c1 & -> & Hafter). simpl. destruct (goes_on _).
  - destruct (pop_message _ _ _ _ _ _ _ Hafter eq_refl) as (b & -> & Hh). simpl.
    apply IH; [exact Hh|]. by eapply installs_default.
  - exists c1. split; [done|]. split; apply Hafter.
Qed.

(** The loop, once it has run the trigger, follows the reader on what is left. *)
Definition goes_on_with (fuel : nat) (l : list Z) (left : A) : Prop := ∀ tr u c,
  holds tr l u left c → usable good tr →
  follows NoMoreToProcess ConnectionEnd (converse tr [] l u) left
    (process_loop fuel (mkConnected target s) 0 c).

Lemma size_turn fuel pos n d msg l u left (c : ctx W) :
  holds (SizeDataTrigger n (Some d)) (msg ++ l) u left c →
  usable good (SizeDataTrigger n (Some d)) → zlen msg < n ≤ zlen (msg ++ l) →
  (∀ i, (0 < i)%nat → goes_on_with fuel (drop i l) left) →
  follows NoMoreToProcess ConnectionEnd (converse (SizeDataTrigger n (Some d)) msg l u) left
    (process_loop (S fuel) (mkConnected target s) pos c).
Proof.
  intros Hh Hu Hn IH. pose proof Hh as [Hwf Htr Hc _ _].
  pose proof (Buffer.contents_size _ Hwf) as Hsz. rewrite Hc in Hsz.
  pose proof Hu as (_ & ? & [= <-] & Hd). rewrite length_app in Hn.
  set (k := Z.to_nat (n - zlen msg)). specialize (IH k ltac:(lia)).
  assert (Hk : length (take k l) = k) by (rewrite length_take; lia).
  rewrite <- (take_drop k l) in Hh |- *.
  assert (Hn' : n = zlen (msg ++ take k l)) by (rewrite length_app; lia).
  rewrite Hn' in Htr, Hu, Hd, Hh |- *. rewrite converse_size.
  2:{ intros H0. rewrite H0 in Hk. simpl in Hk. lia. }
  apply message_handled with (k := []); [by rewrite app_nil_l, <- app_assoc|done|done| |exact IH].
  unfold trigger_process_buffer, SizeDataTrigger_process_buffer.
  rewrite Htr, Hsz, <- Hn', (proj2 (Z.ltb_ge _ _)), assume_some, app_nil_r by (rewrite length_app; lia).
  by rewrite <- Hn'.
Qed.

Lemma char_turn fuel ch d msg l i u left (c : ctx W) :
  holds (CharDataTrigger ch (Some d)) (msg ++ l) u left c →
  usable good (CharDataTrigger ch (Some d)) → ch ∉ msg → find_byte ch l = Some i →
  goes_on_with fuel (drop (S i) l) left →
  follows NoMoreToProcess ConnectionEnd (converse (CharDataTrigger ch (Some d)) msg l u) left
    (process_loop (S fuel) (mkConnected target s) (zlen msg) c).
Proof.
  intros Hh Hu Hw Hf IH. pose proof Hh as [Hwf Htr Hc _ _].
  pose proof (Buffer.contents_size _ Hwf) as Hsz. rewrite Hc in Hsz.
  pose proof Hu as (? & [= <-] & Hd). destruct (proj1 (find_byte_Some _ _ _) Hf) as [_ Hni].
  pose proof (find_byte_lt _ _ _ Hf). pose proof (find_byte_split _ _ _ Hf) as Hl.
  rewrite Hl. rewrite Hl in Hh. rewrite converse_char by set_solver.
  apply message_handled with (k := [ch]); [by rewrite <- app_assoc|apply Hd; lia|done| |exact IH].
  unfold trigger_process_buffer, CharDataTrigger_process_buffer.
  rewrite Htr, contents_load by (done || (rewrite Hsz, length_app; lia)).
  rewrite Hc, Nat2Z.id, drop_app_length. simpl. rewrite Hf.
  rewrite !length_app, length_take, Nat.min_l by lia. simpl.
  replace (Z.of_nat (length msg + i + 1)) with (zlen msg + Z.of_nat i + 1) by lia.
  by replace (Z.of_nat (length msg + i)) with (zlen msg + Z.of_nat i) by lia.
Qed.

Lemma process_loop_converses fuel tr msg l u left (c : ctx W) :
  holds tr (msg ++ l) u left c → usable good tr → waits tr msg → (length l < fuel)%nat →
  follows NoMoreToProcess ConnectionEnd (converse tr msg l u) left
    (process_loop fuel (mkConnected target s) (zlen msg) c).
Proof.
  revert tr msg l u c. induction fuel as [|fuel IH]; intros tr msg l u c Hh Hu Hw Hfuel; [lia|].
  assert (Hnext : l ≠ [] → ∀ i, (0 < i)%nat → goes_on_with fuel (drop i l) left).
  { intros Hl i Hi tr' u' c' Hh' Hu'.
    apply (IH tr' []); [done|done|by eapply usable_waits|rewrite length_drop; destruct l; [done|simpl in *; lia]]. }
  pose proof Hh as [Hwf Htr Hc _ _]. pose proof (Buffer.contents_size _ Hwf) as Hsz. rewrite Hc in Hsz.
  assert (Hquiet : waits tr (msg ++ l) →
    trigger_process_buffer (mkConnected target s) (zlen msg) c = Ok (NoMoreToProcess, c) →
    follows NoMoreToProcess ConnectionEnd (converse tr msg l u) left
      (process_loop (S fuel) (mkConnected target s) (zlen msg) c)).
  { intros Hq Hp. rewrite converse_waits by done. simpl. rewrite Hp. by exists c. }
  unfold trigger_process_buffer in Hquiet. rewrite Htr in Hquiet.
  destruct tr as [|n f|ch f|o]; [by apply Hquiet| | |done]; simpl in Hw.
  - unfold SizeDataTrigger_process_buffer in Hquiet. rewrite Hsz in Hquiet.
    destruct (zlen (msg ++ l) <? n) eqn:E; [apply Z.ltb_lt in E; by apply Hquiet|].
    apply Z.ltb_ge in E. pose proof Hu as (_ & d & -> & _). apply size_turn; [done..|].
    apply Hnext. intros ->. rewrite app_nil_r in E. lia.
  - unfold CharDataTrigger_process_buffer in Hquiet.
    rewrite contents_load in Hquiet by (done || (rewrite Hsz, length_app; lia)).
    rewrite Hc, Nat2Z.id, drop_app_length in Hquiet. simpl in Hquiet.
    destruct (find_byte ch l) as [i|] eqn:Hf.
    + pose proof Hu as (d & -> & _). apply (char_turn _ _ _ _ _ i); [done..|].
      apply Hnext; [by destruct l|lia].
    + apply Hquiet; [|done]. apply find_byte_None in Hf. set_solver.
Qed.

(** One readiness event: the [n] bytes [data] are read. *)
Lemma process_lvl4_data_follows fuel n data tr msg u (c : ctx W) w' :
  Buffer.wf (c_buf c) → _trigger (c_sm c) = tr → Buffer.contents (c_buf c) = msg →
  usable good tr → waits tr msg →
  sys_read s n (c_world c) = (n, data, w') → zlen data = n → usr w' = u →
  0 < n → zlen msg + n < Buffer.max_size → n < Z.of_nat fuel →
  follows true false (converse tr msg data u) (kept w') (process_lvl4_data fuel s n target c).
Proof.
  intros Hwf Htr Hc Hu Hw Hr Hdata Husr Hn Hmax Hfuel. unfold process_lvl4_data. rewrite Hr.
  pose proof (Buffer.contents_size _ Hwf) as Hsz. rewrite Hc in Hsz.
  pose proof (Buffer.append_spec data (c_buf c) Hwf ltac:(lia)) as (b & Happ & Hwf' & Hc').
  cbn [Buffer.run_op] in Happ. rewrite Hdata in Happ.
  destruct (Buffer.grow_by n (c_buf c)) as [b1 off]. rewrite Happ. simpl.
  rewrite Hsz, (proj2 (Z.leb_gt _ _)) by lia.
  set (c2 := with_world w' (with_sm (set_buf b) c)).
  assert (Hh2 : holds tr (msg ++ data) u (kept w') c2).
  { split; [exact Hwf'|exact Htr|by cbn; rewrite Hc', Hc|exact Husr|done]. }
  pose proof (process_loop_converses fuel tr msg data u _ c2 Hh2 Hu Hw ltac:(lia)) as H.
  destruct (converse _ _ _ _); simpl in H |- *.
  - destruct H as (c' & -> & ?). by exists c'.
  - destruct H as (c' & -> & ?). by exists c'.
  - done.
Qed.

End Stream.

Arguments answer {C} U.
Arguments outcome {C} U.

(** ** The successive reads of a connection *)

Section Reads.
Context {L : Leeloo} {C : Closures} {M : Malloc}.
Context {W : Type} {OSW : OS W} {K : Calls W}.
Context {U : Type} (act : data_closure → list Z → U → option (answer U)) (good : data_closure → Z → Prop).
Context (usr : W → U) (avail : W → list Z) (s : Z) (target : Target).
Context (act_usable : installs_usable act good).
Context (act_runs : runs_act act good usr avail s target).
Context (Hread : reads_stream usr avail s).

(** The outcome of the reads: when the connection waits, [left] is what the
    kernel still holds. *)
Definition agrees (o : outcome U) (left : list Z) (r : result (bool * ctx W)) : Prop :=
  match o with
  | Ended u => ∃ c, r = Ok (false, c) ∧ usr (c_world c) = u
  | Waiting tr msg u => ∃ c, r = Ok (true, c) ∧ holds usr avail tr msg u left c
  | Broken _ => True
  end.

Lemma process_lvl4_data_converses fuel n tr msg u left (c : ctx W) :
  holds usr avail tr msg u left c → usable good tr → waits tr msg →
  0 < n ≤ zlen left → zlen msg + n < Buffer.max_size → n < Z.of_nat fuel →
  agrees (converse act tr msg (ztake n left) u) (zdrop n left) (process_lvl4_data fuel s n target c).
Proof.
  intros [Hwf Htr Hc Hs Ha] Hu Hw Hn Hmax Hfuel.
  destruct (Hread n (c_world c)) as (w' & Hr & Husr & Hav); [lia|]. rewrite Ha in Hr, Hav.
  assert (Hdata : zlen (ztake n left) = n) by solve_length.
  rewrite Hdata in Hr. rewrite Hs in Husr.
  pose proof (process_lvl4_data_follows act good usr avail s target act_usable act_runs fuel n
    (ztake n left) tr msg u c w' Hwf Htr Hc Hu Hw Hr Hdata Husr ltac:(lia) Hmax Hfuel) as H.
  rewrite Hav in H. destruct (converse _ _ _ _ _); [| |done]; destruct H as (c' & Hd & H); exists c';
    (split; [exact Hd|apply H]).
Qed.

(** However the kernel cuts the stream, the connection ends or waits as the
    reader of one byte at a time does. *)
Lemma deliver_converses fuel ns tr msg u left (c : ctx W) :
  holds usr avail tr msg u left c → usable good tr → waits tr msg →
  Forall (Z.lt 0) ns → total ns ≤ zlen left →
  zlen msg + total ns < Buffer.max_size → total ns < Z.of_nat fuel →
  agrees (converse act tr msg (ztake (total ns) left) u) (zdrop (total ns) left)
    (deliver s target fuel ns c).
Proof.
  revert tr msg u left c.
  induction ns as [|n ns IH]; intros tr msg u left c Hh Hu Hw Hns Htot Hmax Hfuel.
  { simpl. exists c. by rewrite drop_0. }
  apply Forall_cons in Hns as [Hn Hns]. pose proof (total_nonneg ns Hns).
  cbn [total foldr deliver] in *. fold (total ns) in *.
  rewrite take_add_zdrop, converse_app by lia.
  pose proof (process_lvl4_data_converses fuel n tr msg u left c Hh Hu Hw
                ltac:(lia) ltac:(lia) ltac:(lia)) as H1.
  destruct (converse act tr msg (ztake n left) u) as [u1|tr1 msg1 u1|u1] eqn:E; simpl in H1.
  - destruct H1 as (c1 & -> & ?). by exists c1.
  - destruct H1 as (c1 & -> & Hh1). cbn [mbind result_bind].
    destruct (converse_usable _ _ _ _ _ _ _ _ _ act_usable Hu Hw E) as (? & ? & Hlen).
    rewrite length_take in Hlen.
    specialize (IH tr1 msg1 u1 (zdrop n left) c1).
    rewrite drop_drop in IH. replace (Z.to_nat n + Z.to_nat (total ns))%nat with (Z.to_nat (n + total ns)) in IH by lia.
    apply IH; try done; solve_length.
  - done.
Qed.

End Reads.
