(* ===== verification/Closures.v ===== *)
(** * The functions the protocols install: src/src/include/ns/protocols/

    The protocol objects install lambdas and function objects as triggers'
    actions. Each of them is here a constructor of [closure] carrying what it
    captures ([this] is captured by value: the object it points to is taken to
    outlive the connection); the user's own functions are names
    ([UserCode]) whose behaviour is given by [UserCalls]. Protocols.v gives
    every closure its behaviour. *)

From S2P Require Import Prelude Lvl4Buffer Leeloo Target HostSM Lvl4SM.

Class UserCode := {
  user_data : Type;      (* Lvl4DataAction *)
  user_connect : Type;   (* Lvl4Action *)
  user_cipher : Type;    (* SSL::CipherDataAction *)
  user_header : Type;    (* SIP::HeaderDataAction *)
  user_host : Type;      (* HostAction *)
  user_python : Type;    (* a Python trigger object *)
}.

Section Closures.
Context {L : Leeloo} {UC : UserCode}.

(** [nsp::SSL] *)
Record SSL := mkSSL {
  client_hello : list Z;
  _on_certif : option user_data;
  _on_cipher : option user_cipher;
  _on_failure : option user_data;
}.

(** [nsp::SSH] *)
Record SSH := mkSSH { _cb_certif : option user_data; _cb_invalid : option user_data }.

(** [nsp::SIP] *)
Record SIP := mkSIP {
  _cb_header : option user_header;
  _cb_invalid_header : option user_data;
}.

(** The [on_hs] argument of [on_tls_header]. *)
Inductive hs_step := handshake1 | handshake2.

Inductive closure :=
| UserData (u : user_data)
| OnTlsHeader (this : SSL) (on_hs : hs_step)
| OnHandshake (this : SSL) (hs : hs_step)
| SshBanner (cb_certif cb_invalid : option user_data)
| SSHAnswer (_next : option closure)
| SshPayload (next : closure)
| SshKexReply (cb_certif cb_invalid : option user_data)
| SSHGetCertificate (cb_certif cb_invalid : option user_data)
| SipLine (cb_invalid_header : option user_data) (cb_header : option user_header).

Inductive connect_action :=
| UserConnect (u : user_connect)
| SSLConnect (this : SSL)
| SSHConnect (this : SSH)
| SIPConnect (this : SIP).

#[export] Instance protocol_closures : Closures := {|
  data_closure := closure;
  connect_closure := connect_action;
  host_closure := user_host;
  python_object := user_python;
|}.

(** What the user's functions do. Pointers into the buffer of the
    connection are offsets into its block. *)
Class UserCalls (W : Type) := {
  call_user_data : user_data → ConnectedTarget → Z → Z → ctx W → result (bool * ctx W);
  call_user_connect : user_connect → ConnectedTarget → ctx W → result (bool * ctx W);
  call_user_cipher : user_cipher → ConnectedTarget → Z → ctx W → result (bool * ctx W);
  call_user_header : user_header → ConnectedTarget → Z → Z → ctx W → result (bool * ctx W);
  call_user_python : user_python → ConnectedTarget → Z → ctx W →
                     result (ProcessReturnCode * ctx W);
}.

(** [call_cb<def>(action, t, lvl4sm, hsm, buf, size)] *)
Definition call_data_cb {W} {UW : UserCalls W} (def : bool) (action : option user_data)
    (t : ConnectedTarget) (buf size : Z) (c : ctx W) : result (bool * ctx W) :=
  call_cb def ((λ u '(buf, size), call_user_data u t buf size) <$> action) (buf, size) c.

(** The block a pointer given to a callback points into. *)
Definition c_block {W} (c : ctx W) : list Z := Buffer.block (c_buf c).

End Closures.
