(* ===== verification/SSL.v ===== *)
(** * The SSL scanner: src/src/protocols/ssl.cpp and ssl_structs.h

    [SSL_ctor] builds the ClientHello sent to the server;
    [on_tls_header], [on_handshake1] and [on_handshake2] read the server's
    first two handshake records. The packed structures are the sequences of
    their fields' bytes in memory order on the little-endian target; the
    bit-fields of [Handshake] and [Certificate] take a byte each, in order. *)

From S2P Require Import Prelude Lvl4Buffer Leeloo Target HostSM Lvl4SM Closures.

Definition sizeof_TLS : Z := 5.
Definition sizeof_Handshake : Z := 4.
Definition sizeof_ClientHello : Z := 61.

Definition ProtocolVersion_bytes (major minor : Z) : list Z := [major; minor].

(** The ten [cipher_suites.data] values. *)
Definition cipher_data : list Z :=
  [0x0100; 0x0200; 0x3B00; 0x0400; 0x0500; 0x0A00; 0x2F00; 0x3500; 0x3C00; 0x3D00].

Definition TLS_bytes (msg_type major minor length : Z) : list Z :=
  msg_type :: ProtocolVersion_bytes major minor ++ le_bytes 2 length.

Definition Handshake_bytes (msg_type length2 length1 length0 : Z) : list Z :=
  [msg_type; length2; length1; length0].

Definition ClientHello_bytes (gmt_unix_time : Z) : list Z :=
  ProtocolVersion_bytes 3 0 ++
  le_bytes 4 gmt_unix_time ++ replicate 28 0xAA ++
  [0] ++
  le_bytes 2 (htons 20) ++ mjoin (le_bytes 2 <$> cipher_data) ++
  [1; 0] ++
  le_bytes 2 0.

Section SSL.
Context {L : Leeloo} {UC : UserCode}.

(** The constructor, [now] being the value of [time(NULL)]. *)
Definition SSL_ctor (now : Z) : SSL :=
  let tls := TLS_bytes 0x16 3 0 (htons (sizeof_Handshake + sizeof_ClientHello)) in
  let hs := Handshake_bytes 1 0 0 sizeof_ClientHello in
  let ch := ClientHello_bytes (htonl now) in
  mkSSL (tls ++ hs ++ ch) None None None.

Definition on_protocol_failure (f : option user_data) (ssl : SSL) : SSL :=
  mkSSL (client_hello ssl) (_on_certif ssl) (_on_cipher ssl) f.
Definition on_cipher (f : option user_cipher) (ssl : SSL) : SSL :=
  mkSSL (client_hello ssl) (_on_certif ssl) f (_on_failure ssl).
Definition on_certificate (f : option user_data) (ssl : SSL) : SSL :=
  mkSSL (client_hello ssl) f (_on_cipher ssl) (_on_failure ssl).

Context {M : Malloc} {W : Type} {OSW : OS W} {UW : UserCalls W}.

(** [operator()] *)
Definition SSL_call (this : SSL) (t : ConnectedTarget) (c : ctx W) : result (bool * ctx W) :=
  let '(_, w) := send t (client_hello this) (c_world c) in
  let c := with_world w c in
  Ok (true, with_sm (set_trigger
                       (SizeDataTrigger sizeof_TLS (Some (OnTlsHeader this handshake1)))) c).

(** [get_length()] of the three bytes at [p]: [(length2 << 16) | (length1 << 8) | length0]. *)
Definition get_length (m : list Z) (p : Z) : result Z :=
  length2 ← load m p;
  length1 ← load m (p + 1);
  length0 ← load m (p + 2);
  Ok (Z.lor (Z.lor (Z.shiftl length2 16) (Z.shiftl length1 8)) length0).

Definition failure_cb (this : SSL) (t : ConnectedTarget) (buf size : Z) (c : ctx W) :=
  call_data_cb false (_on_failure this) t buf size c.

Definition on_tls_header (this : SSL) (t : ConnectedTarget) (buf size : Z)
    (on_hs : hs_step) (c : ctx W) : result (bool * ctx W) :=
  msg_type ← load (c_block c) buf;
  if negb (msg_type =? 0x16) then failure_cb this t buf size c else
  length ← load_n (c_block c) (buf + 3) 2;
  Ok (true, with_sm (set_trigger
                       (SizeDataTrigger (ntohs (le_value length)) (Some (OnHandshake this on_hs)))) c).

Definition on_handshake1 (this : SSL) (t : ConnectedTarget) (buf size : Z) (c : ctx W) :
    result (bool * ctx W) :=
  if size <? sizeof_Handshake then failure_cb this t buf size c else
  let size := u32 (size - sizeof_Handshake) in
  msg_type ← load (c_block c) buf;
  if negb (msg_type =? 2) then failure_cb this t buf size c else
  length ← get_length (c_block c) (buf + 1);
  if negb (u32 length =? size) then failure_cb this t buf size c else
  let buf := buf + sizeof_Handshake in
  cipher ← load_n (c_block c) (buf + u32 (size - 3)) 2;
  '(ret, c) ← call_cb true ((λ f cipher, call_user_cipher f t cipher) <$> _on_cipher this)
                (le_value cipher) c;
  if negb ret then Ok (false, c) else
  Ok (true, with_sm (set_trigger
                       (SizeDataTrigger sizeof_TLS (Some (OnTlsHeader this handshake2)))) c).

(** The [while (crts_len > 0)] of [on_handshake2]. *)
Fixpoint certificates_loop (fuel : nat) (this : SSL) (t : ConnectedTarget)
    (buf size crts_len : Z) (c : ctx W) : result (bool * ctx W) :=
  match fuel with
  | O => Fail OutOfFuel
  | S fuel =>
      if negb (0 <? crts_len) then Ok (false, c) else
      if crts_len <? 3 then failure_cb this t buf size c else
      crt_len ← get_length (c_block c) buf;
      if crts_len <? crt_len then failure_cb this t buf size c else
      let buf := buf + 3 in
      let crts_len := crts_len - 3 in
      '(ret, c) ← call_data_cb true (_on_certif this) t buf crt_len c;
      if negb ret then Ok (false, c) else
      certificates_loop fuel this t (buf + crt_len) size (crts_len - crt_len) c
  end.

Definition on_handshake2 (fuel : nat) (this : SSL) (t : ConnectedTarget)
    (buf size : Z) (c : ctx W) : result (bool * ctx W) :=
  if size <? sizeof_Handshake then failure_cb this t buf size c else
  let size := u32 (size - sizeof_Handshake) in
  length ← get_length (c_block c) (buf + 1);
  msg_type ← load (c_block c) buf;
  if negb (msg_type =? 11) then failure_cb this t buf size c else
  if negb (u32 length =? size) then failure_cb this t buf size c else
  let buf := buf + sizeof_Handshake in
  if size <? 3 then failure_cb this t buf size c else
  crts_len ← get_length (c_block c) buf;
  let size := u32 (size - 3) in
  let buf := buf + 3 in
  if negb (u32 crts_len =? size) then failure_cb this t buf size c else
  certificates_loop fuel this t buf size crts_len c.

End SSL.

(** ** The ClientHello *)

(** A reader of TLS vectors: [take_vec k] reads a [k]-byte length and that
    many bytes. *)
Definition take_n (n : Z) (l : list Z) : option (list Z * list Z) :=
  if n <=? zlen l then Some (ztake n l, zdrop n l) else None.
Definition take_vec (k : Z) (l : list Z) : option (list Z * list Z) :=
  '(n, l) ← take_n k l; take_n (be_value n) l.

Record hello := mkHello {
  record_type : list Z; record_version : list Z; handshake_type : list Z;
  hello_version : list Z; hello_random : list Z; session_id : list Z;
  cipher_suites : list Z; compression_methods : list Z; extensions : list Z;
  left_over : list Z;
}.

(** A record holding one ClientHello, as the TLS standard lays it out. *)
Definition parse_client_hello (l : list Z) : option hello :=
  '(rt, l) ← take_n 1 l;
  '(rv, l) ← take_n 2 l;
  '(rec, after) ← take_vec 2 l;
  '(ht, rec) ← take_n 1 rec;
  '(body, after_hs) ← take_vec 3 rec;
  '(cv, body) ← take_n 2 body;
  '(random, body) ← take_n 32 body;
  '(sid, body) ← take_vec 1 body;
  '(suites, body) ← take_vec 2 body;
  '(comp, body) ← take_vec 1 body;
  '(ext, body) ← take_vec 2 body;
  Some (mkHello rt rv ht cv random sid suites comp ext (after ++ after_hs ++ body)).

Section ClientHello.
Context {L : Leeloo} {UC : UserCode}.

(** C28. What [SSL()] sends is a well-formed TLS record: a reader of the
    standard layout finds one SSL 3.0 ClientHello that fills it exactly,
    carrying the current time in the random, the ten cipher suites 0001, 0002,
    003B, 0004, 0005, 000A, 002F, 0035, 003C and 003D, the null compression,
    an empty session id and no extension; it is 70 bytes long. *)
Theorem client_hello_well_formed now :
  length (client_hello (SSL_ctor now)) = 70%nat ∧
  parse_client_hello (client_hello (SSL_ctor now)) =
    Some (mkHello [0x16] [3; 0] [1] [3; 0] (be_bytes 4 now ++ replicate 28 0xAA) []
            (mjoin (be_bytes 2 <$> [0x0001; 0x0002; 0x003B; 0x0004; 0x0005;
                                    0x000A; 0x002F; 0x0035; 0x003C; 0x003D]))
            [0] [] []).
Proof.
  unfold SSL_ctor, ClientHello_bytes. cbn [client_hello]. rewrite le_bytes_htonl.
  pose proof (be_bytes_length 4 now) as Hl.
  destruct (be_bytes 4 now) as [|a [|b [|d [|e [|]]]]]; try done.
Qed.

End ClientHello.

(** ** Reading the server's records *)

Section Server.
Context {L : Leeloo} {UC : UserCode} {M : Malloc}.
Context {W : Type} {OSW : OS W} {UW : UserCalls W}.

Lemma get_length_bytes m p l2 l1 l0 :
  bytes_at m p [l2; l1; l0] → is_byte l2 → is_byte l1 → is_byte l0 →
  get_length m p = Ok (be_value [l2; l1; l0]).
Proof.
  unfold is_byte. intros H H2 H1 H0. apply bytes_at_cons in H as [E2 H].
  apply bytes_at_cons in H as [E1 H]. apply bytes_at_cons in H as [E0 _].
  replace (p + 1 + 1) with (p + 2) in E0 by lia. unfold get_length. rewrite E2, E1, E0. simpl. f_equal.
  rewrite !Z.shiftl_mul_pow2 by lia.
  rewrite (Z.lor_comm (l2 * _)), (lor_disjoint (l1 * 2 ^ 8)) by lia.
  rewrite Z.lor_comm.
  replace (l1 * 2 ^ 8 + l2 * 2 ^ 16) with ((l1 + l2 * 2 ^ 8) * 2 ^ 8) by lia.
  rewrite lor_disjoint by lia. unfold be_value; simpl. lia.
Qed.

Lemma get_length_be m p n :
  bytes_at m p (be_bytes 3 n) → 0 ≤ n < 2 ^ 24 → get_length m p = Ok n.
Proof.
  intros H Hn. pose proof (be_bytes_length 3 n) as Hl. pose proof (be_bytes_byte 3 n) as Hb.
  pose proof (be_value_bytes 3 n) as Hv. simpl in Hv. rewrite Z.mod_small in Hv by lia.
  destruct (be_bytes 3 n) as [|a [|b [|d [|]]]]; try done.
  rewrite <- Hv. repeat (apply Forall_cons in Hb as [? Hb]). by apply get_length_bytes.
Qed.

(** The connection waits for the next record header. *)
Definition awaits_header (this : SSL) (hs : hs_step) (c : ctx W) : ctx W :=
  with_sm (set_trigger (SizeDataTrigger sizeof_TLS (Some (OnTlsHeader this hs)))) c.

(** A ServerHello without extensions, and the handshake message around a body. *)
Definition server_hello (version random sid : list Z) (cipher comp : Z) : list Z :=
  version ++ random ++ zlen sid :: sid ++ be_bytes 2 cipher ++ [comp].
Definition handshake (msg_type : Z) (body : list Z) : list Z :=
  msg_type :: be_bytes 3 (zlen body) ++ body.

Lemma handshake_length msg_type body : zlen (handshake msg_type body) = 4 + zlen body.
Proof. unfold handshake. simpl. solve_length. Qed.

(** On a ServerHello without extensions [on_handshake1] hands the chosen
    suite to [on_cipher], with its two bytes still in network order, and
    unless that answers [false] it waits for the header of the next record. *)
Lemma on_handshake1_server_hello this t off size c version random sid cipher comp body :
  body = server_hello version random sid cipher comp →
  bytes_at (c_block c) off (handshake 2 body) →
  size = zlen (handshake 2 body) → zlen body < 2 ^ 24 → 0 ≤ cipher < 2 ^ 16 →
  on_handshake1 this t off size c =
    match _on_cipher this with
    | None => Ok (true, awaits_header this handshake2 c)
    | Some f =>
        '(ret, c) ← call_user_cipher f t (htons cipher) c;
        if (ret : bool) then Ok (true, awaits_header this handshake2 c) else Ok (false, c)
    end.
Proof.
  intros Hbody Hat Hsize Hlen Hci. rewrite handshake_length in Hsize.
  apply bytes_at_cons in Hat as [Hty Hat]. apply bytes_at_app in Hat as [Hgl Hat].
  rewrite be_bytes_length in Hat.
  assert (Hge : zlen body = 3 + zlen (version ++ random ++ zlen sid :: sid)).
  { rewrite Hbody. unfold server_hello. repeat (rewrite ?length_app, ?be_bytes_length; simpl). lia. }
  assert (Hcipher : bytes_at (c_block c) (off + 4 + (zlen body - 3)) (be_bytes 2 cipher)).
  { unfold server_hello in Hbody.
    replace (version ++ _) with
      ((version ++ random ++ zlen sid :: sid) ++ be_bytes 2 cipher ++ [comp]) in Hbody
      by (rewrite <- !app_assoc; done).
    rewrite Hbody in Hat. apply bytes_at_app in Hat as [_ Hat].
    apply bytes_at_app in Hat as [Hat _]. rewrite Hge.
    replace (off + 4 + _) with (off + 1 + Z.of_nat 3 + zlen (version ++ random ++ zlen sid :: sid))
      by lia. done. }
  unfold on_handshake1, sizeof_Handshake.
  rewrite (proj2 (Z.ltb_ge _ _)), Hty by lia. simpl.
  rewrite (get_length_be _ _ (zlen body)) by (done || lia). simpl.
  rewrite Hsize, !u32_small by lia.
  replace (4 + zlen body - 4) with (zlen body) by lia. rewrite Z.eqb_refl. simpl.
  apply bytes_at_load_n in Hcipher. rewrite be_bytes_length in Hcipher.
  change (Z.of_nat 2) with 2 in Hcipher. rewrite Hcipher. simpl.
  unfold call_cb. destruct (_on_cipher this) as [f|]; [|done]. simpl.
  change (le_value (be_bytes 2 cipher)) with (htons cipher).
  destruct (call_user_cipher _ _ _ _) as [[[] c']|e]; done.
Qed.

(** C38. A ServerHello whose body has fewer than three bytes makes
    [on_handshake1] read the suite at an index that wrapped around 32 bits,
    far outside the buffer: any server can cause the access by sending the
    four bytes 02 00 00 00 in a handshake record. *)
Theorem on_handshake1_out_of_bounds this t off c body :
  Buffer.wf (c_buf c) → bytes_at (c_block c) off (handshake 2 body) → zlen body < 3 →
  on_handshake1 this t off (zlen (handshake 2 body)) c = Fail UB.
Proof.
  intros (Hp & Hs & Hl) Hat Hlen. unfold Buffer.max_size in Hs.
  pose proof (bytes_at_bound _ _ _ Hat) as [Hoff Hbound].
  rewrite handshake_length in *. unfold c_block in *.
  apply bytes_at_cons in Hat as [Hty Hat]. apply bytes_at_app in Hat as [Hgl _].
  unfold on_handshake1, sizeof_Handshake, c_block.
  rewrite (proj2 (Z.ltb_ge _ _)), Hty by lia. simpl.
  rewrite (get_length_be _ _ (zlen body)) by (done || lia). simpl.
  replace (4 + zlen body - 4) with (zlen body) by lia.
  rewrite !(u32_small (zlen body)) by lia. rewrite Z.eqb_refl. simpl.
  unfold load_n.
  assert (Hu : u32 (zlen body - 3) = 2 ^ 32 + (zlen body - 3)) by zlia.
  rewrite Hu. destruct (_ && _) eqn:E; [lia|done].
Qed.

(** ** Certificates *)

Section Certificates.
Context {U : Type} (h : list Z → U → bool * U) (usr : W → U).

(** The user's function [f] runs the handler [h] on the bytes it is given and
    leaves the connection alone. *)
Definition runs_certif (t : ConnectedTarget) (f : user_data) : Prop := ∀ off n (c : ctx W) data,
  load_n (c_block c) off n = Ok data →
  ∃ w', call_user_data f t off n c = Ok ((h data (usr (c_world c))).1, with_world w' c) ∧
        usr w' = (h data (usr (c_world c))).2.

(** The certificate list of the standard, and the specification of its
    delivery: in order, until the handler refuses one. *)
Definition encode_certificates (cs : list (list Z)) : list Z :=
  mjoin ((λ cert, be_bytes 3 (zlen cert) ++ cert) <$> cs).

Fixpoint deliver_certificates (cs : list (list Z)) (u : U) : U :=
  match cs with
  | [] => u
  | cert :: cs => let '(go, u) := h cert u in if go then deliver_certificates cs u else u
  end.

Lemma certificates_loop_delivers fuel this t f buf size cs (c : ctx W) :
  _on_certif this = Some f → runs_certif t f →
  bytes_at (c_block c) buf (encode_certificates cs) →
  zlen (encode_certificates cs) < 2 ^ 24 → (length cs < fuel)%nat →
  ∃ w', certificates_loop fuel this t buf size (zlen (encode_certificates cs)) c =
          Ok (false, with_world w' c) ∧
        usr w' = deliver_certificates cs (usr (c_world c)).
Proof.
  intros Hf Hrun. revert buf cs c. induction fuel as [|fuel IH]; intros buf cs c Hat Hlen Hfuel; [lia|].
  destruct cs as [|cert cs]; cbn [certificates_loop].
  { exists (c_world c). split; [|done]. by destruct c. }
  change (encode_certificates (cert :: cs)) with
    ((be_bytes 3 (zlen cert) ++ cert) ++ encode_certificates cs) in *.
  rewrite !length_app, be_bytes_length in *.
  rewrite (proj2 (Z.ltb_lt 0 _)), (proj2 (Z.ltb_ge _ 3)) by lia. simpl.
  rewrite <- app_assoc in Hat. apply bytes_at_app in Hat as [Hgl Hat].
  apply bytes_at_app in Hat as [Hcert Hat]. rewrite be_bytes_length in *.
  rewrite (get_length_be _ _ (zlen cert)) by (done || lia). simpl.
  rewrite (proj2 (Z.ltb_ge _ _)) by lia.
  destruct (Hrun (buf + 3) (zlen cert) c cert) as (w' & Hcall & Hu).
  { by apply bytes_at_load_n in Hcert. }
  unfold call_data_cb, call_cb. rewrite Hf. simpl. rewrite Hcall. simpl.
  destruct (h cert (usr (c_world c))) as [[] u]; simpl in *.
  - destruct (IH (buf + 3 + zlen cert) cs (with_world w' c)) as (w'' & Hl & Hu');
      [exact Hat|lia|lia|].
    exists w''. split; [etrans; [|exact Hl]; f_equal; lia|]. rewrite Hu'. simpl. by rewrite Hu.
  - exists w'. done.
Qed.

(** On a Certificate message the user's function is called with each
    certificate of the list, whole, in order, until it answers [false]; the
    connection then ends. The loop needs one iteration per certificate. *)
Lemma on_handshake2_delivers fuel this t f off cs body (c : ctx W) :
  body = be_bytes 3 (zlen (encode_certificates cs)) ++ encode_certificates cs →
  _on_certif this = Some f → runs_certif t f →
  bytes_at (c_block c) off (handshake 11 body) → zlen body < 2 ^ 24 →
  (length cs < fuel)%nat →
  ∃ w', on_handshake2 fuel this t off (zlen (handshake 11 body)) c =
          Ok (false, with_world w' c) ∧
        usr w' = deliver_certificates cs (usr (c_world c)).
Proof.
  intros Hbody Hf Hrun Hat Hlen Hfuel. rewrite handshake_length.
  apply bytes_at_cons in Hat as [Hty Hat]. apply bytes_at_app in Hat as [Hgl Hat].
  rewrite be_bytes_length in Hat. rewrite Hbody in Hat.
  apply bytes_at_app in Hat as [Hgl' Hat]. rewrite be_bytes_length in Hat.
  assert (Hb : zlen body = 3 + zlen (encode_certificates cs)).
  { rewrite Hbody, length_app, be_bytes_length. lia. }
  unfold on_handshake2, sizeof_Handshake.
  rewrite (proj2 (Z.ltb_ge _ _)) by lia.
  rewrite (get_length_be _ (off + 1) (zlen body)), Hty by (done || lia). simpl.
  replace (4 + zlen body - 4) with (zlen body) by lia.
  rewrite !(u32_small (zlen body)) by lia. rewrite Z.eqb_refl. simpl.
  rewrite (proj2 (Z.ltb_ge _ _)) by lia.
  replace (off + 1 + Z.of_nat 3) with (off + 4) in * by lia.
  rewrite (get_length_be _ _ (zlen (encode_certificates cs))) by (done || lia). simpl.
  rewrite !u32_small by lia.
  rewrite Hb. replace (3 + _ - 3) with (zlen (encode_certificates cs)) by lia.
  rewrite Z.eqb_refl. simpl.
  apply (certificates_loop_delivers fuel this t f); auto. lia.
Qed.

End Certificates.

(** C39. The length of a certificate is compared with what is left of the
    list before its own 3-byte header is taken off. A list whose only
    certificate announces up to three bytes more than the message holds is
    accepted, and the user's function is given a range that ends [k] bytes
    past the end of the message. *)
Theorem certificate_overruns fuel this t f off k cert body (c : ctx W) :
  1 ≤ k ≤ 3 → _on_certif this = Some f →
  body = be_bytes 3 (3 + zlen cert) ++ be_bytes 3 (zlen cert + k) ++ cert →
  bytes_at (c_block c) off (handshake 11 body) → zlen body < 2 ^ 24 →
  (2 ≤ fuel)%nat →
  off + 10 + (zlen cert + k) = off + zlen (handshake 11 body) + k ∧
  on_handshake2 fuel this t off (zlen (handshake 11 body)) c =
    '(_, c) ← call_user_data f t (off + 10) (zlen cert + k) c; Ok (false, c).
Proof.
  intros Hk Hf Hbody Hat Hlen Hfuel. rewrite handshake_length.
  apply bytes_at_cons in Hat as [Hty Hat]. apply bytes_at_app in Hat as [Hgl Hat].
  rewrite be_bytes_length in Hat. rewrite Hbody in Hat.
  apply bytes_at_app in Hat as [Hgl' Hat]. rewrite be_bytes_length in Hat.
  apply bytes_at_app in Hat as [Hgl'' _].
  replace (off + 1 + Z.of_nat 3) with (off + 4) in * by lia.
  replace (off + 4 + Z.of_nat 3) with (off + 7) in * by lia.
  assert (Hb : zlen body = 6 + zlen cert).
  { rewrite Hbody, !length_app, !be_bytes_length. lia. }
  split; [lia|]. unfold on_handshake2, sizeof_Handshake.
  rewrite (proj2 (Z.ltb_ge _ _)) by lia.
  rewrite (get_length_be _ (off + 1) (zlen body)), Hty by (done || lia). simpl.
  replace (4 + zlen body - 4) with (zlen body) by lia.
  rewrite !(u32_small (zlen body)) by lia. rewrite Z.eqb_refl. simpl.
  rewrite (proj2 (Z.ltb_ge _ _)) by lia.
  rewrite (get_length_be _ _ (3 + zlen cert)) by (done || lia). simpl.
  rewrite !u32_small by lia. rewrite Hb.
  replace (6 + zlen cert - 3) with (3 + zlen cert) by lia.
  rewrite Z.eqb_refl. simpl.
  destruct fuel as [|[|fuel]]; [lia|lia|]. remember (S fuel) as fuel' eqn:Hfu.
  cbn [certificates_loop].
  rewrite (proj2 (Z.ltb_lt 0 _)), (proj2 (Z.ltb_ge _ 3)) by lia. simpl.
  replace (off + 4 + 3) with (off + 7) by lia.
  rewrite (get_length_be _ _ (zlen cert + k)) by (done || lia). simpl.
  rewrite (proj2 (Z.ltb_ge _ _)) by lia. unfold call_data_cb, call_cb. rewrite Hf. simpl.
  replace (off + 7 + 3) with (off + 10) by lia.
  destruct (call_user_data _ _ _ _ _) as [[[] c']|e]; [|done|done]. simpl.
  rewrite Hfu. cbn [certificates_loop]. rewrite (proj2 (Z.ltb_ge 0 _)) by lia. done.
Qed.


(** ** The certificate loop ends *)

(** The user's functions return or fail, and write only bytes. *)
Definition user_data_returns : Prop := ∀ u t off n (c : ctx W),
  Forall is_byte (c_block c) →
  match call_user_data u t off n c with
  | Ok (_, c') => Forall is_byte (c_block c')
  | Fail e => e ≠ OutOfFuel
  end.

Lemma load_byte m p b : Forall is_byte m → load m p = Ok b → is_byte b.
Proof.
  intros Hm H. apply load_inv in H as [_ H]. rewrite Forall_lookup in Hm. eauto.
Qed.

Lemma load_fail m p e : load m p = Fail e → e = UB.
Proof.
  unfold load, assume_defined. destruct (_ <=? _); simpl; [|congruence].
  destruct (_ !! _); simpl; congruence.
Qed.

Lemma get_length_cases m p :
  Forall is_byte m → (∃ n, get_length m p = Ok n ∧ 0 ≤ n) ∨ get_length m p = Fail UB.
Proof.
  intros Hm. unfold get_length.
  destruct (load m p) as [a|e] eqn:Ea; simpl; [|apply load_fail in Ea as ->; by right].
  destruct (load m (p + 1)) as [b|e] eqn:Eb; simpl; [|apply load_fail in Eb as ->; by right].
  destruct (load m (p + 2)) as [d|e] eqn:Ed; simpl; [|apply load_fail in Ed as ->; by right].
  left. eexists; split; [done|].
  apply (load_byte _ _ _ Hm) in Ea, Eb, Ed. unfold is_byte in *.
  rewrite !Z.lor_nonneg, !Z.shiftl_nonneg. lia.
Qed.

Lemma call_data_cb_returns def f t buf size (c : ctx W) :
  user_data_returns → Forall is_byte (c_block c) →
  match call_data_cb def f t buf size c with
  | Ok (_, c') => Forall is_byte (c_block c')
  | Fail e => e ≠ OutOfFuel
  end.
Proof. intros Hu Hb. destruct f as [u|]; simpl; [by apply Hu|done]. Qed.

(** Whatever the server sends, the loop over the certificates ends: each
    turn takes at least the three bytes of a header off the list. *)
Theorem certificates_loop_terminates fuel this t buf size crts_len (c : ctx W) :
  user_data_returns → Forall is_byte (c_block c) → Z.max 0 crts_len < Z.of_nat fuel →
  certificates_loop fuel this t buf size crts_len c ≠ Fail OutOfFuel.
Proof.
  intros Hu. revert buf crts_len c.
  induction fuel as [|fuel IH]; intros buf crts_len c Hb Hfuel; [lia|].
  cbn [certificates_loop].
  destruct (negb _) eqn:Hpos; [done|]. apply negb_false_iff, Z.ltb_lt in Hpos.
  pose proof (λ def f off n, call_data_cb_returns def f t off n c Hu Hb) as Hcb.
  destruct (crts_len <? 3).
  { specialize (Hcb false (_on_failure this) buf size). unfold failure_cb.
    by destruct (call_data_cb _ _ _ _ _ _) as [[]|[]]. }
  destruct (get_length_cases (c_block c) buf Hb) as [(n & -> & Hn)| -> ]; [|done]. simpl.
  destruct (crts_len <? n) eqn:Hlt.
  { specialize (Hcb false (_on_failure this) buf size). unfold failure_cb.
    by destruct (call_data_cb _ _ _ _ _ _) as [[]|[]]. }
  specialize (Hcb true (_on_certif this) (buf + 3) n).
  destruct (call_data_cb _ _ _ _ _ _) as [[[] c']|[]]; try done.
  simpl. apply IH; [done|lia].
Qed.

End Server.
