(* ===== verification/SSH.v ===== *)
(** * The SSH scanner: src/src/protocols/ssh.cpp

    The two packets sent to the server, and the chain of functions that
    skip its key exchange packets and hand its reply to the user:
    [SshBanner] reads the identification line, [SSHAnswer] reads the first five
    bytes of a packet and waits for the rest, [SSHGetCertificate] checks
    the reply that carries the host key.

    Main results: the number of bytes
    [SSHAnswer] waits for, which is that of the standard exactly when the
    packet has six bytes of padding; and the functional behaviour of
    [SSHGetCertificate] on every branch. *)

From S2P Require Import Prelude Lvl4Buffer Leeloo Target HostSM Lvl4SM Closures.
From stdpp Require Import strings.
#[local] Open Scope Z_scope.

(** The bytes of a character string. *)
Fixpoint bytes_of_string (s : string) : list Z :=
  match s with
  | EmptyString => []
  | String a s => Z.of_N (Ascii.N_of_ascii a) :: bytes_of_string s
  end.

Definition client_key_exchange : list Z :=
  [
   0x00; 0x00; 0x05; 0xAC; 0x04; 0x14; 0x45; 0x17; 0x1E; 0xD1; 0x8D; 0x29; 0x3F; 0xC8; 0xCF; 0xD0;
   0xE6; 0x00; 0x22; 0xE8; 0xE5; 0x2C; 0x00; 0x00; 0x00; 0x38; 0x65; 0x63; 0x64; 0x68; 0x2D; 0x73;
   0x68; 0x61; 0x32; 0x2D; 0x6E; 0x69; 0x73; 0x74; 0x70; 0x32; 0x35; 0x36; 0x2C; 0x65; 0x63; 0x64;
   0x68; 0x2D; 0x73; 0x68; 0x61; 0x32; 0x2D; 0x6E; 0x69; 0x73; 0x74; 0x70; 0x33; 0x38; 0x34; 0x2C;
   0x65; 0x63; 0x64; 0x68; 0x2D; 0x73; 0x68; 0x61; 0x32; 0x2D; 0x6E; 0x69; 0x73; 0x74; 0x70; 0x35;
   0x32; 0x31; 0x00; 0x00; 0x00; 0x07; 0x73; 0x73; 0x68; 0x2D; 0x72; 0x73; 0x61; 0x00; 0x00; 0x00;
   0xE9; 0x61; 0x65; 0x73; 0x31; 0x32; 0x38; 0x2D; 0x63; 0x74; 0x72; 0x2C; 0x61; 0x65; 0x73; 0x31;
   0x39; 0x32; 0x2D; 0x63; 0x74; 0x72; 0x2C; 0x61; 0x65; 0x73; 0x32; 0x35; 0x36; 0x2D; 0x63; 0x74;
   0x72; 0x2C; 0x61; 0x72; 0x63; 0x66; 0x6F; 0x75; 0x72; 0x32; 0x35; 0x36; 0x2C; 0x61; 0x72; 0x63;
   0x66; 0x6F; 0x75; 0x72; 0x31; 0x32; 0x38; 0x2C; 0x61; 0x65; 0x73; 0x31; 0x32; 0x38; 0x2D; 0x67;
   0x63; 0x6D; 0x40; 0x6F; 0x70; 0x65; 0x6E; 0x73; 0x73; 0x68; 0x2E; 0x63; 0x6F; 0x6D; 0x2C; 0x61;
   0x65; 0x73; 0x32; 0x35; 0x36; 0x2D; 0x67; 0x63; 0x6D; 0x40; 0x6F; 0x70; 0x65; 0x6E; 0x73; 0x73;
   0x68; 0x2E; 0x63; 0x6F; 0x6D; 0x2C; 0x63; 0x68; 0x61; 0x63; 0x68; 0x61; 0x32; 0x30; 0x2D; 0x70;
   0x6F; 0x6C; 0x79; 0x31; 0x33; 0x30; 0x35; 0x40; 0x6F; 0x70; 0x65; 0x6E; 0x73; 0x73; 0x68; 0x2E;
   0x63; 0x6F; 0x6D; 0x2C; 0x61; 0x65; 0x73; 0x31; 0x32; 0x38; 0x2D; 0x63; 0x62; 0x63; 0x2C; 0x33;
   0x64; 0x65; 0x73; 0x2D; 0x63; 0x62; 0x63; 0x2C; 0x62; 0x6C; 0x6F; 0x77; 0x66; 0x69; 0x73; 0x68;
   0x2D; 0x63; 0x62; 0x63; 0x2C; 0x63; 0x61; 0x73; 0x74; 0x31; 0x32; 0x38; 0x2D; 0x63; 0x62; 0x63;
   0x2C; 0x61; 0x65; 0x73; 0x31; 0x39; 0x32; 0x2D; 0x63; 0x62; 0x63; 0x2C; 0x61; 0x65; 0x73; 0x32;
   0x35; 0x36; 0x2D; 0x63; 0x62; 0x63; 0x2C; 0x61; 0x72; 0x63; 0x66; 0x6F; 0x75; 0x72; 0x2C; 0x72;
   0x69; 0x6A; 0x6E; 0x64; 0x61; 0x65; 0x6C; 0x2D; 0x63; 0x62; 0x63; 0x40; 0x6C; 0x79; 0x73; 0x61;
   0x74; 0x6F; 0x72; 0x2E; 0x6C; 0x69; 0x75; 0x2E; 0x73; 0x65; 0x00; 0x00; 0x00; 0xE9; 0x61; 0x65;
   0x73; 0x31; 0x32; 0x38; 0x2D; 0x63; 0x74; 0x72; 0x2C; 0x61; 0x65; 0x73; 0x31; 0x39; 0x32; 0x2D;
   0x63; 0x74; 0x72; 0x2C; 0x61; 0x65; 0x73; 0x32; 0x35; 0x36; 0x2D; 0x63; 0x74; 0x72; 0x2C; 0x61;
   0x72; 0x63; 0x66; 0x6F; 0x75; 0x72; 0x32; 0x35; 0x36; 0x2C; 0x61; 0x72; 0x63; 0x66; 0x6F; 0x75;
   0x72; 0x31; 0x32; 0x38; 0x2C; 0x61; 0x65; 0x73; 0x31; 0x32; 0x38; 0x2D; 0x67; 0x63; 0x6D; 0x40;
   0x6F; 0x70; 0x65; 0x6E; 0x73; 0x73; 0x68; 0x2E; 0x63; 0x6F; 0x6D; 0x2C; 0x61; 0x65; 0x73; 0x32;
   0x35; 0x36; 0x2D; 0x67; 0x63; 0x6D; 0x40; 0x6F; 0x70; 0x65; 0x6E; 0x73; 0x73; 0x68; 0x2E; 0x63;
   0x6F; 0x6D; 0x2C; 0x63; 0x68; 0x61; 0x63; 0x68; 0x61; 0x32; 0x30; 0x2D; 0x70; 0x6F; 0x6C; 0x79;
   0x31; 0x33; 0x30; 0x35; 0x40; 0x6F; 0x70; 0x65; 0x6E; 0x73; 0x73; 0x68; 0x2E; 0x63; 0x6F; 0x6D;
   0x2C; 0x61; 0x65; 0x73; 0x31; 0x32; 0x38; 0x2D; 0x63; 0x62; 0x63; 0x2C; 0x33; 0x64; 0x65; 0x73;
   0x2D; 0x63; 0x62; 0x63; 0x2C; 0x62; 0x6C; 0x6F; 0x77; 0x66; 0x69; 0x73; 0x68; 0x2D; 0x63; 0x62;
   0x63; 0x2C; 0x63; 0x61; 0x73; 0x74; 0x31; 0x32; 0x38; 0x2D; 0x63; 0x62; 0x63; 0x2C; 0x61; 0x65;
   0x73; 0x31; 0x39; 0x32; 0x2D; 0x63; 0x62; 0x63; 0x2C; 0x61; 0x65; 0x73; 0x32; 0x35; 0x36; 0x2D;
   0x63; 0x62; 0x63; 0x2C; 0x61; 0x72; 0x63; 0x66; 0x6F; 0x75; 0x72; 0x2C; 0x72; 0x69; 0x6A; 0x6E;
   0x64; 0x61; 0x65; 0x6C; 0x2D; 0x63; 0x62; 0x63; 0x40; 0x6C; 0x79; 0x73; 0x61; 0x74; 0x6F; 0x72;
   0x2E; 0x6C; 0x69; 0x75; 0x2E; 0x73; 0x65; 0x00; 0x00; 0x01; 0x92; 0x68; 0x6D; 0x61; 0x63; 0x2D;
   0x6D; 0x64; 0x35; 0x2D; 0x65; 0x74; 0x6D; 0x40; 0x6F; 0x70; 0x65; 0x6E; 0x73; 0x73; 0x68; 0x2E;
   0x63; 0x6F; 0x6D; 0x2C; 0x68; 0x6D; 0x61; 0x63; 0x2D; 0x73; 0x68; 0x61; 0x31; 0x2D; 0x65; 0x74;
   0x6D; 0x40; 0x6F; 0x70; 0x65; 0x6E; 0x73; 0x73; 0x68; 0x2E; 0x63; 0x6F; 0x6D; 0x2C; 0x75; 0x6D;
   0x61; 0x63; 0x2D; 0x36; 0x34; 0x2D; 0x65; 0x74; 0x6D; 0x40; 0x6F; 0x70; 0x65; 0x6E; 0x73; 0x73;
   0x68; 0x2E; 0x63; 0x6F; 0x6D; 0x2C; 0x75; 0x6D; 0x61; 0x63; 0x2D; 0x31; 0x32; 0x38; 0x2D; 0x65;
   0x74; 0x6D; 0x40; 0x6F; 0x70; 0x65; 0x6E; 0x73; 0x73; 0x68; 0x2E; 0x63; 0x6F; 0x6D; 0x2C; 0x68;
   0x6D; 0x61; 0x63; 0x2D; 0x73; 0x68; 0x61; 0x32; 0x2D; 0x32; 0x35; 0x36; 0x2D; 0x65; 0x74; 0x6D;
   0x40; 0x6F; 0x70; 0x65; 0x6E; 0x73; 0x73; 0x68; 0x2E; 0x63; 0x6F; 0x6D; 0x2C; 0x68; 0x6D; 0x61;
   0x63; 0x2D; 0x73; 0x68; 0x61; 0x32; 0x2D; 0x35; 0x31; 0x32; 0x2D; 0x65; 0x74; 0x6D; 0x40; 0x6F;
   0x70; 0x65; 0x6E; 0x73; 0x73; 0x68; 0x2E; 0x63; 0x6F; 0x6D; 0x2C; 0x68; 0x6D; 0x61; 0x63; 0x2D;
   0x72; 0x69; 0x70; 0x65; 0x6D; 0x64; 0x31; 0x36; 0x30; 0x2D; 0x65; 0x74; 0x6D; 0x40; 0x6F; 0x70;
   0x65; 0x6E; 0x73; 0x73; 0x68; 0x2E; 0x63; 0x6F; 0x6D; 0x2C; 0x68; 0x6D; 0x61; 0x63; 0x2D; 0x73;
   0x68; 0x61; 0x31; 0x2D; 0x39; 0x36; 0x2D; 0x65; 0x74; 0x6D; 0x40; 0x6F; 0x70; 0x65; 0x6E; 0x73;
   0x73; 0x68; 0x2E; 0x63; 0x6F; 0x6D; 0x2C; 0x68; 0x6D; 0x61; 0x63; 0x2D; 0x6D; 0x64; 0x35; 0x2D;
   0x39; 0x36; 0x2D; 0x65; 0x74; 0x6D; 0x40; 0x6F; 0x70; 0x65; 0x6E; 0x73; 0x73; 0x68; 0x2E; 0x63;
   0x6F; 0x6D; 0x2C; 0x68; 0x6D; 0x61; 0x63; 0x2D; 0x6D; 0x64; 0x35; 0x2C; 0x68; 0x6D; 0x61; 0x63;
   0x2D; 0x73; 0x68; 0x61; 0x31; 0x2C; 0x75; 0x6D; 0x61; 0x63; 0x2D; 0x36; 0x34; 0x40; 0x6F; 0x70;
   0x65; 0x6E; 0x73; 0x73; 0x68; 0x2E; 0x63; 0x6F; 0x6D; 0x2C; 0x75; 0x6D; 0x61; 0x63; 0x2D; 0x31;
   0x32; 0x38; 0x40; 0x6F; 0x70; 0x65; 0x6E; 0x73; 0x73; 0x68; 0x2E; 0x63; 0x6F; 0x6D; 0x2C; 0x68;
   0x6D; 0x61; 0x63; 0x2D; 0x73; 0x68; 0x61; 0x32; 0x2D; 0x32; 0x35; 0x36; 0x2C; 0x68; 0x6D; 0x61;
   0x63; 0x2D; 0x73; 0x68; 0x61; 0x32; 0x2D; 0x35; 0x31; 0x32; 0x2C; 0x68; 0x6D; 0x61; 0x63; 0x2D;
   0x72; 0x69; 0x70; 0x65; 0x6D; 0x64; 0x31; 0x36; 0x30; 0x2C; 0x68; 0x6D; 0x61; 0x63; 0x2D; 0x72;
   0x69; 0x70; 0x65; 0x6D; 0x64; 0x31; 0x36; 0x30; 0x40; 0x6F; 0x70; 0x65; 0x6E; 0x73; 0x73; 0x68;
   0x2E; 0x63; 0x6F; 0x6D; 0x2C; 0x68; 0x6D; 0x61; 0x63; 0x2D; 0x73; 0x68; 0x61; 0x31; 0x2D; 0x39;
   0x36; 0x2C; 0x68; 0x6D; 0x61; 0x63; 0x2D; 0x6D; 0x64; 0x35; 0x2D; 0x39; 0x36; 0x00; 0x00; 0x01;
   0x92; 0x68; 0x6D; 0x61; 0x63; 0x2D; 0x6D; 0x64; 0x35; 0x2D; 0x65; 0x74; 0x6D; 0x40; 0x6F; 0x70;
   0x65; 0x6E; 0x73; 0x73; 0x68; 0x2E; 0x63; 0x6F; 0x6D; 0x2C; 0x68; 0x6D; 0x61; 0x63; 0x2D; 0x73;
   0x68; 0x61; 0x31; 0x2D; 0x65; 0x74; 0x6D; 0x40; 0x6F; 0x70; 0x65; 0x6E; 0x73; 0x73; 0x68; 0x2E;
   0x63; 0x6F; 0x6D; 0x2C; 0x75; 0x6D; 0x61; 0x63; 0x2D; 0x36; 0x34; 0x2D; 0x65; 0x74; 0x6D; 0x40;
   0x6F; 0x70; 0x65; 0x6E; 0x73; 0x73; 0x68; 0x2E; 0x63; 0x6F; 0x6D; 0x2C; 0x75; 0x6D; 0x61; 0x63;
   0x2D; 0x31; 0x32; 0x38; 0x2D; 0x65; 0x74; 0x6D; 0x40; 0x6F; 0x70; 0x65; 0x6E; 0x73; 0x73; 0x68;
   0x2E; 0x63; 0x6F; 0x6D; 0x2C; 0x68; 0x6D; 0x61; 0x63; 0x2D; 0x73; 0x68; 0x61; 0x32; 0x2D; 0x32;
   0x35; 0x36; 0x2D; 0x65; 0x74; 0x6D; 0x40; 0x6F; 0x70; 0x65; 0x6E; 0x73; 0x73; 0x68; 0x2E; 0x63;
   0x6F; 0x6D; 0x2C; 0x68; 0x6D; 0x61; 0x63; 0x2D; 0x73; 0x68; 0x61; 0x32; 0x2D; 0x35; 0x31; 0x32;
   0x2D; 0x65; 0x74; 0x6D; 0x40; 0x6F; 0x70; 0x65; 0x6E; 0x73; 0x73; 0x68; 0x2E; 0x63; 0x6F; 0x6D;
   0x2C; 0x68; 0x6D; 0x61; 0x63; 0x2D; 0x72; 0x69; 0x70; 0x65; 0x6D; 0x64; 0x31; 0x36; 0x30; 0x2D;
   0x65; 0x74; 0x6D; 0x40; 0x6F; 0x70; 0x65; 0x6E; 0x73; 0x73; 0x68; 0x2E; 0x63; 0x6F; 0x6D; 0x2C;
   0x68; 0x6D; 0x61; 0x63; 0x2D; 0x73; 0x68; 0x61; 0x31; 0x2D; 0x39; 0x36; 0x2D; 0x65; 0x74; 0x6D;
   0x40; 0x6F; 0x70; 0x65; 0x6E; 0x73; 0x73; 0x68; 0x2E; 0x63; 0x6F; 0x6D; 0x2C; 0x68; 0x6D; 0x61;
   0x63; 0x2D; 0x6D; 0x64; 0x35; 0x2D; 0x39; 0x36; 0x2D; 0x65; 0x74; 0x6D; 0x40; 0x6F; 0x70; 0x65;
   0x6E; 0x73; 0x73; 0x68; 0x2E; 0x63; 0x6F; 0x6D; 0x2C; 0x68; 0x6D; 0x61; 0x63; 0x2D; 0x6D; 0x64;
   0x35; 0x2C; 0x68; 0x6D; 0x61; 0x63; 0x2D; 0x73; 0x68; 0x61; 0x31; 0x2C; 0x75; 0x6D; 0x61; 0x63;
   0x2D; 0x36; 0x34; 0x40; 0x6F; 0x70; 0x65; 0x6E; 0x73; 0x73; 0x68; 0x2E; 0x63; 0x6F; 0x6D; 0x2C;
   0x75; 0x6D; 0x61; 0x63; 0x2D; 0x31; 0x32; 0x38; 0x40; 0x6F; 0x70; 0x65; 0x6E; 0x73; 0x73; 0x68;
   0x2E; 0x63; 0x6F; 0x6D; 0x2C; 0x68; 0x6D; 0x61; 0x63; 0x2D; 0x73; 0x68; 0x61; 0x32; 0x2D; 0x32;
   0x35; 0x36; 0x2C; 0x68; 0x6D; 0x61; 0x63; 0x2D; 0x73; 0x68; 0x61; 0x32; 0x2D; 0x35; 0x31; 0x32;
   0x2C; 0x68; 0x6D; 0x61; 0x63; 0x2D; 0x72; 0x69; 0x70; 0x65; 0x6D; 0x64; 0x31; 0x36; 0x30; 0x2C;
   0x68; 0x6D; 0x61; 0x63; 0x2D; 0x72; 0x69; 0x70; 0x65; 0x6D; 0x64; 0x31; 0x36; 0x30; 0x40; 0x6F;
   0x70; 0x65; 0x6E; 0x73; 0x73; 0x68; 0x2E; 0x63; 0x6F; 0x6D; 0x2C; 0x68; 0x6D; 0x61; 0x63; 0x2D;
   0x73; 0x68; 0x61; 0x31; 0x2D; 0x39; 0x36; 0x2C; 0x68; 0x6D; 0x61; 0x63; 0x2D; 0x6D; 0x64; 0x35;
   0x2D; 0x39; 0x36; 0x00; 0x00; 0x00; 0x1A; 0x7A; 0x6C; 0x69; 0x62; 0x40; 0x6F; 0x70; 0x65; 0x6E;
   0x73; 0x73; 0x68; 0x2E; 0x63; 0x6F; 0x6D; 0x2C; 0x7A; 0x6C; 0x69; 0x62; 0x2C; 0x6E; 0x6F; 0x6E;
   0x65; 0x00; 0x00; 0x00; 0x1A; 0x7A; 0x6C; 0x69; 0x62; 0x40; 0x6F; 0x70; 0x65; 0x6E; 0x73; 0x73;
   0x68; 0x2E; 0x63; 0x6F; 0x6D; 0x2C; 0x7A; 0x6C; 0x69; 0x62; 0x2C; 0x6E; 0x6F; 0x6E; 0x65; 0x00
  ] ++ replicate 16 0x00.

Definition client_dh : list Z :=
  [
   0x00; 0x00; 0x00; 0x4C; 0x05; 0x1E; 0x00; 0x00; 0x00; 0x41; 0x04; 0x4A; 0x57; 0x2B; 0x2F; 0xA8;
   0x30; 0xD4; 0x02; 0x92; 0x5F; 0x3E; 0xE6; 0x9F; 0x1F; 0xE6; 0x69; 0x67; 0x20; 0x58; 0x38; 0x38;
   0x76; 0xD9; 0xA8; 0x3E; 0x32; 0x6B; 0xAD; 0xED; 0xBC; 0xBF; 0x0D; 0x9C; 0xAE; 0xBC; 0xAE; 0xBB;
   0xCE; 0xB6; 0x96; 0xD4; 0x03; 0xB1; 0x04; 0x00; 0xA7; 0x16; 0xA9; 0x5D; 0x75; 0x66; 0x44; 0x5B;
   0x6B; 0x8F; 0x63; 0x67; 0x08; 0x06; 0x47; 0xB6; 0x9C; 0x69; 0x6A; 0x00; 0x00; 0x00; 0x00; 0x00
  ].

(** [SSH-2.0-OpenSSH_6.6.1p1 my-little-poney], a carriage return and a newline. *)
Definition identification : list Z :=
  bytes_of_string "SSH-2.0-OpenSSH_6.6.1p1 my-little-poney" ++ [13; 10].

Section SSH.
Context {L : Leeloo} {UC : UserCode}.

Definition SSH_on_certificate (a : option user_data) (ssh : SSH) : SSH :=
  mkSSH a (_cb_invalid ssh).
Definition SSH_on_invalid_answer (a : option user_data) (ssh : SSH) : SSH :=
  mkSSH (_cb_certif ssh) a.

Context {M : Malloc} {W : Type} {OSW : OS W} {UW : UserCalls W}.

(** [SSH::operator()] *)
Definition SSH_call (this : SSH) (t : ConnectedTarget) (c : ctx W) : result (bool * ctx W) :=
  let '(_, w) := send t identification (c_world c) in
  let c := with_world w c in
  Ok (true, with_sm (set_trigger
        (CharDataTrigger 10 (Some (SshBanner (_cb_certif this) (_cb_invalid this))))) c).

(** The lambda that reads the server's identification line. *)
Definition ssh_banner (cb_certif cb_invalid : option user_data) (t : ConnectedTarget)
    (buf size : Z) (c : ctx W) : result (bool * ctx W) :=
  if size <? 7 then call_data_cb false cb_invalid t buf size c else
  head ← load_n (c_block c) buf 7;
  if negb (bool_decide (head = bytes_of_string "SSH-2.0"))
  then call_data_cb false cb_invalid t buf size c else
  let '(_, w) := send t client_key_exchange (c_world c) in
  let '(_, w) := send t client_dh w in
  let c := with_world w c in
  Ok (true, with_sm (set_trigger
        (SizeDataTrigger 5 (Some (SSHAnswer (Some (SshKexReply cb_certif cb_invalid)))))) c).

(** [SSHAnswer::operator()] *)
Definition ssh_answer (_next : option closure) (t : ConnectedTarget)
    (buf size : Z) (c : ctx W) : result (bool * ctx W) :=
  match _next with
  | None => Ok (false, c)
  | Some next =>
      len ← load_n (c_block c) buf 4;
      padding ← load (c_block c) (buf + 4);
      let len := u32 (ntohl (le_value len) + padding) in
      if len <=? 7 then Ok (false, c) else
      let len := len - 7 in
      Ok (true, with_sm (set_trigger (SizeDataTrigger len (Some (SshPayload next)))) c)
  end.

(** The lambda that runs on the server's key exchange packet. *)
Definition ssh_kex_reply (cb_certif cb_invalid : option user_data) (t : ConnectedTarget)
    (buf size : Z) (c : ctx W) : result (bool * ctx W) :=
  Ok (true, with_sm (set_trigger
        (SizeDataTrigger 5 (Some (SSHAnswer (Some (SSHGetCertificate cb_certif cb_invalid)))))) c).

(** [SSHGetCertificate::operator()] *)
Definition ssh_get_certificate (cb_certif cb_invalid : option user_data)
    (t : ConnectedTarget) (buf size : Z) (c : ctx W) : result (bool * ctx W) :=
  if size <? 1 then call_data_cb false cb_invalid t buf size c else
  kind ← load (c_block c) buf;
  if negb (kind =? 0x1f) then call_data_cb false cb_invalid t buf size c else
  let size := size - 1 in
  let buf := buf + 1 in
  if size <? 4 then call_data_cb false cb_invalid t buf size c else
  let size := size - 4 in
  len ← load_n (c_block c) buf 4;
  let len := ntohl (le_value len) in
  let buf := buf + 4 in
  if size <? len then call_data_cb false cb_invalid t buf size c else
  match cb_certif with
  | Some f => call_user_data f t buf size c
  | None => Ok (false, c)
  end.

End SSH.

Section Server.
Context {L : Leeloo} {UC : UserCode} {M : Malloc} {W : Type} {OSW : OS W} {UW : UserCalls W}.

#[local] Arguments htonl : simpl never.
#[local] Arguments le_value : simpl never.
#[local] Arguments be_bytes : simpl never.
#[local] Arguments load_n : simpl never.
#[local] Arguments load : simpl never.

(** The five bytes in front of a packet's payload. *)
Definition packet_header (packet_length padding_length : Z) : list Z :=
  be_bytes 4 packet_length ++ [padding_length].

Definition awaits_payload (n : Z) (next : closure) (c : ctx W) : ctx W :=
  with_sm (set_trigger (SizeDataTrigger n (Some (SshPayload next)))) c.

Lemma ssh_answer_waits t off size n p next (c : ctx W) :
  bytes_at (c_block c) off (packet_header n p) → 0 ≤ n < 2 ^ 32 → 7 < n + p < 2 ^ 32 →
  ssh_answer (Some next) t off size c = Ok (true, awaits_payload (n + p - 7) next c).
Proof.
  intros Hat Hn Hp. apply bytes_at_app in Hat as [Hlen Hpad].
  rewrite be_bytes_length in Hpad. apply bytes_at_cons in Hpad as [Hpad _].
  apply bytes_at_load_n in Hlen. rewrite be_bytes_length in Hlen.
  unfold ssh_answer. change 4 with (Z.of_nat 4). rewrite Hlen. simpl.
  change (off + 4) with (off + Z.of_nat 4). rewrite Hpad. simpl.
  rewrite htonl_le_value by (apply be_bytes_length || apply be_bytes_byte).
  rewrite be_value_bytes, Z.mod_small, u32_small by lia.
  by rewrite (proj2 (Z.leb_gt _ _)) by lia.
Qed.

(** On the header of a packet of [n] bytes of which [p] are padding,
    [SSHAnswer] waits for [n + p - 7] bytes (it gives up when this is not
    positive). What is left of the packet is [n - 1] bytes, so that it waits
    for the end of the packet if and only if the server chose six bytes of
    padding; with less it would call the next function before the padding has
    come, with more it swallows bytes of the following packet. *)
Theorem ssh_answer_length t off size n p next (c : ctx W) :
  bytes_at (c_block c) off (packet_header n p) → 0 ≤ n < 2 ^ 32 → 0 ≤ p → n + p < 2 ^ 32 →
  ssh_answer (Some next) t off size c =
    (if n + p <=? 7 then Ok (false, c) else Ok (true, awaits_payload (n + p - 7) next c)) ∧
  (n + p - 7 = n - 1 ↔ p = 6).
Proof.
  intros Hat Hn Hp Hmax. split; [|lia].
  destruct (n + p <=? 7) eqn:E; [|apply ssh_answer_waits; (done || lia)].
  apply bytes_at_app in Hat as [Hlen Hpad].
  rewrite be_bytes_length in Hpad. apply bytes_at_cons in Hpad as [Hpad _].
  apply bytes_at_load_n in Hlen. rewrite be_bytes_length in Hlen.
  unfold ssh_answer. change 4 with (Z.of_nat 4). rewrite Hlen. simpl.
  change (off + 4) with (off + Z.of_nat 4). rewrite Hpad. simpl.
  rewrite htonl_le_value by (apply be_bytes_length || apply be_bytes_byte).
  by rewrite be_value_bytes, Z.mod_small, u32_small, E by lia.
Qed.

(** The reply to KEX_ECDH_INIT: the host key, the server's point and the
    signature of the exchange. *)
Definition ecdh_reply (host_key rest : list Z) : list Z :=
  31 :: be_bytes 4 (zlen host_key) ++ host_key ++ rest.

Lemma ssh_get_certificate_reply cb cb_invalid t off host_key rest (c : ctx W) :
  bytes_at (c_block c) off (ecdh_reply host_key rest) →
  zlen host_key < 2 ^ 32 →
  ssh_get_certificate (Some cb) cb_invalid t off (zlen (ecdh_reply host_key rest)) c =
    call_user_data cb t (off + 5) (zlen host_key + zlen rest) c.
Proof.
  intros Hat Hmax.
  assert (Hsz : zlen (ecdh_reply host_key rest) = 5 + zlen host_key + zlen rest)
    by (unfold ecdh_reply; cbn [length]; rewrite !length_app, be_bytes_length; lia).
  apply bytes_at_cons in Hat as [Hty Hat]. apply bytes_at_app in Hat as [Hlen _].
  apply bytes_at_load_n in Hlen. rewrite be_bytes_length in Hlen.
  unfold ssh_get_certificate. rewrite Hsz, (proj2 (Z.ltb_ge _ _)), Hty by lia. simpl.
  rewrite (proj2 (Z.ltb_ge _ _)) by lia.
  change (Z.of_nat 4) with 4 in Hlen. rewrite Hlen. simpl.
  rewrite htonl_le_value by (apply be_bytes_length || apply be_bytes_byte).
  rewrite be_value_bytes, Z.mod_small, (proj2 (Z.ltb_ge _ _)) by lia.
  f_equal; lia.
Qed.

Lemma ssh_get_certificate_spec cb_certif cb_invalid t off size (c : ctx W) :
  0 ≤ off → 0 ≤ size → off + size ≤ zlen (c_block c) →
  ssh_get_certificate cb_certif cb_invalid t off size c =
    match ztake size (zdrop off (c_block c)) with
    | [] => call_data_cb false cb_invalid t off size c
    | kind :: body =>
        if negb (kind =? 31) then call_data_cb false cb_invalid t off size c else
        if zlen body <? 4 then call_data_cb false cb_invalid t (off + 1) (size - 1) c else
        if size - 5 <? ntohl (le_value (take 4 body))
        then call_data_cb false cb_invalid t (off + 5) (size - 5) c
        else call_data_cb false cb_certif t (off + 5) (size - 5) c
    end.
Proof.
  intros Hoff Hsize Hin.
  assert (Hat : bytes_at (c_block c) off (ztake size (zdrop off (c_block c)))).
  { destruct (load_n_bytes_at _ _ _ _ (load_n_Ok (c_block c) off size Hoff Hsize Hin)). done. }
  assert (Hl : zlen (ztake size (zdrop off (c_block c))) = size) by (rewrite length_take, length_drop; lia).
  unfold ssh_get_certificate.
  destruct (ztake _ _) as [|kind body]; simpl in Hl.
  { by rewrite (proj2 (Z.ltb_lt _ _)) by lia. }
  rewrite (proj2 (Z.ltb_ge _ _)) by lia.
  apply bytes_at_cons in Hat as [-> Hat]. simpl.
  destruct (negb _); [done|]. replace (size - 1) with (zlen body) by lia.
  destruct (zlen body <? 4) eqn:E; [done|]. apply Z.ltb_ge in E.
  rewrite <- (take_drop 4 body) in Hat. apply bytes_at_app in Hat as [Hlen _].
  apply bytes_at_load_n in Hlen. rewrite length_take, Nat.min_l in Hlen by lia.
  change (Z.of_nat 4) with 4 in Hlen. rewrite Hlen. simpl.
  replace (zlen body - 4) with (size - 5) by lia.
  replace (off + 1 + 4) with (off + 5) by lia.
  destruct (_ <? _); [done|]. by destruct cb_certif.
Qed.

(** C24. [SSHGetCertificate] reads only the [size] bytes it is given. It
    hands the user's function a suffix of them: after the type and the
    length of the host key when both are right, and in every other case the
    part it could not read goes to the function for invalid answers. *)
Theorem ssh_get_certificate_cases cb_certif cb_invalid t off size (c : ctx W) :
  0 ≤ off → 0 ≤ size → off + size ≤ zlen (c_block c) →
  ssh_get_certificate cb_certif cb_invalid t off size c =
    match ztake size (zdrop off (c_block c)) with
    | [] => call_data_cb false cb_invalid t off size c
    | kind :: body =>
        if negb (kind =? 31) then call_data_cb false cb_invalid t off size c else
        if zlen body <? 4 then call_data_cb false cb_invalid t (off + 1) (size - 1) c else
        if size - 5 <? ntohl (le_value (take 4 body))
        then call_data_cb false cb_invalid t (off + 5) (size - 5) c
        else call_data_cb false cb_certif t (off + 5) (size - 5) c
    end.
Proof. apply ssh_get_certificate_spec. Qed.

End Server.
