(* ===== verification/SIP.v ===== *)
(** * The SIP scanner: src/src/protocols/sip.cpp

    Sends one OPTIONS request and reads the answer line by line
    ([sip_line]), cutting each header in place: the carriage return and the
    colon of the line are overwritten by NUL in the connection's buffer.

    Main results: every line is classified as the code says with no access
    outside it ([sip_line_cases]), and the two strings given to the user for a
    header ([sip_header_strings]). *)

From S2P Require Import Prelude Lvl4Buffer Leeloo Target HostSM Lvl4SM Closures SSH.
From stdpp Require Import strings.
#[local] Open Scope Z_scope.

(** The raw string literal ends its lines with a newline only. *)
Definition get_options : list Z :=
  bytes_of_string "OPTIONS sip:sip@127.0.0.1 SIP/2.0
Via: SIP/2.0/UDP 127.0.0.1;branch=z9hG4bKhjhs8ass877
Max-Forwards: 70
To: <sip:my@poney.com>
From: Alice <sip:her@poney.com>;tag=1928301774
Call-ID: a84b4c76e66710
CSeq: 63104 OPTIONS
Contact: <sip:my@poney.com>
Accept: application/sdp
Content-Length: 0


".

Definition sip_20 : list Z := bytes_of_string "SIP/2.0".

Section SIP.
Context {L : Leeloo} {UC : UserCode}.

Definition on_header (cb : option user_header) (sip : SIP) : SIP :=
  mkSIP cb (_cb_invalid_header sip).
Definition on_invalid_header (cb : option user_data) (sip : SIP) : SIP :=
  mkSIP (_cb_header sip) cb.

Context {M : Malloc} {W : Type} {OSW : OS W} {UW : UserCalls W}.

(** [SIP::operator()] *)
Definition SIP_call (this : SIP) (t : ConnectedTarget) (c : ctx W) : result (bool * ctx W) :=
  let '(_, w) := send t get_options (c_world c) in
  let c := with_world w c in
  Ok (true, with_sm (set_trigger
        (CharDataTrigger 10 (Some (SipLine (_cb_invalid_header this) (_cb_header this))))) c).

(** A store through the pointer given to the lambda. *)
Definition store_c (off b : Z) (c : ctx W) : result (ctx W) :=
  buf ← Buffer.write_at off [b] (c_buf c);
  Ok (with_sm (set_buf buf) c).

(** The lambda run on each line. *)
Definition sip_line (cb_invalid_header : option user_data) (cb_header : option user_header)
    (t : ConnectedTarget) (buf size : Z) (c : ctx W) : result (bool * ctx W) :=
  if size <? 1 then call_data_cb false cb_invalid_header t buf size c else
  last ← load (c_block c) (buf + size - 1);
  if negb (last =? 13) then call_data_cb false cb_invalid_header t buf size c else
  c ← store_c (buf + size - 1) 0 c;
  if size =? 1 then Ok (false, c) else
  line ← load_n (c_block c) buf size;
  match find_byte 58 line with
  | None =>
      starts ← (if zlen sip_20 <? size
                then head ← load_n (c_block c) buf (zlen sip_20);
                     Ok (bool_decide (head = sip_20))
                else Ok false);
      if (starts : bool) then Ok (true, c)
      else call_data_cb false cb_invalid_header t buf size c
  | Some i =>
      let dot := buf + Z.of_nat i in
      c ← store_c dot 0 c;
      let value := dot + 1 in
      v0 ← load (c_block c) value;
      skip ← (if negb (v0 =? 0)
              then v1 ← load (c_block c) (value + 1); Ok (v1 =? 32)
              else Ok false);
      let value := if (skip : bool) then value + 1 else value in
      call_cb true ((λ f '(k, v), call_user_header f t k v) <$> cb_header) (buf, value) c
  end.

End SIP.

(** ** How a line is read *)

Section Server.
Context {L : Leeloo} {UC : UserCode} {M : Malloc} {W : Type} {OSW : OS W} {UW : UserCalls W}.

(** The connection after its block was changed. *)
Definition with_block (m : list Z) (c : ctx W) : ctx W :=
  with_sm (set_buf (Buffer.mkBuffer (Some m) (Buffer._buf_size (c_buf c))
                      (Buffer._buf_pos (c_buf c)))) c.

Lemma with_block_block m (c : ctx W) : c_block (with_block m c) = m.
Proof. done. Qed.

Lemma with_block_twice m m' (c : ctx W) : with_block m' (with_block m c) = with_block m' c.
Proof. done. Qed.

(** A line [l] between what precedes and what follows it in the block. *)
Record line_at (pre l post : list Z) (c : ctx W) : Prop := {
  line_allocated : Buffer._buffer (c_buf c) = Some (pre ++ l ++ post);
}.

Lemma line_at_bytes pre l post c : line_at pre l post c → bytes_at (c_block c) (zlen pre) l.
Proof.
  intros [H]. exists pre, post. unfold c_block, Buffer.block. by rewrite H.
Qed.

Lemma line_at_with_block pre l post c : line_at pre l post (with_block (pre ++ l ++ post) c).
Proof. done. Qed.

Lemma load_line pre l x l' post c :
  line_at pre (l ++ x :: l') post c → load (c_block c) (zlen pre + zlen l) = Ok x.
Proof.
  intros H%line_at_bytes%bytes_at_app. destruct H as [_ H]. by apply bytes_at_cons in H as [? _].
Qed.

Lemma store_line pre l x l' post b c :
  line_at pre (l ++ x :: l') post c →
  store_c (zlen pre + zlen l) b c = Ok (with_block (pre ++ (l ++ b :: l') ++ post) c).
Proof.
  intros [H]. unfold store_c, Buffer.write_at, Buffer.block. rewrite H. simpl.
  replace (pre ++ (l ++ x :: l') ++ post) with ((pre ++ l) ++ x :: l' ++ post)
    by (rewrite <- !app_assoc; done).
  replace (zlen pre + zlen l) with (zlen (pre ++ l)) by (rewrite length_app; lia).
  rewrite store_n_middle. simpl. unfold with_block.
  by rewrite <- !app_assoc.
Qed.

Lemma load_n_line pre l post c :
  line_at pre l post c → load_n (c_block c) (zlen pre) (zlen l) = Ok l.
Proof. intros H%line_at_bytes. by apply bytes_at_load_n. Qed.

(** The space that is skipped in front of a value: the second character. *)
Definition sip_skips (value : list Z) : bool :=
  match value with v0 :: v1 :: _ => negb (v0 =? 0) && (v1 =? 32) | _ => false end.

(** The line without its carriage return, closed by NUL. *)
Definition cut_line (l : list Z) : list Z := take (length l - 1) l ++ [0].

(** The test on the two bytes after the colon reads them inside the line. *)
Lemma skip_test pre name value post (c : ctx W) :
  line_at pre (name ++ 0 :: value ++ [0]) post c →
  (v0 ← load (c_block c) (zlen pre + zlen name + 1);
   if negb (v0 =? 0)
   then v1 ← load (c_block c) (zlen pre + zlen name + 1 + 1); Ok (v1 =? 32)
   else Ok false) = Ok (sip_skips value).
Proof.
  intros Hat. apply line_at_bytes, bytes_at_app in Hat as [_ Hat].
  apply bytes_at_cons in Hat as [_ Hat].
  destruct value as [|v0 value]; [by apply bytes_at_cons in Hat as [-> _]|].
  apply bytes_at_cons in Hat as [-> Hat]. simpl.
  destruct (negb (v0 =? 0)); [|by destruct value].
  destruct value as [|v1 value]; apply bytes_at_cons in Hat as [-> _]; done.
Qed.

Lemma sip_line_header cbi cbh t pre name value post (c : ctx W) :
  58 ∉ name →
  line_at pre (name ++ 58 :: value ++ [13]) post c →
  sip_line cbi cbh t (zlen pre) (zlen (name ++ 58 :: value ++ [13])) c =
    call_cb true ((λ f '(k, v), call_user_header f t k v) <$> cbh)
      (zlen pre, zlen pre + zlen name + 1 + (if sip_skips value then 1 else 0))
      (with_block (pre ++ (name ++ 0 :: value ++ [0]) ++ post) c).
Proof.
  intros Hn Hat.
  assert (Hl : name ++ 58 :: value ++ [13] = (name ++ 58 :: value) ++ [13])
    by (rewrite <- app_assoc; done).
  assert (Hsz : zlen (name ++ 58 :: value ++ [13]) = zlen (name ++ 58 :: value) + 1)
    by (rewrite Hl, length_app; simpl; lia).
  assert (H2 : 1 ≤ zlen (name ++ 58 :: value)) by (rewrite length_app; simpl; lia).
  rewrite Hl in Hat. rewrite Hsz. unfold sip_line.
  rewrite (proj2 (Z.ltb_ge _ _)) by lia.
  replace (zlen pre + (zlen (name ++ 58 :: value) + 1) - 1)
    with (zlen pre + zlen (name ++ 58 :: value)) by lia.
  rewrite (load_line _ _ _ _ _ _ Hat). simpl.
  rewrite (store_line _ _ _ _ _ 0 _ Hat). simpl.
  rewrite (proj2 (Z.eqb_neq _ _)) by lia.
  set (c1 := with_block _ c).
  assert (Hat1 : line_at pre ((name ++ 58 :: value) ++ [0]) post c1) by done.
  replace (zlen (name ++ 58 :: value) + 1) with (zlen ((name ++ 58 :: value) ++ [0]))
    by (rewrite (length_app (_ ++ _)); simpl; lia).
  rewrite (load_n_line _ _ _ _ Hat1). simpl.
  rewrite <- (app_assoc name) in *. rewrite find_byte_app by done. simpl.
  rewrite Nat.add_0_r.
  rewrite (store_line pre name 58 (value ++ [0]) post 0 c1) by done. simpl.
  unfold c1. rewrite with_block_twice. set (c2 := with_block _ c).
  pose proof (skip_test pre name value post c2 (line_at_with_block _ _ _ c)) as Hskip.
  revert Hskip. destruct (load (c_block c2) (zlen pre + zlen name + 1)) as [v0|]; [|done].
  intros Hskip.
  cbn [mbind result_bind] in *. rewrite Hskip. cbn [mbind result_bind].
  f_equal. f_equal. destruct (sip_skips value); lia.
Qed.

Lemma sip_line_spec cbi cbh t pre l post (c : ctx W) :
  line_at pre l post c →
  sip_line cbi cbh t (zlen pre) (zlen l) c =
    if negb (bool_decide (last l = Some 13))
    then call_data_cb false cbi t (zlen pre) (zlen l) c else
    let c1 := with_block (pre ++ cut_line l ++ post) c in
    if zlen l =? 1 then Ok (false, c1) else
    match find_byte 58 l with
    | Some i =>
        call_cb true ((λ f '(k, v), call_user_header f t k v) <$> cbh)
          (zlen pre,
           zlen pre + Z.of_nat i + 1 +
             (if sip_skips (drop (S i) (take (length l - 1) l)) then 1 else 0))
          (with_block (pre ++ <[i := 0]> (cut_line l) ++ post) c)
    | None =>
        if (7 <? zlen l) && bool_decide (take 7 l = sip_20) then Ok (true, c1)
        else call_data_cb false cbi t (zlen pre) (zlen l) c1
    end.
Proof.
  intros Hat. destruct l as [|x l _] using rev_ind; [done|].
  rewrite last_snoc. unfold cut_line.
  replace (length (l ++ [x]) - 1)%nat with (length l) by (rewrite length_app; simpl; lia).
  rewrite take_app_length.
  destruct (decide (x = 13)) as [->|Hx].
  2:{ rewrite bool_decide_eq_false_2 by congruence. unfold sip_line.
      rewrite (proj2 (Z.ltb_ge _ _)) by (rewrite length_app; simpl; lia).
      replace (zlen pre + zlen (l ++ [x]) - 1) with (zlen pre + zlen l)
        by (rewrite length_app; simpl; lia).
      rewrite (load_line _ _ _ _ _ _ Hat). simpl. by rewrite (proj2 (Z.eqb_neq _ _)) by done. }
  rewrite bool_decide_eq_true_2 by done. simpl.
  destruct (find_byte 58 l) as [i|] eqn:Hi.
  - rewrite (find_byte_first _ _ _ _ Hi).
    pose proof (find_byte_lt _ _ _ Hi) as Hlt.
    pose proof (find_byte_split _ _ _ Hi) as Hl. apply find_byte_Some in Hi as [_ Hn].
    set (name := take i l) in *. set (value := drop (S i) l) in *.
    assert (Hlen : length name = i) by (unfold name; rewrite length_take; lia).
    rewrite (proj2 (Z.eqb_neq _ _)) by (rewrite length_app; simpl; lia).
    rewrite Hl in Hat |- *. rewrite <- !(app_assoc name) in *. simpl in *.
    rewrite (sip_line_header _ _ _ _ _ _ post) by done.
    rewrite insert_app_r_alt by lia. rewrite Hlen, Nat.sub_diag. done.
  - apply find_byte_None in Hi. unfold sip_line.
    rewrite (find_byte_app 58 l [13]) by done. simpl.
    rewrite (proj2 (Z.ltb_ge _ _)) by (rewrite length_app; simpl; lia).
    replace (zlen pre + zlen (l ++ [13]) - 1) with (zlen pre + zlen l)
      by (rewrite length_app; simpl; lia).
    rewrite (load_line _ _ _ _ _ _ Hat). simpl.
    rewrite (store_line _ _ _ _ _ 0 _ Hat). simpl.
    destruct (zlen (l ++ [13]) =? 1) eqn:E; [done|].
    assert (Hat1 := line_at_with_block pre (l ++ [0]) post c).
    replace (zlen (l ++ [13])) with (zlen (l ++ [0])) by (rewrite !length_app; done).
    rewrite (load_n_line _ _ _ _ Hat1). simpl.
    rewrite (find_byte_app 58 l [0]) by done. simpl.
    change (Z.of_nat 7) with 7. destruct (7 <? zlen (l ++ [0])) eqn:E7; [|done]. simpl.
    apply Z.ltb_lt in E7. rewrite length_app in E7. simpl in E7.
    assert (Hhead : load_n (c_block (with_block (pre ++ (l ++ [0]) ++ post) c)) (zlen pre) 7 =
                    Ok (take 7 l)).
    { apply line_at_bytes in Hat1.
      replace (l ++ [0]) with (take 7 l ++ drop 7 l ++ [0]) in Hat1 at 2
        by (rewrite app_assoc, take_drop; done).
      apply bytes_at_app, proj1, bytes_at_load_n in Hat1. rewrite length_take, Nat.min_l in Hat1 by lia. done. }
    rewrite Hhead. simpl. by rewrite take_app_le by lia.
Qed.

(** C23. Every line is read inside its own bytes and ends in one of five ways:
    a line that does not end in a carriage return is refused; the empty line
    ends the connection; a line with a colon goes to the header function with
    a pointer to its start and one to its value; a line that starts with
    [SIP/2.0] is skipped; any other line is refused. Outside the line no byte
    of the buffer changes. *)
Theorem sip_line_cases cbi cbh t pre l post (c : ctx W) :
  line_at pre l post c →
  sip_line cbi cbh t (zlen pre) (zlen l) c =
    if negb (bool_decide (last l = Some 13))
    then call_data_cb false cbi t (zlen pre) (zlen l) c else
    let c1 := with_block (pre ++ cut_line l ++ post) c in
    if zlen l =? 1 then Ok (false, c1) else
    match find_byte 58 l with
    | Some i =>
        call_cb true ((λ f '(k, v), call_user_header f t k v) <$> cbh)
          (zlen pre,
           zlen pre + Z.of_nat i + 1 +
             (if sip_skips (drop (S i) (take (length l - 1) l)) then 1 else 0))
          (with_block (pre ++ <[i := 0]> (cut_line l) ++ post) c)
    | None =>
        if (7 <? zlen l) && bool_decide (take 7 l = sip_20) then Ok (true, c1)
        else call_data_cb false cbi t (zlen pre) (zlen l) c1
    end.
Proof. apply sip_line_spec. Qed.

(** The string a [char*] into the block denotes. *)
Fixpoint until_nul (l : list Z) : list Z :=
  match l with [] => [] | b :: l => if b =? 0 then [] else b :: until_nul l end.
Definition c_string (m : list Z) (p : Z) : list Z := until_nul (zdrop p m).

Lemma until_nul_app l l' : 0 ∉ l → until_nul (l ++ 0 :: l') = l.
Proof.
  induction l as [|b l IH]; simpl; [done|]. intros H.
  rewrite (proj2 (Z.eqb_neq b 0)), IH by set_solver. done.
Qed.

Lemma c_string_at m p l : bytes_at m p (l ++ [0]) → 0 ∉ l → c_string m p = l.
Proof.
  intros (pre & post & -> & ->) Hl. unfold c_string.
  rewrite Nat2Z.id, drop_app_length, <- app_assoc. by apply until_nul_app.
Qed.

(** The call the user's function gets for a header line. *)
Lemma sip_header_call cbi f t pre name value post (c : ctx W) :
  58 ∉ name → 0 ∉ name → 0 ∉ value →
  line_at pre (name ++ 58 :: value ++ [13]) post c →
  ∃ k v c', sip_line cbi (Some f) t (zlen pre) (zlen (name ++ 58 :: value ++ [13])) c =
              call_user_header f t k v c' ∧
            c_string (c_block c') k = name ∧
            c_string (c_block c') v =
              (if bool_decide (value !! 1%nat = Some 32) then drop 1 value else value).
Proof.
  intros Hc Hn Hv Hat. rewrite (sip_line_header _ _ _ _ _ _ post) by done. simpl.
  eexists _, _, _. split; [reflexivity|].
  assert (Hat' := line_at_with_block pre (name ++ 0 :: value ++ [0]) post c).
  apply line_at_bytes in Hat'. split.
  { apply c_string_at; [|done].
    replace (name ++ 0 :: value ++ [0]) with ((name ++ [0]) ++ value ++ [0]) in Hat' |- *
      by (rewrite <- app_assoc; done).
    by apply bytes_at_app in Hat' as [? _]. }
  apply bytes_at_app in Hat' as [_ Hat']. apply bytes_at_cons in Hat' as [_ Hat'].
  destruct value as [|v0 [|v1 value]]; simpl;
    [rewrite Z.add_0_r; by apply c_string_at|rewrite Z.add_0_r; by apply c_string_at|].
  rewrite (proj2 (Z.eqb_neq v0 0)) by set_solver. simpl.
  destruct (Z.eqb_spec v1 32) as [->|Hne].
  - rewrite bool_decide_eq_true_2 by done.
    apply bytes_at_cons in Hat' as [_ Hat']. apply c_string_at; [done|set_solver].
  - rewrite bool_decide_eq_false_2 by congruence. rewrite Z.add_0_r. by apply c_string_at.
Qed.

(** For a header line [name:value] the user's function gets the C
    strings [name] and [value]; of the value the first character is dropped
    when the {e second} one is a space, so that in [name: v] the space stays
    and in [name:x v] the [x] is lost. *)
Theorem sip_header_strings cbi f t pre name value post (c : ctx W) :
  58 ∉ name → 0 ∉ name → 0 ∉ value →
  line_at pre (name ++ 58 :: value ++ [13]) post c →
  ∃ k v c', sip_line cbi (Some f) t (zlen pre) (zlen (name ++ 58 :: value ++ [13])) c =
              call_user_header f t k v c' ∧
            c_string (c_block c') k = name ∧
            c_string (c_block c') v =
              (if bool_decide (value !! 1%nat = Some 32) then drop 1 value else value).
Proof. apply sip_header_call. Qed.

End Server.
