(* ===== verification/Protocols.v ===== *)
(** * The protocols on a connection

    Gives every closure of Closures.v its behaviour ([call_closure],
    [protocol_calls]), so that the protocol functions run under the connection
    of Lvl4SM.v, and follows whole conversations: what an SSL and an SSH server
    make the user's functions see, that SSH and SIP connections always return,
    and the empty TLS record that does not let an SSL connection return. *)

From S2P Require Import Prelude Lvl4Buffer Leeloo Target HostSM Lvl4SM Framing Closures SSL SSH SIP.
From stdpp Require Import strings.
#[local] Open Scope Z_scope.

Section Calls.
Context {L : Leeloo} {UC : UserCode} {M : Malloc} {W : Type} {OSW : OS W} {UW : UserCalls W}.

(** The loop over the certificates takes at least three bytes of the message
    at each turn: its size is fuel enough. *)
Fixpoint call_closure (d : closure) (t : ConnectedTarget) (buf size : Z) (c : ctx W) :
    result (bool * ctx W) :=
  match d with
  | UserData u => call_user_data u t buf size c
  | OnTlsHeader this on_hs => on_tls_header this t buf size on_hs c
  | OnHandshake this handshake1 => on_handshake1 this t buf size c
  | OnHandshake this handshake2 => on_handshake2 (S (Z.to_nat size)) this t buf size c
  | SshBanner cb_certif cb_invalid => ssh_banner cb_certif cb_invalid t buf size c
  | SSHAnswer _next => ssh_answer _next t buf size c
  | SshPayload next => call_closure next t buf size c
  | SshKexReply cb_certif cb_invalid => ssh_kex_reply cb_certif cb_invalid t buf size c
  | SSHGetCertificate cb_certif cb_invalid =>
      ssh_get_certificate cb_certif cb_invalid t buf size c
  | SipLine cb_invalid_header cb_header => sip_line cb_invalid_header cb_header t buf size c
  end.

Definition call_action (a : connect_action) (t : ConnectedTarget) (c : ctx W) :
    result (bool * ctx W) :=
  match a with
  | UserConnect u => call_user_connect u t c
  | SSLConnect this => SSL_call this t c
  | SSHConnect this => SSH_call this t c
  | SIPConnect this => SIP_call this t c
  end.

#[export] Instance protocol_calls : Calls W := {|
  call_data := call_closure;
  call_connect := call_action;
  call_python := call_user_python;
|}.

(** ** Steps of the loop *)

Lemma call_function_Some d t off n (c : ctx W) :
  call_function (Some d) t off n c = call_closure d t off n c.
Proof. done. Qed.

Lemma contents_bytes_at b l : Buffer.contents b = l → bytes_at (Buffer.block b) 0 l.
Proof.
  intros <-. exists [], (zdrop (Buffer._buf_pos b) (Buffer.block b)). simpl.
  split; [|done]. unfold Buffer.contents. by rewrite take_drop.
Qed.

Lemma c_contents_bytes_at (c : ctx W) l1 l2 :
  Buffer.contents (c_buf c) = l1 ++ l2 → bytes_at (c_block c) 0 l1.
Proof. intros H. by apply contents_bytes_at, bytes_at_app in H as [? _]. Qed.

(** The connection once its callback has accepted what was in front of [rest]. *)
Definition popped (c1 c2 : ctx W) (rest : list Z) : Prop :=
  ∃ b, c2 = with_sm (set_buf b) c1 ∧ Buffer.wf b ∧ Buffer.contents b = rest.

Lemma pop_front b data rest :
  Buffer.wf b → Buffer.contents b = data ++ rest →
  ∃ b', Buffer.pop_by (zlen data) b = Ok b' ∧ Buffer.wf b' ∧ Buffer.contents b' = rest.
Proof.
  intros Hwf Hc. pose proof (Buffer.pop_by_spec (zlen data) b Hwf ltac:(lia)) as H.
  rewrite bool_decide_eq_true_2 in H.
  2:{ rewrite Buffer.contents_size, Hc, length_app by done. lia. }
  destruct H as (b' & ? & ? & Hb'). exists b'. split_and!; [done|done|].
  by rewrite Hb', Hc, Nat2Z.id, drop_app_length.
Qed.

Lemma size_step fuel ct pos (c c1 : ctx W) d data rest :
  Buffer.wf (c_buf c) → _trigger (c_sm c) = SizeDataTrigger (zlen data) (Some d) →
  Buffer.contents (c_buf c) = data ++ rest →
  call_closure d ct 0 (zlen data) c = Ok (true, c1) → c_buf c1 = c_buf c →
  ∃ c2, process_loop (S fuel) ct pos c = process_loop fuel ct 0 c2 ∧ popped c1 c2 rest.
Proof.
  intros Hwf Htr Hc Hcall Hb. destruct (pop_front _ _ _ Hwf Hc) as (b & Hpop & Hwf' & Hc').
  exists (with_sm (set_buf b) c1). split; [|by exists b].
  simpl. unfold trigger_process_buffer, SizeDataTrigger_process_buffer. rewrite Htr.
  rewrite (proj2 (Z.ltb_ge _ _)).
  2:{ rewrite Buffer.contents_size, Hc, length_app by done. lia. }
  rewrite assume_some. simpl. rewrite call_function_Some, Hcall. simpl. by rewrite Hb, Hpop.
Qed.

Lemma size_end fuel ct pos (c c1 : ctx W) d data rest :
  Buffer.wf (c_buf c) → _trigger (c_sm c) = SizeDataTrigger (zlen data) (Some d) →
  Buffer.contents (c_buf c) = data ++ rest →
  call_closure d ct 0 (zlen data) c = Ok (false, c1) →
  process_loop (S fuel) ct pos c = Ok (ConnectionEnd, c1).
Proof.
  intros Hwf Htr Hc Hcall. simpl.
  unfold trigger_process_buffer, SizeDataTrigger_process_buffer. rewrite Htr.
  rewrite (proj2 (Z.ltb_ge _ _)).
  2:{ rewrite Buffer.contents_size, Hc, length_app by done. lia. }
  rewrite assume_some. simpl. by rewrite call_function_Some, Hcall.
Qed.

Lemma size_wait fuel ct pos (c : ctx W) d n :
  Buffer.wf (c_buf c) → _trigger (c_sm c) = SizeDataTrigger n d →
  zlen (Buffer.contents (c_buf c)) < n →
  process_loop (S fuel) ct pos c = Ok (NoMoreToProcess, c).
Proof.
  intros Hwf Htr Hc. simpl.
  unfold trigger_process_buffer, SizeDataTrigger_process_buffer. rewrite Htr.
  by rewrite (proj2 (Z.ltb_lt _ _)) by (rewrite Buffer.contents_size by done; lia).
Qed.

Lemma char_step fuel ct (c c1 : ctx W) ch d line rest :
  Buffer.wf (c_buf c) → _trigger (c_sm c) = CharDataTrigger ch (Some d) →
  Buffer.contents (c_buf c) = line ++ ch :: rest → ch ∉ line →
  call_closure d ct 0 (zlen line) c = Ok (true, c1) → c_buf c1 = c_buf c →
  ∃ c2, process_loop (S fuel) ct 0 c = process_loop fuel ct 0 c2 ∧ popped c1 c2 rest.
Proof.
  intros Hwf Htr Hc Hch Hcall Hb.
  destruct (pop_front (c_buf c) (line ++ [ch]) rest Hwf) as (b & Hpop & Hwf' & Hc').
  { by rewrite Hc, <- app_assoc. }
  exists (with_sm (set_buf b) c1). split; [|by exists b].
  simpl. unfold trigger_process_buffer, CharDataTrigger_process_buffer. rewrite Htr.
  pose proof (size_nonneg _ Hwf).
  rewrite contents_load by (done || lia). simpl. rewrite drop_0, Hc, find_byte_app by done.
  simpl. rewrite Z.eqb_refl. simpl. rewrite Nat.add_0_r, call_function_Some, Z.add_0_l, Hcall. simpl.
  rewrite length_app in Hpop. simpl in Hpop. rewrite Hb.
  replace (zlen line + 1) with (Z.of_nat (length line + 1)) by lia. by rewrite Hpop.
Qed.

(** ** An SSL server *)

(** A record of the TLS layer. *)
Definition tls_record (v1 v2 : Z) (payload : list Z) : list Z :=
  (0x16 :: v1 :: v2 :: be_bytes 2 (zlen payload)) ++ payload.

(** The connection waits for a handshake message of [n] bytes. *)
Definition awaits_handshake (this : SSL) (hs : hs_step) (n : Z) (c : ctx W) : ctx W :=
  with_sm (set_trigger (SizeDataTrigger n (Some (OnHandshake this hs)))) c.

Lemma on_tls_header_record this hs t v1 v2 (payload : list Z) (c : ctx W) :
  bytes_at (c_block c) 0 (0x16 :: v1 :: v2 :: be_bytes 2 (zlen payload)) →
  zlen payload < 2 ^ 16 →
  on_tls_header this t 0 5 hs c =
    Ok (true, awaits_handshake this hs (zlen payload) c).
Proof.
  intros Hat Hlen. unfold on_tls_header.
  apply bytes_at_cons in Hat as [-> Hat]. apply bytes_at_cons in Hat as [_ Hat].
  apply bytes_at_cons in Hat as [_ Hat]. apply bytes_at_load_n in Hat.
  rewrite be_bytes_length in Hat. change (Z.of_nat 2) with 2 in Hat.
  cbn [mbind result_bind negb Z.eqb Pos.eqb]. change (0 + 3) with (0 + 1 + 1 + 1). rewrite Hat.
  cbn [mbind result_bind].
  rewrite htons_le_value by (apply be_bytes_length || apply be_bytes_byte).
  by rewrite be_value_bytes, Z.mod_small by lia.
Qed.

(** A record header followed by its payload: the loop reaches the handshake
    function with the payload in front of the buffer. *)
Lemma tls_record_step fuel ct pos this hs v1 v2 payload rest (c : ctx W) :
  Buffer.wf (c_buf c) →
  _trigger (c_sm c) = SizeDataTrigger sizeof_TLS (Some (OnTlsHeader this hs)) →
  Buffer.contents (c_buf c) = tls_record v1 v2 payload ++ rest → zlen payload < 2 ^ 16 →
  ∃ c', process_loop (S fuel) ct pos c = process_loop fuel ct 0 c' ∧
        Buffer.wf (c_buf c') ∧ Buffer.contents (c_buf c') = payload ++ rest ∧
        _trigger (c_sm c') = SizeDataTrigger (zlen payload) (Some (OnHandshake this hs)) ∧
        c_world c' = c_world c.
Proof.
  intros Hwf Htr Hc Hlen. unfold tls_record in Hc. rewrite <- (app_assoc (_ :: _)) in Hc.
  set (hd := 0x16 :: v1 :: v2 :: be_bytes 2 (zlen payload)) in *.
  assert (Hhd : zlen hd = 5) by (unfold hd; cbn [length]; by rewrite be_bytes_length).
  destruct (size_step fuel ct pos c (awaits_handshake this hs (zlen payload) c)
    (OnTlsHeader this hs) hd (payload ++ rest)) as (c2 & Hl & b & -> & Hwf' & Hc');
    [done|by rewrite Hhd|done| |done|].
  - rewrite Hhd. apply (on_tls_header_record this hs ct v1 v2); [|done]. by eapply c_contents_bytes_at.
  - eexists. split; [exact Hl|]. done.
Qed.

Section SSLServer.
Context {U : Type} (hc : Z → U → bool * U) (h : list Z → U → bool * U) (usr : W → U).

(** The function for the cipher suite runs the handler [hc]. *)
Definition runs_cipher (t : ConnectedTarget) (f : user_cipher) : Prop := ∀ z (c : ctx W),
  ∃ w', call_user_cipher f t z c = Ok ((hc z (usr (c_world c))).1, with_world w' c) ∧
        usr w' = (hc z (usr (c_world c))).2.

(** What the user sees of a server's first flight. *)
Definition ssl_flight (cipher : Z) (certs : list (list Z)) (u : U) : U :=
  let '(go, u) := hc (htons cipher) u in
  if go then deliver_certificates h certs u else u.

(** An SSL connection that receives a ServerHello record and a Certificate
    record shows the user the cipher suite and then every certificate of the
    chain, whole and in order, each call being made only if the previous one
    answered [true]; then it ends. Five turns of the loop do it. *)
Theorem ssl_handshake_delivers fuel ct this fc f version random sid cipher comp certs
    sh cert v1 v2 rest (c : ctx W) :
  Buffer.wf (c_buf c) →
  _trigger (c_sm c) = SizeDataTrigger sizeof_TLS (Some (OnTlsHeader this handshake1)) →
  _on_cipher this = Some fc → _on_certif this = Some f →
  runs_cipher ct fc → runs_certif h usr ct f →
  sh = server_hello version random sid cipher comp → 0 ≤ cipher < 2 ^ 16 →
  cert = be_bytes 3 (zlen (encode_certificates certs)) ++ encode_certificates certs →
  zlen sh < 2 ^ 14 → zlen cert < 2 ^ 14 →
  Buffer.contents (c_buf c) =
    tls_record v1 v2 (handshake 2 sh) ++ tls_record v1 v2 (handshake 11 cert) ++ rest →
  (4 < fuel)%nat →
  ∃ c', process_loop fuel ct 0 c = Ok (ConnectionEnd, c') ∧
        usr (c_world c') = ssl_flight cipher certs (usr (c_world c)).
Proof.
  intros Hwf Htr Hfc Hf Hrc Hrf Hsh Hci Hcert Hlsh Hlcert Hc Hfuel.
  do 4 (destruct fuel as [|fuel]; [lia|]).
  destruct (tls_record_step (S (S (S fuel))) ct 0 this handshake1 v1 v2 (handshake 2 sh)
              (tls_record v1 v2 (handshake 11 cert) ++ rest) c)
    as (c1 & -> & Hwf1 & Hc1 & Htr1 & Hw1);
    [done|done|done|rewrite handshake_length; lia|].
  pose proof (on_handshake1_server_hello this ct 0 _ c1 version random sid cipher comp sh Hsh
    (c_contents_bytes_at _ _ _ Hc1) eq_refl ltac:(lia) Hci) as Hhs.
  rewrite Hfc in Hhs. destruct (Hrc (htons cipher) c1) as (w1 & Hcall & Hu1).
  rewrite Hcall in Hhs. unfold ssl_flight. rewrite <- Hw1.
  destruct (hc (htons cipher) (usr (c_world c1))) as [[] u1]; cbn [mbind result_bind fst snd] in Hhs, Hu1.
  2:{ exists (with_world w1 c1). split; [|exact Hu1]. by eapply size_end. }
  destruct (size_step (S (S fuel)) ct 0 c1 _ _ _ _ Hwf1 Htr1 Hc1 Hhs eq_refl)
    as (c2 & -> & b & -> & Hwf2 & Hc2).
  destruct (tls_record_step (S fuel) ct 0 this handshake2 v1 v2 (handshake 11 cert) rest
              (with_sm (set_buf b) (awaits_header this handshake2 (with_world w1 c1))))
    as (c3 & -> & Hwf3 & Hc3 & Htr3 & Hw3);
    [done|done|done|rewrite handshake_length; lia|].
  destruct (on_handshake2_delivers h usr (S (Z.to_nat (zlen (handshake 11 cert)))) this ct f 0
              certs cert c3) as (w' & Hhs2 & Hu2);
    [done|done|done|by eapply c_contents_bytes_at|lia| |].
  { rewrite handshake_length, Hcert, length_app.
    enough (length certs ≤ length (encode_certificates certs))%nat by lia.
    clear. induction certs as [|x l IH]; [done|].
    change (encode_certificates (x :: l)) with
      ((be_bytes 3 (zlen x) ++ x) ++ encode_certificates l).
    rewrite !length_app, be_bytes_length. simpl. lia. }
  eexists. split; [by eapply size_end|].
  change (usr w' = deliver_certificates h certs u1). by rewrite Hu2, Hw3, <- Hu1.
Qed.

End SSLServer.

(** C37. A record of length 0 installs a trigger of size 0: when the
    function for failures answers [true], the loop never leaves, whatever
    follows in the buffer. Any server can send it. *)
Theorem empty_record_diverges ct pos this hs f v1 v2 rest (c : ctx W) :
  (∀ off n (c : ctx W), ∃ w, call_user_data f ct off n c = Ok (true, with_world w c)) →
  _on_failure this = Some f → Buffer.wf (c_buf c) →
  _trigger (c_sm c) = SizeDataTrigger sizeof_TLS (Some (OnTlsHeader this hs)) →
  Buffer.contents (c_buf c) = tls_record v1 v2 [] ++ rest →
  ∀ fuel, process_loop fuel ct pos c = Fail OutOfFuel.
Proof.
  intros Hu Hf Hwf Htr Hc [|fuel]; [done|].
  destruct (tls_record_step fuel ct pos this hs v1 v2 [] rest c)
    as (c1 & -> & Hwf1 & Hc1 & Htr1 & _); [done..|].
  apply (zero_size_trigger_diverges (C := protocol_closures) ct (OnHandshake this hs)); [|done|done].
  intros c'. destruct (Hu 0 0 c') as [w Hw]. exists w.
  change (call_closure (OnHandshake this hs) ct 0 0 c' = Ok (true, with_world w c')).
  destruct hs; simpl; unfold on_handshake1, on_handshake2; simpl;
    unfold failure_cb, call_data_cb; rewrite Hf; exact Hw.
Qed.

(** ** An SSH server *)

(** A packet of the binary protocol. *)
Definition ssh_packet (payload padding : list Z) : list Z :=
  packet_header (1 + zlen payload + zlen padding) (zlen padding) ++ payload ++ padding.

Lemma packet_header_length n p : zlen (packet_header n p) = 5.
Proof. unfold packet_header. by rewrite length_app, be_bytes_length. Qed.

(** With six bytes of padding, the loop reaches the next function with the
    payload and the padding in front of the buffer. *)
Lemma ssh_packet_step fuel ct pos next payload padding rest (c : ctx W) :
  Buffer.wf (c_buf c) →
  _trigger (c_sm c) = SizeDataTrigger 5 (Some (SSHAnswer (Some next))) →
  Buffer.contents (c_buf c) = ssh_packet payload padding ++ rest →
  zlen padding = 6 → 0 < zlen payload < 2 ^ 30 →
  ∃ c', process_loop (S fuel) ct pos c = process_loop fuel ct 0 c' ∧
        Buffer.wf (c_buf c') ∧ Buffer.contents (c_buf c') = (payload ++ padding) ++ rest ∧
        _trigger (c_sm c') = SizeDataTrigger (zlen (payload ++ padding)) (Some (SshPayload next)) ∧
        c_world c' = c_world c.
Proof.
  intros Hwf Htr Hc Hpad Hlen. unfold ssh_packet in Hc. rewrite <- (app_assoc (packet_header _ _)) in Hc.
  set (n := 1 + zlen payload + zlen padding) in *.
  assert (Hsz : zlen (payload ++ padding) = n + zlen padding - 7) by (rewrite length_app; lia).
  destruct (size_step fuel ct pos c (awaits_payload (n + zlen padding - 7) next c)
    (SSHAnswer (Some next)) (packet_header n (zlen padding)) ((payload ++ padding) ++ rest))
    as (c2 & Hl & b & -> & Hwf' & Hc'); [done|by rewrite packet_header_length|done| |done|].
  - apply ssh_answer_waits; [by eapply c_contents_bytes_at|lia|lia].
  - eexists. split; [exact Hl|]. rewrite Hsz. done.
Qed.

(** The connection waits for a packet to be given to [next]. *)
Definition awaits_packet (next : closure) (c : ctx W) : ctx W :=
  with_sm (set_trigger (SizeDataTrigger 5 (Some (SSHAnswer (Some next))))) c.

Lemma ssh_banner_accepts cb_certif cb_invalid ct line (c : ctx W) :
  bytes_at (c_block c) 0 line → take 7 line = bytes_of_string "SSH-2.0" →
  ssh_banner cb_certif cb_invalid ct 0 (zlen line) c =
    Ok (true, awaits_packet (SshKexReply cb_certif cb_invalid)
      (with_world (send ct client_dh (send ct client_key_exchange (c_world c)).2).2 c)).
Proof.
  intros Hat Hline. assert (H7 : 7 ≤ zlen line).
  { apply (f_equal length) in Hline. rewrite length_take in Hline.
    change (length (bytes_of_string "SSH-2.0")) with 7%nat in Hline. lia. }
  unfold ssh_banner. rewrite (proj2 (Z.ltb_ge _ _)) by lia.
  rewrite <- (take_drop 7 line) in Hat. apply bytes_at_app, proj1, bytes_at_load_n in Hat.
  rewrite length_take, Nat.min_l in Hat by lia. change (Z.of_nat 7) with 7 in Hat.
  rewrite Hat. cbn [mbind result_bind]. rewrite bool_decide_eq_true_2 by done.
  cbn [negb]. destruct (send ct client_key_exchange (c_world c)) as [r1 w1]. simpl.
  by destruct (send ct client_dh w1).
Qed.

Section SSHServer.
Context {U : Type} (h : list Z → U → bool * U) (usr : W → U).

(** Sending leaves the user's part of the world alone. *)
Definition send_keeps_user : Prop := ∀ ct data w, usr (send ct data w).2 = usr w.

(** An SSH connection that receives the identification line, a key
    exchange packet and the server's reply, the packets having six bytes of
    padding, calls the user's function once, on everything in the reply from
    the host key on: the key, the rest of the reply and the padding. The
    connection then ends or waits as the function answers. *)
Theorem ssh_handshake_delivers fuel ct f cb_invalid line kex host_key sig pad1 pad2 (c : ctx W) :
  Buffer.wf (c_buf c) →
  _trigger (c_sm c) = CharDataTrigger 10 (Some (SshBanner (Some f) cb_invalid)) →
  send_keeps_user → runs_certif h usr ct f →
  take 7 line = bytes_of_string "SSH-2.0" → 10 ∉ line →
  zlen pad1 = 6 → zlen pad2 = 6 → 0 < zlen kex < 2 ^ 30 →
  zlen (ecdh_reply host_key sig) < 2 ^ 30 →
  Buffer.contents (c_buf c) =
    line ++ 10 :: ssh_packet kex pad1 ++ ssh_packet (ecdh_reply host_key sig) pad2 →
  (5 < fuel)%nat →
  let data := host_key ++ sig ++ pad2 in
  ∃ c', process_loop fuel ct 0 c =
          Ok (if (h data (usr (c_world c))).1 then NoMoreToProcess else ConnectionEnd, c') ∧
        usr (c_world c') = (h data (usr (c_world c))).2.
Proof.
  intros Hwf Htr Hsend Hrun Hline Hnl Hpad1 Hpad2 Hkex Hreply Hc Hfuel data.
  do 6 (destruct fuel as [|fuel]; [lia|]).
  assert (Hrl : zlen (ecdh_reply host_key sig) = 5 + zlen host_key + zlen sig).
  { unfold ecdh_reply. cbn [length]. rewrite !length_app, be_bytes_length. lia. }
  set (w2 := (send ct client_dh (send ct client_key_exchange (c_world c)).2).2).
  assert (Hu2 : usr w2 = usr (c_world c)) by (unfold w2; by rewrite !Hsend).
  set (pkt2 := ssh_packet (ecdh_reply host_key sig) pad2) in *.
  destruct (char_step (S (S (S (S (S fuel))))) ct c
    (awaits_packet (SshKexReply (Some f) cb_invalid) (with_world w2 c)) 10
    (SshBanner (Some f) cb_invalid) line (ssh_packet kex pad1 ++ pkt2))
    as (c1 & -> & b1 & -> & Hwf1 & Hc1); [done|done|done|done| |done|].
  { apply ssh_banner_accepts; [|done]. by eapply c_contents_bytes_at. }
  destruct (ssh_packet_step (S (S (S (S fuel)))) ct 0 (SshKexReply (Some f) cb_invalid)
              kex pad1 pkt2 (with_sm (set_buf b1) (awaits_packet _ (with_world w2 c)))
              Hwf1 eq_refl Hc1 Hpad1 Hkex)
    as (c2 & -> & Hwf2 & Hc2 & Htr2 & Hw2).
  destruct (size_step (S (S (S fuel))) ct 0 c2
    (awaits_packet (SSHGetCertificate (Some f) cb_invalid) c2) _ _ _ Hwf2 Htr2 Hc2)
    as (c3 & -> & b3 & -> & Hwf3 & Hc3); [done|done|].
  rewrite <- (app_nil_r pkt2) in Hc3.
  destruct (ssh_packet_step (S (S fuel)) ct 0 (SSHGetCertificate (Some f) cb_invalid)
              (ecdh_reply host_key sig) pad2 [] (with_sm (set_buf b3) (awaits_packet _ c2))
              Hwf3 eq_refl Hc3 Hpad2)
    as (c4 & -> & Hwf4 & Hc4 & Htr4 & Hw4); [lia|].
  assert (Hcat : ecdh_reply host_key sig ++ pad2 = ecdh_reply host_key (sig ++ pad2)).
  { unfold ecdh_reply. cbn [app]. by rewrite <- !app_assoc. }
  rewrite Hcat in *.
  pose proof (c_contents_bytes_at _ _ _ Hc4) as Hat4.
  pose proof (ssh_get_certificate_reply f cb_invalid ct 0 host_key (sig ++ pad2) c4 Hat4
    ltac:(lia)) as Hget.
  destruct (Hrun 5 (zlen host_key + zlen (sig ++ pad2)) c4 data) as (w' & Hcall & Hu').
  { rewrite <- Nat2Z.inj_add, <- length_app. apply bytes_at_load_n.
    apply bytes_at_cons in Hat4 as [_ Hat4]. apply bytes_at_app in Hat4 as [_ Hat4].
    by rewrite be_bytes_length in Hat4. }
  change (c_world c4) with (c_world c4) in *. simpl in Hw2, Hw4. rewrite Hw2 in Hw4.
  rewrite Hw4, Hu2 in Hcall, Hu'. change (0 + 5) with 5 in Hget. rewrite Hcall in Hget.
  destruct (h data (usr (c_world c))) as [[] u']; cbn [fst snd] in *.
  - destruct (size_step (S fuel) ct 0 c4 _ _ _ _ Hwf4 Htr4 Hc4 Hget eq_refl)
      as (c5 & -> & b5 & -> & Hwf5 & Hc5).
    exists (with_sm (set_buf b5) (with_world w' c4)). split; [|exact Hu'].
    eapply size_wait; [exact Hwf5|exact Htr4|].
    change (zlen (Buffer.contents b5) < zlen (ecdh_reply host_key (sig ++ pad2))).
    rewrite Hc5. unfold ecdh_reply. cbn [length]. lia.
  - exists (with_world w' c4). split; [|exact Hu'].
    by apply (size_end (S fuel) ct 0 c4 _ _ _ _ Hwf4 Htr4 Hc4).
Qed.

End SSHServer.

(** ** SSH and SIP connections return *)

Section Returns.

(** What the user's functions do to the connection they are given: they
    return, and leave its trigger and the size of its buffer. *)
Definition keeps_connection (c c' : ctx W) : Prop :=
  Buffer.wf (c_buf c') ∧ Buffer.size (c_buf c') = Buffer.size (c_buf c) ∧
  _trigger (c_sm c') = _trigger (c_sm c).

Record users_return : Prop := {
  user_data_returns_ok u t off n (c : ctx W) : Buffer.wf (c_buf c) →
    ∃ r c', call_user_data u t off n c = Ok (r, c') ∧ keeps_connection c c';
  user_header_returns_ok u t k v (c : ctx W) : Buffer.wf (c_buf c) →
    ∃ r c', call_user_header u t k v c = Ok (r, c') ∧ keeps_connection c c';
}.

(** The functions of SSH and SIP, and the sizes they may be called with. *)
Fixpoint ssh_sip (d : closure) (n : Z) : Prop :=
  match d with
  | OnTlsHeader _ _ | OnHandshake _ _ => False
  | SSHAnswer _next =>
      5 ≤ n ∧ match _next with Some next => ∀ m, 0 < m → ssh_sip next m | None => True end
  | SshPayload next => ssh_sip next n
  | _ => True
  end.

(** The outcome of a callback that the loop can go on with. *)
Definition returns_usable (n : Z) (r : result (bool * ctx W)) : Prop :=
  ∃ b c', r = Ok (b, c') ∧ Buffer.wf (c_buf c') ∧ Buffer.size (c_buf c') = n ∧
          usable ssh_sip (_trigger (c_sm c')).

Context (Husers : users_return).

Lemma returns_data def cb t off n (c : ctx W) :
  Buffer.wf (c_buf c) → usable ssh_sip (_trigger (c_sm c)) →
  returns_usable (Buffer.size (c_buf c)) (call_data_cb def cb t off n c).
Proof.
  intros Hwf Hu. destruct cb as [u|]; simpl; [|by exists def, c].
  destruct (user_data_returns_ok Husers u t off n c Hwf) as (r & c' & Hr & ? & ? & Htr).
  exists r, c'. by rewrite Htr.
Qed.

Lemma returns_data_at def cb t off n m (c : ctx W) :
  m = Buffer.size (c_buf c) →
  Buffer.wf (c_buf c) → usable ssh_sip (_trigger (c_sm c)) →
  returns_usable m (call_data_cb def cb t off n c).
Proof. intros ->. apply returns_data. Qed.

Lemma with_world_id (c : ctx W) : with_world (c_world c) c = c.
Proof. by destruct c. Qed.

Lemma awaits_packet_returns next (c : ctx W) w :
  Buffer.wf (c_buf c) → (∀ m, 0 < m → ssh_sip next m) →
  returns_usable (Buffer.size (c_buf c)) (Ok (true, awaits_packet next (with_world w c))).
Proof.
  intros Hwf Hnext. eexists _, _. do 3 (split; [done|]). split; [done|].
  eexists. by repeat split.
Qed.

Lemma awaits_payload_returns k next (c : ctx W) :
  Buffer.wf (c_buf c) → 0 < k → ssh_sip next k →
  returns_usable (Buffer.size (c_buf c)) (Ok (true, awaits_payload k next c)).
Proof.
  intros Hwf Hk Hnext. eexists _, _. do 3 (split; [done|]). split; [done|].
  eexists. by split.
Qed.

Lemma wf_block_size b : Buffer.wf b → Buffer.size b ≤ zlen (Buffer.block b).
Proof. unfold Buffer.wf, Buffer.size. lia. Qed.

Lemma with_block_wf m (c : ctx W) :
  Buffer.wf (c_buf c) → length m = length (c_block c) →
  Buffer.wf (c_buf (with_block m c)) ∧
  Buffer.size (c_buf (with_block m c)) = Buffer.size (c_buf c).
Proof.
  intros (Hp & Hs & Hl) Hm. split; [|done]. unfold Buffer.wf, Buffer.block. simpl.
  unfold c_block in Hm. split_and!; try done; lia.
Qed.

Lemma ssh_banner_returns a b t n (c : ctx W) :
  Buffer.wf (c_buf c) → usable ssh_sip (_trigger (c_sm c)) → 0 ≤ n ≤ Buffer.size (c_buf c) →
  returns_usable (Buffer.size (c_buf c)) (ssh_banner a b t 0 n c).
Proof.
  intros Hwf Hu Hn. pose proof (wf_block_size _ Hwf). unfold ssh_banner.
  destruct (n <? 7) eqn:E; [by apply returns_data|]. apply Z.ltb_ge in E.
  rewrite load_n_Ok by (unfold c_block; lia). simpl.
  destruct (negb _); [by apply returns_data|].
  destruct (send t client_key_exchange _) as [? w1]. destruct (send t client_dh w1) as [? w2].
  by apply (awaits_packet_returns (SshKexReply a b)).
Qed.

Lemma ssh_answer_returns next t n (c : ctx W) :
  Buffer.wf (c_buf c) → usable ssh_sip (_trigger (c_sm c)) → 0 ≤ n ≤ Buffer.size (c_buf c) →
  ssh_sip (SSHAnswer next) n →
  returns_usable (Buffer.size (c_buf c)) (ssh_answer next t 0 n c).
Proof.
  intros Hwf Hu Hn [Hn5 Hnext]. pose proof (wf_block_size _ Hwf). unfold ssh_answer.
  destruct next as [next|]; [|by exists false, c].
  rewrite load_n_Ok by (unfold c_block; lia). cbn [mbind result_bind].
  destruct (load_Ok (c_block c) (0 + 4)) as (p & -> & _); [unfold c_block; lia|].
  cbn [mbind result_bind]. destruct (_ <=? 7) eqn:E; [by exists false, c|].
  apply Z.leb_gt in E. apply awaits_payload_returns; [done|lia|]. apply Hnext. lia.
Qed.

Lemma ssh_get_certificate_returns a b t n (c : ctx W) :
  Buffer.wf (c_buf c) → usable ssh_sip (_trigger (c_sm c)) → 0 ≤ n ≤ Buffer.size (c_buf c) →
  returns_usable (Buffer.size (c_buf c)) (ssh_get_certificate a b t 0 n c).
Proof.
  intros Hwf Hu Hn. pose proof (wf_block_size _ Hwf).
  rewrite ssh_get_certificate_spec by (unfold c_block; lia).
  destruct (ztake _ _); [by apply returns_data|].
  repeat (destruct (_ : bool); [by apply returns_data|]). by apply returns_data.
Qed.

Lemma sip_line_returns a b t n (c : ctx W) :
  Buffer.wf (c_buf c) → usable ssh_sip (_trigger (c_sm c)) → 0 ≤ n ≤ Buffer.size (c_buf c) →
  returns_usable (Buffer.size (c_buf c)) (sip_line a b t 0 n c).
Proof.
  intros Hwf Hu Hn. pose proof (wf_block_size _ Hwf) as Hbl.
  destruct (Buffer._buffer (c_buf c)) as [m|] eqn:Hm.
  2:{ unfold Buffer.block in Hbl. rewrite Hm in Hbl. simpl in Hbl. unfold sip_line.
      rewrite (proj2 (Z.ltb_lt n 1)) by lia. by apply returns_data. }
  assert (Hb : c_block c = m) by (unfold c_block, Buffer.block; by rewrite Hm).
  fold (c_block c) in Hbl. rewrite Hb in Hbl.
  assert (Hat : line_at [] (ztake n m) (zdrop n m) c).
  { split. by rewrite Hm, app_nil_l, take_drop. }
  assert (Hln : zlen (ztake n m) = n) by (rewrite length_take; lia).
  pose proof (sip_line_spec a b t _ _ _ _ Hat) as Hcases. rewrite Hln in Hcases.
  change (zlen []) with 0 in Hcases. rewrite Hcases. clear Hcases.
  destruct (negb _) eqn:Hlast; [by apply returns_data|].
  apply negb_false_iff, bool_decide_eq_true in Hlast.
  assert (Hn1 : (1 ≤ length (ztake n m))%nat) by (destruct (ztake n m); simpl in *; [done|lia]).
  assert (Hcut : length (cut_line (ztake n m)) = length (ztake n m)).
  { unfold cut_line. rewrite length_app, length_take. simpl. lia. }
  assert (Hblock : ∀ l, length l = length (ztake n m) →
    Buffer.wf (c_buf (with_block ([] ++ l ++ zdrop n m) c)) ∧
    Buffer.size (c_buf (with_block ([] ++ l ++ zdrop n m) c)) = Buffer.size (c_buf c)).
  { intros l Hl. apply with_block_wf; [done|]. rewrite Hb, !length_app, Hl.
    rewrite length_take, length_drop. simpl. lia. }
  destruct (Hblock _ Hcut) as [Hwf1 Hsz1].
  destruct (n =? 1); [by eexists _, _|].
  destruct (find_byte 58 _) as [i|].
  - destruct (Hblock (<[i := 0]> (cut_line (ztake n m)))) as [Hwf2 Hsz2];
      [by rewrite length_insert|].
    destruct b as [f|]; [|by eexists _, _]. simpl.
    edestruct (user_header_returns_ok Husers f t) as (r & c' & Hr & ? & Hsz & Htr); [exact Hwf2|].
    exists r, c'. split; [exact Hr|]. rewrite Htr. split_and!; [done|congruence|done].
  - destruct (_ && _); [by eexists _, _|]. by apply returns_data_at.
Qed.

Lemma protocols_keep_usable : callbacks_keep_usable ssh_sip.
Proof.
  intros d ct n c Hwf Hu Hd Hn.
  enough (returns_usable (Buffer.size (c_buf c)) (call_closure d ct 0 n c))
    as (r & c' & ? & ? & ? & ?) by (exists r, c'; done).
  induction d as [u| | |a b|next|d IH|a b|a b|a b]; simpl in Hd |- *; try done.
  - by apply (returns_data false (Some u)).
  - by apply ssh_banner_returns.
  - by apply ssh_answer_returns.
  - by apply IH.
  - pose proof (awaits_packet_returns (SSHGetCertificate a b) c (c_world c) Hwf) as H.
    rewrite with_world_id in H. by apply H.
  - by apply ssh_get_certificate_returns.
  - by apply sip_line_returns.
Qed.

(** C15. On an SSH or SIP connection the processing loop returns, whatever
    the server sends and however it is cut: no more turns than bytes in the
    buffer, every access to the buffer inside its block, and the connection
    still well-formed. The user's functions are only asked to return and to
    leave the trigger and the size of the buffer alone. *)
Theorem ssh_sip_process_terminates fuel ct prev_pos (c : ctx W) :
  Buffer.wf (c_buf c) → usable ssh_sip (_trigger (c_sm c)) →
  0 ≤ prev_pos ≤ Buffer.size (c_buf c) → Buffer.size (c_buf c) < Z.of_nat fuel →
  ∃ r c', process_loop fuel ct prev_pos c = Ok (r, c') ∧ r ≠ CanProcessAgain ∧
          Buffer.wf (c_buf c') ∧ usable ssh_sip (_trigger (c_sm c')).
Proof.
  intros Hwf Hu Hpos Hfuel.
  destruct (process_loop_returns (C := protocol_closures) ssh_sip fuel ct prev_pos c protocols_keep_usable Hwf Hu Hpos Hfuel)
    as (r & c' & ? & ? & ? & ? & _). by exists r, c'.
Qed.

(** What the connection functions install is usable. *)
Lemma SSH_call_usable this t (c c' : ctx W) b :
  SSH_call this t c = Ok (b, c') → usable ssh_sip (_trigger (c_sm c')).
Proof.
  unfold SSH_call. destruct (send _ _ _). intros [= <- <-]. simpl. eexists. by split.
Qed.
Lemma SIP_call_usable this t (c c' : ctx W) b :
  SIP_call this t c = Ok (b, c') → usable ssh_sip (_trigger (c_sm c')).
Proof.
  unfold SIP_call. destruct (send _ _ _). intros [= <- <-]. simpl. eexists. by split.
Qed.

End Returns.

End Calls.
