(* ===== verification/Speak.v ===== *)
(** * What the functions of the user make of bytes

    The functions a user gives to a protocol see parts of the buffer of a
    connection through pointers. Here they are handlers of lists of bytes
    ([handlers], [users_speak]), and a call of the code that runs one on the
    right bytes is an answer of the readers of Stream.v ([says]). *)

From S2P Require Import Prelude Lvl4Buffer Leeloo Target HostSM Lvl4SM Framing Stream Closures SSL SSH SIP Protocols.
#[local] Open Scope Z_scope.

(** The functions of the user as handlers of bytes, strings and numbers, and
    what a send leaves for the user to see. *)
Record handlers {L : Leeloo} {UC : UserCode} {U : Type} := mkHandlers {
  on_data : user_data → list Z → U → bool * U;
  on_header : user_header → list Z → list Z → U → bool * U;
  on_suite : user_cipher → Z → U → bool * U;
  on_send : list Z → U → U;
}.
Arguments handlers {L UC} U.

Section Speak.
Context {L : Leeloo} {UC : UserCode} {M : Malloc} {W : Type} {OSW : OS W} {UW : UserCalls W}.
Context {U : Type} (user : handlers U).

#[local] Abbreviation on_data := (Speak.on_data user).
#[local] Abbreviation on_header := (Speak.on_header user).
#[local] Abbreviation on_suite := (Speak.on_suite user).
#[local] Abbreviation on_send := (Speak.on_send user).

Definition said (r : bool * U) : answer U := mkAnswer r.1 None r.2.

(** A function of the user that may be empty. *)
Definition tell (cb : option user_data) (msg : list Z) (u : U) : answer U :=
  match cb with Some f => said (on_data f msg u) | None => said (false, u) end.

Definition await (n : Z) (d : closure) : option trigger := Some (SizeDataTrigger n (Some d)).

(** A function of the user that is given [n] bytes where [l] are left of the
    message; no answer is known when it would read past them. *)
Definition hand (def : bool) (cb : option user_data) (n : Z) (l : list Z) (u : U) :
    option (bool * U) :=
  match cb with
  | Some f => if n <=? zlen l then Some (on_data f (ztake n l) u) else None
  | None => Some (def, u)
  end.

(** ** The calls of the code *)

Context {A : Type} (usr : W → U) (kept : W → A).

(** The functions of the user run the handlers on the bytes and the strings
    they are given, and leave alone the connection and what is [kept]. *)
Record users_speak (t : ConnectedTarget) : Prop := {
  us_data f off msg (c : ctx W) : bytes_at (c_block c) off msg →
    ∃ w', call_user_data f t off (zlen msg) c =
            Ok ((on_data f msg (usr (c_world c))).1, with_world w' c) ∧
          usr w' = (on_data f msg (usr (c_world c))).2 ∧ kept w' = kept (c_world c);
  us_header f k v ks vs (c : ctx W) :
    bytes_at (c_block c) k (ks ++ [0]) → 0 ∉ ks → bytes_at (c_block c) v (vs ++ [0]) → 0 ∉ vs →
    ∃ w', call_user_header f t k v c =
            Ok ((on_header f ks vs (usr (c_world c))).1, with_world w' c) ∧
          usr w' = (on_header f ks vs (usr (c_world c))).2 ∧ kept w' = kept (c_world c);
  us_suite f z (c : ctx W) :
    ∃ w', call_user_cipher f t z c =
            Ok ((on_suite f z (usr (c_world c))).1, with_world w' c) ∧
          usr w' = (on_suite f z (usr (c_world c))).2 ∧ kept w' = kept (c_world c);
  us_send data w : usr (send t data w).2 = on_send data (usr w) ∧
                   kept (send t data w).2 = kept w;
}.

(** The connection after stores into the first message of its buffer. *)
Record rewritten (msg rest : list Z) (c c1 : ctx W) : Prop := {
  rw_wf : Buffer.wf (c_buf c1);
  rw_contents : ∃ msg', length msg' = length msg ∧ Buffer.contents (c_buf c1) = msg' ++ rest;
  rw_trigger : _trigger (c_sm c1) = _trigger (c_sm c);
  rw_world : c_world c1 = c_world c;
}.

Lemma rewritten_refl msg rest c :
  Buffer.wf (c_buf c) → Buffer.contents (c_buf c) = msg ++ rest → rewritten msg rest c c.
Proof. split; [done|by exists msg|done|done]. Qed.

Lemma after_said msg rest c c1 r w' :
  rewritten msg rest c c1 → usr w' = r.2 → kept w' = kept (c_world c) →
  after_call (C := protocol_closures) usr kept msg rest (said r) c (with_world w' c1).
Proof. by intros [? ? ? _]; split. Qed.

Lemma after_said_here msg rest c c1 b :
  rewritten msg rest c c1 →
  after_call (C := protocol_closures) usr kept msg rest (said (b, usr (c_world c))) c c1.
Proof. intros [? ? ? Hw]. by split; rewrite ?Hw. Qed.

Lemma after_install msg rest c c1 tr u w' :
  rewritten msg rest c c1 → usr w' = u → kept w' = kept (c_world c) →
  after_call (C := protocol_closures) usr kept msg rest (mkAnswer true (Some tr) u) c
    (with_sm (set_trigger tr) (with_world w' c1)).
Proof. by intros [? ? ? _]; split. Qed.

Lemma after_install_here msg rest c c1 tr :
  rewritten msg rest c c1 →
  after_call (C := protocol_closures) usr kept msg rest (mkAnswer true (Some tr) (usr (c_world c))) c
    (with_sm (set_trigger tr) c1).
Proof. intros [? ? ? Hw]. by split; rewrite ?Hw; simpl; rewrite ?Hw. Qed.

Section Speaks.
Context (t : ConnectedTarget) (HU : users_speak t).

(** The call [r], made on [c], answers [a] to the message [msg]. *)
Definition says (msg rest : list Z) (a : answer U) (c : ctx W) (r : result (bool * ctx W)) : Prop :=
  ∃ c', r = Ok (goes_on a, c') ∧ after_call (C := protocol_closures) usr kept msg rest a c c'.

Lemma says_tell cb off data n msg rest (c c1 : ctx W) :
  rewritten msg rest c c1 → bytes_at (c_block c1) off data → n = zlen data →
  says msg rest (tell cb data (usr (c_world c))) c (call_data_cb false cb t off n c1).
Proof.
  intros Hrw Hat ->. destruct cb as [f|].
  - destruct (us_data t HU f off data c1 Hat) as (w' & Hcall & Hs & Ha).
    rewrite (rw_world _ _ _ _ Hrw) in *. eexists. split; [exact Hcall|]. by apply after_said.
  - exists c1. split; [done|]. by apply after_said_here.
Qed.

Lemma contents_at msg rest (c : ctx W) :
  Buffer.contents (c_buf c) = msg ++ rest → bytes_at (c_block c) 0 msg.
Proof. apply c_contents_bytes_at. Qed.

Lemma load_front n k msg rest (c : ctx W) :
  n = Z.of_nat k → Buffer.contents (c_buf c) = msg ++ rest → (k ≤ length msg)%nat →
  load_n (c_block c) 0 n = Ok (take k msg).
Proof.
  intros -> Hat%contents_at Hn. rewrite <- (take_drop k msg) in Hat at 1.
  apply bytes_at_app, proj1, bytes_at_load_n in Hat. by rewrite length_take, Nat.min_l in Hat.
Qed.

Lemma hand_runs def cb n l off r (c : ctx W) :
  hand def cb n l (usr (c_world c)) = Some r → bytes_at (c_block c) off l → 0 ≤ n →
  ∃ w', call_data_cb def cb t off n c = Ok (r.1, with_world w' c) ∧
        usr w' = r.2 ∧ kept w' = kept (c_world c).
Proof.
  intros Hr Hat Hn. destruct cb as [f|]; simpl in Hr.
  - destruct (n <=? zlen l) eqn:E; [|done]. injection Hr as <-. apply Z.leb_le in E.
    rewrite <- (take_drop (Z.to_nat n) l) in Hat. apply bytes_at_app in Hat as [Hat _].
    assert (Hlen : n = zlen (ztake n l)) by solve_length.
    pose proof (us_data t HU f off _ c Hat) as Hcall. by rewrite <- Hlen in Hcall.
  - injection Hr as <-. exists (c_world c). by rewrite with_world_id.
Qed.

End Speaks.

End Speak.
