(* ===== verification/SpeakSSL.v ===== *)
(** * SSL as a function of the records of a server

    What SSL makes of the header and the payload of a record, on lists of bytes.
    The code is not defined on every message: an empty record is a trigger that
    is always satisfied, and the lengths of a ServerHello and of a certificate
    list can lead it past the message. There the reader has no answer; on every
    other message the functions of ssl.cpp give its answer
    ([says_tls_header], [says_handshake]). *)

From S2P Require Import Prelude Lvl4Buffer Leeloo Target HostSM Lvl4SM Framing Stream Closures SSL Protocols Speak.
#[local] Open Scope Z_scope.

Section SpeakSSL.
Context {L : Leeloo} {UC : UserCode} {M : Malloc} {W : Type} {OSW : OS W} {UW : UserCalls W}.
Context {U : Type} (user : handlers U).

#[local] Abbreviation on_data := (Speak.on_data user).
#[local] Abbreviation on_suite := (Speak.on_suite user).
#[local] Abbreviation tell := (tell user).
#[local] Abbreviation hand := (hand user).

(** ** The reader *)

Definition speak_tls_header (this : SSL) (on_hs : hs_step) (msg : list Z) (u : U) : option (answer U) :=
  if negb (bool_decide (head msg = Some 0x16)) then Some (tell (_on_failure this) msg u) else
  let n := be_value (take 2 (drop 3 msg)) in
  if n <=? 0 then None else Some (mkAnswer true (await n (OnHandshake this on_hs)) u).

(** The handshake message of type [msg_type] that fills [msg]. *)
Definition handshake_body (msg_type : Z) (msg : list Z) : option (list Z) :=
  let body := drop 4 msg in
  if bool_decide (head msg = Some msg_type) && (be_value (take 3 (drop 1 msg)) =? zlen body)
  then Some body else None.

Definition failure (this : SSL) (l : list Z) (u : U) : answer U := tell (_on_failure this) l u.

Definition speak_handshake1 (this : SSL) (msg : list Z) (u : U) : option (answer U) :=
  if zlen msg <? 4 then Some (failure this msg u) else
  match handshake_body 2 msg with
  | None => Some (failure this (take (length msg - 4) msg) u)
  | Some body =>
      if zlen body <? 3 then None else
      let suite := le_value (take 2 (drop (length body - 3) body)) in
      let r := match _on_cipher this with Some f => on_suite f suite u | None => (true, u) end in
      Some (mkAnswer r.1 (if r.1 then await 5 (OnTlsHeader this handshake2) else None) r.2)
  end.

(** The certificates in [l], the end of a list of [size] bytes. *)
Fixpoint speak_certificates (fuel : nat) (this : SSL) (size : Z) (l : list Z) (u : U) :
    option (bool * U) :=
  match fuel with
  | O => None
  | S fuel =>
      if zlen l =? 0 then Some (false, u) else
      if zlen l <? 3 then hand false (_on_failure this) size l u else
      let n := be_value (take 3 l) in
      if zlen l <? n then hand false (_on_failure this) size l u else
      r ← hand true (_on_certif this) n (drop 3 l) u;
      if negb r.1 then Some (false, r.2)
      else speak_certificates fuel this size (zdrop n (drop 3 l)) r.2
  end.

Definition speak_handshake2 (this : SSL) (msg : list Z) (u : U) : option (answer U) :=
  if zlen msg <? 4 then Some (failure this msg u) else
  match handshake_body 11 msg with
  | None => Some (failure this (take (length msg - 4) msg) u)
  | Some body =>
      if zlen body <? 3 then Some (failure this body u) else
      let certs := drop 3 body in
      if negb (be_value (take 3 body) =? zlen certs) then Some (failure this certs u)
      else said <$> speak_certificates (S (length msg)) this (zlen certs) certs u
  end.

Definition speak_handshake (this : SSL) (step : hs_step) (msg : list Z) (u : U) : option (answer U) :=
  match step with
  | handshake1 => speak_handshake1 this msg u
  | handshake2 => speak_handshake2 this msg u
  end.

(** ** The code *)

Context {A : Type} (usr : W → U) (kept : W → A).
Context (t : ConnectedTarget) (HU : users_speak user usr kept t).

Lemma get_length_take m off l :
  bytes_at m off l → Forall is_byte l → 3 ≤ zlen l →
  get_length m off = Ok (be_value (take 3 l)) ∧ 0 ≤ be_value (take 3 l) < 2 ^ 24.
Proof.
  intros Hat Hl Hlen. destruct l as [|a [|b [|d l]]]; simpl in Hlen; try lia.
  apply (bytes_at_app m off [a; b; d]) in Hat as [Hat _].
  apply (Forall_app _ [a; b; d]) in Hl as [Hl _].
  split.
  - apply Forall_cons in Hl as [? Hl]. apply Forall_cons in Hl as [? Hl].
    apply Forall_cons in Hl as [? _]. by apply get_length_bytes.
  - apply (le_value_range (reverse [a; b; d])). by apply Forall_reverse.
Qed.

Lemma says_tls_header this on_hs msg rest a (c : ctx W) :
  Buffer.wf (c_buf c) → Buffer.contents (c_buf c) = msg ++ rest → Forall is_byte msg →
  5 ≤ zlen msg → speak_tls_header this on_hs msg (usr (c_world c)) = Some a →
  says usr kept msg rest a c (on_tls_header this t 0 (zlen msg) on_hs c).
Proof.
  intros Hwf Hc Hb Hn. pose proof (rewritten_refl _ _ _ Hwf Hc) as Hrw.
  pose proof (contents_at _ _ _ Hc) as Hat. unfold speak_tls_header, on_tls_header.
  destruct msg as [|k msg]; [simpl in Hn; lia|].
  pose proof Hat as [-> _]%bytes_at_cons. cbn [mbind result_bind head].
  destruct (Z.eqb_spec k 22) as [->|Hk]; cbn [negb].
  2:{ rewrite bool_decide_eq_false_2 by congruence. intros [= <-]. by eapply says_tell. }
  rewrite bool_decide_eq_true_2 by done. cbn [negb].
  set (m := 22 :: msg) in *. set (two := take 2 (drop 3 m)).
  assert (Htwo : length two = 2%nat) by (unfold two; rewrite length_take, length_drop; lia).
  assert (Hat2 : bytes_at (c_block c) 3 two).
  { by apply bytes_at_take, (bytes_at_drop _ 0 3); [lia|]. }
  apply bytes_at_load_n in Hat2. rewrite Htwo in Hat2. change (Z.of_nat 2) with 2 in Hat2.
  change (0 + 3) with 3. rewrite Hat2. cbn [mbind result_bind].
  rewrite htons_le_value by (done || (unfold two; by apply Forall_take, Forall_drop)).
  destruct (_ <=? 0); [done|]. intros [= <-]. eexists. split; [reflexivity|].
  by apply after_install_here.
Qed.

(** The connection has the whole message [msg] in front of its buffer. *)
Record has_message (msg rest : list Z) (c : ctx W) : Prop := {
  hm_wf : Buffer.wf (c_buf c);
  hm_contents : Buffer.contents (c_buf c) = msg ++ rest;
  hm_bytes : Forall is_byte msg;
}.

Lemma hm_at msg rest c : has_message msg rest c → bytes_at (c_block c) 0 msg.
Proof. intros [_ Hc _]. by eapply contents_at. Qed.

Lemma hm_rewritten msg rest c : has_message msg rest c → rewritten msg rest c c.
Proof. intros [? ? _]. by apply rewritten_refl. Qed.

(** What the code reads in front of a handshake message. *)
Record handshake_front (msg : list Z) (c : ctx W) (kind n : Z) : Prop := {
  hf_kind : load (c_block c) 0 = Ok kind;
  hf_length : get_length (c_block c) (0 + 1) = Ok n;
  hf_small : u32 n = n;
  hf_rest : u32 (zlen msg - sizeof_Handshake) = zlen (drop 4 msg);
  hf_at : bytes_at (c_block c) (0 + sizeof_Handshake) (drop 4 msg);
  hf_body k : handshake_body k msg =
    if (kind =? k) && (n =? zlen (drop 4 msg)) then Some (drop 4 msg) else None;
}.

Lemma front_of msg rest c :
  has_message msg rest c → 4 ≤ zlen msg → ∃ kind n, handshake_front msg c kind n.
Proof.
  intros Hm Hn. pose proof (hm_at _ _ _ Hm) as Hat. destruct Hm as [Hwf Hc Hb].
  pose proof (Buffer.contents_size _ Hwf) as Hsz. rewrite Hc, length_app in Hsz.
  destruct Hwf as (Hp & Hs & _). unfold Buffer.size, Buffer.max_size in *.
  assert (Hl : 3 ≤ zlen (drop 1 msg)) by (rewrite length_drop; lia).
  destruct (get_length_take (c_block c) (0 + 1) (drop 1 msg)) as [Hg Hr]; [|by apply Forall_drop|done|].
  { apply (bytes_at_drop _ 0 1); [lia|done]. }
  destruct msg as [|kind msg]; [simpl in Hn; lia|]. exists kind. eexists. split; [|exact Hg|..].
  - by apply bytes_at_cons in Hat as [? _].
  - by apply u32_small; lia.
  - unfold sizeof_Handshake. rewrite length_drop. rewrite u32_small; lia.
  - by apply (bytes_at_drop _ 0 4); [lia|].
  - intros k. unfold handshake_body. cbn [head].
    destruct (Z.eqb_spec kind k) as [->|Hk]; [by rewrite bool_decide_eq_true_2|].
    by rewrite bool_decide_eq_false_2 by congruence.
Qed.

(** The failure function is given the beginning or the end of the message. *)
Lemma says_failure this msg rest l off n (c : ctx W) :
  has_message msg rest c → bytes_at (c_block c) off l → n = zlen l →
  says usr kept msg rest (failure this l (usr (c_world c))) c (failure_cb this t off n c).
Proof. intros Hm ? ->. by eapply says_tell; [|apply hm_rewritten| |]. Qed.

Lemma says_failure_front this msg rest k (c : ctx W) :
  has_message msg rest c → 4 ≤ zlen msg → k = zlen (drop 4 msg) →
  says usr kept msg rest (failure this (take (length msg - 4) msg) (usr (c_world c))) c
    (failure_cb this t 0 k c).
Proof.
  intros Hm Hn ->. apply says_failure; [done| |rewrite length_take, length_drop; lia].
  by eapply bytes_at_take, hm_at.
Qed.

Lemma says_handshake1 this msg rest a (c : ctx W) :
  has_message msg rest c → speak_handshake1 this msg (usr (c_world c)) = Some a →
  says usr kept msg rest a c (on_handshake1 this t 0 (zlen msg) c).
Proof.
  intros Hm. unfold speak_handshake1, on_handshake1. change sizeof_Handshake with 4.
  destruct (zlen msg <? 4) eqn:E4.
  { intros [= <-]. apply says_failure; [done|by eapply hm_at|done]. }
  apply Z.ltb_ge in E4. destruct (front_of _ _ _ Hm E4) as (kind & n & Hf).
  pose proof (hf_rest _ _ _ _ Hf) as Hrest. change sizeof_Handshake with 4 in Hrest.
  rewrite (hf_kind _ _ _ _ Hf), (hf_length _ _ _ _ Hf), (hf_body _ _ _ _ Hf), Hrest.
  cbn [mbind result_bind]. rewrite (hf_small _ _ _ _ Hf).
  destruct (kind =? 2); cbn [negb andb]; [|intros [= <-]; by apply says_failure_front].
  destruct (n =? _); cbn [negb]; [|intros [= <-]; by apply says_failure_front].
  pose proof (hf_at _ _ _ _ Hf) as Hat. set (body := drop 4 msg) in *.
  destruct (zlen body <? 3) eqn:E3; [done|]. apply Z.ltb_ge in E3.
  pose proof (hm_rewritten _ _ _ Hm) as Hrw.
  set (suite := take 2 (drop (length body - 3) body)).
  assert (Hsuite : load_n (c_block c) (0 + 4 + u32 (zlen body - 3)) 2 = Ok suite).
  { assert (Hl : zlen suite = 2) by (unfold suite; rewrite length_take, length_drop; lia).
    rewrite <- Hl at 1. apply bytes_at_load_n. unfold suite. apply bytes_at_take.
    rewrite u32_small.
    - replace (zlen body - 3) with (Z.of_nat (length body - 3)) by lia. by apply bytes_at_drop; [lia|].
    - pose proof (u32_range (zlen msg - 4)). rewrite Hrest in *. lia. }
  rewrite Hsuite. cbn [mbind result_bind]. unfold call_cb.
  destruct (_on_cipher this) as [f|]; cbn [fmap option_fmap option_map].
  2:{ intros [= <-]. eexists. split; [reflexivity|]. by apply after_install_here. }
  destruct (us_suite user usr kept t HU f (le_value suite) c) as (w' & -> & Hs & Hk).
  destruct (on_suite f _ _) as [[] u]; simpl in *; intros [= <-]; eexists; (split; [reflexivity|]).
  - by apply after_install.
  - by eapply (after_said usr kept _ _ _ _ (false, u)).
Qed.

(** The loop over the certificates, on the list that its pointer is at. A
    certificate that the user does not ask for may leave it past the end. *)
Lemma certificates_speak fuel this size l off len r (c : ctx W) :
  speak_certificates fuel this size l (usr (c_world c)) = Some r →
  Forall is_byte l → 0 ≤ size →
  bytes_at (c_block c) off l ∧ len = zlen l ∨ l = [] ∧ len < 0 →
  ∃ w', certificates_loop fuel this t off size len c = Ok (r.1, with_world w' c) ∧
        usr w' = r.2 ∧ kept w' = kept (c_world c).
Proof.
  revert l off len c. induction fuel as [|fuel IH]; intros l off len c Hr Hb Hsize Hlen; [done|].
  cbn [speak_certificates certificates_loop] in *.
  destruct (zlen l =? 0) eqn:E0.
  { injection Hr as <-. exists (c_world c). rewrite with_world_id.
    rewrite (proj2 (Z.ltb_ge 0 len)) by (destruct Hlen as [[_ ->]|[_ ?]]; lia). done. }
  apply Z.eqb_neq in E0. destruct Hlen as [[Hat ->]|[-> _]]; [|done].
  rewrite (proj2 (Z.ltb_lt 0 _)) by lia. cbn [negb]. unfold failure_cb.
  destruct (zlen l <? 3) eqn:E3; [by eapply hand_runs|]. apply Z.ltb_ge in E3.
  destruct (get_length_take _ _ _ Hat Hb E3) as [-> Hn]. cbn [mbind result_bind].
  set (n := be_value (take 3 l)) in *.
  destruct (zlen l <? n) eqn:En; [by eapply hand_runs|]. apply Z.ltb_ge in En.
  assert (Hat3 : bytes_at (c_block c) (off + 3) (drop 3 l)) by (apply (bytes_at_drop _ off 3); [lia|done]).
  destruct (hand _ _ _ _ _) as [[go u]|] eqn:Eh; [|done]. cbn [mbind option_bind fst snd] in Hr.
  destruct (hand_runs user usr kept t HU _ _ _ _ _ _ _ Eh Hat3) as (w1 & -> & Hu & Hk); [lia|].
  cbn [mbind result_bind fst snd] in *. destruct go; cbn [negb] in *.
  2:{ injection Hr as <-. by exists w1. }
  rewrite <- Hu in Hr.
  destruct (IH (zdrop n (drop 3 l)) (off + 3 + n) (zlen l - 3 - n) (with_world w1 c))
    as (w2 & Hl & Hu2 & Hk2); [exact Hr|by apply Forall_drop, Forall_drop|done| |].
  - pose proof (length_drop l 3) as Hl3.
    destruct (decide (Z.to_nat n ≤ length (drop 3 l))%nat) as [Hle|Hgt]; [left|right].
    + split; [|rewrite !length_drop; lia].
      rewrite <- (Z2Nat.id n) at 1 by lia. by apply bytes_at_drop.
    + split; [apply drop_ge|]; lia.
  - exists w2. split; [exact Hl|]. split; [done|by rewrite Hk2].
Qed.

Lemma says_handshake2 this msg rest a (c : ctx W) :
  has_message msg rest c → speak_handshake2 this msg (usr (c_world c)) = Some a →
  says usr kept msg rest a c (on_handshake2 (S (length msg)) this t 0 (zlen msg) c).
Proof.
  intros Hm. unfold speak_handshake2, on_handshake2. change sizeof_Handshake with 4.
  destruct (zlen msg <? 4) eqn:E4.
  { intros [= <-]. apply says_failure; [done|by eapply hm_at|done]. }
  apply Z.ltb_ge in E4. destruct (front_of _ _ _ Hm E4) as (kind & n & Hf).
  pose proof (hf_rest _ _ _ _ Hf) as Hrest. change sizeof_Handshake with 4 in Hrest.
  rewrite (hf_kind _ _ _ _ Hf), (hf_length _ _ _ _ Hf), (hf_body _ _ _ _ Hf), Hrest.
  cbn [mbind result_bind]. rewrite (hf_small _ _ _ _ Hf).
  destruct (kind =? 11); cbn [negb andb]; [|intros [= <-]; by apply says_failure_front].
  destruct (n =? _); cbn [negb]; [|intros [= <-]; by apply says_failure_front].
  pose proof (hf_at _ _ _ _ Hf) as Hat. change sizeof_Handshake with 4 in Hat.
  assert (Hb : Forall is_byte (drop 4 msg)) by apply Forall_drop, Hm.
  pose proof (u32_range (zlen msg - 4)) as Hmax. rewrite Hrest in Hmax. set (body := drop 4 msg) in *.
  destruct (zlen body <? 3) eqn:E3; [intros [= <-]; by apply says_failure|]. apply Z.ltb_ge in E3.
  destruct (get_length_take _ _ _ Hat Hb E3) as [-> Hn]. cbn [mbind result_bind].
  rewrite (u32_small (be_value _)) by lia.
  assert (Hu : u32 (zlen body - 3) = zlen (drop 3 body)) by (rewrite length_drop, u32_small; lia).
  assert (Hat3 : bytes_at (c_block c) (0 + 4 + 3) (drop 3 body)) by (apply (bytes_at_drop _ _ 3); [lia|done]).
  rewrite Hu. destruct (be_value _ =? _) eqn:El; cbn [negb]; [|intros [= <-]; by apply says_failure].
  apply Z.eqb_eq in El. rewrite El. intros ([go u] & Hr & ->)%fmap_Some.
  destruct (certificates_speak (S (length msg)) this (zlen (drop 3 body)) (drop 3 body) (0 + 4 + 3)
    (zlen (drop 3 body)) (go, u) c Hr) as (w' & Hl & Hs & Hk); [by apply Forall_drop|lia|by left|].
  eexists. split; [exact Hl|]. apply after_said; [by apply hm_rewritten|done|done].
Qed.

End SpeakSSL.
