(* ===== verification/Conversation.v ===== *)
(** * Connections as functions of the bytes the server sends

    What SSL, SSH and SIP connections make of a stream, without buffers, pointers
    and reads: [speak] answers each whole message, and the reader of Stream.v runs
    it byte after byte. The closures follow it ([closures_speak]), so that what the
    user sees of a conversation, what is sent and when the connection ends are a
    function of the bytes received ([protocol_conversation]), and do not depend on
    how the network cut them ([same_bytes_same_conversation]). The reader always
    has an answer for SSH and SIP; for SSL, where SpeakSSL.v says. *)

From stdpp Require Import strings.
From S2P Require Import Prelude Lvl4Buffer Leeloo Target HostSM Lvl4SM Framing Stream Closures SSL SSH SIP Protocols Speak SpeakSSL.
#[local] Open Scope Z_scope.

Section Conversation.
Context {L : Leeloo} {UC : UserCode} {M : Malloc} {W : Type} {OSW : OS W} {UW : UserCalls W}.
Context {U : Type} (user : handlers U).

#[local] Abbreviation on_data := (Speak.on_data user).
#[local] Abbreviation on_header := (Speak.on_header user).
#[local] Abbreviation on_suite := (Speak.on_suite user).
#[local] Abbreviation on_send := (Speak.on_send user).
#[local] Abbreviation tell := (tell user).

Definition speak_banner (a b : option user_data) (msg : list Z) (u : U) : answer U :=
  if bool_decide (take 7 msg = bytes_of_string "SSH-2.0")
  then mkAnswer true (await 5 (SSHAnswer (Some (SshKexReply a b))))
         (on_send client_dh (on_send client_key_exchange u))
  else tell b msg u.

Definition speak_answer (next : option closure) (msg : list Z) (u : U) : answer U :=
  match next with
  | None => said (false, u)
  | Some next =>
      let n := u32 (ntohl (le_value (take 4 msg)) + default 0 (msg !! 4%nat)) in
      if n <=? 7 then said (false, u) else mkAnswer true (await (n - 7) (SshPayload next)) u
  end.

Definition speak_certificate (a b : option user_data) (msg : list Z) (u : U) : answer U :=
  match msg with
  | [] => tell b [] u
  | kind :: body =>
      if negb (kind =? 31) then tell b msg u else
      if zlen body <? 4 then tell b body u else
      if zlen body - 4 <? ntohl (le_value (take 4 body)) then tell b (drop 4 body) u
      else tell a (drop 4 body) u
  end.

Definition speak_line (cbi : option user_data) (cbh : option user_header) (msg : list Z) (u : U) :
    answer U :=
  if negb (bool_decide (last msg = Some 13)) then tell cbi msg u else
  if zlen msg =? 1 then said (false, u) else
  match find_byte 58 msg with
  | Some i =>
      let value := drop (S i) (take (length msg - 1) msg) in
      match cbh with
      | Some f => said (on_header f (until_nul (take i msg))
                          (until_nul (if sip_skips value then drop 1 value else value)) u)
      | None => said (true, u)
      end
  | None =>
      if (7 <? zlen msg) && bool_decide (take 7 msg = sip_20) then said (true, u)
      else tell cbi (cut_line msg) u
  end.

(** The numbers of a TLS record are only those of bytes. *)
Definition if_bytes (msg : list Z) (a : option (answer U)) : option (answer U) :=
  if bool_decide (Forall is_byte msg) then a else None.

Fixpoint speak (d : closure) (msg : list Z) (u : U) : option (answer U) :=
  match d with
  | UserData f => Some (tell (Some f) msg u)
  | OnTlsHeader this step => if_bytes msg (speak_tls_header user this step msg u)
  | OnHandshake this step => if_bytes msg (speak_handshake user this step msg u)
  | SshBanner a b => Some (speak_banner a b msg u)
  | SSHAnswer next => Some (speak_answer next msg u)
  | SshPayload next => speak next msg u
  | SshKexReply a b =>
      Some (mkAnswer true (await 5 (SSHAnswer (Some (SSHGetCertificate a b)))) u)
  | SSHGetCertificate a b => Some (speak_certificate a b msg u)
  | SipLine cbi cbh => Some (speak_line cbi cbh msg u)
  end.

(** The functions of the protocols, and the sizes they may be called with. *)
Definition served (d : closure) (n : Z) : Prop :=
  match d with
  | OnTlsHeader _ _ => 5 ≤ n
  | OnHandshake _ _ => True
  | _ => ssh_sip d n
  end.

Lemma ssh_sip_served d n : ssh_sip d n → served d n.
Proof. by destruct d. Qed.

Lemma usable_served tr :
  usable (C := protocol_closures) ssh_sip tr → usable (C := protocol_closures) served tr.
Proof.
  destruct tr as [|n f|ch f|]; simpl; try done.
  - intros (? & d & -> & ?%ssh_sip_served). split; [done|]. by exists d.
  - intros (d & -> & H). exists d. split; [done|]. intros n Hn. by apply ssh_sip_served, H.
Qed.

Lemma await_5 next :
  (∀ m, 0 < m → ssh_sip next m) →
  usable (C := protocol_closures) ssh_sip (SizeDataTrigger 5 (Some (SSHAnswer (Some next)))).
Proof. intros H. split; [lia|]. eexists. by split. Qed.

Lemma speak_usable_ssh_sip : installs_usable (C := protocol_closures) speak ssh_sip.
Proof.
  intros d msg u a tr. induction d as [f| | |ca cb|next|d IH|ca cb|ca cb|ca cb]; simpl; try done;
    try (by auto); intros Hd [= <-].
  - done.
  - unfold speak_banner, tell, said. destruct (bool_decide _).
    + intros [= <-]. apply await_5. by intros.
    + by destruct cb.
  - destruct Hd as [_ Hnext]. destruct next as [next|]; [|done]. simpl.
    destruct (_ <=? 7) eqn:E; [done|]. intros [= <-]. apply Z.leb_gt in E. simpl.
    split; [lia|]. eexists. split; [done|]. apply Hnext. lia.
  - intros [= <-]. apply await_5. by intros.
  - unfold speak_certificate, tell, said. destruct msg; [by destruct cb|].
    repeat (destruct (_ : bool); [by destruct cb|]). by destruct ca.
  - unfold speak_line, tell, said. destruct (negb _); [by destruct ca|].
    destruct (_ =? 1); [done|]. destruct (find_byte 58 msg); [by destruct cb|].
    destruct (_ && _); [done|by destruct ca].
Qed.

Lemma if_bytes_Some msg a b : if_bytes msg a = Some b → Forall is_byte msg ∧ a = Some b.
Proof. unfold if_bytes. case_bool_decide; [done|done]. Qed.

Lemma tell_installs cb msg u : installs (tell cb msg u) = None.
Proof. by destruct cb. Qed.

Lemma speak_usable : installs_usable (C := protocol_closures) speak served.
Proof.
  intros d msg u a tr. pose proof (speak_usable_ssh_sip d msg u a tr) as H.
  destruct d as [f|this step|this step|ca cb|next|d|ca cb|ca cb|ca cb];
    try (by intros ? ? ?; apply usable_served, H); clear H; simpl; intros _ [_ Hs]%if_bytes_Some.
  - unfold speak_tls_header in Hs. destruct (negb _).
    { injection Hs as <-. by rewrite tell_installs. }
    destruct (_ <=? 0) eqn:E; [done|]. injection Hs as <-. intros [= <-]. apply Z.leb_gt in E.
    split; [done|]. by eexists.
  - destruct step; simpl in Hs; unfold speak_handshake1, speak_handshake2, failure in Hs.
    + destruct (_ <? 4); [injection Hs as <-; by rewrite tell_installs|].
      destruct (handshake_body _ _) as [body|]; [|injection Hs as <-; by rewrite tell_installs].
      destruct (_ <? 3); [done|]. injection Hs as <-. simpl. destruct (_.1); [|done].
      intros [= <-]. split; [done|]. by eexists.
    + destruct (_ <? 4); [injection Hs as <-; by rewrite tell_installs|].
      destruct (handshake_body _ _) as [body|]; [|injection Hs as <-; by rewrite tell_installs].
      destruct (_ <? 3); [injection Hs as <-; by rewrite tell_installs|].
      destruct (negb _); [injection Hs as <-; by rewrite tell_installs|].
      by apply fmap_Some in Hs as (r & _ & ->).
Qed.

(** The reader always has an answer for SSH and SIP. *)
Lemma speak_ssh_sip d n msg u : ssh_sip d n → is_Some (speak d msg u).
Proof. induction d; simpl; try done; intros; by eauto. Qed.

(** ** A whole conversation *)

(** The whole conversation of a connection function of a protocol: what it
    sends, and then the reader on the bytes [l] that come back. *)
Definition talk (a : connect_action) (l : list Z) (u : U) : outcome U :=
  match a with
  | SSLConnect this =>
      converse speak (SizeDataTrigger sizeof_TLS (Some (OnTlsHeader this handshake1)))
        [] l (on_send (client_hello this) u)
  | SSHConnect this =>
      converse speak (CharDataTrigger 10 (Some (SshBanner (_cb_certif this) (_cb_invalid this))))
        [] l (on_send identification u)
  | SIPConnect this =>
      converse speak (CharDataTrigger 10 (Some (SipLine (_cb_invalid_header this) (_cb_header this))))
        [] l (on_send get_options u)
  | UserConnect _ => Waiting DataTrigger [] u
  end.

Definition talks (a : connect_action) : Prop :=
  match a with UserConnect _ => False | _ => True end.

(** SSH and SIP. *)
Definition always_answers (a : connect_action) : Prop :=
  match a with SSHConnect _ | SIPConnect _ => True | _ => False end.

(** Every conversation is a run of the reader. *)
Lemma talk_starts a u : talks a →
  ∃ tr u', usable (C := protocol_closures) served tr ∧
           ∀ l, talk a l u = converse (C := protocol_closures) speak tr [] l u'.
Proof.
  destruct a as [|this|this|this]; try done; intros _; eexists _, _; (split; [|done]);
    [split; [done|]|..]; eexists; by split.
Qed.

Lemma talk_app a l l' u :
  talks a →
  talk a (l ++ l') u =
    match talk a l u with
    | Ended u => Ended (C := protocol_closures) u
    | Waiting tr msg u => converse (C := protocol_closures) speak tr msg l' u
    | Broken u => Broken (C := protocol_closures) u
    end.
Proof.
  intros Ha. destruct (talk_starts a u Ha) as (tr & u' & _ & Ht). rewrite !Ht. apply converse_app.
Qed.

Lemma talk_usable a l u tr msg u' :
  talks a → talk a l u = Waiting (C := protocol_closures) tr msg u' →
  usable (C := protocol_closures) served tr ∧ waits (C := protocol_closures) tr msg ∧
  (length msg ≤ length l)%nat.
Proof.
  intros Ha H. destruct (talk_starts a u Ha) as (tr0 & u0 & Hu & Ht). rewrite Ht in H.
  destruct (converse_usable (C := protocol_closures) speak served tr0 [] l u0 tr msg u')
    as (? & ? & ?); [apply speak_usable|done|by eapply usable_waits|exact H|]. by split_and!.
Qed.

Lemma ssh_sip_unbroken tr msg l u :
  usable (C := protocol_closures) ssh_sip tr → waits (C := protocol_closures) tr msg →
  unbroken (C := protocol_closures) (converse (C := protocol_closures) speak tr msg l u).
Proof.
  apply converse_unbroken; [apply speak_usable_ssh_sip|]. intros d m u'. apply speak_ssh_sip.
Qed.

Lemma talk_unbroken a l u : always_answers a → unbroken (C := protocol_closures) (talk a l u).
Proof.
  destruct a as [|this|this|this]; try done; intros _; apply ssh_sip_unbroken;
    try apply not_elem_of_nil; eexists; by split.
Qed.

Lemma talk_unbroken_take a n l u :
  talks a → unbroken (C := protocol_closures) (talk a l u) →
  unbroken (C := protocol_closures) (talk a (take n l) u).
Proof.
  intros Ha. rewrite <- (take_drop n l) at 1. rewrite talk_app by done. by destruct (talk a _ _).
Qed.

(** ** The closures speak *)

Section Closures.

Context {A : Type} (usr : W → U) (kept : W → A).

Section Speaks.
Context (t : ConnectedTarget) (HU : users_speak user usr kept t).

#[local] Abbreviation says := (Speak.says usr kept).
#[local] Abbreviation says_tell := (Speak.says_tell user usr kept t HU).

Lemma says_banner a b msg rest (c : ctx W) :
  Buffer.wf (c_buf c) → Buffer.contents (c_buf c) = msg ++ rest →
  says msg rest (speak_banner a b msg (usr (c_world c))) c (ssh_banner a b t 0 (zlen msg) c).
Proof.
  intros Hwf Hc. pose proof (rewritten_refl _ _ _ Hwf Hc) as Hrw.
  pose proof (contents_at _ _ _ Hc) as Hat. unfold ssh_banner, speak_banner.
  destruct (zlen msg <? 7) eqn:E.
  { rewrite bool_decide_eq_false_2; [by eapply says_tell|].
    intros H%(f_equal (@length Z)). rewrite length_take in H.
    change (length (bytes_of_string "SSH-2.0")) with 7%nat in H. lia. }
  apply Z.ltb_ge in E. rewrite (load_front 7 7 _ _ _ eq_refl Hc) by lia. cbn [mbind result_bind].
  destruct (bool_decide _); [|by eapply says_tell]. cbn [negb].
  destruct (us_send user usr kept t HU client_key_exchange (c_world c)) as [Hs1 Ha1].
  destruct (send t client_key_exchange (c_world c)) as [? w1]. simpl in Hs1, Ha1.
  destruct (us_send user usr kept t HU client_dh w1) as [Hs2 Ha2].
  destruct (send t client_dh w1) as [? w2]. simpl in Hs2, Ha2.
  eexists. split; [done|]. apply after_install; [done|congruence|congruence].
Qed.

Lemma says_answer next msg rest (c : ctx W) :
  Buffer.wf (c_buf c) → Buffer.contents (c_buf c) = msg ++ rest → 5 ≤ zlen msg →
  says msg rest (speak_answer next msg (usr (c_world c))) c (ssh_answer next t 0 (zlen msg) c).
Proof.
  intros Hwf Hc Hn. pose proof (rewritten_refl _ _ _ Hwf Hc) as Hrw.
  unfold ssh_answer, speak_answer. destruct next as [next|].
  2:{ exists c. split; [done|]. by apply after_said_here. }
  rewrite (load_front 4 4 _ _ _ eq_refl Hc) by lia. cbn [mbind result_bind].
  destruct (lookup_lt_is_Some_2 msg 4) as [p Hp]; [lia|]. rewrite Hp.
  pose proof (contents_at _ _ _ Hc) as Hat. rewrite <- (take_drop_middle msg 4 p Hp) in Hat.
  apply bytes_at_app, proj2, bytes_at_cons, proj1 in Hat.
  rewrite length_take, Nat.min_l in Hat by lia. change (0 + Z.of_nat 4) with (0 + 4) in Hat.
  rewrite Hat. cbn [mbind result_bind default].
  destruct (_ <=? 7); [exists c; split; [done|by apply after_said_here]|].
  eexists. split; [done|]. by apply after_install_here.
Qed.

Lemma says_kex_reply a b msg rest (c : ctx W) :
  Buffer.wf (c_buf c) → Buffer.contents (c_buf c) = msg ++ rest →
  says msg rest (mkAnswer true (await 5 (SSHAnswer (Some (SSHGetCertificate a b)))) (usr (c_world c)))
    c (ssh_kex_reply a b t 0 (zlen msg) c).
Proof.
  intros Hwf Hc. pose proof (rewritten_refl _ _ _ Hwf Hc) as Hrw. eexists. split; [done|].
  by apply after_install_here.
Qed.

Lemma says_certificate a b msg rest (c : ctx W) :
  Buffer.wf (c_buf c) → Buffer.contents (c_buf c) = msg ++ rest →
  says msg rest (speak_certificate a b msg (usr (c_world c))) c
    (ssh_get_certificate a b t 0 (zlen msg) c).
Proof.
  intros Hwf Hc. pose proof (rewritten_refl _ _ _ Hwf Hc) as Hrw.
  pose proof (contents_at _ _ _ Hc) as Hat. pose proof (bytes_at_bound _ _ _ Hat) as [_ Hin].
  rewrite ssh_get_certificate_spec by lia. simpl zdrop. rewrite drop_0.
  replace (ztake (zlen msg) (c_block c)) with msg.
  2:{ destruct Hat as (pre & post & -> & Hpre). destruct pre; [|simpl in Hpre; lia].
      by rewrite Nat2Z.id, app_nil_l, take_app_length. }
  unfold speak_certificate. destruct msg as [|kind body]; [by eapply says_tell|].
  destruct (negb _); [by eapply says_tell|].
  apply bytes_at_cons in Hat as [_ Hat]. cbn [length] in *.
  destruct (zlen body <? 4) eqn:E; [eapply says_tell; [done|done|lia]|]. apply Z.ltb_ge in E.
  rewrite <- (take_drop 4 body) in Hat. apply bytes_at_app, proj2 in Hat.
  rewrite length_take, Nat.min_l in Hat by lia.
  replace (Z.of_nat (S (length body)) - 5) with (zlen body - 4) by lia.
  destruct (_ <? _); (eapply says_tell; [done|exact Hat|rewrite length_drop; lia]).
Qed.

Lemma until_nul_no_nul l : 0 ∉ until_nul l.
Proof.
  induction l as [|b l IH]; simpl; [apply not_elem_of_nil|].
  destruct (Z.eqb_spec b 0); [apply not_elem_of_nil|]. set_solver.
Qed.

(** The string in front of the closing NUL of some bytes. *)
Lemma bytes_at_string m off l : bytes_at m off (l ++ [0]) → bytes_at m off (until_nul l ++ [0]).
Proof.
  assert (∃ l', l ++ [0] = (until_nul l ++ [0]) ++ l') as [l' ->]; [|by intros [? _]%bytes_at_app].
  induction l as [|b l [l' IH]]; [by exists []|]. simpl.
  destruct (Z.eqb_spec b 0) as [->|]; [by exists (l ++ [0])|]. exists l'. simpl. by rewrite IH.
Qed.

(** A line is cut into the bytes of the connection and what follows it. *)
Lemma line_of_contents msg rest (c : ctx W) :
  msg ≠ [] → Buffer.contents (c_buf c) = msg ++ rest →
  ∃ slack, line_at [] msg (rest ++ slack) c.
Proof.
  intros Hne Hc. unfold Buffer.contents, Buffer.block in Hc.
  destruct (Buffer._buffer (c_buf c)) as [m|] eqn:Em; simpl in Hc.
  - exists (zdrop (Buffer._buf_pos (c_buf c)) m). split.
    by rewrite Em, app_nil_l, app_assoc, <- Hc, take_drop.
  - rewrite take_nil in Hc. by destruct msg.
Qed.

Lemma rewritten_block l msg rest slack (c : ctx W) :
  Buffer.wf (c_buf c) → Buffer.contents (c_buf c) = msg ++ rest →
  line_at [] msg (rest ++ slack) c → length l = length msg →
  rewritten msg rest c (with_block ([] ++ l ++ rest ++ slack) c).
Proof.
  intros Hwf Hc [Hm] Hl.
  assert (Hb : c_block c = msg ++ rest ++ slack) by (unfold c_block, Buffer.block; by rewrite Hm).
  destruct (with_block_wf ([] ++ l ++ rest ++ slack) c Hwf) as [Hwf' _].
  { rewrite Hb, !length_app, Hl. simpl. lia. }
  split; [exact Hwf'| |done|done]. exists l. split; [done|].
  pose proof (Buffer.contents_size _ Hwf) as Hsz. rewrite Hc, length_app in Hsz.
  unfold Buffer.size in Hsz. unfold Buffer.contents, Buffer.block. simpl. rewrite Hsz, app_assoc.
  rewrite take_app_le by (rewrite length_app; lia). apply take_ge. rewrite length_app. lia.
Qed.

(** The two strings of a header. *)
Lemma says_header f msg l0 rest i post (c c1 : ctx W) :
  let value := drop (S i) l0 in
  rewritten msg rest c c1 → (i < length l0)%nat →
  line_at [] (<[i := 0]> (l0 ++ [0])) post c1 →
  says msg rest
    (said (on_header f (until_nul (take i l0))
             (until_nul (if sip_skips value then drop 1 value else value)) (usr (c_world c)))) c
    (call_user_header f t 0 (Z.of_nat i + 1 + (if sip_skips value then 1 else 0)) c1).
Proof.
  intros value Hrw Hi Hat%line_at_bytes. destruct (lookup_lt_is_Some_2 l0 i Hi) as [x Hx].
  rewrite insert_app_l, (insert_take_drop l0 i 0 Hi), <- app_assoc in Hat by done.
  fold value in Hat. change (zlen []) with 0 in Hat.
  replace (take i l0 ++ (0 :: value) ++ [0]) with ((take i l0 ++ [0]) ++ value ++ [0]) in Hat
    by (rewrite <- app_assoc; done).
  apply bytes_at_app in Hat as [Hk Hv]. rewrite length_app, length_take, Nat.min_l in Hv by lia.
  assert (Hv' : bytes_at (c_block c1) (Z.of_nat i + 1 + (if sip_skips value then 1 else 0))
                  ((if sip_skips value then drop 1 value else value) ++ [0])).
  { simpl in Hv. replace (Z.of_nat (i + 1)) with (Z.of_nat i + 1) in Hv by lia.
    destruct (sip_skips value) eqn:E; [|by rewrite Z.add_0_r].
    destruct value as [|v0 value']; [done|]. by apply bytes_at_cons in Hv as [_ ?]. }
  destruct (us_header user usr kept t HU f 0 _ _ _ c1 (bytes_at_string _ _ _ Hk) (until_nul_no_nul _)
              (bytes_at_string _ _ _ Hv') (until_nul_no_nul _)) as (w' & Hcall & Hs & Ha).
  rewrite (rw_world _ _ _ _ Hrw) in *. eexists. split; [exact Hcall|]. by apply after_said.
Qed.

Lemma says_line cbi cbh msg rest (c : ctx W) :
  Buffer.wf (c_buf c) → Buffer.contents (c_buf c) = msg ++ rest →
  says msg rest (speak_line cbi cbh msg (usr (c_world c))) c (sip_line cbi cbh t 0 (zlen msg) c).
Proof.
  intros Hwf Hc. pose proof (rewritten_refl _ _ _ Hwf Hc) as Hrw.
  pose proof (contents_at _ _ _ Hc) as Hat0. unfold speak_line.
  destruct msg as [|x l0 _] using rev_ind; [by eapply says_tell|].
  destruct (line_of_contents (l0 ++ [x]) rest c) as (slack & Hat); [by destruct l0|done|].
  pose proof (sip_line_spec cbi cbh t [] (l0 ++ [x]) (rest ++ slack) c Hat) as Hspec.
  change (zlen []) with 0 in Hspec. rewrite Hspec. clear Hspec.
  destruct (negb _) eqn:Hx; [by eapply says_tell|].
  rewrite last_snoc in Hx. apply negb_false_iff, bool_decide_eq_true in Hx as [= ->].
  assert (Hcut : cut_line (l0 ++ [13]) = l0 ++ [0]).
  { unfold cut_line. rewrite length_app, Nat.add_sub, take_app_length. done. }
  assert (Hlen : length (l0 ++ [0]) = length (l0 ++ [13])) by (rewrite !length_app; done).
  assert (Hrw1 := rewritten_block _ _ _ slack _ Hwf Hc Hat Hlen). rewrite Hcut.
  destruct (_ =? 1); [eexists; split; [done|by apply after_said_here]|].
  rewrite length_app, Nat.add_sub, take_app_length.
  destruct (find_byte 58 (l0 ++ [13])) as [i|] eqn:Hi.
  - assert (Hlt : (i < length l0)%nat).
    { apply find_byte_Some in Hi as [Hi _]. apply lookup_app_Some in Hi as [Hi|[_ Hi]].
      - by eapply lookup_lt_Some.
      - by apply list_lookup_singleton_Some in Hi as [_ ?]. }
    rewrite take_app_le by lia.
    assert (Hrw2 := rewritten_block (<[i := 0]> (l0 ++ [0])) _ _ slack _ Hwf Hc Hat
                      ltac:(by rewrite length_insert)).
    destruct cbh as [f|]; simpl; [|eexists; split; [done|by apply after_said_here]].
    by eapply says_header.
  - destruct (_ && _); [eexists; split; [done|by apply after_said_here]|].
    eapply says_tell; [exact Hrw1| |by rewrite length_app].
    exists [], (rest ++ slack). done.
Qed.

(** Every closure of the protocols follows [speak]. *)
Lemma closures_speak d msg rest a (c : ctx W) :
  Buffer.wf (c_buf c) → Buffer.contents (c_buf c) = msg ++ rest → served d (zlen msg) →
  speak d msg (usr (c_world c)) = Some a →
  says msg rest a c (call_closure d t 0 (zlen msg) c).
Proof.
  intros Hwf Hc Hd. pose proof (rewritten_refl _ _ _ Hwf Hc) as Hrw.
  pose proof (contents_at _ _ _ Hc) as Hat.
  assert (Hs : ∀ d, ssh_sip d (zlen msg) → speak d msg (usr (c_world c)) = Some a →
    says msg rest a c (call_closure d t 0 (zlen msg) c)).
  { clear d Hd. intros d Hd.
    induction d as [f| | |ca cb|next|d IH|ca cb|ca cb|ca cb]; try done; try intros [= <-].
    - by eapply (says_tell (Some f)).
    - by apply says_banner.
    - apply says_answer; [done|done|apply Hd].
    - by apply IH.
    - by apply says_kex_reply.
    - by apply says_certificate.
    - by apply says_line. }
  destruct d as [f|this step|this step|ca cb|next|d|ca cb|ca cb|ca cb]; try by apply Hs.
  - intros [Hb Ha]%if_bytes_Some. by eapply says_tls_header.
  - intros [Hb Ha]%if_bytes_Some. assert (Hm : has_message msg rest c) by done.
    destruct step; simpl in Ha |- *; [by eapply says_handshake1|].
    rewrite Nat2Z.id. by eapply says_handshake2.
Qed.

(** The connection function sends its request and installs the first trigger. *)
Lemma action_speaks a (c : ctx W) :
  talks a →
  ∃ tr w, call_action a t c = Ok (true, with_sm (set_trigger tr) (with_world w c)) ∧
          kept w = kept (c_world c) ∧ usable (C := protocol_closures) served tr ∧
          ∀ l, talk a l (usr (c_world c)) = converse (C := protocol_closures) speak tr [] l (usr w).
Proof.
  destruct a as [|this|this|this]; try done; intros _; simpl; unfold SSL_call, SSH_call, SIP_call;
    match goal with |- context [send t ?request] =>
      destruct (us_send user usr kept t HU request (c_world c)) as [Hs Hk];
      destruct (send t request (c_world c)) as [n w]; simpl in Hs, Hk
    end; eexists _, w; (split; [done|]); rewrite Hs;
    (split_and!; [done|by eexists|done]) || (split_and!; [done|split; [done|by eexists]|done]).
Qed.

End Speaks.

Lemma speak_runs s target :
  users_speak user usr kept (mkConnected target s) →
  runs_act (C := protocol_closures) (K := protocol_calls) speak served usr kept s target.
Proof. intros HU d msg rest a c Hwf Hc Hd Ha. by apply closures_speak. Qed.

End Closures.

(** ** Conversations *)

Context (usr : W → U) (avail : W → list Z).
Context (s : Z) (target : Target) (HU : users_speak user usr avail (mkConnected target s)).

Lemma conversation fuel ns (c : ctx W) :
  reads_stream usr avail s → Buffer.wf (c_buf c) →
  usable served (_trigger (c_sm c)) → waits (_trigger (c_sm c)) (Buffer.contents (c_buf c)) →
  Forall (Z.lt 0) ns → total ns ≤ zlen (avail (c_world c)) →
  Buffer.size (c_buf c) + total ns < Buffer.max_size → total ns < Z.of_nat fuel →
  agrees usr avail
    (converse speak (_trigger (c_sm c)) (Buffer.contents (c_buf c))
       (ztake (total ns) (avail (c_world c))) (usr (c_world c)))
    (zdrop (total ns) (avail (c_world c))) (deliver s target fuel ns c).
Proof.
  intros Hread Hwf Hu Hw Hns Htot Hmax Hfuel.
  apply (deliver_converses (C := protocol_closures) speak served usr avail s target speak_usable
           (speak_runs usr avail s target HU)); try done.
  by rewrite <- Buffer.contents_size.
Qed.

(** From the connection function on. *)
Lemma conversation_of a fuel ns (c : ctx W) :
  talks a → reads_stream usr avail s →
  Buffer.wf (c_buf c) → Buffer.contents (c_buf c) = [] →
  Forall (Z.lt 0) ns → total ns ≤ zlen (avail (c_world c)) →
  total ns < Buffer.max_size → total ns < Z.of_nat fuel →
  ∃ c1, call_action a (mkConnected target s) c = Ok (true, c1) ∧
        agrees usr avail
          (talk a (ztake (total ns) (avail (c_world c))) (usr (c_world c)))
          (zdrop (total ns) (avail (c_world c)))
          (deliver s target fuel ns c1).
Proof.
  intros Ha Hread Hwf Hc Hns Htot Hmax Hfuel.
  destruct (action_speaks usr avail _ HU a c Ha) as (tr & w & Hcall & Hk & Hu & Ht).
  eexists. split; [exact Hcall|]. rewrite Ht, <- Hk. rewrite <- Hk in Htot.
  set (c1 := with_sm _ _).
  assert (Hc1 : Buffer.contents (c_buf c1) = []) by exact Hc.
  pose proof (conversation fuel ns c1 Hread Hwf Hu) as H. rewrite Hc1 in H.
  apply H; [by eapply usable_waits|done|done| |done].
  by rewrite Buffer.contents_size, Hc1 by exact Hwf.
Qed.

(** C9. What the user sees of an SSL, SSH or SIP connection, what is sent on it,
    and whether and where it ends are a function of the bytes that the server
    sends, the one of a reader without buffers that takes one byte at a time:
    in whatever pieces the bytes come, on whatever triggers are installed
    on the way, each function of the protocol is run on the same whole message;
    a connection that goes on keeps the same trigger and the same unfinished
    message. For SSH and SIP this is so of every stream; for SSL, of those
    in which the reader meets no empty record, no ServerHello of less than three
    bytes, and no certificate list with a length that leads past its end. *)
Theorem protocol_conversation a fuel ns (c : ctx W) :
  talks a → reads_stream usr avail s →
  Buffer.wf (c_buf c) → Buffer.contents (c_buf c) = [] →
  Forall (Z.lt 0) ns → total ns ≤ zlen (avail (c_world c)) →
  total ns < Buffer.max_size → total ns < Z.of_nat fuel →
  let o := talk a (ztake (total ns) (avail (c_world c))) (usr (c_world c)) in
  (always_answers a → unbroken o) ∧
  ∃ c1, call_action a (mkConnected target s) c = Ok (true, c1) ∧
        agrees usr avail o (zdrop (total ns) (avail (c_world c))) (deliver s target fuel ns c1).
Proof. intros. split; [by apply talk_unbroken|by apply conversation_of]. Qed.

(** The same bytes cut in two ways. *)
Corollary same_bytes_same_conversation fuel ns ns' (c : ctx W) :
  reads_stream usr avail s → Buffer.wf (c_buf c) →
  usable ssh_sip (_trigger (c_sm c)) → waits (_trigger (c_sm c)) (Buffer.contents (c_buf c)) →
  Forall (Z.lt 0) ns → Forall (Z.lt 0) ns' → total ns = total ns' →
  total ns ≤ zlen (avail (c_world c)) →
  Buffer.size (c_buf c) + total ns < Buffer.max_size → total ns < Z.of_nat fuel →
  ∃ b c1 c2, deliver s target fuel ns c = Ok (b, c1) ∧ deliver s target fuel ns' c = Ok (b, c2) ∧
             usr (c_world c1) = usr (c_world c2) ∧
             (b = true → _trigger (c_sm c1) = _trigger (c_sm c2) ∧
                         Buffer.contents (c_buf c1) = Buffer.contents (c_buf c2)).
Proof.
  intros Hread Hwf Hu Hw Hns Hns' Heq Htot Hmax Hfuel.
  pose proof (ssh_sip_unbroken _ _ (ztake (total ns) (avail (c_world c))) (usr (c_world c)) Hu Hw) as Hun.
  apply usable_served in Hu.
  pose proof (conversation fuel ns c Hread Hwf Hu Hw Hns Htot Hmax Hfuel) as H1.
  rewrite Heq in Htot, Hmax, Hfuel.
  pose proof (conversation fuel ns' c Hread Hwf Hu Hw Hns' Htot Hmax Hfuel) as H2.
  rewrite <- Heq in H2. destruct (converse _ _ _ _ _); [| |done].
  - destruct H1 as (c1 & -> & <-), H2 as (c2 & -> & E). by exists false, c1, c2.
  - destruct H1 as (c1 & -> & [_ <- <- <- _]), H2 as (c2 & -> & [_ Ht Hc Hs _]).
    exists true, c1, c2. by rewrite Ht, Hc, Hs.
Qed.

End Conversation.
