(* ===== verification/Servers.v ===== *)
(** * What whole answers of servers give the user

    The reader of Conversation.v on the answers that SSL, SSH and SIP servers
    send ([talk_ssl], [talk_ssh], [talk_sip]), and with the refinement of the
    connections to that reader, what the functions of the user are called with
    when such an answer arrives, in whatever pieces ([ssl_server_delivers],
    [ssh_server_delivers], [sip_answer_delivers]). *)

From stdpp Require Import strings.
From S2P Require Import Prelude Lvl4Buffer Leeloo Target HostSM Lvl4SM Framing Stream Closures SSL SSH SIP Protocols Speak SpeakSSL Conversation.
#[local] Open Scope Z_scope.

Section Servers.
Context {L : Leeloo} {UC : UserCode} {M : Malloc} {W : Type} {OSW : OS W} {UW : UserCalls W}.
Context {U : Type} (user : handlers U).

#[local] Abbreviation on_data := (Speak.on_data user).
#[local] Abbreviation on_header := (Speak.on_header user).
#[local] Abbreviation on_suite := (Speak.on_suite user).
#[local] Abbreviation on_send := (Speak.on_send user).
#[local] Abbreviation speak := (speak user).
#[local] Abbreviation talk := (talk user).

(** ** SSH *)

Lemma speak_packet_header next n p u :
  0 ≤ n < 2 ^ 32 → 7 < n + p < 2 ^ 32 →
  speak (SSHAnswer (Some next)) (packet_header n p) u =
    Some (mkAnswer true (await (n + p - 7) (SshPayload next)) u).
Proof.
  intros Hn Hp. cbn [Conversation.speak]. unfold speak_answer, packet_header.
  rewrite take_app_le, take_ge by (rewrite be_bytes_length; lia).
  rewrite lookup_app_r by (rewrite be_bytes_length; lia). rewrite be_bytes_length. simpl default.
  rewrite htonl_le_value by (apply be_bytes_length || apply be_bytes_byte).
  rewrite be_value_bytes, Z.mod_small, u32_small by lia.
  by rewrite (proj2 (Z.leb_gt _ _)) by lia.
Qed.

(** A packet with six bytes of padding reaches the next function whole. *)
Lemma converse_packet next payload padding l u :
  zlen padding = 6 → 0 < zlen payload < 2 ^ 30 →
  converse (C := protocol_closures) speak (SizeDataTrigger 5 (Some (SSHAnswer (Some next)))) []
    (ssh_packet payload padding ++ l) u =
  converse_on (C := protocol_closures) speak
    (SizeDataTrigger (zlen (payload ++ padding)) (Some (SshPayload next))) u
    (speak next (payload ++ padding) u) l.
Proof.
  intros Hpad Hlen. unfold ssh_packet. rewrite <- app_assoc.
  set (hd := packet_header _ _).
  pose proof (packet_header_length (1 + zlen payload + zlen padding) (zlen padding)) as Hhd.
  pose proof (converse_size (C := protocol_closures) speak [] hd ((payload ++ padding) ++ l)
    (SSHAnswer (Some next)) u) as H.
  rewrite app_nil_l in H. unfold hd in *. rewrite Hhd in H. etrans; [apply H; done|].
  rewrite speak_packet_header by lia. unfold converse_on at 1. simpl goes_on. simpl installs.
  simpl default. simpl seen.
  replace (1 + zlen payload + zlen padding + zlen padding - 7) with (zlen (payload ++ padding))
    by (rewrite length_app; lia).
  pose proof (converse_size (C := protocol_closures) speak [] (payload ++ padding) l
    (SshPayload next) u) as H'.
  rewrite app_nil_l in H'. apply H'. intros E%(f_equal (@length Z)). rewrite length_app in E. simpl in E. lia.
Qed.

Lemma speak_reply f b host_key rest u :
  zlen host_key < 2 ^ 32 →
  speak (SSHGetCertificate (Some f) b) (ecdh_reply host_key rest) u =
    Some (said (on_data f (host_key ++ rest) u)).
Proof.
  intros Hmax. cbn [Conversation.speak]. unfold speak_certificate, ecdh_reply. cbn [Z.eqb Pos.eqb negb].
  rewrite !length_app, be_bytes_length, (proj2 (Z.ltb_ge _ _)) by lia.
  rewrite take_app_le, take_ge by (rewrite be_bytes_length; lia).
  rewrite htonl_le_value by (apply be_bytes_length || apply be_bytes_byte).
  rewrite be_value_bytes, Z.mod_small by lia.
  by rewrite (proj2 (Z.ltb_ge _ _)) by lia.
Qed.

(** The identification line, a key exchange packet and the reply. *)
Definition ssh_server (line kex pad1 host_key sig pad2 : list Z) : list Z :=
  line ++ 10 :: ssh_packet kex pad1 ++ ssh_packet (ecdh_reply host_key sig) pad2.

(** What the user has seen sent when the server answers. *)
Definition ssh_sent (u : U) : U :=
  on_send client_dh (on_send client_key_exchange (on_send identification u)).

Lemma talk_ssh this f line kex pad1 host_key sig pad2 u :
  _cb_certif this = Some f →
  take 7 line = bytes_of_string "SSH-2.0" → 10 ∉ line →
  zlen pad1 = 6 → zlen pad2 = 6 → 0 < zlen kex < 2 ^ 30 →
  zlen (ecdh_reply host_key sig) < 2 ^ 30 →
  let r := on_data f (host_key ++ sig ++ pad2) (ssh_sent u) in
  ∃ tr, talk (SSHConnect this) (ssh_server line kex pad1 host_key sig pad2) u =
        if r.1 then Waiting (C := protocol_closures) tr [] r.2
        else Ended (C := protocol_closures) r.2.
Proof.
  intros Hf Hline Hnl Hp1 Hp2 Hkex Hreply r. eexists. simpl. unfold ssh_server.
  etrans; [by apply (converse_char (C := protocol_closures))|]. cbn [Conversation.speak app].
  unfold speak_banner. rewrite bool_decide_eq_true_2 by done.
  etrans; [by apply converse_packet|]. cbn [Conversation.speak].
  rewrite <- (app_nil_r (ssh_packet (ecdh_reply host_key sig) pad2)).
  etrans; [apply converse_packet; [done|split; [|done]; unfold ecdh_reply; simpl; lia]|].
  replace (ecdh_reply host_key sig ++ pad2) with (ecdh_reply host_key (sig ++ pad2))
    by (unfold ecdh_reply; simpl; by rewrite <- !app_assoc).
  rewrite Hf, speak_reply.
  2:{ unfold ecdh_reply in Hreply. simpl in Hreply. rewrite !length_app in Hreply. lia. }
  reflexivity.
Qed.

(** ** SIP *)

(** The part of the text after the colon that the user is given. *)
Definition sip_value (value : list Z) : list Z := if sip_skips value then drop 1 value else value.

Definition header_line (h : list Z * list Z) : list Z := h.1 ++ 58 :: h.2 ++ [13; 10].

(** A status line, headers and the empty line. *)
Definition sip_answer (status : list Z) (hs : list (list Z * list Z)) : list Z :=
  status ++ [13; 10] ++ mjoin (header_line <$> hs) ++ [13; 10].

(** A header whose name and value are text without separators. *)
Record header_ok (h : list Z * list Z) : Prop := {
  name_no_colon : 58 ∉ h.1;
  name_no_newline : 10 ∉ h.1;
  name_no_nul : 0 ∉ h.1;
  value_no_newline : 10 ∉ h.2;
  value_no_nul : 0 ∉ h.2;
}.

(** The headers in order, until the function of the user refuses one. *)
Fixpoint hear (f : user_header) (hs : list (list Z * list Z)) (u : U) : U :=
  match hs with
  | [] => u
  | (name, value) :: hs =>
      let '(go, u) := on_header f name (sip_value value) u in
      if go then hear f hs u else u
  end.

Lemma until_nul_id l : 0 ∉ l → until_nul l = l.
Proof.
  induction l as [|b l IH]; simpl; [done|]. intros H.
  rewrite (proj2 (Z.eqb_neq b 0)), IH by set_solver. done.
Qed.

Lemma speak_header cbi f name value u :
  header_ok (name, value) →
  speak_line user cbi (Some f) (name ++ 58 :: value ++ [13]) u =
    said (on_header f name (sip_value value) u).
Proof.
  intros [Hc _ Hn _ Hv]. simpl in *. unfold speak_line.
  assert (Hl : name ++ 58 :: value ++ [13] = (name ++ 58 :: value) ++ [13])
    by (rewrite <- app_assoc; done).
  rewrite Hl, last_snoc, bool_decide_eq_true_2 by done. simpl negb. cbv iota.
  rewrite (proj2 (Z.eqb_neq _ _)) by (rewrite !length_app; simpl; lia).
  rewrite length_app, Nat.add_sub, take_app_length, <- app_assoc, find_byte_app by done. simpl find_byte.
  simpl fmap. cbv iota. rewrite Nat.add_0_r, take_app_length, drop_app_ge, Nat.sub_succ_l, Nat.sub_diag by lia.
  simpl drop. rewrite drop_0, !until_nul_id; [done| |done].
  unfold sip_value. destruct (sip_skips value); [|done]. destruct value; [done|]. simpl. set_solver.
Qed.

Lemma speak_status cbi cbh status u :
  take 7 status = sip_20 → 58 ∉ status →
  speak_line user cbi cbh (status ++ [13]) u = said (true, u).
Proof.
  intros H7 Hc. assert (7 ≤ zlen status).
  { apply (f_equal (@length Z)) in H7. rewrite length_take in H7.
    change (length sip_20) with 7%nat in H7. lia. }
  unfold speak_line. rewrite last_snoc, bool_decide_eq_true_2 by done. cbn [negb].
  rewrite (proj2 (Z.eqb_neq _ _)) by (rewrite length_app; simpl; lia).
  rewrite (proj2 (find_byte_None _ _)) by set_solver.
  rewrite (proj2 (Z.ltb_lt _ _)) by (rewrite length_app; simpl; lia).
  by rewrite take_app_le, bool_decide_eq_true_2 by (done || lia).
Qed.

(** A line of the answer. *)
Lemma converse_line cbi cbh line l u :
  10 ∉ line →
  converse (C := protocol_closures) speak (CharDataTrigger 10 (Some (SipLine cbi cbh))) []
    (line ++ 13 :: 10 :: l) u =
  converse_on (C := protocol_closures) speak (CharDataTrigger 10 (Some (SipLine cbi cbh))) u
    (Some (speak_line user cbi cbh (line ++ [13]) u)) l.
Proof.
  intros Hl. replace (line ++ 13 :: 10 :: l) with ((line ++ [13]) ++ 10 :: l)
    by (rewrite <- app_assoc; done).
  apply (converse_char (C := protocol_closures) speak []). set_solver.
Qed.

Lemma converse_headers cbi f hs l u :
  Forall header_ok hs →
  converse (C := protocol_closures) speak (CharDataTrigger 10 (Some (SipLine cbi (Some f)))) []
    (mjoin (header_line <$> hs) ++ 13 :: 10 :: l) u = Ended (C := protocol_closures) (hear f hs u).
Proof.
  intros Hhs. revert u. induction Hhs as [|[name value] hs Hh _ IH]; intros u.
  { by apply (converse_line cbi (Some f) []), not_elem_of_nil. }
  pose proof Hh as [_ Hn _ Hv _]. simpl in Hn, Hv.
  change (mjoin (header_line <$> (name, value) :: hs)) with
    ((name ++ 58 :: value ++ [13; 10]) ++ mjoin (header_line <$> hs)).
  replace ((name ++ 58 :: value ++ [13; 10]) ++ mjoin (header_line <$> hs)) with
    ((name ++ 58 :: value) ++ 13 :: 10 :: mjoin (header_line <$> hs))
    by (rewrite <- !app_assoc; simpl; by rewrite <- app_assoc).
  rewrite <- app_assoc. cbn [app].
  etrans; [apply converse_line; set_solver|].
  rewrite <- app_assoc. cbn [app]. rewrite speak_header by done. simpl.
  destruct (on_header f name (sip_value value) u) as [[] u']; [apply IH|done].
Qed.

Lemma talk_sip this f status hs l u :
  _cb_header this = Some f → take 7 status = sip_20 → 10 ∉ status → 58 ∉ status →
  Forall header_ok hs →
  talk (SIPConnect this) (sip_answer status hs ++ l) u =
    Ended (C := protocol_closures) (hear f hs (on_send get_options u)).
Proof.
  intros Hf H7 Hn Hc Hhs. simpl. unfold sip_answer. rewrite Hf, <- !app_assoc. cbn [app].
  etrans; [by apply converse_line|]. rewrite speak_status by done. by apply converse_headers.
Qed.

(** ** SSL *)

Lemma converse_record this step v1 v2 payload l u :
  is_byte v1 → is_byte v2 → 0 < zlen payload < 2 ^ 16 →
  converse (C := protocol_closures) speak (SizeDataTrigger sizeof_TLS (Some (OnTlsHeader this step))) []
    (tls_record v1 v2 payload ++ l) u =
  converse_on (C := protocol_closures) speak (SizeDataTrigger (zlen payload) (Some (OnHandshake this step)))
    u (speak (OnHandshake this step) payload u) l.
Proof.
  intros H1 H2 Hlen. unfold tls_record. rewrite <- app_assoc.
  set (hd := 22 :: v1 :: v2 :: be_bytes 2 (zlen payload)).
  assert (Hhd : zlen hd = sizeof_TLS) by (unfold hd; cbn [length]; by rewrite be_bytes_length).
  assert (Hb : Forall is_byte hd).
  { do 3 (apply Forall_cons; split; [done|]). apply be_bytes_byte. }
  pose proof (converse_size (C := protocol_closures) speak [] hd (payload ++ l) (OnTlsHeader this step) u) as H.
  rewrite app_nil_l, Hhd in H. etrans; [by apply H|]. clear H.
  cbn [Conversation.speak]. unfold if_bytes at 1. rewrite bool_decide_eq_true_2 by done.
  unfold speak_tls_header, hd. rewrite bool_decide_eq_true_2 by done. cbn [negb drop].
  rewrite drop_0, take_ge by (rewrite be_bytes_length; lia). rewrite be_value_bytes, Z.mod_small by lia.
  rewrite (proj2 (Z.leb_gt _ _)) by lia. unfold converse_on at 1. cbn [goes_on installs seen default].
  pose proof (converse_size (C := protocol_closures) speak [] payload l (OnHandshake this step) u) as H.
  rewrite app_nil_l in H. apply H. intros ->. simpl in Hlen. lia.
Qed.

Lemma handshake_body_handshake kind body :
  zlen body < 2 ^ 24 → handshake_body kind (handshake kind body) = Some body.
Proof.
  intros Hlen. unfold handshake_body, handshake. pose proof (be_bytes_length 3 (zlen body)) as H3.
  cbn [head drop]. rewrite drop_0, bool_decide_eq_true_2 by done.
  rewrite drop_app_le, (drop_ge (be_bytes _ _)), take_app_le, take_ge by lia.
  by rewrite be_value_bytes, Z.mod_small, Z.eqb_refl by lia.
Qed.

Lemma handshake_bytes kind body : is_byte kind → Forall is_byte body → Forall is_byte (handshake kind body).
Proof. intros. constructor; [done|]. apply Forall_app. split; [apply be_bytes_byte|done]. Qed.

(** What a little-endian machine reads as a 16-bit number before the last byte
    of a ServerHello, where the suite is when there are no extensions. *)
Definition suite_read (sh : list Z) : Z := le_value (take 2 (drop (length sh - 3) sh)).

Lemma suite_read_hello version random sid cipher comp :
  suite_read (server_hello version random sid cipher comp) = htons cipher.
Proof.
  unfold suite_read, server_hello.
  replace (version ++ _) with ((version ++ random ++ zlen sid :: sid) ++ be_bytes 2 cipher ++ [comp])
    by by rewrite <- !app_assoc.
  set (pre := version ++ _). rewrite !length_app, be_bytes_length. cbn [length].
  replace (length pre + (2 + 1) - 3)%nat with (length pre) by lia.
  by rewrite drop_app_length, take_app_le, take_ge by by rewrite be_bytes_length.
Qed.

(** The user's functions on the suite and on the certificates, if there are. *)
Definition suite_shown (this : SSL) (z : Z) (u : U) : bool * U :=
  match _on_cipher this with Some f => on_suite f z u | None => (true, u) end.
Definition certificates_shown (this : SSL) (cs : list (list Z)) (u : U) : U :=
  match _on_certif this with Some f => deliver_certificates (on_data f) cs u | None => u end.

Lemma speak_server_hello this sh u :
  Forall is_byte sh → 3 ≤ zlen sh < 2 ^ 24 →
  let r := suite_shown this (suite_read sh) u in
  speak (OnHandshake this handshake1) (handshake 2 sh) u =
    Some (mkAnswer r.1 (if r.1 then await sizeof_TLS (OnTlsHeader this handshake2) else None) r.2).
Proof.
  intros Hb Hlen r. cbn [Conversation.speak speak_handshake]. unfold if_bytes.
  rewrite bool_decide_eq_true_2 by by apply handshake_bytes. unfold speak_handshake1.
  rewrite handshake_length, (proj2 (Z.ltb_ge _ _)), handshake_body_handshake by (done || lia).
  by rewrite (proj2 (Z.ltb_ge _ _)) by lia.
Qed.

Lemma speak_certificates_list fuel this size cs u :
  zlen (encode_certificates cs) < 2 ^ 24 → (length cs < fuel)%nat →
  speak_certificates user fuel this size (encode_certificates cs) u =
    Some (false, certificates_shown this cs u).
Proof.
  revert cs u. induction fuel as [|fuel IH]; intros cs u Hlen Hfuel; [lia|].
  destruct cs as [|cert cs].
  { unfold certificates_shown. by destruct (_on_certif this). }
  change (encode_certificates (cert :: cs)) with
    ((be_bytes 3 (zlen cert) ++ cert) ++ encode_certificates cs) in *.
  pose proof (be_bytes_length 3 (zlen cert)) as H3. rewrite <- app_assoc in *.
  cbn [speak_certificates]. rewrite !length_app, H3 in *.
  rewrite (proj2 (Z.eqb_neq _ _)), (proj2 (Z.ltb_ge _ 3)) by lia.
  rewrite (take_app_le (be_bytes _ _)), (take_ge (be_bytes _ _)), be_value_bytes, Z.mod_small by lia.
  rewrite (proj2 (Z.ltb_ge _ _)), (drop_app_le (be_bytes _ _)), (drop_ge (be_bytes _ _)), app_nil_l by lia.
  specialize (IH cs). unfold hand, certificates_shown in *. destruct (_on_certif this) as [f|].
  - rewrite length_app, (proj2 (Z.leb_le _ _)), Nat2Z.id, take_app_length by lia.
    cbn [mbind option_bind deliver_certificates].
    destruct (on_data f cert u) as [[] u']; cbn [fst snd negb]; [|done].
    rewrite drop_app_length. apply IH; [|simpl in Hfuel]; lia.
  - cbn [mbind option_bind fst snd negb]. rewrite Nat2Z.id, drop_app_length.
    apply IH; [|simpl in Hfuel]; lia.
Qed.

Lemma encode_certificates_length cs : (length cs ≤ length (encode_certificates cs))%nat.
Proof.
  induction cs as [|cert cs IH]; [done|].
  change (encode_certificates (cert :: cs)) with
    ((be_bytes 3 (zlen cert) ++ cert) ++ encode_certificates cs).
  rewrite !length_app, be_bytes_length. simpl. lia.
Qed.

Lemma speak_certificate_message this cs cert u :
  cert = be_bytes 3 (zlen (encode_certificates cs)) ++ encode_certificates cs →
  Forall is_byte cert → zlen cert < 2 ^ 24 →
  speak (OnHandshake this handshake2) (handshake 11 cert) u =
    Some (said (false, certificates_shown this cs u)).
Proof.
  intros Hcert Hb Hlen. cbn [Conversation.speak speak_handshake]. unfold if_bytes.
  rewrite bool_decide_eq_true_2 by by apply handshake_bytes. unfold speak_handshake2.
  rewrite handshake_length, (proj2 (Z.ltb_ge _ _)), handshake_body_handshake by (done || lia).
  pose proof (be_bytes_length 3 (zlen (encode_certificates cs))) as H3.
  pose proof (encode_certificates_length cs) as Hcs.
  rewrite Hcert, length_app, H3 in Hlen |- *.
  rewrite (proj2 (Z.ltb_ge _ 3)), take_app_le, take_ge, drop_app_le, drop_ge, app_nil_l by lia.
  rewrite be_value_bytes, Z.mod_small, Z.eqb_refl by lia. cbn [negb].
  rewrite speak_certificates_list; [done|lia|].
  pose proof (handshake_length 11 (be_bytes 3 (zlen (encode_certificates cs)) ++ encode_certificates cs)) as Hh.
  rewrite length_app, H3 in Hh. lia.
Qed.

(** The records of a ServerHello and of a certificate chain. *)
Definition ssl_server (v1 v2 : Z) (sh cert : list Z) : list Z :=
  tls_record v1 v2 (handshake 2 sh) ++ tls_record v1 v2 (handshake 11 cert).

(** What is asked of the flight: its fields are bytes and fit in records, and
    the ServerHello has the three bytes that are read. *)
Record flight_ok (v1 v2 : Z) (sh cert : list Z) : Prop := {
  fo_versions : is_byte v1 ∧ is_byte v2;
  fo_hello : Forall is_byte sh ∧ 3 ≤ zlen sh < 2 ^ 14;
  fo_cert : Forall is_byte cert ∧ zlen cert < 2 ^ 14;
}.

(** What the user sees of the flight: the suite and, unless the function for it
    refuses, the certificates. *)
Definition flight_shown (this : SSL) (sh : list Z) (cs : list (list Z)) (u : U) : U :=
  let '(go, u) := suite_shown this (suite_read sh) u in
  if go then certificates_shown this cs u else u.

Lemma talk_ssl this v1 v2 sh cs cert l u :
  cert = be_bytes 3 (zlen (encode_certificates cs)) ++ encode_certificates cs →
  flight_ok v1 v2 sh cert →
  talk (SSLConnect this) (ssl_server v1 v2 sh cert ++ l) u =
    Ended (C := protocol_closures) (flight_shown this sh cs (on_send (client_hello this) u)).
Proof.
  intros Hcert [[H1 H2] [Hb1 Hl1] [Hb2 Hl2]]. cbn [Conversation.talk]. unfold ssl_server. rewrite <- app_assoc.
  pose proof (handshake_length 2 sh) as Hh1. pose proof (handshake_length 11 cert) as Hh2.
  etrans; [apply converse_record; [done|done|lia]|].
  rewrite speak_server_hello by (done || lia). unfold flight_shown.
  destruct (suite_shown _ _ _) as [[] u']; cbn [fst snd converse_on goes_on seen]; [|done].
  cbn [installs default]. etrans; [apply converse_record; [done|done|lia]|].
  rewrite (speak_certificate_message this cs cert) by (done || lia). done.
Qed.

(** ** On a connection *)

Context (usr : W → U) (avail : W → list Z) (s : Z) (target : Target).
Context (HU : users_speak user usr avail (mkConnected target s)).
Context (Hread : reads_stream usr avail s).

(** The first bytes that come to the new connection [c], in the pieces [ns]. *)
Record arrives (bytes ns : list Z) (c : ctx W) : Prop := {
  ar_wf : Buffer.wf (c_buf c);
  ar_empty : Buffer.contents (c_buf c) = [];
  ar_avail : take (length bytes) (avail (c_world c)) = bytes;
  ar_pieces : Forall (Z.lt 0) ns;
  ar_total : total ns = zlen bytes;
  ar_max : zlen bytes < Buffer.max_size;
}.

Lemma arrives_talk a bytes ns fuel (c : ctx W) :
  talks a → arrives bytes ns c → (length bytes < fuel)%nat →
  ∃ c1 left, call_action a (mkConnected target s) c = Ok (true, c1) ∧
             agrees (C := protocol_closures) usr avail (talk a bytes (usr (c_world c)))
               left (deliver (C := protocol_closures) s target fuel ns c1).
Proof.
  intros Ha [Hwf Hc Hav Hns Htot Hmax] Hfuel.
  assert (Hle : (length bytes ≤ length (avail (c_world c)))%nat)
    by (apply (f_equal (@length Z)) in Hav; rewrite length_take in Hav; lia).
  destruct (conversation_of user usr avail s target HU a fuel ns c)
    as (c1 & Hcall & H); [done|done|done|done|done|lia|lia|lia|].
  rewrite Htot, Nat2Z.id, Hav in H. eauto.
Qed.

(** C12. An SSL connection to a server that sends a ServerHello record and a
    Certificate record, of less than 2^14 bytes each: after the ClientHello was
    sent, the function for the cipher suite, if there is one, is called once with
    the two bytes before the last byte of the ServerHello, read as a
    little-endian number; then the function for certificates, if there is one,
    with every certificate of the chain, whole and in order. Each call is made
    only if the previous one answered [true], and at the end the connection
    ends. This holds in whatever pieces the bytes come. For a ServerHello without
    extensions that number is the suite of the server with its two bytes swapped;
    with extensions it is whatever these end with. *)
Theorem ssl_server_delivers this v1 v2 sh cs cert ns fuel (c : ctx W) :
  cert = be_bytes 3 (zlen (encode_certificates cs)) ++ encode_certificates cs →
  flight_ok v1 v2 sh cert →
  let bytes := ssl_server v1 v2 sh cert in
  arrives bytes ns c → (length bytes < fuel)%nat →
  (∃ c1 c', call_action (SSLConnect this) (mkConnected target s) c = Ok (true, c1) ∧
            deliver (C := protocol_closures) s target fuel ns c1 = Ok (false, c') ∧
            usr (c_world c') = flight_shown this sh cs (on_send (client_hello this) (usr (c_world c)))) ∧
  ∀ version random sid cipher comp,
    sh = server_hello version random sid cipher comp → suite_read sh = htons cipher.
Proof.
  intros Hcert Hok bytes Harr Hfuel. split; [|intros * ->; apply suite_read_hello].
  destruct (arrives_talk (SSLConnect this) bytes ns fuel c I Harr Hfuel) as (c1 & left & Hcall & H).
  pose proof (talk_ssl this v1 v2 sh cs cert [] (usr (c_world c)) Hcert Hok) as Ht.
  rewrite app_nil_r in Ht. unfold bytes in H. rewrite Ht in H. destruct H as (c' & Hd & Hs).
  by exists c1, c'.
Qed.

(** C13. An SSH connection to a server that sends its identification line, a key
    exchange packet and the reply, the packets with six bytes of padding, calls
    the user's function once, on everything in the reply from the host key on,
    after the client has sent its line and its two packets; it goes on or ends
    as the function answers. This holds in whatever pieces the bytes come:
    byte by byte, or with several packets in a piece. *)
Theorem ssh_server_delivers this f line kex pad1 host_key sig pad2 ns fuel (c : ctx W) :
  _cb_certif this = Some f →
  take 7 line = bytes_of_string "SSH-2.0" → 10 ∉ line →
  zlen pad1 = 6 → zlen pad2 = 6 → 0 < zlen kex < 2 ^ 30 →
  zlen (ecdh_reply host_key sig) < 2 ^ 30 →
  let bytes := ssh_server line kex pad1 host_key sig pad2 in
  arrives bytes ns c → (length bytes < fuel)%nat →
  let r := on_data f (host_key ++ sig ++ pad2) (ssh_sent (usr (c_world c))) in
  ∃ c1 c', call_action (SSHConnect this) (mkConnected target s) c = Ok (true, c1) ∧
           deliver (C := protocol_closures) s target fuel ns c1 = Ok (r.1, c') ∧
           usr (c_world c') = r.2.
Proof.
  intros Hf Hline Hnl Hp1 Hp2 Hkex Hreply bytes Harr Hfuel r.
  destruct (arrives_talk (SSHConnect this) bytes ns fuel c I Harr Hfuel) as (c1 & left & Hcall & H).
  destruct (talk_ssh this f line kex pad1 host_key sig pad2 (usr (c_world c))) as (tr & Ht); [done..|].
  unfold bytes in H. rewrite Ht in H. fold r in H. exists c1.
  destruct (r.1); destruct H as (c' & Hd & Hs); exists c'; (split; [done|split; [exact Hd|]]);
    [apply Hs|exact Hs].
Qed.

(** C14. A SIP connection to a server that answers with a status line, headers
    and an empty line, each closed by CR LF, calls the user's function on the
    name and the value of each header, in their order, until it refuses one,
    and ends; in whatever pieces the bytes come. The value is what follows the
    colon, less its first byte when the second one is a space. *)
Theorem sip_answer_delivers this f status hs ns fuel (c : ctx W) :
  _cb_header this = Some f → take 7 status = sip_20 → 10 ∉ status → 58 ∉ status →
  Forall header_ok hs →
  arrives (sip_answer status hs) ns c → (length (sip_answer status hs) < fuel)%nat →
  ∃ c1 c', call_action (SIPConnect this) (mkConnected target s) c = Ok (true, c1) ∧
           deliver (C := protocol_closures) s target fuel ns c1 = Ok (false, c') ∧
           usr (c_world c') = hear f hs (on_send get_options (usr (c_world c))).
Proof.
  intros Hf H7 Hn Hc Hhs Harr Hfuel.
  destruct (arrives_talk (SIPConnect this) _ ns fuel c I Harr Hfuel) as (c1 & left & Hcall & H).
  pose proof (talk_sip this f status hs [] (usr (c_world c)) Hf H7 Hn Hc Hhs) as Ht.
  rewrite app_nil_r in Ht. rewrite Ht in H. destruct H as (c' & Hd & Hs). by exists c1, c'.
Qed.

End Servers.
