(* ===== verification/Respects.v ===== *)
(** * What the protocols do to a connection, whatever they read

    Every closure of Closures.v respects any preorder on contexts that the
    user's functions, sends, stores into the buffer and well-typed triggers
    respect ([call_closure_respects], [call_action_respects]): the protocols
    change a connection in no other way. *)

From S2P Require Import Prelude Lvl4Buffer Leeloo Target HostSM Lvl4SM Framing Closures SSL SSH.
From S2P Require Import SIP Protocols.

(** A C++ trigger whose integers fit the fields that hold them. *)
Definition plain_trigger {L : Leeloo} {C : Closures} (t : trigger) : Prop :=
  match t with
  | DataTrigger => True
  | SizeDataTrigger n _ => 0 ≤ n < 2 ^ 32
  | CharDataTrigger ch _ => is_byte ch
  | PythonDataTrigger _ => False
  end.

Section Respects.
Context {L : Leeloo} {UC : UserCode} {M : Malloc} {W : Type} {OSW : OS W} {UW : UserCalls W}.
Context (R : ctx W → ctx W → Prop) {PR : PreOrder R}.

(** What [R] must allow. *)
Record respected : Prop := {
  R_data u t off n c r c' : call_user_data u t off n c = Ok (r, c') → R c c';
  R_cipher u t z c r c' : call_user_cipher u t z c = Ok (r, c') → R c c';
  R_header u t k v c r c' : call_user_header u t k v c = Ok (r, c') → R c c';
  R_connect u t c r c' : call_user_connect u t c = Ok (r, c') → R c c';
  R_send t data c : R c (with_world (send t data (c_world c)).2 c);
  R_trigger t c : plain_trigger t → R c (with_sm (set_trigger t) c);
  R_store off b c c' : is_byte b → store_c off b c = Ok c' → R c c';
}.

Context (HR : respected).

(** Every outcome of [r] is related to [c]. *)
Definition respects (c : ctx W) (r : result (bool * ctx W)) : Prop :=
  match r with Ok (_, c') => R c c' | Fail _ => True end.

Lemma respects_intro c m : (∀ r c', m = Ok (r, c') → R c c') → respects c m.
Proof. intros H. destruct m as [[r c']|]; simpl; [by eapply H|done]. Qed.

Lemma respects_bind {A} c (m : result A) (f : A → result (bool * ctx W)) :
  (∀ a, m = Ok a → respects c (f a)) → respects c (m ≫= f).
Proof. intros Hf. destruct m; simpl; auto. Qed.

Lemma respects_then c (m : result (bool * ctx W)) f :
  respects c m → (∀ b c', R c c' → respects c (f (b, c'))) → respects c (m ≫= f).
Proof. intros Hm Hf. destruct m as [[b c']|]; simpl; [by apply Hf|done]. Qed.

Lemma respects_trans c c1 r : R c c1 → respects c1 r → respects c r.
Proof. intros H. destruct r as [[b c']|]; simpl; [by etrans|done]. Qed.

Lemma respects_refl c b : respects c (Ok (b, c)).
Proof. simpl. reflexivity. Qed.

Lemma respects_trigger c t b : plain_trigger t → respects c (Ok (b, with_sm (set_trigger t) c)).
Proof. apply (R_trigger HR). Qed.

Lemma respects_data_cb def cb t off n c : respects c (call_data_cb def cb t off n c).
Proof.
  destruct cb as [u|]; [|apply respects_refl].
  apply respects_intro. intros r c'. apply (R_data HR u t off n).
Qed.

Lemma respects_failure this t off n c : respects c (failure_cb this t off n c).
Proof. apply respects_data_cb. Qed.

(** The triggers of constant size. *)
Ltac small_trigger := simpl; unfold sizeof_TLS, is_byte; lia.

Lemma certificates_loop_respects fuel this t buf size len c :
  respects c (certificates_loop fuel this t buf size len c).
Proof.
  revert buf len c; induction fuel as [|fuel IH]; intros buf len c; simpl; [done|].
  destruct (negb _); [apply respects_refl|]. destruct (_ <? 3); [apply respects_data_cb|].
  apply respects_bind. intros n _. destruct (_ <? n); [apply respects_data_cb|].
  apply respects_then; [apply respects_data_cb|]. intros [] c' Hc; simpl; [|done].
  by eapply respects_trans.
Qed.

Lemma byte_0 : is_byte 0.
Proof. unfold is_byte. lia. Qed.

Lemma sip_line_respects a b t buf size c : respects c (sip_line a b t buf size c).
Proof.
  unfold sip_line. destruct (_ <? 1); [apply respects_data_cb|].
  apply respects_bind. intros last _. destruct (negb _); [apply respects_data_cb|].
  apply respects_bind. intros c1 E1%(R_store HR); [|apply byte_0].
  apply (respects_trans c c1); [done|]. destruct (_ =? 1); [apply respects_refl|].
  apply respects_bind. intros line _. destruct (find_byte 58 line) as [i|].
  - apply respects_bind. intros c2 E2%(R_store HR); [|apply byte_0].
    apply (respects_trans c1 c2); [done|].
    apply respects_bind. intros v0 _. apply respects_bind. intros skip _.
    destruct b as [u|]; [|apply respects_refl].
    apply respects_intro. intros r c'. apply (R_header HR u t).
  - apply respects_bind. intros [] _; [apply respects_refl|apply respects_data_cb].
Qed.

Lemma be_2_range l : 0 ≤ ntohs l < 2 ^ 16.
Proof. apply (le_value_range (reverse (le_bytes 2 l))), Forall_reverse, le_bytes_byte. Qed.

Lemma call_closure_respects d t buf size c : respects c (call_closure d t buf size c).
Proof.
  induction d as [u|this hs|this []|a b|next|d IH|a b|a b|a b]; simpl; try done.
  - apply (respects_data_cb false (Some u)).
  - apply respects_bind. intros ty _. destruct (negb _); [apply respects_failure|].
    apply respects_bind. intros len _. apply respects_trigger.
    pose proof (be_2_range (le_value len)). simpl. lia.
  - unfold on_handshake1. destruct (_ <? _); [apply respects_failure|].
    apply respects_bind. intros ty _. destruct (negb _); [apply respects_failure|].
    apply respects_bind. intros len _. destruct (negb _); [apply respects_failure|].
    apply respects_bind. intros cipher _. apply respects_then.
    + destruct (_on_cipher this) as [u|]; [|apply respects_refl].
      apply respects_intro. intros r c'. apply (R_cipher HR u t).
    + intros [] c' Hc; [|done]. eapply respects_trans; [exact Hc|].
      apply respects_trigger. small_trigger.
  - unfold on_handshake2. destruct (_ <? _); [apply respects_failure|].
    do 2 (apply respects_bind; intros ? _). do 2 (destruct (negb _); [apply respects_failure|]).
    destruct (_ <? _); [apply respects_failure|]. apply respects_bind. intros len _.
    destruct (negb _); [apply respects_failure|]. apply certificates_loop_respects.
  - unfold ssh_banner. destruct (_ <? _); [apply respects_data_cb|].
    apply respects_bind. intros head _. destruct (negb _); [apply respects_data_cb|].
    pose proof (R_send HR t client_key_exchange c) as H1.
    destruct (send t client_key_exchange _) as [r1 w1].
    pose proof (R_send HR t client_dh (with_world w1 c)) as H2. simpl in H1, H2.
    destruct (send t client_dh w1) as [r2 w2].
    eapply respects_trans; [exact H1|]. eapply respects_trans; [exact H2|].
    apply (respects_trigger (with_world w2 c)). small_trigger.
  - unfold ssh_answer. destruct next; [|apply respects_refl].
    do 2 (apply respects_bind; intros ? _). destruct (_ <=? _) eqn:E; [apply respects_refl|].
    apply respects_trigger. simpl. apply Z.leb_gt in E. pose proof (u32_range (ntohl (le_value a) + a0)).
    lia.
  - apply (R_trigger HR). small_trigger.
  - unfold ssh_get_certificate. destruct (_ <? _); [apply respects_data_cb|].
    apply respects_bind. intros kind _. destruct (negb _); [apply respects_data_cb|].
    destruct (_ <? _); [apply respects_data_cb|]. apply respects_bind. intros len _.
    destruct (_ <? _); [apply respects_data_cb|].
    destruct a as [u|]; [|apply respects_refl]. apply (respects_data_cb false (Some u)).
  - apply sip_line_respects.
Qed.

Lemma respects_hello t data c tr :
  plain_trigger tr →
  respects c (let '(_, w) := send t data (c_world c) in
              Ok (true, with_sm (set_trigger tr) (with_world w c))).
Proof.
  intros Htr. pose proof (R_send HR t data c) as H. destruct (send t data (c_world c)) as [n w].
  eapply respects_trans; [exact H|]. by apply (respects_trigger (with_world w c)).
Qed.

Lemma call_action_respects a t c : respects c (call_action a t c).
Proof.
  destruct a as [u|this|this|this]; simpl.
  - apply respects_intro. intros r c'. apply (R_connect HR).
  - apply respects_hello. small_trigger.
  - apply respects_hello. small_trigger.
  - apply respects_hello. small_trigger.
Qed.

End Respects.
