(* ===== verification/Rescan.v ===== *)
(** * Where the search for a character starts

    [CharDataTrigger] looks for its character from [prev_pos] on, the size the
    buffer had before the read. This file shows that nothing is lost: reads
    processed this way give, call by call, what they give when every search
    starts at the beginning of the buffer, whatever triggers the callbacks
    install on the way ([rescan_equivalent]). *)

From S2P Require Import Prelude Lvl4Buffer Leeloo Target HostSM Lvl4SM Framing Closures SSL SSH.
From S2P Require Import SIP Protocols Respects.

Section Rescan.
Context {L : Leeloo} {C : Closures} {M : Malloc} {W : Type} {OSW : OS W} {K : Calls W}.

(** [process_lvl4_data] with the search from the beginning. *)
Definition process_lvl4_data_rescan (fuel : nat) (s navail : Z) (target : Target) (c : ctx W) :
    result (bool * ctx W) :=
  let '(b, buf_read) := Buffer.grow_by navail (c_buf c) in
  let '(nread, data, w) := sys_read s navail (c_world c) in
  b ← Buffer.write_at buf_read data b;
  let c := with_world w (with_sm (set_buf b) c) in
  if nread <=? 0 then Ok (false, c) else
  '(ret, c) ← process_loop fuel (mkConnected target s) 0 c;
  Ok (bool_decide (ret = NoMoreToProcess), c).

(** Reads one after the other, up to the first that ends the connection. *)
Fixpoint reads (step : Z → ctx W → result (bool * ctx W)) (ns : list Z) (c : ctx W) :
    result (bool * ctx W) :=
  match ns with
  | [] => Ok (true, c)
  | n :: ns => '(go, c) ← step n c; if (go : bool) then reads step ns c else Ok (false, c)
  end.

(** A callback keeps the buffer well formed, does not make it grow and installs
    no Python trigger, which is given [prev_pos], and sizes in their range. *)
Definition tame (c c' : ctx W) : Prop :=
  Buffer.wf (c_buf c) → plain_trigger (_trigger (c_sm c)) →
  Buffer.wf (c_buf c') ∧ Buffer.size (c_buf c') ≤ Buffer.size (c_buf c) ∧
  plain_trigger (_trigger (c_sm c')).
Definition callbacks_tame : Prop := ∀ d ct off n (c : ctx W) r c',
  call_data d ct off n c = Ok (r, c') → tame c c'.

#[export] Instance tame_preorder : PreOrder tame.
Proof.
  split; [by intros c|]. intros c1 c2 c3 H12 H23 Hwf Hp.
  destruct (H12 Hwf Hp) as (Hwf2 & Hs2 & Hp2). destruct (H23 Hwf2 Hp2) as (? & ? & ?).
  split_and!; [done|lia|done].
Qed.

(** The first [pos] bytes do not hold the character that is looked for. *)
Definition searched (pos : Z) (c : ctx W) : Prop :=
  match _trigger (c_sm c) with
  | CharDataTrigger ch _ => is_byte ch ∧ ch ∉ ztake pos (Buffer.contents (c_buf c))
  | t => plain_trigger t
  end.

Lemma searched_zero c : plain_trigger (_trigger (c_sm c)) → searched 0 c.
Proof. unfold searched. destruct (_trigger (c_sm c)); simpl; try done. intros; split; [done|set_solver]. Qed.

Lemma searched_plain pos c : searched pos c → plain_trigger (_trigger (c_sm c)).
Proof. unfold searched. destruct (_trigger (c_sm c)); simpl; naive_solver. Qed.

Lemma find_from ch (l : list Z) pos :
  0 ≤ pos → ch ∉ ztake pos l → pos ≤ zlen l →
  find_byte ch l = Nat.add (Z.to_nat pos) <$> find_byte ch (zdrop pos l).
Proof.
  intros Hp Hch Hl. rewrite <- (take_drop (Z.to_nat pos) l) at 1.
  rewrite find_byte_app by done. rewrite length_take. by rewrite Nat.min_l by lia.
Qed.

Lemma trigger_from ct pos (c : ctx W) :
  Buffer.wf (c_buf c) → 0 ≤ pos ≤ Buffer.size (c_buf c) → searched pos c →
  trigger_process_buffer ct pos c = trigger_process_buffer ct 0 c.
Proof.
  intros Hwf Hpos Hs. unfold trigger_process_buffer, searched in *.
  destruct (_trigger (c_sm c)) as [|n f|ch f|o]; [done|done| |done]. destruct Hs as [_ Hs].
  pose proof (size_nonneg _ Hwf). pose proof (Buffer.contents_size _ Hwf).
  unfold CharDataTrigger_process_buffer. rewrite !contents_load by (done || lia).
  cbn [mbind result_bind]. rewrite drop_0, (find_from ch (Buffer.contents (c_buf c)) pos) by (done || lia).
  destruct (find_byte ch (zdrop pos _)) as [i|]; [|done]. simpl.
  by replace (Z.of_nat (Z.to_nat pos + i)) with (pos + Z.of_nat i) by lia.
Qed.

Lemma loop_from fuel ct pos (c : ctx W) :
  Buffer.wf (c_buf c) → 0 ≤ pos ≤ Buffer.size (c_buf c) → searched pos c →
  process_loop fuel ct pos c = process_loop fuel ct 0 c.
Proof. intros. destruct fuel; [done|]. simpl. by rewrite trigger_from. Qed.

(** Dropping bytes from the front. *)
Lemma pop_tame n (c : ctx W) b :
  0 ≤ n → Buffer.pop_by n (c_buf c) = Ok b → tame c (with_sm (set_buf b) c).
Proof.
  intros Hn Hpop Hwf Hp. pose proof (Buffer.pop_by_spec n (c_buf c) Hwf Hn) as H.
  case_bool_decide; [|congruence]. destruct H as (b' & Hb' & Hwf' & Hc).
  rewrite Hpop in Hb'. injection Hb' as <-. cbn. split_and!; [done| |done].
  rewrite !Buffer.contents_size, Hc by done. solve_length.
Qed.

Context (HT : callbacks_tame).

(** What one call of the trigger leaves. *)
Lemma trigger_searched ct (c : ctx W) r c' :
  Buffer.wf (c_buf c) → plain_trigger (_trigger (c_sm c)) →
  trigger_process_buffer ct 0 c = Ok (r, c') →
  tame c c' ∧ (r = NoMoreToProcess → searched (Buffer.size (c_buf c')) c').
Proof.
  intros Hwf Hp. unfold trigger_process_buffer, SizeDataTrigger_process_buffer,
    CharDataTrigger_process_buffer, call_function.
  pose proof (size_nonneg _ Hwf). destruct (_trigger (c_sm c)) as [|n f|ch f|o] eqn:Htr; [| | |done].
  - intros H1. inv_ok. split; [done|]. intros _. unfold searched. by rewrite Htr.
  - destruct (_ <? n) eqn:E; intros H1; inv_ok.
    { split; [done|]. intros _. unfold searched. by rewrite Htr. }
    match goal with H : call_data _ _ _ _ _ = _ |- _ => apply HT in H as Hc end.
    destruct b; simpl in H1; inv_ok; [|done]. split; [|done]. etrans; [exact Hc|].
    eapply pop_tame; [|done]. apply Hp.
  - rewrite contents_load by (done || lia). cbn [mbind result_bind]. rewrite drop_0.
    destruct (find_byte ch _) as [i|] eqn:Hf; intros H1; inv_ok.
    2:{ split; [done|]. intros _. unfold searched. rewrite Htr. apply find_byte_None in Hf.
        split; [done|]. intros (i & Hi & _)%elem_of_take.
        apply Hf. by eapply list_elem_of_lookup_2. }
    match goal with H : call_data _ _ _ _ _ = _ |- _ => apply HT in H as Hc end.
    destruct b; simpl in H1; inv_ok; [|done]. split; [|done]. etrans; [exact Hc|].
    eapply pop_tame; [|done]. lia.
Qed.

Lemma loop_searched fuel ct (c : ctx W) r c' :
  Buffer.wf (c_buf c) → plain_trigger (_trigger (c_sm c)) →
  process_loop fuel ct 0 c = Ok (r, c') →
  tame c c' ∧ (r = NoMoreToProcess → searched (Buffer.size (c_buf c')) c').
Proof.
  revert c. induction fuel as [|fuel IH]; intros c Hwf Hp; simpl; [done|].
  destruct (trigger_process_buffer ct 0 c) as [[r1 c1]|] eqn:E; [|done]. simpl.
  destruct (trigger_searched ct c r1 c1 Hwf Hp E) as [Ht Hs].
  destruct r1; [by intros [= <- <-]| |by intros [= <- <-]].
  destruct (Ht Hwf Hp) as (Hwf1 & _ & Hp1). intros H. destruct (IH c1 Hwf1 Hp1 H) as [Ht' Hs'].
  split; [by etrans|done].
Qed.

(** What a read puts in the buffer, all that was announced or not. *)
Lemma read_grows n data b b1 off b2 :
  Buffer.wf b → 0 ≤ n → Buffer.size b + n < Buffer.max_size →
  Buffer.grow_by n b = (b1, off) → Buffer.write_at off data b1 = Ok b2 →
  Buffer.wf b2 ∧ Buffer.size b2 = Buffer.size b + n ∧
  ztake (Buffer.size b) (Buffer.contents b2) = Buffer.contents b.
Proof.
  intros Hwf Hn Hmax Hg Hw.
  destruct (Buffer.grow_by_spec n b b1 off Hwf Hn Hmax Hg) as (Hwf1 & -> & Hsz & Hc & Hin).
  pose proof (size_nonneg _ Hwf). pose proof Hwf1 as (Hp1 & Hs1 & Hl1).
  unfold Buffer.write_at in Hw. inv_ok. pose proof (store_n_length _ _ _ _ E) as Hlen.
  unfold store_n in E. inv_ok.
  assert (Hb : Buffer._buffer b1 ≠ None ∨ zlen (Buffer.block b1) = 0).
  { unfold Buffer.block. destruct (Buffer._buffer b1); [by left|by right]. }
  set (m := ztake _ _ ++ data ++ _) in *.
  assert (Hblock : Buffer.block (Buffer.mkBuffer ((λ _, m) <$> Buffer._buffer b1)
                                   (Buffer._buf_size b1) (Buffer._buf_pos b1)) = m).
  { unfold Buffer.block. simpl. destruct (Buffer._buffer b1) eqn:Eb; [done|]. simpl.
    destruct Hb as [?|Hb]; [done|]. symmetry. apply length_zero_iff_nil.
    unfold Buffer.block in Hlen, Hb. rewrite Eb in Hlen, Hb. simpl in Hlen. lia. }
  split_and!.
  - split_and!; simpl; try lia. rewrite Hblock. lia.
  - exact Hsz.
  - rewrite <- Hc. unfold Buffer.contents. rewrite Hblock. simpl.
    unfold Buffer.size in *. rewrite !take_take, Nat.min_l by lia. unfold m.
    rewrite take_app_le by (rewrite length_take; lia). by rewrite take_take, Nat.min_id.
Qed.

(** One read. *)
Lemma read_equivalent fuel s n target (c : ctx W) :
  Buffer.wf (c_buf c) → searched (Buffer.size (c_buf c)) c →
  0 ≤ n → Buffer.size (c_buf c) + n < Buffer.max_size →
  process_lvl4_data fuel s n target c = process_lvl4_data_rescan fuel s n target c ∧
  ∀ c', process_lvl4_data fuel s n target c = Ok (true, c') →
    Buffer.wf (c_buf c') ∧ Buffer.size (c_buf c') ≤ Buffer.size (c_buf c) + n ∧
    searched (Buffer.size (c_buf c')) c'.
Proof.
  intros Hwf Hs Hn Hmax. unfold process_lvl4_data, process_lvl4_data_rescan.
  destruct (Buffer.grow_by n (c_buf c)) as [b1 off] eqn:Hg.
  destruct (sys_read s n (c_world c)) as [[nread data] w].
  destruct (Buffer.write_at off data b1) as [b2|] eqn:Hw; [|done]. cbn [mbind result_bind].
  destruct (read_grows n data (c_buf c) b1 off b2 Hwf Hn Hmax Hg Hw) as (Hwf2 & Hsz & Hc).
  destruct (nread <=? 0); [done|]. set (c2 := with_world w (with_sm (set_buf b2) c)).
  assert (Hs2 : searched (Buffer.size (c_buf c)) c2).
  { unfold searched in *. cbn. destruct (_trigger (c_sm c)); try done.
    destruct Hs as [Hb Hs]. split; [done|]. rewrite Hc. intros Hin. apply Hs.
    rewrite take_ge; [done|]. pose proof (Buffer.contents_size _ Hwf). lia. }
  pose proof (size_nonneg _ Hwf). rewrite loop_from; [|done|cbn; lia|done]. split; [done|].
  destruct (process_loop fuel _ 0 c2) as [[r c3]|] eqn:Hl; [|done]. simpl.
  intros c' [= Hr <-]. apply bool_decide_eq_true in Hr as ->.
  destruct (loop_searched _ _ c2 _ _ Hwf2 (searched_plain _ _ Hs2) Hl) as [Ht Hs3].
  destruct (Ht Hwf2 (searched_plain _ _ Hs2)) as (? & Hle & _). cbn in Hle.
  split_and!; [done|lia|by apply Hs3].
Qed.

Lemma reads_equivalent fuel s target ns (c : ctx W) :
  Buffer.wf (c_buf c) → searched (Buffer.size (c_buf c)) c → Forall (Z.le 0) ns →
  Buffer.size (c_buf c) + foldr Z.add 0 ns < Buffer.max_size →
  reads (λ n, process_lvl4_data fuel s n target) ns c =
  reads (λ n, process_lvl4_data_rescan fuel s n target) ns c.
Proof.
  revert c. induction ns as [|n ns IH]; intros c Hwf Hs Hns Hmax; [done|].
  apply Forall_cons in Hns as [Hn Hns]. simpl in Hmax.
  assert (0 ≤ foldr Z.add 0 ns) by (clear -Hns; induction Hns; simpl; lia).
  destruct (read_equivalent fuel s n target c Hwf Hs Hn) as [He Hnext]; [lia|].
  simpl. rewrite <- He. destruct (process_lvl4_data fuel s n target c) as [[[] c']|]; [|done|done].
  simpl. destruct (Hnext c' eq_refl) as (? & ? & ?). apply IH; [done|done|done|lia].
Qed.

End Rescan.

(** ** Under the protocols *)

Section Protocols.
Context {L : Leeloo} {UC : UserCode} {M : Malloc} {W : Type} {OSW : OS W} {UW : UserCalls W}.

(** The user's functions may read the buffer, install triggers and send. *)
Record tame_user : Prop := {
  tame_data u t off n (c : ctx W) r c' : call_user_data u t off n c = Ok (r, c') → tame c c';
  tame_cipher u t z (c : ctx W) r c' : call_user_cipher u t z c = Ok (r, c') → tame c c';
  tame_header u t k v (c : ctx W) r c' : call_user_header u t k v c = Ok (r, c') → tame c c';
  tame_connect u t (c : ctx W) r c' : call_user_connect u t c = Ok (r, c') → tame c c';
}.

Lemma write_at_wf off data b b' :
  Buffer.wf b → Buffer.write_at off data b = Ok b' →
  Buffer.wf b' ∧ Buffer.size b' = Buffer.size b.
Proof.
  intros (Hp & Hs & Hl) H. unfold Buffer.write_at in H. inv_ok. split; [|done].
  pose proof (store_n_length _ _ _ _ E) as Hlen. split_and!; simpl; try lia.
  unfold Buffer.block in *. simpl. destruct (Buffer._buffer b); simpl in *; lia.
Qed.

Lemma tame_respected : tame_user → respected (W := W) tame.
Proof.
  intros [Hd Hc Hh Hco]. split; try done.
  - intros off b c c' _ H Hwf Hp. unfold store_c in H. inv_ok.
    destruct (write_at_wf _ _ _ _ Hwf E) as [Hwf' Hsz]. cbn. split_and!; [done|lia|done].
Qed.

Lemma protocols_tame : tame_user → callbacks_tame (C := protocol_closures) (W := W).
Proof.
  intros HU d ct off n c r c' H.
  pose proof (call_closure_respects _ (tame_respected HU) d ct off n c) as Hk.
  change (call_closure d ct off n c = Ok (r, c')) in H. by rewrite H in Hk.
Qed.

(** C11. On any sequence of reads, complete or short, a connection that runs the
    protocols or the user's functions behaves exactly as if each search for a
    character started again at the beginning of the buffer: the same
    functions are called on the same bytes, the same call ends the connection or
    fails, and the same state is left. [prev_pos] is only an optimisation, also
    when callbacks replace the trigger by another one. *)
Theorem rescan_equivalent fuel s target ns (c : ctx W) :
  tame_user → Buffer.wf (c_buf c) → searched (Buffer.size (c_buf c)) c → Forall (Z.le 0) ns →
  Buffer.size (c_buf c) + foldr Z.add 0 ns < Buffer.max_size →
  reads (λ n, process_lvl4_data fuel s n target) ns c =
  reads (λ n, process_lvl4_data_rescan fuel s n target) ns c.
Proof. intros HU. by apply reads_equivalent, protocols_tame. Qed.

End Protocols.
