(* ===== verification/Properties.v ===== *)
(** * Per-target properties: src/src/include/ns/lvl4_properties_storage.h

    [Lvl4PropertiesStorage] gives each target a property, created on first use
    by a function of the user. The [std::map] is the list of its entries in the
    order of the keys; a write through the reference [properties_of] returns is
    [store_property]. [clear] does not compile once instantiated (it applies
    [->] to the map itself) and has no model.

    Main result: any sequence of operations gives what it gives on a plain
    partial function from targets to properties
    ([properties_storage_refines]). *)

From S2P Require Import Prelude Leeloo Target.

Section Storage.
Context {L : Leeloo} {P W : Type}.

Definition storage_type : Type := list (Target * P).

(** Two keys are the same when neither is below the other. *)
Definition same_key (t u : Target) : bool := negb (target_ltb t u) && negb (target_ltb u t).

Fixpoint props_find (t : Target) (m : storage_type) : option P :=
  match m with
  | [] => None
  | (u, p) :: m' => if same_key t u then Some p else props_find t m'
  end.

(** [std::map::insert]: an entry with the same key stays. *)
Fixpoint props_insert (t : Target) (p : P) (m : storage_type) : storage_type :=
  match m with
  | [] => [(t, p)]
  | (u, q) :: m' =>
      if target_ltb t u then (t, p) :: m
      else if target_ltb u t then (u, q) :: props_insert t p m' else m
  end.

Fixpoint props_erase (t : Target) (m : storage_type) : storage_type :=
  match m with
  | [] => []
  | (u, q) :: m' => if same_key t u then m' else (u, q) :: props_erase t m'
  end.

Fixpoint props_store (t : Target) (p : P) (m : storage_type) : storage_type :=
  match m with
  | [] => []
  | (u, q) :: m' => if same_key t u then (u, p) :: m' else (u, q) :: props_store t p m'
  end.

(** [_new] is a [std::function], empty when it is [None]. *)
Record Lvl4PropertiesStorage := mkStorage {
  _storage : storage_type;
  _new : option (W → result (P * W));
}.

Definition Lvl4PropertiesStorage_ctor (f : option (W → result (P * W))) :
    Lvl4PropertiesStorage := mkStorage [] f.

Definition properties_of (t : Target) (s : Lvl4PropertiesStorage) (w : W) :
    result (P * Lvl4PropertiesStorage * W) :=
  match props_find t (_storage s) with
  | Some p => Ok (p, s, w)
  | None =>
      f ← of_option BadFunctionCall (_new s);
      '(p, w) ← f w;
      Ok (p, mkStorage (props_insert t p (_storage s)) (_new s), w)
  end.

(** [properties_of(t) = p]. *)
Definition store_property (t : Target) (p : P) (s : Lvl4PropertiesStorage) (w : W) :
    result (Lvl4PropertiesStorage * W) :=
  '(_, s, w) ← properties_of t s w;
  Ok (mkStorage (props_store t p (_storage s)) (_new s), w).

Definition remove (t : Target) (s : Lvl4PropertiesStorage) : Lvl4PropertiesStorage :=
  match props_find t (_storage s) with
  | Some _ => mkStorage (props_erase t (_storage s)) (_new s)
  | None => s
  end.

(** A sequence of operations, and the properties it reads. *)
Inductive storage_op := Get (t : Target) | Put (t : Target) (p : P) | Remove (t : Target).

Fixpoint run_storage (os : list storage_op) (s : Lvl4PropertiesStorage) (w : W) :
    result (list P * W) :=
  match os with
  | [] => Ok ([], w)
  | Get t :: os =>
      '(p, s, w) ← properties_of t s w;
      '(ps, w) ← run_storage os s w;
      Ok (p :: ps, w)
  | Put t p :: os => '(s, w) ← store_property t p s w; run_storage os s w
  | Remove t :: os => run_storage os (remove t s) w
  end.

(** The same on a partial function. *)
Definition update (t : Target) (o : option P) (f : Target → option P) : Target → option P :=
  λ u, if decide (u = t) then o else f u.

Definition spec_properties_of (new : option (W → result (P * W))) (t : Target)
    (f : Target → option P) (w : W) : result (P * W) :=
  match f t with Some p => Ok (p, w) | None => f ← of_option BadFunctionCall new; f w end.

Fixpoint spec_storage (new : option (W → result (P * W))) (os : list storage_op)
    (f : Target → option P) (w : W) : result (list P * W) :=
  match os with
  | [] => Ok ([], w)
  | Get t :: os =>
      '(p, w) ← spec_properties_of new t f w;
      '(ps, w) ← spec_storage new os (update t (Some p) f) w;
      Ok (p :: ps, w)
  | Put t p :: os =>
      '(_, w) ← spec_properties_of new t f w; spec_storage new os (update t (Some p) f) w
  | Remove t :: os => spec_storage new os (update t None f) w
  end.

(** ** The refinement *)

Context {LL : LeelooLaws L}.

Definition key_lt (x y : Target * P) : Prop := target_ltb x.1 y.1 = true.
Abbreviation sorted := (StronglySorted key_lt).

(** The storage [m] is a sorted list that holds what [f] says. *)
Definition stores (f : Target → option P) (m : storage_type) : Prop :=
  sorted m ∧ ∀ t, props_find t m = f t.

Lemma same_key_eq t u : same_key t u = bool_decide (t = u).
Proof.
  unfold same_key. case_bool_decide as H; [subst; by rewrite !target_ltb_irrefl|].
  destruct (target_ltb t u) eqn:E1, (target_ltb u t) eqn:E2; try done.
  by destruct H; apply target_ltb_total.
Qed.

Lemma key_lt_all x m : sorted (x :: m) → Forall (key_lt x) m ∧ sorted m.
Proof. by intros [? ?]%StronglySorted_inv. Qed.

Lemma props_find_above t m : Forall (λ x, target_ltb t x.1 = true) m → props_find t m = None.
Proof.
  induction 1 as [|[u p] m H _ IH]; [done|]. simpl in *. unfold same_key. by rewrite H.
Qed.

Lemma above_trans t x m :
  target_ltb t x.1 = true → Forall (key_lt x) m → Forall (λ y, target_ltb t y.1 = true) m.
Proof. intros ? H. eapply Forall_impl; [exact H|]. intros y. by apply target_ltb_trans. Qed.

Lemma props_find_own u p (m : storage_type) : sorted ((u, p) :: m) → props_find u m = None.
Proof. intros [H _]%key_lt_all. by apply props_find_above. Qed.

Lemma props_insert_in x t p m : x ∈ props_insert t p m → x = (t, p) ∨ x ∈ m.
Proof.
  induction m as [|[u q] m IH]; simpl; [set_solver|].
  destruct (target_ltb t u); [set_solver|]. destruct (target_ltb u t); set_solver.
Qed.

Lemma props_erase_in x t m : x ∈ props_erase t m → x ∈ m.
Proof. induction m as [|[u q] m IH]; simpl; [done|]. destruct (same_key t u); set_solver. Qed.

Lemma props_store_key x t p m : x ∈ props_store t p m → ∃ q, (x.1, q) ∈ m.
Proof.
  induction m as [|[u q] m IH]; simpl; [set_solver|].
  destruct (same_key t u); intros [->|H]%elem_of_cons; try (exists q; set_solver);
    [destruct x as [a b]; exists b; set_solver|].
  apply IH in H as [r ?]. exists r. set_solver.
Qed.

Lemma sorted_cons x (m m' : storage_type) :
  Forall (key_lt x) m → (∀ y, y ∈ m' → ∃ q, (y.1, q) ∈ m) → sorted m' → sorted (x :: m').
Proof.
  intros Hx Hm Hs. constructor; [done|]. apply Forall_forall. intros y [q Hy]%Hm.
  rewrite Forall_forall in Hx. exact (Hx _ Hy).
Qed.

Lemma props_insert_stores f t p m :
  stores f m → f t = None → stores (update t (Some p) f) (props_insert t p m).
Proof.
  intros [Hs Hf] Ht. rewrite <- Hf in Ht. split.
  - clear Hf. induction m as [|[u q] m IH]; simpl; [by repeat constructor|].
    pose proof (key_lt_all _ _ Hs) as [Hu Hm].
    destruct (target_ltb t u) eqn:E.
    { constructor; [done|]. constructor; [done|]. by apply (above_trans t (u, q)). }
    destruct (target_ltb u t) eqn:E'; [|done].
    simpl in Ht. unfold same_key in Ht. rewrite E, E' in Ht. simpl in Ht.
    constructor; [by apply IH|]. apply Forall_forall. intros y [->|Hy]%props_insert_in; [done|].
    rewrite Forall_forall in Hu. by apply Hu.
  - intros x. unfold update. rewrite <- Hf. clear Hf f.
    induction m as [|[u q] m IH]; simpl.
    { rewrite same_key_eq. case_bool_decide; case_decide; congruence. }
    pose proof (key_lt_all _ _ Hs) as [Hu Hm]. simpl in Ht.
    destruct (target_ltb t u) eqn:E; simpl.
    { rewrite !same_key_eq. repeat case_bool_decide; case_decide; congruence. }
    unfold same_key in Ht at 1. rewrite E in Ht. simpl in Ht.
    destruct (target_ltb u t) eqn:E'; simpl in *; [|done].
    rewrite IH by done. rewrite same_key_eq. case_bool_decide; [|done].
    case_decide; [|done]. assert (u = t) as -> by congruence. by rewrite target_ltb_irrefl in E'.
Qed.

Lemma props_erase_stores f t m : stores f m → stores (update t None f) (props_erase t m).
Proof.
  intros [Hs Hf]. split.
  - clear Hf. induction m as [|[u q] m IH]; simpl; [done|].
    pose proof (key_lt_all _ _ Hs) as [Hu Hm]. destruct (same_key t u); [done|].
    apply (sorted_cons (u, q) m); [done| |by apply IH].
    intros [a b] H%props_erase_in. eauto.
  - intros x. unfold update. rewrite <- Hf. clear Hf f.
    induction m as [|[u q] m IH]; simpl; [by case_decide|].
    pose proof (key_lt_all _ _ Hs) as [Hu Hm].
    rewrite (same_key_eq t u). case_bool_decide; simpl.
    + subst. rewrite same_key_eq. case_decide; [subst; by apply (props_find_own u q)|].
      by case_bool_decide.
    + rewrite IH by done. rewrite same_key_eq. case_bool_decide; case_decide; congruence.
Qed.

Lemma props_store_stores f t p m :
  stores f m → f t ≠ None → stores (update t (Some p) f) (props_store t p m).
Proof.
  intros [Hs Hf] Ht. rewrite <- Hf in Ht. split.
  - clear Hf Ht. induction m as [|[u q] m IH]; simpl; [done|].
    pose proof (key_lt_all _ _ Hs) as [Hu Hm]. destruct (same_key t u); [by constructor|].
    apply (sorted_cons (u, q) m); [done| |by apply IH]. intros y. apply props_store_key.
  - intros x. unfold update. rewrite <- Hf. clear Hf f.
    induction m as [|[u q] m IH]; simpl; [done|].
    pose proof (key_lt_all _ _ Hs) as [Hu Hm]. simpl in Ht.
    rewrite same_key_eq in Ht |- *. case_bool_decide; simpl; rewrite !same_key_eq.
    + repeat case_bool_decide; case_decide; congruence.
    + rewrite IH by done. repeat case_bool_decide; case_decide; congruence.
Qed.

(** [properties_of] on the two sides. *)
Lemma properties_of_spec f t s w :
  stores f (_storage s) →
  (∃ p s' w', properties_of t s w = Ok (p, s', w') ∧
     spec_properties_of (_new s) t f w = Ok (p, w') ∧ _new s' = _new s ∧
     stores (update t (Some p) f) (_storage s')) ∨
  (∃ e, properties_of t s w = Fail e ∧ spec_properties_of (_new s) t f w = Fail e).
Proof.
  intros Hs. pose proof Hs as [_ Hf].
  unfold properties_of, spec_properties_of. rewrite (Hf t).
  destruct (f t) as [p|] eqn:Ht.
  - left. exists p, s, w. split_and!; try done. destruct Hs as [Hs _]. split; [done|].
    intros u. unfold update. rewrite Hf. case_decide; congruence.
  - destruct (_new s) as [g|] eqn:Hg; simpl; [|right; eauto].
    destruct (g w) as [[p w']|e]; simpl; [left|right; eauto].
    eexists p, _, w'. split_and!; [done..|]. simpl. by apply props_insert_stores.
Qed.

Lemma update_twice t (o o' : option P) f u : update t o (update t o' f) u = update t o f u.
Proof. unfold update. by case_decide. Qed.

Lemma stores_ext f g m : (∀ t, f t = g t) → stores f m → stores g m.
Proof. intros H [? Hf]. split; [done|]. intros t. by rewrite Hf. Qed.

Lemma run_storage_spec os f s w :
  stores f (_storage s) → run_storage os s w = spec_storage (_new s) os f w.
Proof.
  revert f s w; induction os as [|[t|t p|t] os IH]; intros f s w Hs; [done|..]; simpl.
  - destruct (properties_of_spec f t s w Hs) as [(p & s' & w' & -> & -> & Hn & Hs')|(e & -> & ->)];
      [|done]. simpl. rewrite (IH _ s' w' Hs'). by rewrite Hn.
  - unfold store_property.
    destruct (properties_of_spec f t s w Hs) as [(q & s' & w' & -> & -> & Hn & Hs')|(e & -> & ->)];
      [|done]. simpl. rewrite <- Hn. apply (IH _ (mkStorage _ (_new s'))). simpl.
    eapply stores_ext; [|apply props_store_stores; [exact Hs'|]].
    { intros u. apply update_twice. }
    unfold update. by case_decide.
  - replace (_new s) with (_new (remove t s)) by (unfold remove; by case_match).
    apply IH. unfold remove. pose proof Hs as [_ Hf]. rewrite Hf.
    destruct (f t) eqn:Ht; [by apply props_erase_stores|].
    eapply stores_ext; [|exact Hs]. intros u. unfold update. case_decide; congruence.
Qed.

(** C31. Any sequence of [properties_of], of writes through the reference it
    returns and of [remove], on a new storage, reads the same properties, calls
    the function that creates them at the same points and fails at the same
    points as on a partial function from targets: a property is created once,
    kept until it is written or removed, and never seen by another target. *)
Theorem properties_storage_refines new os w :
  run_storage os (Lvl4PropertiesStorage_ctor new) w = spec_storage new os (λ _, None) w.
Proof. apply (run_storage_spec os _ (Lvl4PropertiesStorage_ctor new)). split; [constructor|done]. Qed.

End Storage.
Arguments Lvl4PropertiesStorage {L} P W.
Arguments Get {L P} t.
Arguments Put {L P} t p.
Arguments Remove {L P} t.
