(* ===== verification/TargetSet.v ===== *)
(** * Sets of targets: src/src/include/ns/target_set.h and
      src/src/target_set.cpp

    [TargetSet] is the interface the engine uses. The sets of the header are
    [SimpleTargetSet] (a [std::set] and an iterator into it),
    [RepeatableTargetSet] and [ReinjectableTargetSet] (built on another set);
    [IPV4TargetSet] is in IPV4Set.v. The bytes a set saves and restores go
    through [Files], the file system.

    Main results: what the iterator of a [SimpleTargetSet] still has to give,
    and what [add_target] and [remove_target] do to it; the order in which
    [RepeatableTargetSet] and [ReinjectableTargetSet] give their targets. *)

From S2P Require Import Prelude Leeloo Target HostSM.

(** What [next_target] does: return a target, [Target::end()] included, or
    throw [NextTargetWouldBlock]. *)
Inductive next {L : Leeloo} := NextTarget (t : Target) | NextTargetWouldBlock.

(** The virtual functions of [ns::TargetSet], the state of the set being part
    of [W]. A file name is its bytes. *)
Class TargetSet {L : Leeloo} {C : Closures} (W : Type) := {
  ts_init : W → result W;
  ts_next_target : W → result (next * W);
  ts_target_finished : Target → HostSM → W → result (bool * HostSM * W);
  ts_init_host_sm : Target → HostSM → W → result (HostSM * W);
  ts_save_state : list Z → W → result W;
  ts_restore_state : list Z → W → result W;
}.

(** The targets a set gives on [n] calls in a row, up to the first that
    blocks. *)
Fixpoint next_targets `{TargetSet W} (n : nat) (w : W) : result (list Target * W) :=
  match n with
  | O => Ok ([], w)
  | S n =>
      '(r, w) ← ts_next_target w;
      match r with
      | NextTarget t => '(ts, w) ← next_targets n w; Ok (t :: ts, w)
      | NextTargetWouldBlock => Ok ([], w)
      end
  end.

(** ** Files *)

(** A [std::ostream] or [std::istream] by its bytes; [None] is a stream that
    could not be opened. *)
Abbreviation stream := (option (list Z)).

(** The files of a file system: [std::ofstream] empties the file it opens and
    its bytes are there once it is closed. *)
Class Files (F : Type) := {
  open_out : list Z → F → stream * F;
  close_out : list Z → stream → F → F;
  open_in : list Z → F → stream;
}.

Section Files.
Context {S F : Type} {FS : Files F}.

(** [TargetSet::save_state(const char *file)] and [restore_state], what a set does
    with a stream being given. *)
Definition TargetSet_save_state (save : stream → S → result stream) (file : list Z)
    (w : S * F) : result (S * F) :=
  let '(s, fs) := w in
  let '(os, fs) := open_out file fs in
  os ← save os s;
  Ok (s, close_out file os fs).

Definition TargetSet_restore_state (restore : stream → S → result S) (file : list Z)
    (w : S * F) : result (S * F) :=
  let '(s, fs) := w in
  s ← restore (open_in file fs) s;
  Ok (s, fs).

End Files.

(** ** SimpleTargetSet *)

Section Simple.
Context {L : Leeloo}.

(** An iterator into the set: never initialised, on an element, or [end()]. *)
Inductive iterator := ItSingular | ItAt (t : Target) | ItEnd.

(** [std::set<Target>]: its elements in the order of [operator<]. *)
Definition target_storage_type : Type := list Target.

Fixpoint set_insert (t : Target) (l : target_storage_type) : target_storage_type :=
  match l with
  | [] => [t]
  | u :: l' =>
      if target_ltb t u then t :: l
      else if target_ltb u t then u :: set_insert t l' else l
  end.

Definition set_mem (t : Target) (l : target_storage_type) : bool :=
  existsb (λ u, negb (target_ltb t u) && negb (target_ltb u t)) l.

Definition set_erase (t : Target) (l : target_storage_type) : target_storage_type :=
  filter (λ u, (target_ltb t u || target_ltb u t) = true) l.

Definition set_begin (l : target_storage_type) : iterator :=
  match l with [] => ItEnd | t :: _ => ItAt t end.

(** [++it] from the element [t]. *)
Definition set_succ (t : Target) (l : target_storage_type) : iterator :=
  set_begin (filter (λ u, target_ltb t u = true) l).

Record SimpleTargetSet := mkSimple { _targets : target_storage_type; _it : iterator }.

Definition SimpleTargetSet_ctor : SimpleTargetSet := mkSimple [] ItSingular.

(** [_it == _targets.end()]; a default-constructed iterator is taken to differ
    from [end()], as it does in the standard library the code is built with. *)
Definition it_is_end (s : SimpleTargetSet) : bool :=
  match _it s with ItEnd => true | _ => false end.

Definition add_target (t : Target) (s : SimpleTargetSet) : SimpleTargetSet :=
  mkSimple (set_insert t (_targets s)) (if it_is_end s then ItAt t else _it s).

Definition remove_target (t : Target) (s : SimpleTargetSet) : SimpleTargetSet :=
  if negb (set_mem t (_targets s)) then s else
  mkSimple (set_erase t (_targets s))
    (match _it s with
     | ItAt u => if target_eqb u t then set_succ u (_targets s) else ItAt u
     | it => it
     end).

Definition simple_init (s : SimpleTargetSet) : SimpleTargetSet :=
  mkSimple (_targets s) (set_begin (_targets s)).

(** Reading through a singular iterator is undefined behaviour. *)
Definition simple_next_target (s : SimpleTargetSet) : result (next * SimpleTargetSet) :=
  match _it s with
  | ItEnd => Ok (NextTarget Target_end, s)
  | ItAt t => Ok (NextTarget t, mkSimple (_targets s) (set_succ t (_targets s)))
  | ItSingular => Fail UB
  end.

(** Nothing is written to the stream and nothing is read from it. *)
Definition simple_save (os : stream) (s : SimpleTargetSet) : result stream := Ok os.
Definition simple_restore (is_ : stream) (s : SimpleTargetSet) : result SimpleTargetSet := Ok s.

#[export] Instance simple_target_set {C : Closures} {F : Type} {FS : Files F} :
    TargetSet (SimpleTargetSet * F) := {|
  ts_init := λ '(s, fs), Ok (simple_init s, fs);
  ts_next_target := λ '(s, fs), '(r, s) ← simple_next_target s; Ok (r, (s, fs));
  ts_target_finished := λ _ hsm s, Ok (true, hsm, s);
  ts_init_host_sm := λ _ hsm s, Ok (hsm, s);
  ts_save_state := TargetSet_save_state simple_save;
  ts_restore_state := TargetSet_restore_state simple_restore;
|}.

End Simple.

(** ** Sets built on another one *)

Section Derived.
Context {L : Leeloo} {C : Closures} {W : Type} (T : TargetSet W).

Definition target_is_end (r : next) : bool :=
  match r with NextTarget t => is_end t | NextTargetWouldBlock => false end.

(** [RepeatableTargetSet<T>::next_target] *)
Definition repeatable_next_target (w : W) : result (next * W) :=
  '(ret, w) ← ts_next_target w;
  if target_is_end ret then
    w ← ts_init w;
    ts_next_target w
  else Ok (ret, w).

Definition RepeatableTargetSet : TargetSet W := {|
  ts_init := ts_init;
  ts_next_target := repeatable_next_target;
  ts_target_finished := ts_target_finished;
  ts_init_host_sm := ts_init_host_sm;
  ts_save_state := ts_save_state;
  ts_restore_state := ts_restore_state;
|}.

(** [ReinjectableTargetSet<T>]: the queue of added targets in front. *)
Definition emplace_target (t : Target) (w : list Target * W) : list Target * W :=
  (w.1 ++ [t], w.2).
Definition reinject_target (t : Target) (w : list Target * W) : list Target * W :=
  (w.1 ++ [t], w.2).

Definition reinjectable_next_target (w : list Target * W) :
    result (next * (list Target * W)) :=
  match w.1 with
  | t :: q => Ok (NextTarget t, (q, w.2))
  | [] => '(ret, w') ← ts_next_target w.2; Ok (ret, ([], w'))
  end.

Definition ReinjectableTargetSet : TargetSet (list Target * W) := {|
  ts_init := λ '(q, w), w ← ts_init w; Ok (q, w);
  ts_next_target := reinjectable_next_target;
  ts_target_finished := λ t hsm '(q, w),
    '(b, hsm, w) ← ts_target_finished t hsm w; Ok (b, hsm, (q, w));
  ts_init_host_sm := λ t hsm '(q, w), '(hsm, w) ← ts_init_host_sm t hsm w; Ok (hsm, (q, w));
  ts_save_state := λ f '(q, w), w ← ts_save_state f w; Ok (q, w);
  ts_restore_state := λ f '(q, w), w ← ts_restore_state f w; Ok (q, w);
|}.

End Derived.

(** ** What a SimpleTargetSet still has to give *)

Section SimpleTheorems.
Context {L : Leeloo} {LL : LeelooLaws L}.

Definition target_lt (t u : Target) : Prop := target_ltb t u = true.

#[export] Instance target_lt_dec t u : Decision (target_lt t u).
Proof. unfold target_lt. apply _. Defined.

#[export] Instance target_lt_strict : StrictOrder target_lt.
Proof.
  split; [intros t Ht; unfold target_lt in Ht; by rewrite target_ltb_irrefl in Ht|].
  intros t u v. apply target_ltb_trans.
Qed.

Abbreviation sorted := (StronglySorted target_lt).

Lemma target_lt_cases t u : target_lt t u ∨ t = u ∨ target_lt u t.
Proof.
  unfold target_lt. destruct (target_ltb t u) eqn:E; [by left|].
  destruct (target_ltb u t) eqn:E'; [by do 2 right|]. right; left. by apply target_ltb_total.
Qed.

Lemma target_lt_irrefl t : ¬ target_lt t t.
Proof. unfold target_lt. by rewrite target_ltb_irrefl. Qed.

Lemma target_lt_ne t u : target_lt t u → t ≠ u.
Proof. intros H ->. by apply target_lt_irrefl in H. Qed.

Lemma target_lt_asym t u : target_lt t u → ¬ target_lt u t.
Proof. intros H H'. by apply (target_lt_irrefl t), (transitivity H). Qed.

Lemma sorted_cons_inv t l : sorted (t :: l) → sorted l ∧ ∀ u, u ∈ l → target_lt t u.
Proof. intros [Hl Ht]%StronglySorted_inv. split; [done|]. by apply Forall_forall. Qed.

(** A strictly sorted list is known by its elements. *)
Lemma sorted_ext l1 l2 : sorted l1 → sorted l2 → (∀ x, x ∈ l1 ↔ x ∈ l2) → l1 = l2.
Proof.
  revert l2; induction l1 as [|a l1 IH]; intros [|b l2] H1 H2 Heq; [done| | |].
  - exfalso. pose proof (proj2 (Heq b)). set_solver.
  - exfalso. pose proof (proj1 (Heq a)). set_solver.
  - apply sorted_cons_inv in H1 as [H1 Ha], H2 as [H2 Hb].
    assert (a = b) as ->.
    { pose proof (proj1 (Heq a) (list_elem_of_here _ _)) as Hab.
      pose proof (proj2 (Heq b) (list_elem_of_here _ _)) as Hba.
      apply elem_of_cons in Hab as [|Hab]; [done|].
      apply elem_of_cons in Hba as [|Hba]; [done|].
      exfalso. by apply (target_lt_asym a b); [apply Ha|apply Hb]. }
    f_equal. apply IH; [done|done|]. intros x. specialize (Heq x).
    rewrite !elem_of_cons in Heq. split; intros Hx.
    + destruct (proj1 Heq) as [->|?]; [by right| |done].
      by apply Ha, target_lt_irrefl in Hx.
    + destruct (proj2 Heq) as [->|?]; [by right| |done].
      by apply Hb, target_lt_irrefl in Hx.
Qed.

Lemma sorted_filter P `{!∀ x, Decision (P x)} l : sorted l → sorted (filter P l).
Proof.
  induction l as [|t l IH]; [done|]. intros [Hl Ht]%sorted_cons_inv.
  rewrite filter_cons. case_decide; [|by apply IH]. constructor; [by apply IH|].
  apply Forall_forall. intros u [_ Hu]%list_elem_of_filter. by apply Ht.
Qed.

Lemma filter_all {A} (P : A → Prop) `{!∀ x, Decision (P x)} (l : list A) :
  (∀ x, x ∈ l → P x) → filter P l = l.
Proof.
  induction l as [|a l IH]; intros Hall; [done|].
  rewrite filter_cons_True by (apply Hall; set_solver). f_equal. apply IH. set_solver.
Qed.

Lemma elem_of_set_insert t l x : x ∈ set_insert t l ↔ x = t ∨ x ∈ l.
Proof.
  induction l as [|u l IH]; simpl; [set_solver|].
  destruct (target_ltb t u) eqn:E; [set_solver|].
  destruct (target_ltb u t) eqn:E'; [set_solver|].
  assert (t = u) as -> by (by apply target_ltb_total). set_solver.
Qed.

Lemma set_insert_sorted t l : sorted l → sorted (set_insert t l).
Proof.
  induction l as [|u l IH]; intros Hs; simpl.
  { constructor; [constructor|done]. }
  pose proof (sorted_cons_inv _ _ Hs) as [Hl Hu].
  destruct (target_ltb t u) eqn:E.
  - constructor; [done|]. apply Forall_forall. intros x [->|Hx]%elem_of_cons; [done|].
    etrans; [exact E|by apply Hu].
  - destruct (target_ltb u t) eqn:E'; [|done].
    constructor; [by apply IH|]. apply Forall_forall.
    intros x [->|Hx]%elem_of_set_insert; [done|by apply Hu].
Qed.

Lemma elem_of_set_erase t l x : x ∈ set_erase t l ↔ x ∈ l ∧ x ≠ t.
Proof.
  unfold set_erase. rewrite list_elem_of_filter, orb_true_iff. split; intros [H1 H2].
  - split; [done|]. by destruct H1 as [?%target_lt_ne|?%target_lt_ne].
  - split; [|done]. destruct (target_lt_cases t x) as [|[|]]; [by left|congruence|by right].
Qed.

Lemma set_mem_spec t l : set_mem t l = true ↔ t ∈ l.
Proof.
  unfold set_mem. rewrite existsb_exists. setoid_rewrite andb_true_iff.
  setoid_rewrite negb_true_iff. setoid_rewrite <- list_elem_of_In. split.
  - intros (u & Hu & H1 & H2). by rewrite (target_ltb_total t u).
  - intros Ht. exists t. by rewrite target_ltb_irrefl.
Qed.

(** The targets still to be given: those from the iterator on. *)
Definition remaining (s : SimpleTargetSet) : list Target :=
  match _it s with
  | ItAt c => c :: filter (target_lt c) (_targets s)
  | _ => []
  end.

Record simple_wf (s : SimpleTargetSet) : Prop := {
  swf_sorted : sorted (_targets s);
  swf_it : match _it s with ItSingular => False | ItAt c => c ∈ _targets s | ItEnd => True end;
}.

(** An iterator to the first element of a final part [f] of the set. *)
Lemma remaining_begin l f :
  sorted l → sorted f → (∀ x, x ∈ f → x ∈ l) →
  (∀ x y, x ∈ f → y ∈ l → target_lt x y → y ∈ f) →
  simple_wf (mkSimple l (set_begin f)) ∧ remaining (mkSimple l (set_begin f)) = f.
Proof.
  intros Hl Hf Hin Hup. destruct f as [|d f]; simpl.
  { split; [|done]. by split. }
  split; [split; simpl; [done|apply Hin; set_solver]|].
  unfold remaining; simpl. f_equal.
  apply sorted_cons_inv in Hf as [Hf Hd].
  apply sorted_ext; [by apply sorted_filter|done|].
  intros x. rewrite list_elem_of_filter. split.
  - intros [Hx Hxl]. assert (Hxf : x ∈ d :: f) by (apply (Hup d); [set_solver|done|done]).
    apply elem_of_cons in Hxf as [->|]; [by apply target_lt_irrefl in Hx|done].
  - intros Hx. split; [by apply Hd|]. apply Hin. set_solver.
Qed.

Lemma simple_init_spec s :
  sorted (_targets s) → simple_wf (simple_init s) ∧ remaining (simple_init s) = _targets s.
Proof. intros Hs. apply remaining_begin; auto. Qed.

Lemma simple_next_spec s :
  simple_wf s →
  match remaining s with
  | [] => simple_next_target s = Ok (NextTarget Target_end, s)
  | t :: q => ∃ s', simple_next_target s = Ok (NextTarget t, s') ∧ simple_wf s' ∧
                    _targets s' = _targets s ∧ remaining s' = q
  end.
Proof.
  intros [Hs Hit]. unfold remaining, simple_next_target.
  destruct (_it s) as [|c|]; [done| |done].
  destruct (remaining_begin (_targets s) (filter (target_lt c) (_targets s))) as [Hwf Hr];
    [done|by apply sorted_filter|by intros x [_ ?]%list_elem_of_filter| |].
  { intros x y [Hx _]%list_elem_of_filter Hy Hxy. apply list_elem_of_filter.
    split; [|done]. by etrans. }
  eexists. split; [done|]. split; [exact Hwf|]. split; [done|exact Hr].
Qed.

Lemma simple_add_spec t s :
  simple_wf s →
  simple_wf (add_target t s) ∧
  remaining (add_target t s) =
    match _it s with
    | ItAt c => if bool_decide (target_lt c t) then set_insert t (remaining s) else remaining s
    | _ => t :: filter (target_lt t) (_targets s)
    end.
Proof.
  intros [Hs Hit]. pose proof (set_insert_sorted t _ Hs) as Hs'.
  unfold remaining, add_target, it_is_end.
  destruct (_it s) as [|c|] eqn:E; [done| |]; simpl.
  - split; [split; simpl; [done|apply elem_of_set_insert; by right]|].
    case_bool_decide as Hct.
    + pose proof (target_lt_asym _ _ Hct) as Htc. unfold target_lt in Htc, Hct.
      destruct (target_ltb t c); [done|]. rewrite Hct. f_equal.
      apply sorted_ext; [by apply sorted_filter|by apply set_insert_sorted, sorted_filter|].
      intros x. rewrite elem_of_set_insert, !list_elem_of_filter, elem_of_set_insert.
      unfold target_lt. naive_solver.
    + f_equal. apply sorted_ext; [by apply sorted_filter|by apply sorted_filter|].
      intros x. rewrite !list_elem_of_filter, elem_of_set_insert. naive_solver.
  - split; [split; simpl; [done|apply elem_of_set_insert; by left]|].
    f_equal. apply sorted_ext; [by apply sorted_filter|by apply sorted_filter|].
    intros x. rewrite !list_elem_of_filter, elem_of_set_insert.
    split; [|naive_solver]. intros [Hx [->|]]; [by apply target_lt_irrefl in Hx|done].
Qed.

Lemma simple_remove_spec t s :
  simple_wf s →
  simple_wf (remove_target t s) ∧
  remaining (remove_target t s) = filter (λ u, u ≠ t) (remaining s).
Proof.
  intros [Hs Hit]. unfold remove_target.
  destruct (set_mem t (_targets s)) eqn:Hm; simpl.
  2:{ split; [done|]. symmetry. unfold remaining.
      assert (Hn : t ∉ _targets s) by (rewrite <- set_mem_spec, Hm; done).
      destruct (_it s) as [|c|]; [done| |done].
      rewrite filter_all; [done|].
      intros x Hx ->. apply Hn.
      by apply elem_of_cons in Hx as [->|[_ ?]%list_elem_of_filter]. }
  assert (Hse : sorted (set_erase t (_targets s))) by (by apply sorted_filter).
  unfold remaining at 2. destruct (_it s) as [|c|]; [done| |].
  - destruct (target_eqb c t) eqn:Hct.
    + apply target_eqb_eq in Hct as ->.
      destruct (remaining_begin (set_erase t (_targets s))
                  (filter (target_lt t) (_targets s))) as [Hwf Hr].
      * done.
      * by apply sorted_filter.
      * intros x [Hx ?]%list_elem_of_filter. apply elem_of_set_erase.
        split; [done|]. by apply not_eq_sym, target_lt_ne.
      * intros x y [Hx _]%list_elem_of_filter [Hy _]%elem_of_set_erase Hxy.
        apply list_elem_of_filter. split; [by etrans|done].
      * split; [exact Hwf|]. unfold set_succ.
        etrans; [exact Hr|].
        rewrite filter_cons_False by (intros []; done). rewrite filter_all; [done|].
        intros x [Hx _]%list_elem_of_filter. by apply not_eq_sym, target_lt_ne.
    + assert (c ≠ t) by (intros ->; rewrite (proj2 (target_eqb_eq t t)) in Hct; done).
      split; [split; simpl; [done|by apply elem_of_set_erase]|].
      unfold remaining; simpl. rewrite filter_cons_True by done. f_equal.
      apply sorted_ext; [by apply sorted_filter|by do 2 apply sorted_filter|].
      intros x. rewrite !list_elem_of_filter, elem_of_set_erase. naive_solver.
  - by split.
Qed.

(** C22. A [SimpleTargetSet] whose iterator was initialised behaves like a
    queue. [init] fills it with the set
    in increasing order; [next_target] gives its head, and the end once it is
    empty; [remove_target] takes the target out of it. [add_target] puts a
    target in its place of the queue only when it is above the one to be
    given next: a smaller one is never given, and once the end is reached
    the queue is filled again with the new target and {e all} the greater ones,
    given already or not. *)
Theorem simple_target_set_queue s t :
  simple_wf s →
  (simple_wf (simple_init s) ∧ remaining (simple_init s) = _targets s) ∧
  match remaining s with
  | [] => simple_next_target s = Ok (NextTarget Target_end, s)
  | t :: q => ∃ s', simple_next_target s = Ok (NextTarget t, s') ∧ simple_wf s' ∧
                    _targets s' = _targets s ∧ remaining s' = q
  end ∧
  (simple_wf (add_target t s) ∧
   remaining (add_target t s) =
     match remaining s with
     | c :: _ => if bool_decide (target_lt c t) then set_insert t (remaining s) else remaining s
     | [] => t :: filter (target_lt t) (_targets s)
     end) ∧
  (simple_wf (remove_target t s) ∧
   remaining (remove_target t s) = filter (λ u, u ≠ t) (remaining s)).
Proof.
  intros Hwf. split_and!; try by apply simple_init_spec, swf_sorted.
  - by apply simple_next_spec.
  - by apply simple_add_spec.
  - destruct (simple_add_spec t s Hwf) as [_ ->]. unfold remaining. pose proof (swf_it s Hwf).
    by destruct (_it s).
  - by apply simple_remove_spec.
  - by apply simple_remove_spec.
Qed.

End SimpleTheorems.

(** ** Sets built on another one *)

Section DerivedTheorems.
Context {L : Leeloo} {C : Closures}.

Lemma length_cycle {A} n (l : list A) : l ≠ [] → (n ≤ length (mjoin (replicate n l)))%nat.
Proof.
  intros Hl. induction n as [|n IH]; simpl; [lia|]. rewrite length_app.
  destruct l; [done|]. simpl. lia.
Qed.

Lemma take_cycle {A} n (q l : list A) :
  l ≠ [] → take n (q ++ mjoin (replicate (S n) l)) = take n (q ++ mjoin (replicate n l)).
Proof.
  intros Hl. rewrite replicate_S_end, join_app. simpl. rewrite app_nil_r, app_assoc.
  rewrite take_app_le; [done|]. rewrite length_app. pose proof (length_cycle n l Hl). lia.
Qed.

(** A [RepeatableTargetSet] over a [SimpleTargetSet] goes through what is
    left of the set and then through the whole set again and again, in
    increasing order, without ever giving the end; the set must have an element
    and not contain the end marker itself. *)
Theorem repeatable_cycles {LL : LeelooLaws L} {F} {FS : Files F} n s (fs : F) :
  simple_wf s → _targets s ≠ [] → Forall (λ t, is_end t = false) (_targets s) →
  ∃ s', next_targets (H := RepeatableTargetSet simple_target_set) n (s, fs) =
          Ok (take n (remaining s ++ mjoin (replicate n (_targets s))), (s', fs)).
Proof.
  intros Hwf Hne Hend. revert s Hwf Hne Hend. induction n as [|n IH]; intros s Hwf Hne Hend.
  { by exists s. }
  assert (Hin : ∀ t, t ∈ remaining s → is_end t = false).
  { intros t Ht. rewrite Forall_forall in Hend. apply Hend. unfold remaining in Ht.
    pose proof (swf_it s Hwf). destruct (_it s) as [|c|]; [done| |by apply elem_of_nil in Ht].
    by apply elem_of_cons in Ht as [->|[_ ?]%list_elem_of_filter]. }
  cbn [next_targets ts_next_target RepeatableTargetSet]. unfold repeatable_next_target.
  pose proof (simple_next_spec s Hwf) as Hnext.
  destruct (remaining s) as [|t q] eqn:Hr.
  - cbn [ts_next_target simple_target_set]. rewrite Hnext. simpl. rewrite is_end_Target_end. simpl.
    destruct (simple_init_spec s (swf_sorted s Hwf)) as [Hwf' Hr'].
    pose proof (simple_next_spec _ Hwf') as Hnext'. rewrite Hr' in Hnext'.
    destruct (_targets s) as [|t q] eqn:Ht; [done|].
    destruct Hnext' as (s' & -> & Hwf'' & Hts & Hr''). simpl.
    assert (Hts' : _targets s' = t :: q) by (rewrite Hts; simpl; done).
    destruct (IH s' Hwf'') as [s'' Hrun]; [by rewrite Hts'|by rewrite Hts'|].
    rewrite Hrun. exists s''. by rewrite Hr'', Hts'.
  - destruct Hnext as (s' & Hn & Hwf' & Hts & Hr').
    cbn [ts_next_target simple_target_set]. rewrite Hn. simpl. rewrite Hin by set_solver. simpl.
    destruct (IH s' Hwf') as [s'' Hrun]; [by rewrite Hts|by rewrite Hts|].
    rewrite Hrun. exists s''. cbn [mbind result_bind].
    rewrite Hr', Hts. cbn [app firstn]. do 3 f_equal.
    symmetry. by apply (take_cycle n q).
Qed.

(** A [ReinjectableTargetSet] gives the targets added to it first, in the
    order in which they were added, and then those of the set under it. *)
Theorem reinjectable_queue_first {W} (T : TargetSet W) n q w :
  next_targets (H := ReinjectableTargetSet T) (length q + n) (q, w) =
    '(ts, w) ← next_targets (H := T) n w; Ok (q ++ ts, ([], w)).
Proof.
  revert w. induction q as [|t q IH]; intros w.
  - simpl. revert w. induction n as [|n IH]; intros w; [done|]. simpl.
    unfold reinjectable_next_target. simpl.
    destruct (ts_next_target w) as [[[t|] w']|e]; [|done|done]. simpl. rewrite IH.
    by destruct (next_targets n w') as [[]|].
  - simpl. rewrite IH. by destruct (next_targets n w) as [[]|].
Qed.

End DerivedTheorems.

