(* ===== verification/IPV4Set.v ===== *)
(** * Addresses and ports in random order: IPV4TargetSet, in
      src/src/include/ns/target_set.h and src/src/target_set.cpp

    [IPV4TargetSet] goes through a list of addresses and, for each of them,
    through a list of ports, in the orders drawn by leeloo's random iterators,
    and writes its state to archives it can be restored from. leeloo's lists
    and iterators and boost's archives are parameters ([LeelooRandom],
    [Archives]).

    Main results: the set gives every pair of an address and a port exactly
    once and then the end ([ipv4_enumerates]); [target_finished] is [true]
    exactly at the last port of a host ([target_finished_last_port]); a set
    restored from a file at the address where it was saved goes on as the saved
    one ([ipv4_restored_gives]); restored at another address, it leaves ports of
    that one out ([ipv4_restored_forgets]). *)

From S2P Require Import Prelude Leeloo Target HostSM TargetSet.

(** ** The set *)

(** leeloo's lists of addresses and its random iterators:
    [list_intervals_random_promise] on addresses, which also records the steps
    that are done, and [list_intervals_random] on ports; [random_state] is the
    state of the two global generators. *)
Class LeelooRandom {L : Leeloo} := {
  ip_list : Type;
  il_aggregate : ip_list → ip_list;
  il_create_index_cache : Z → ip_list → ip_list;
  pl_create_index_cache : Z → port_list → port_list;
  random_state : Type;
  v4_random : Type;
  v4_init : ip_list → random_state → v4_random * random_state;
  v4_next : v4_random → v4_random;
  v4_end : v4_random → bool;
  v4_get_current : ip_list → v4_random → Z;
  v4_get_current_step : v4_random → Z;
  v4_step_done : Z → v4_random → v4_random;
  port_random : Type;
  rp_init : port_list → random_state → port_random * random_state;
  rp_end : port_random → bool;
  rp_call : port_list → port_random → Z * port_random;      (* operator() *)
  rp_size_original : port_random → Z;
}.

(** boost's XML archives, on a stream, and what leeloo's classes write to them
    and read from them; reading from a broken archive throws. [get_ips] reads
    into a list that exists. *)
Class Archives {L : Leeloo} (R : LeelooRandom) := {
  oarchive : Type;
  iarchive : Type;
  xml_oarchive : stream → result oarchive;
  oarchive_end : oarchive → stream;           (* its destructor *)
  put_ips : ip_list → oarchive → oarchive;
  put_ports : port_list → oarchive → oarchive;
  v4_save_state : v4_random → oarchive → oarchive;
  rp_save_state : port_random → oarchive → oarchive;
  xml_iarchive : stream → result iarchive;
  get_ips : iarchive → ip_list → result (ip_list * iarchive);
  get_ports : iarchive → port_list → result (port_list * iarchive);
  v4_restore_state : iarchive → ip_list → random_state → v4_random →
                     result (v4_random * iarchive * random_state);
  rp_restore_state : iarchive → port_list → random_state → port_random →
                     result (port_random * iarchive * random_state);
}.

Section IPV4.
Context {L : Leeloo} {C : Closures} {R : LeelooRandom}.

Record IPV4TargetSet := mkIPV4 {
  _ipv4s : ip_list;
  _ports : port_list;
  _rand_v4 : v4_random;
  _rand_port : port_random;
  g_mt_rand : random_state;
}.

Definition ipv4_init (s : IPV4TargetSet) : IPV4TargetSet :=
  let ipv4s := il_aggregate (_ipv4s s) in
  let ports := pl_aggregate (_ports s) in
  let ipv4s := il_create_index_cache 256 ipv4s in
  let ports := pl_create_index_cache 16 ports in
  let '(v4, g) := v4_init ipv4s (g_mt_rand s) in
  let '(rp, g) := rp_init ports g in
  mkIPV4 ipv4s ports v4 rp g.

Definition ipv4_next_target (s : IPV4TargetSet) : Target * IPV4TargetSet :=
  let '(v4, rp, g) :=
    if rp_end (_rand_port s) then
      let v4 := v4_next (_rand_v4 s) in
      let '(rp, g) := rp_init (_ports s) (g_mt_rand s) in
      (v4, rp, g)
    else (_rand_v4 s, _rand_port s, g_mt_rand s) in
  if v4_end v4 then (Target_end, mkIPV4 (_ipv4s s) (_ports s) v4 rp g) else
  let ip := v4_get_current (_ipv4s s) v4 in
  let '(p, rp) := rp_call (_ports s) rp in
  (mkTarget ip (port_of_u32 p), mkIPV4 (_ipv4s s) (_ports s) v4 rp g).

Definition ports_count (s : IPV4TargetSet) : Z := u32 (rp_size_original (_rand_port s)).

Definition ipv4_target_finished (t : Target) (hsm : HostSM) (s : IPV4TargetSet) :
    result (bool * HostSM * IPV4TargetSet) :=
  let hsm := port_done (_port t) hsm in
  if ports_done_count hsm =? ports_count s then
    idx ← rand_idx_ip hsm;
    Ok (true, hsm, mkIPV4 (_ipv4s s) (_ports s) (v4_step_done idx (_rand_v4 s))
                     (_rand_port s) (g_mt_rand s))
  else Ok (false, hsm, s).

Definition ipv4_init_host_sm (hsm : HostSM) (s : IPV4TargetSet) : HostSM :=
  set_rand_idx_ip (v4_get_current_step (_rand_v4 s)) hsm.

Context {A : Archives R}.

(** The archive ends with the scope of [xmlo]. *)
Definition ipv4_save_state (os : stream) (s : IPV4TargetSet) : result stream :=
  xmlo ← xml_oarchive os;
  let xmlo := put_ips (_ipv4s s) xmlo in
  let xmlo := put_ports (_ports s) xmlo in
  let xmlo := v4_save_state (_rand_v4 s) xmlo in
  let xmlo := rp_save_state (_rand_port s) xmlo in
  Ok (oarchive_end xmlo).

Definition ipv4_restore_state (is_ : stream) (s : IPV4TargetSet) : result IPV4TargetSet :=
  xmli ← xml_iarchive is_;
  '(ipv4s, xmli) ← get_ips xmli (_ipv4s s);
  '(ports, xmli) ← get_ports xmli (_ports s);
  '(v4, xmli, g) ← v4_restore_state xmli ipv4s (g_mt_rand s) (_rand_v4 s);
  '(rp, xmli, g) ← rp_restore_state xmli ports g (_rand_port s);
  Ok (mkIPV4 (il_create_index_cache 256 ipv4s) (pl_create_index_cache 16 ports) v4 rp g).

Definition ipv4_target_set {F} {FS : Files F} : TargetSet (IPV4TargetSet * F) := {|
  ts_init := λ '(s, fs), Ok (ipv4_init s, fs);
  ts_next_target := λ '(s, fs), let '(t, s) := ipv4_next_target s in Ok (NextTarget t, (s, fs));
  ts_target_finished := λ t hsm '(s, fs),
    '(b, hsm, s) ← ipv4_target_finished t hsm s; Ok (b, hsm, (s, fs));
  ts_init_host_sm := λ _ hsm '(s, fs), Ok (ipv4_init_host_sm hsm s, (s, fs));
  ts_save_state := TargetSet_save_state ipv4_save_state;
  ts_restore_state := TargetSet_restore_state ipv4_restore_state;
|}.

End IPV4.

(** ** Every address and every port, once *)

(** What leeloo documents of the operations of [LeelooRandom]: the contents
    of the lists, and what the iterators have left to give on a list, which
    the index caches, equal lists and the steps marked as done do not change. *)
Class LeelooRandomLaws {L : Leeloo} (R : LeelooRandom) := {
  il_addrs : ip_list → list Z;
  pl_elems : port_list → list port;
  v4_left : ip_list → v4_random → list Z;
  rp_left : port_list → port_random → list Z;
  pl_elems_empty : pl_elems pl_empty = [];
  pl_elems_add p l : pl_elems (pl_add p l) ≡ₚ p :: pl_elems l;
  pl_elems_aggregate l : NoDup (pl_elems l) → pl_elems (pl_aggregate l) ≡ₚ pl_elems l;
  pl_size_elems l : pl_size l = zlen (pl_elems l);
  pl_elems_cache n l : pl_elems (pl_create_index_cache n l) = pl_elems l;
  il_addrs_aggregate l : NoDup (il_addrs l) → il_addrs (il_aggregate l) ≡ₚ il_addrs l;
  il_addrs_cache n l : il_addrs (il_create_index_cache n l) = il_addrs l;
  v4_left_ext l l' v : il_addrs l = il_addrs l' → v4_left l v = v4_left l' v;
  v4_init_left l g : v4_left l (v4_init l g).1 ≡ₚ il_addrs l;
  v4_end_left l v : v4_end v = true ↔ v4_left l v = [];
  v4_next_left l v : v4_left l (v4_next v) = tail (v4_left l v);
  v4_get_current_left l v a q : v4_left l v = a :: q → v4_get_current l v = a;
  v4_step_done_left l n v : v4_left l (v4_step_done n v) = v4_left l v;
  rp_left_ext l l' r : pl_elems l = pl_elems l' → rp_left l r = rp_left l' r;
  rp_init_left l g : port_of_u32 <$> rp_left l (rp_init l g).1 ≡ₚ pl_elems l;
  rp_end_left l r : rp_end r = true ↔ rp_left l r = [];
  rp_call_left l r p q :
    rp_left l r = p :: q → (rp_call l r).1 = p ∧ rp_left l (rp_call l r).2 = q;
  rp_size_original_init l g : rp_size_original (rp_init l g).1 = zlen (pl_elems l);
  rp_size_original_call l r : rp_size_original (rp_call l r).2 = rp_size_original r;
}.

Section IPV4Theorems.
Context {L : Leeloo} {C : Closures} {R : LeelooRandom} {RL : LeelooRandomLaws R}.
Context {A : Archives R} {F : Type} {FS : Files F}.

(** What the iterators of [s] have left to give. *)
Abbreviation addrs_left s := (v4_left (_ipv4s s) (_rand_v4 s)).
Abbreviation ports_left s := (rp_left (_ports s) (_rand_port s)).

(** [s] gives [ts] and then the end, for ever. *)
Definition gives (s : IPV4TargetSet) (ts : list Target) : Prop := ∀ n (fs : F), ∃ s',
  next_targets (H := ipv4_target_set) n (s, fs) =
    Ok (take n ts ++ replicate (n - length ts) Target_end, (s', fs)).

Lemma gives_cons s t s' ts :
  ipv4_next_target s = (t, s') → gives s' ts → gives s (t :: ts).
Proof.
  intros Hn Hs [|n] fs; [by exists s|]. destruct (Hs n fs) as [s'' Hs''].
  exists s''. simpl. rewrite Hn. simpl. by rewrite Hs''.
Qed.

Lemma gives_same s s1 ts : ipv4_next_target s = ipv4_next_target s1 → gives s1 ts → gives s ts.
Proof.
  intros Hn H1 [|n] fs; [by exists s|]. destruct (H1 (S n) fs) as [s' Hs']. exists s'.
  cbn [next_targets ts_next_target ipv4_target_set] in Hs' |- *. by rewrite Hn.
Qed.

Lemma ipv4_next_end s :
  addrs_left s = [] →
  ∃ s', ipv4_next_target s = (Target_end, s') ∧ addrs_left s' = [].
Proof.
  intros Hs. unfold ipv4_next_target. destruct (rp_end (_rand_port s)).
  - destruct (rp_init _ _) as [rp g]. rewrite (proj2 (v4_end_left (_ipv4s s) _)); [eexists; split; [done|]; simpl|];
      by rewrite v4_next_left, Hs.
  - rewrite (proj2 (v4_end_left (_ipv4s s) _)) by done. by eexists.
Qed.

Lemma gives_nil s : addrs_left s = [] → gives s [].
Proof.
  intros Hs n fs. revert s Hs. induction n as [|n IH]; intros s Hs; [by exists s|]. simpl.
  destruct (ipv4_next_end s Hs) as (s1 & -> & Hs1). simpl.
  destruct (IH s1 Hs1) as [s' Hs']. rewrite Hs'. exists s'. simpl.
  by rewrite take_nil, Nat.sub_0_r.
Qed.

(** The pairs of an address and a port. *)
Definition targets_of (ips : list Z) (ports : list port) : list Target :=
  mjoin ((λ a, mkTarget a <$> ports) <$> ips).

#[local] Instance targets_of_proper :
  Proper ((≡ₚ) ==> (≡ₚ) ==> (≡ₚ)) targets_of.
Proof.
  intros l l' Hl ps ps' Hps. unfold targets_of. rewrite Hl.
  induction l' as [|x l' IH] in l, Hl |- *; simpl; [done|]. by rewrite Hps, (IH l').
Qed.

(** A call that finds a port left for the current address. *)
Lemma ipv4_next_port s a q p ps :
  addrs_left s = a :: q → ports_left s = p :: ps →
  ∃ s', ipv4_next_target s = (mkTarget a (port_of_u32 p), s') ∧ _ports s' = _ports s ∧
        _ipv4s s' = _ipv4s s ∧ addrs_left s' = a :: q ∧ ports_left s' = ps.
Proof.
  intros Hv Hp. unfold ipv4_next_target.
  destruct (rp_end (_rand_port s)) eqn:E; [by apply (rp_end_left (_ports s)) in E; congruence|].
  destruct (v4_end (_rand_v4 s)) eqn:E'; [by apply (v4_end_left (_ipv4s s)) in E'; congruence|].
  destruct (rp_call_left (_ports s) _ _ _ Hp) as [H1 H2].
  destruct (rp_call _ _) as [p' r]. simpl in *. subst p'.
  rewrite (v4_get_current_left _ _ _ _ Hv). eexists. split; [done|]. done.
Qed.

(** A call that finds none goes on to the next address with a new order of
    the ports. *)
Lemma ipv4_next_addr s a q :
  addrs_left s = a :: q → ports_left s = [] →
  ipv4_next_target s =
    ipv4_next_target (mkIPV4 (_ipv4s s) (_ports s) (v4_next (_rand_v4 s))
       (rp_init (_ports s) (g_mt_rand s)).1 (rp_init (_ports s) (g_mt_rand s)).2) ∨
  pl_elems (_ports s) = [].
Proof.
  intros Hv Hp. unfold ipv4_next_target. rewrite (proj2 (rp_end_left (_ports s) _) Hp). simpl.
  destruct (rp_init _ _) as [rp g] eqn:Hi. simpl.
  destruct (rp_end rp) eqn:E; [right|by left].
  apply (rp_end_left (_ports s)) in E. pose proof (rp_init_left (_ports s) (g_mt_rand s)) as Hperm.
  rewrite Hi in Hperm. simpl in Hperm. rewrite E in Hperm. by apply Permutation_nil_l in Hperm.
Qed.

(** The targets address by address, each with its ports in an order of its own. *)
Definition by_address (blocks : list (Z * list port)) : list Target :=
  mjoin ((λ b, mkTarget b.1 <$> b.2) <$> blocks).

(** Every address of the blocks has all the ports. *)
Definition all_ports (ports : list port) (blocks : list (Z * list port)) : Prop :=
  Forall (λ b, b.2 ≡ₚ ports) blocks.

Lemma by_address_targets ports blocks :
  all_ports ports blocks → by_address blocks ≡ₚ targets_of blocks.*1 ports.
Proof.
  unfold by_address, targets_of. induction 1 as [|[a ps] blocks Hps _ IH]; [done|]. simpl in *.
  by rewrite Hps, IH.
Qed.

(** What is left of the ports of the current address comes first, in its
    order; then come the other addresses in theirs, with all the ports. *)
Lemma ipv4_gives q a ps s :
  addrs_left s = a :: q → ports_left s = ps → pl_elems (_ports s) ≠ [] →
  ∃ blocks, gives s (by_address ((a, port_of_u32 <$> ps) :: blocks)) ∧
            blocks.*1 = q ∧ all_ports (pl_elems (_ports s)) blocks.
Proof.
  revert a ps s. induction q as [|b q IHq]; intros a ps s.
  - revert s. induction ps as [|p ps IHp]; intros s Hv Hp Hne.
    + exists []. split; [|split; [done|constructor]].
      destruct (ipv4_next_addr s a [] Hv Hp) as [Hn|]; [|done].
      set (s1 := mkIPV4 _ _ _ _ _) in Hn.
      assert (H1 : gives s1 []) by (apply gives_nil; simpl; by rewrite v4_next_left, Hv).
      by eapply gives_same.
    + destruct (ipv4_next_port s a [] p ps Hv Hp) as (s' & Hn & Hps & _ & Hv' & Hp').
      destruct (IHp s' Hv' Hp') as (blocks & Hg & Hts); [by rewrite Hps|].
      exists blocks. split; [by eapply (gives_cons s _ s' _ Hn)|]. by rewrite <- Hps.
  - revert s. induction ps as [|p ps IHp]; intros s Hv Hp Hne.
    + destruct (ipv4_next_addr s a (b :: q) Hv Hp) as [Hn|]; [|done].
      set (s1 := mkIPV4 _ _ _ _ _) in Hn.
      assert (Hv1 : addrs_left s1 = b :: q) by (simpl; by rewrite v4_next_left, Hv).
      destruct (IHq b _ s1 Hv1 eq_refl Hne) as (blocks & Hg & <- & Hall).
      exists ((b, port_of_u32 <$> ports_left s1) :: blocks).
      split; [by eapply gives_same|]. split; [done|]. constructor; [apply rp_init_left|exact Hall].
    + destruct (ipv4_next_port s a (b :: q) p ps Hv Hp) as (s' & Hn & Hps & _ & Hv' & Hp').
      destruct (IHp s' Hv' Hp') as (blocks & Hg & Hts); [by rewrite Hps|].
      exists blocks. split; [by eapply (gives_cons s _ s' _ Hn)|]. by rewrite <- Hps.
Qed.

Lemma NoDup_targets_of ips ports : NoDup ips → NoDup ports → NoDup (targets_of ips ports).
Proof.
  intros Hips Hports. unfold targets_of. induction Hips as [|a ips Ha _ IH]; simpl; [constructor|].
  apply NoDup_app. split_and!; [|intros t (p & -> & _)%list_elem_of_fmap|done].
  - apply NoDup_fmap_2; [|done]. by intros p q [= ->].
  - intros Hin. apply Ha. clear -Hin. induction ips as [|b ips IH]; simpl in *.
    + by apply elem_of_nil in Hin.
    + apply elem_of_app in Hin as [(q & [= -> _] & _)%list_elem_of_fmap|Hin]; [left|right; auto].
Qed.

Lemma elem_of_targets_of a p ips ports :
  a ∈ ips → p ∈ ports → mkTarget a p ∈ targets_of ips ports.
Proof.
  intros Ha Hp. unfold targets_of. induction ips as [|b ips IH]; simpl; [by apply elem_of_nil in Ha|].
  apply elem_of_app. apply elem_of_cons in Ha as [->|Ha]; [left|right; auto].
  by apply list_elem_of_fmap_2.
Qed.

Lemma length_targets_of ips ports :
  length (targets_of ips ports) = (length ips * length ports)%nat.
Proof.
  induction ips as [|a ips IH]; [done|].
  change (targets_of (a :: ips) ports) with ((mkTarget a <$> ports) ++ targets_of ips ports).
  by rewrite length_app, length_fmap, IH.
Qed.

(** What [init] leaves to be given. *)
Lemma ipv4_init_left s :
  NoDup (il_addrs (_ipv4s s)) → NoDup (pl_elems (_ports s)) →
  pl_elems (_ports (ipv4_init s)) ≡ₚ pl_elems (_ports s) ∧
  addrs_left (ipv4_init s) ≡ₚ il_addrs (_ipv4s s) ∧
  (port_of_u32 <$> ports_left (ipv4_init s)) ≡ₚ pl_elems (_ports (ipv4_init s)).
Proof.
  intros Hips Hports. unfold ipv4_init.
  pose proof (v4_init_left (il_create_index_cache 256 (il_aggregate (_ipv4s s)))
                (g_mt_rand s)) as Hv.
  destruct (v4_init _ _) as [v4 g]. simpl in Hv.
  pose proof (rp_init_left (pl_create_index_cache 16 (pl_aggregate (_ports s))) g) as Hp.
  destruct (rp_init _ _) as [rp g']. simpl in *.
  rewrite Hv, Hp, pl_elems_cache, il_addrs_cache. split_and!; [|by apply il_addrs_aggregate|done].
  by apply pl_elems_aggregate.
Qed.

Lemma ipv4_init_count s :
  rp_size_original (_rand_port (ipv4_init s)) = zlen (pl_elems (_ports (ipv4_init s))).
Proof.
  unfold ipv4_init. destruct (v4_init _ _) as [v4 g].
  pose proof (rp_size_original_init (pl_create_index_cache 16 (pl_aggregate (_ports s))) g) as Hc.
  by destruct (rp_init _ _).
Qed.

Lemma ipv4_gives_blocks s :
  NoDup (il_addrs (_ipv4s s)) → NoDup (pl_elems (_ports s)) → pl_elems (_ports s) ≠ [] →
  ∃ blocks, blocks.*1 ≡ₚ il_addrs (_ipv4s s) ∧ all_ports (pl_elems (_ports s)) blocks ∧
            gives (ipv4_init s) (by_address blocks).
Proof.
  intros Hips Hports Hne. pose proof (ipv4_init_left s Hips Hports) as (Hps & Hv & Hp).
  set (s1 := ipv4_init s) in *. setoid_rewrite <- Hv.
  destruct (addrs_left s1) as [|a q] eqn:Hl.
  { exists []. split; [done|]. split; [constructor|by apply gives_nil]. }
  destruct (ipv4_gives q a _ s1 Hl eq_refl) as (blocks & Hg & <- & Hall).
  { intros H. rewrite H in Hps. apply Hne. by apply Permutation_nil_l in Hps. }
  exists ((a, port_of_u32 <$> ports_left s1) :: blocks). split; [done|]. split; [|exact Hg].
  constructor; [simpl; by rewrite Hp|].
  eapply Forall_impl; [exact Hall|]. simpl. intros b Hb. by rewrite Hb.
Qed.

Lemma ipv4_gives_all s :
  NoDup (il_addrs (_ipv4s s)) → NoDup (pl_elems (_ports s)) → pl_elems (_ports s) ≠ [] →
  ∃ ts, ts ≡ₚ targets_of (il_addrs (_ipv4s s)) (pl_elems (_ports s)) ∧ gives (ipv4_init s) ts.
Proof.
  intros Hips Hports Hne. destruct (ipv4_gives_blocks s Hips Hports Hne) as (blocks & Hb & Hall & Hg).
  exists (by_address blocks). split; [|done]. by rewrite by_address_targets, Hb.
Qed.

(** C17. After [init], an [IPV4TargetSet] whose lists are without repetition, and
    that of the ports not empty, goes through its addresses in some order, each
    address once; it gives all the ports of an address, in some order of
    their own, before the next address; and then the end for ever. So every pair
    of an address and a port is given exactly once. *)
Theorem ipv4_enumerates s :
  NoDup (il_addrs (_ipv4s s)) → NoDup (pl_elems (_ports s)) → pl_elems (_ports s) ≠ [] →
  ∃ blocks, gives (ipv4_init s) (by_address blocks) ∧
    blocks.*1 ≡ₚ il_addrs (_ipv4s s) ∧ all_ports (pl_elems (_ports s)) blocks ∧
    by_address blocks ≡ₚ targets_of (il_addrs (_ipv4s s)) (pl_elems (_ports s)) ∧
    NoDup (by_address blocks).
Proof.
  intros Hips Hports Hne. destruct (ipv4_gives_blocks s Hips Hports Hne) as (blocks & Hb & Hall & Hg).
  exists blocks. pose proof (by_address_targets _ _ Hall) as Hts. rewrite Hb in Hts.
  split_and!; [done..|]. rewrite Hts. by apply NoDup_targets_of.
Qed.

(** ** The last port of a host *)

(** The targets of one host finishing one after the other. *)
Fixpoint finish_ports (ip : Z) (ps : list port) (hsm : HostSM) (s : IPV4TargetSet) :
    result (list bool * HostSM * IPV4TargetSet) :=
  match ps with
  | [] => Ok ([], hsm, s)
  | p :: ps =>
      '(b, hsm, s) ← ipv4_target_finished (mkTarget ip p) hsm s;
      '(bs, hsm, s) ← finish_ports ip ps hsm s;
      Ok (b :: bs, hsm, s)
  end.

Lemma port_done_elems p hsm :
  NoDup (p :: pl_elems (_ports_done hsm)) →
  pl_elems (_ports_done (port_done p hsm)) ≡ₚ p :: pl_elems (_ports_done hsm) ∧
  _rand_idx_ip (port_done p hsm) = _rand_idx_ip hsm.
Proof.
  intros Hnd. split; [|done]. unfold port_done. simpl. destruct (_ <? _); [|apply pl_elems_add].
  rewrite pl_elems_aggregate; [apply pl_elems_add|]. by rewrite pl_elems_add.
Qed.

(** C21. [target_finished] answers [true] exactly when the last of the ports
    of a host is done, in whatever order they end, and then records the step
    of the random iterator that gave the host's address as done; every
    earlier call answers [false] and changes nothing but the host. *)
Theorem target_finished_last_port ip ps hsm s idx :
  ps ≠ [] → NoDup (ps ++ pl_elems (_ports_done hsm)) →
  ports_count s = zlen (ps ++ pl_elems (_ports_done hsm)) →
  zlen (ps ++ pl_elems (_ports_done hsm)) < 2 ^ 32 →
  _rand_idx_ip hsm = Some idx →
  ∃ hsm', finish_ports ip ps hsm s =
    Ok (replicate (length ps - 1) false ++ [true], hsm',
        mkIPV4 (_ipv4s s) (_ports s) (v4_step_done idx (_rand_v4 s)) (_rand_port s)
          (g_mt_rand s)).
Proof.
  intros Hne Hnd Hcount Hmax Hidx. revert hsm Hne Hnd Hcount Hmax Hidx.
  induction ps as [|p ps IH]; intros hsm Hne Hnd Hcount Hmax Hidx; [done|].
  assert (Hnd' : NoDup (p :: pl_elems (_ports_done hsm))).
  { apply NoDup_cons in Hnd as [Hp Hnd]. apply NoDup_app in Hnd as (_ & _ & Hnd).
    apply NoDup_cons. split; [set_solver|done]. }
  destruct (port_done_elems p hsm Hnd') as [Hel Hi].
  set (h1 := port_done p hsm) in *.
  assert (Hdone : ports_done_count h1 = zlen (p :: pl_elems (_ports_done hsm))).
  { unfold ports_done_count. rewrite pl_size_elems, Hel, u32_small; [done|].
    simpl in *. rewrite length_app in Hmax. lia. }
  cbn [finish_ports]. unfold ipv4_target_finished. cbn [_port]. fold h1.
  destruct ps as [|p' ps].
  - rewrite Hdone, Hcount. cbn [app]. rewrite Z.eqb_refl. unfold rand_idx_ip. rewrite Hi, Hidx.
    simpl. by eexists.
  - rewrite (proj2 (Z.eqb_neq _ _)).
    2:{ rewrite Hdone, Hcount. simpl. rewrite length_app. simpl. lia. }
    cbn [mbind result_bind].
    assert (Hperm : (p :: p' :: ps) ++ pl_elems (_ports_done hsm) ≡ₚ
                    (p' :: ps) ++ pl_elems (_ports_done h1)).
    { rewrite Hel. cbn [app]. rewrite <- Permutation_middle. apply perm_swap. }
    rewrite Hperm in Hnd, Hmax, Hcount.
    destruct (IH h1) as [hsm' Hrun]; [done|done|done|done|congruence|].
    rewrite Hrun. exists hsm'. simpl. by rewrite Nat.sub_0_r.
Qed.

(** [target_finished] reads the host's index even when the host was never
    given one: the last port of such a host is undefined behaviour. The engine
    gets there when [connect] fails at once, since it calls [init_host_sm] only
    after. *)
Theorem target_finished_uninitialised t hsm s :
  _rand_idx_ip hsm = None → ports_done_count (port_done (_port t) hsm) = ports_count s →
  ipv4_target_finished t hsm s = Fail UB.
Proof.
  intros Hidx Hcount. unfold ipv4_target_finished. rewrite Hcount, Z.eqb_refl.
  unfold rand_idx_ip, port_done. simpl. by rewrite Hidx.
Qed.

End IPV4Theorems.

(** ** Saved and restored *)

(** What an archive holds, in order. *)
Inductive archived {L : Leeloo} {R : LeelooRandom} :=
| AIps (l : ip_list)
| APorts (l : port_list)
| AV4 (v : v4_random)
| ARp (r : port_random).

(** What boost documents of its archives (what is written is read back in
    order) and leeloo of what it writes: lists have the same elements, the
    iterator on ports goes on where it was. [v4_saved] is what a restored
    iterator on addresses gives: leeloo may go back to a step that was not
    done. *)
Class ArchiveLaws {L : Leeloo} {R : LeelooRandom} {RL : LeelooRandomLaws R} (A : Archives R) := {
  written : oarchive → list archived;
  pending : iarchive → list archived;
  v4_saved : ip_list → v4_random → list Z;
  xml_oarchive_empty : ∃ o, xml_oarchive (Some []) = Ok o ∧ written o = [];
  put_ips_written l o : written (put_ips l o) = written o ++ [AIps l];
  put_ports_written l o : written (put_ports l o) = written o ++ [APorts l];
  v4_save_written v o : written (v4_save_state v o) = written o ++ [AV4 v];
  rp_save_written r o : written (rp_save_state r o) = written o ++ [ARp r];
  archive_reads_back o :
    ∃ bytes i, oarchive_end o = Some bytes ∧ xml_iarchive (Some bytes) = Ok i ∧
               pending i = written o;
  get_ips_pending i old l items :
    pending i = AIps l :: items →
    ∃ l' i', get_ips i old = Ok (l', i') ∧ il_addrs l' = il_addrs l ∧ pending i' = items;
  get_ports_pending i old l items :
    pending i = APorts l :: items →
    ∃ l' i', get_ports i old = Ok (l', i') ∧ pl_elems l' = pl_elems l ∧ pending i' = items;
  v4_restore_pending i l l0 g old v items :
    pending i = AV4 v :: items → il_addrs l = il_addrs l0 →
    ∃ v' i' g', v4_restore_state i l g old = Ok (v', i', g') ∧ v4_left l v' = v4_saved l0 v ∧
                pending i' = items;
  rp_restore_pending i l l0 g old r items :
    pending i = ARp r :: items → pl_elems l = pl_elems l0 →
    ∃ r' i' g', rp_restore_state i l g old = Ok (r', i', g') ∧ rp_left l r' = rp_left l0 r ∧
                rp_size_original r' = rp_size_original r ∧ pending i' = items;
}.

(** A file that can be written holds what was written to it. *)
Class FilesLaws {F : Type} (FS : Files F) := {
  writable : list Z → F → Prop;
  open_out_writable file fs : writable file fs → (open_out file fs).1 = Some [];
  open_in_close_out file bytes fs :
    writable file fs →
    open_in file (close_out file (Some bytes) (open_out file fs).2) = Some bytes;
}.

Section Restored.
Context {L : Leeloo} {C : Closures} {R : LeelooRandom} {RL : LeelooRandomLaws R}.
Context {A : Archives R} {AL : ArchiveLaws A} {F : Type} {FS : Files F} {FL : FilesLaws FS}.

Abbreviation ports_left s := (rp_left (_ports s) (_rand_port s)).

Lemma ipv4_save_restore s s0 :
  ∃ bytes s1, ipv4_save_state (Some []) s = Ok (Some bytes) ∧
    ipv4_restore_state (Some bytes) s0 = Ok s1 ∧
    il_addrs (_ipv4s s1) = il_addrs (_ipv4s s) ∧ pl_elems (_ports s1) = pl_elems (_ports s) ∧
    v4_left (_ipv4s s1) (_rand_v4 s1) = v4_saved (_ipv4s s) (_rand_v4 s) ∧
    ports_left s1 = ports_left s ∧ ports_count s1 = ports_count s.
Proof.
  unfold ipv4_save_state, ipv4_restore_state.
  destruct xml_oarchive_empty as (o & -> & Ho). cbn [mbind result_bind].
  set (o1 := rp_save_state _ _).
  assert (Ho1 : written o1 = [AIps (_ipv4s s); APorts (_ports s); AV4 (_rand_v4 s); ARp (_rand_port s)]).
  { unfold o1. by rewrite rp_save_written, v4_save_written, put_ports_written, put_ips_written, Ho. }
  destruct (archive_reads_back o1) as (bytes & i & -> & Hi & Hp). rewrite Ho1 in Hp.
  exists bytes. rewrite Hi. cbn [mbind result_bind].
  destruct (get_ips_pending i (_ipv4s s0) _ _ Hp) as (ips & i1 & -> & Hips & Hp1).
  cbn [mbind result_bind].
  destruct (get_ports_pending i1 (_ports s0) _ _ Hp1) as (ports & i2 & -> & Hports & Hp2).
  cbn [mbind result_bind].
  destruct (v4_restore_pending i2 ips _ (g_mt_rand s0) (_rand_v4 s0) _ _ Hp2 Hips)
    as (v & i3 & g & -> & Hv & Hp3). cbn [mbind result_bind].
  destruct (rp_restore_pending i3 ports _ g (_rand_port s0) _ _ Hp3 Hports)
    as (r & i4 & g' & -> & Hr & Hsz & _). cbn [mbind result_bind].
  eexists. split; [done|]. split; [done|]. unfold ports_count. simpl.
  rewrite il_addrs_cache, pl_elems_cache, Hsz. split_and!; try done.
  - rewrite <- Hv. apply v4_left_ext, il_addrs_cache.
  - rewrite <- Hr. apply rp_left_ext, pl_elems_cache.
Qed.

(** The two calls on files. *)
Lemma ipv4_file_restored file s s0 (fs : F) :
  writable file fs → ∃ fs' s1,
    ts_save_state (TargetSet := ipv4_target_set) file (s, fs) = Ok (s, fs') ∧
    ts_restore_state (TargetSet := ipv4_target_set) file (s0, fs') = Ok (s1, fs') ∧
    pl_elems (_ports s1) = pl_elems (_ports s) ∧
    v4_left (_ipv4s s1) (_rand_v4 s1) = v4_saved (_ipv4s s) (_rand_v4 s) ∧
    ports_left s1 = ports_left s ∧ ports_count s1 = ports_count s.
Proof.
  intros Hw. destruct (ipv4_save_restore s s0) as (bytes & s1 & Hsave & Hrest & _ & H).
  pose proof (open_out_writable file fs Hw) as Hopen.
  pose proof (open_in_close_out file bytes fs Hw) as Hin.
  cbn [ts_save_state ts_restore_state ipv4_target_set].
  unfold TargetSet_save_state, TargetSet_restore_state.
  destruct (open_out file fs) as [os fs1]. simpl in Hopen, Hin. subst os.
  rewrite Hsave. cbn [mbind result_bind].
  exists (close_out file (Some bytes) fs1), s1. split; [done|].
  by rewrite Hin, Hrest.
Qed.

(** C18. A set is saved to a file while leeloo's iterator on addresses would be
    restored at the address it is at ([v4_saved] is [v4_left]: there is no
    earlier address it would go back to). The set restored from that file goes
    on as the saved one does: both give the ports that were left of the current
    address, in the same order, then the later addresses, in the same order, each
    with all the ports, in an order of its own, and then the end; and both count
    the same ports for a host. *)
Theorem ipv4_restored_gives file s s0 (fs : F) a q :
  writable file fs → pl_elems (_ports s) ≠ [] →
  v4_left (_ipv4s s) (_rand_v4 s) = a :: q →
  v4_saved (_ipv4s s) (_rand_v4 s) = v4_left (_ipv4s s) (_rand_v4 s) →
  ∃ fs' s1 blocks blocks1,
    ts_save_state (TargetSet := ipv4_target_set) file (s, fs) = Ok (s, fs') ∧
    ts_restore_state (TargetSet := ipv4_target_set) file (s0, fs') = Ok (s1, fs') ∧
    ports_count s1 = ports_count s ∧
    gives (F := F) s (by_address ((a, port_of_u32 <$> ports_left s) :: blocks)) ∧
    gives (F := F) s1 (by_address ((a, port_of_u32 <$> ports_left s) :: blocks1)) ∧
    blocks.*1 = q ∧ blocks1.*1 = q ∧
    all_ports (pl_elems (_ports s)) blocks ∧ all_ports (pl_elems (_ports s)) blocks1.
Proof.
  intros Hw Hne Hl Hv.
  destruct (ipv4_file_restored file s s0 fs Hw) as (fs' & s1 & Hs & Hr & Hports & Hv1 & Hp1 & Hc).
  destruct (ipv4_gives (F := F) q a _ s Hl eq_refl Hne) as (blocks & Hg & Hq & Hall).
  rewrite Hv, Hl in Hv1. rewrite <- Hports in Hne.
  destruct (ipv4_gives (F := F) q a _ s1 Hv1 Hp1 Hne) as (blocks1 & Hg1 & Hq1 & Hall1).
  rewrite Hports in Hall1. by exists fs', s1, blocks, blocks1.
Qed.

(** C19. What is saved of the ports is the position of the address the set is
    at, whatever the address leeloo's iterator will be restored at
    ([v4_saved]). If this is another one, earlier and not done, say, the restored
    set gives at that address [a] only the ports that were left for the address
    the saved set was at: a port of [a] that is not among those is never given
    by the restored set, however long it is asked for targets, though the set
    starts again at [a] (the addresses restored are without repetition, and the
    pair is not the end marker). *)
Theorem ipv4_restored_forgets file s s0 (fs : F) a q p :
  writable file fs → v4_saved (_ipv4s s) (_rand_v4 s) = a :: q → NoDup (a :: q) →
  p ∈ pl_elems (_ports s) → p ∉ port_of_u32 <$> ports_left s → mkTarget a p ≠ Target_end →
  ∃ fs' s1,
    ts_save_state (TargetSet := ipv4_target_set) file (s, fs) = Ok (s, fs') ∧
    ts_restore_state (TargetSet := ipv4_target_set) file (s0, fs') = Ok (s1, fs') ∧
    ∀ n fs2 ts w, next_targets (H := ipv4_target_set) n (s1, fs2) = Ok (ts, w) → mkTarget a p ∉ ts.
Proof.
  intros Hw Hv [Ha _]%NoDup_cons Hp Hleft Hend.
  destruct (ipv4_file_restored file s s0 fs Hw) as (fs' & s1 & Hs & Hr & Hports & Hv1 & Hp1 & _).
  exists fs', s1. split; [done|]. split; [done|]. intros n fs2 ts w Hn Hin.
  rewrite Hv in Hv1.
  destruct (ipv4_gives (F := F) q a _ s1 Hv1 Hp1) as (blocks & Hg & <- & _).
  { rewrite Hports. intros E. rewrite E in Hp. by apply elem_of_nil in Hp. }
  destruct (Hg n fs2) as [s' H]. rewrite H in Hn. injection Hn as <- _.
  apply elem_of_app in Hin as [Hin|Hin].
  - apply elem_of_take in Hin as (k & Hk & _). apply list_elem_of_lookup_2 in Hk.
    apply elem_of_app in Hk as [(p' & [= <-] & Hp')%list_elem_of_fmap|Hk]; [done|].
    apply Ha. clear -Hk. induction blocks as [|[b ps] blocks IH]; [by apply elem_of_nil in Hk|].
    apply elem_of_app in Hk as [(p' & [= ->] & _)%list_elem_of_fmap|Hk]; [left|right; auto].
  - by apply elem_of_replicate in Hin as [Hin _].
Qed.

End Restored.
