(* ===== verification/TargetFile.v ===== *)
(** * Targets read from a descriptor: src/src/target_file.cpp

    [TargetAsyncFile] reads addresses, one per line, from a non-blocking
    descriptor into a buffer. leeloo's parser of addresses is a parameter.

    Main results: [next_target] computes what [spec_next_target] says on the
    plain bytes buffered ([async_file_refines]), and the end is given while
    complete lines are still buffered when the first one does not parse
    ([invalid_line_hides_lines]). *)

From S2P Require Import Prelude Lvl4Buffer Leeloo Target HostSM Framing TargetSet.

(** [leeloo::ips_parser::ipv4toi], [None] when it sets [valid] to false. *)
Class AddressParser := ipv4toi : list Z → option Z.

Section TargetFile.
Context {L : Leeloo} {C : Closures} {M : Malloc} {P : AddressParser}.

Record TargetAsyncFile := mkFile { f_buf : Lvl4Buffer; _fd : Z; _def_port : port }.

Definition TargetAsyncFile_ctor (fd : Z) (port : port) : TargetAsyncFile :=
  mkFile Buffer.Buffer_ctor fd port.
Definition TargetStdin_ctor (port : port) : TargetAsyncFile :=
  TargetAsyncFile_ctor STDIN_FILENO port.

Definition set_f_buf (b : Lvl4Buffer) (f : TargetAsyncFile) : TargetAsyncFile :=
  mkFile b (_fd f) (_def_port f).

Definition next_target_in_buf (f : TargetAsyncFile) : result (Target * TargetAsyncFile) :=
  buf ← load_n (Buffer.block (f_buf f)) 0 (Buffer.size (f_buf f));
  match find_byte 10 buf with
  | None => Ok (Target_end, f)
  | Some newline =>
      let size := Z.of_nat newline in
      line ← load_n (Buffer.block (f_buf f)) 0 size;
      b ← Buffer.pop_by (size + 1) (f_buf f);
      match ipv4toi line with
      | None => Ok (Target_end, set_f_buf b f)
      | Some ipv4 => Ok (mkTarget ipv4 (_def_port f), set_f_buf b f)
      end
  end.

Context {W : Type} {OSW : OS W}.

(** [next_target] from the call of [select] on. *)
Definition read_next_target (f : TargetAsyncFile) (w : W) :
    result (next * (TargetAsyncFile * W)) :=
  let sel_ret := sys_select_read STDIN_FILENO w in
  if sel_ret =? -1 then Ok (NextTarget Target_end, (f, w)) else
  if sel_ret =? 0 then Ok (NextTargetWouldBlock, (f, w)) else
  match sys_fionread (_fd f) w with
  | None => Ok (NextTarget Target_end, (f, w))
  | Some navail =>
      if navail =? 0 then Ok (NextTarget Target_end, (f, w)) else
      let '(b, buf_read) := Buffer.grow_by navail (f_buf f) in
      let '(nread, data, w) := sys_read (_fd f) navail w in
      b ← Buffer.write_at buf_read data b;
      let f := set_f_buf b f in
      if nread <=? 0 then Ok (NextTarget Target_end, (f, w)) else
      '(ret, f) ← next_target_in_buf f;
      if target_eqb ret Target_end then Ok (NextTargetWouldBlock, (f, w))
      else Ok (NextTarget ret, (f, w))
  end.

Definition file_next_target (f : TargetAsyncFile) (w : W) :
    result (next * (TargetAsyncFile * W)) :=
  if 0 <? Buffer.size (f_buf f) then
    '(ret, f) ← next_target_in_buf f;
    if target_neqb ret Target_end then Ok (NextTarget ret, (f, w))
    else read_next_target f w
  else read_next_target f w.

Definition target_async_file : TargetSet (TargetAsyncFile * W) := {|
  ts_init := λ '(f, w), Ok (f, sys_set_nonblock (_fd f) w);
  ts_next_target := λ '(f, w), file_next_target f w;
  ts_target_finished := λ _ hsm w, Ok (true, hsm, w);
  ts_init_host_sm := λ _ hsm w, Ok (hsm, w);
  ts_save_state := λ _ w, Ok w;
  ts_restore_state := λ _ w, Ok w;
|}.

(** ** The specification, on the bytes that are buffered *)

Definition spec_line (def_port : port) (l : list Z) : Target * list Z :=
  match find_byte 10 l with
  | None => (Target_end, l)
  | Some i =>
      (match ipv4toi (take i l) with
       | Some ip => mkTarget ip def_port | None => Target_end end, drop (S i) l)
  end.

Definition spec_read (def_port : port) (fd : Z) (l : list Z) (w : W) : next * list Z * W :=
  if sys_select_read STDIN_FILENO w =? -1 then (NextTarget Target_end, l, w) else
  if sys_select_read STDIN_FILENO w =? 0 then (NextTargetWouldBlock, l, w) else
  match sys_fionread fd w with
  | None => (NextTarget Target_end, l, w)
  | Some navail =>
      if navail =? 0 then (NextTarget Target_end, l, w) else
      let '(_, data, w) := sys_read fd navail w in
      let '(t, l) := spec_line def_port (l ++ data) in
      (if target_eqb t Target_end then NextTargetWouldBlock else NextTarget t, l, w)
  end.

Definition spec_next_target (def_port : port) (fd : Z) (l : list Z) (w : W) :
    next * list Z * W :=
  let '(t, l) := spec_line def_port l in
  if target_eqb t Target_end then spec_read def_port fd l w else (NextTarget t, l, w).

(** [f] holds the bytes [l] in a well-formed buffer. *)
Definition holds (f : TargetAsyncFile) (l : list Z) : Prop :=
  Buffer.wf (f_buf f) ∧ Buffer.contents (f_buf f) = l.

Lemma next_target_in_buf_spec f l :
  holds f l →
  ∃ f', next_target_in_buf f = Ok ((spec_line (_def_port f) l).1, f') ∧
        holds f' (spec_line (_def_port f) l).2 ∧ _fd f' = _fd f ∧ _def_port f' = _def_port f.
Proof.
  intros [Hwf Hc]. unfold next_target_in_buf, spec_line.
  pose proof (size_nonneg _ Hwf) as Hsz.
  pose proof (contents_load (f_buf f) 0 Hwf ltac:(lia)) as Hload.
  rewrite Z.sub_0_r, drop_0, Hc in Hload. rewrite Hload. cbn [mbind result_bind].
  destruct (find_byte 10 l) as [i|] eqn:Hi; [|by exists f].
  apply find_byte_lt in Hi.
  assert (Hlen : Buffer.size (f_buf f) = zlen l) by (by rewrite Buffer.contents_size, Hc).
  pose proof Hwf as (Hp & Hs & Hbl). unfold Buffer.size in Hlen.
  rewrite load_n_Ok by lia. cbn [mbind result_bind].
  pose proof (Buffer.pop_by_spec (Z.of_nat i + 1) (f_buf f) Hwf ltac:(lia)) as Hpop.
  rewrite bool_decide_eq_true_2 in Hpop by (unfold Buffer.size; lia).
  destruct Hpop as (b & -> & Hwfb & Hcb). cbn [mbind result_bind].
  rewrite drop_0, block_prefix by (unfold Buffer.size; lia). rewrite Hc, Nat2Z.id.
  assert (Hhold : holds (set_f_buf b f) (drop (S i) l)).
  { split; [done|]. simpl. rewrite Hcb, Hc. f_equal. lia. }
  destruct (ipv4toi (take i l)); by eexists.
Qed.

Lemma target_eqb_refl t : target_eqb t t = true.
Proof. unfold target_eqb. rewrite Z.eqb_refl. by rewrite bool_decide_eq_true_2. Qed.

Lemma spec_line_nil p : spec_line p [] = (Target_end, []).
Proof. done. Qed.

(** Reads give all the bytes that were announced. *)
Definition full_reads : Prop := ∀ fd n w nread data w',
  sys_fionread fd w = Some n → 0 < n → sys_read fd n w = (nread, data, w') →
  nread = n ∧ zlen data = n.

Lemma read_next_target_spec f l w :
  holds f l → full_reads →
  (∀ navail, sys_fionread (_fd f) w = Some navail →
             0 ≤ navail ∧ zlen l + navail < Buffer.max_size) →
  ∃ r f' l' w', read_next_target f w = Ok (r, (f', w')) ∧
    spec_read (_def_port f) (_fd f) l w = (r, l', w') ∧ holds f' l' ∧
    _fd f' = _fd f ∧ _def_port f' = _def_port f.
Proof.
  intros Hf Hfull Havail. unfold read_next_target, spec_read.
  destruct (_ =? -1); [by eexists _, _, _, _|].
  destruct (_ =? 0); [by eexists _, _, _, _|].
  destruct (sys_fionread (_fd f) w) as [navail|] eqn:Hfio; [|by eexists _, _, _, _].
  destruct (Havail navail eq_refl) as [Hn Hmax].
  destruct (navail =? 0) eqn:E; [by eexists _, _, _, _|]. apply Z.eqb_neq in E.
  destruct (sys_read (_fd f) navail w) as [[nread data] w'] eqn:Hread.
  apply Hfull in Hread as [-> Hdata]; [|done|lia]. destruct Hf as [Hwf Hc].
  destruct (Buffer.append_spec data (f_buf f)) as (b & Hrun & Hwfb & Hcb); [done| |].
  { rewrite Buffer.contents_size, Hc by done. lia. }
  unfold Buffer.run_op in Hrun. rewrite Hdata in Hrun.
  destruct (Buffer.grow_by navail (f_buf f)) as [b1 off]. rewrite Hrun. cbn [mbind result_bind].
  rewrite (proj2 (Z.leb_gt _ _)) by lia.
  destruct (next_target_in_buf_spec (set_f_buf b f) (l ++ data)) as (f' & Hnext & Hf' & Hfd & Hdp).
  { split; [done|]. simpl. by rewrite Hcb, Hc. }
  rewrite Hnext. cbn [mbind result_bind]. simpl in Hf', Hfd, Hdp |- *.
  destruct (spec_line (_def_port f) (l ++ data)) as [t l']. simpl in *.
  destruct (target_eqb t Target_end); by eexists _, _, _, _.
Qed.

Lemma file_next_target_spec f l w :
  holds f l → full_reads →
  (∀ navail, sys_fionread (_fd f) w = Some navail →
             0 ≤ navail ∧ zlen l + navail < Buffer.max_size) →
  ∃ r f' l' w', file_next_target f w = Ok (r, (f', w')) ∧
    spec_next_target (_def_port f) (_fd f) l w = (r, l', w') ∧ holds f' l' ∧
    _fd f' = _fd f ∧ _def_port f' = _def_port f.
Proof.
  intros Hf Hfull Havail. unfold file_next_target, spec_next_target.
  pose proof Hf as [Hwf Hc].
  destruct (0 <? Buffer.size (f_buf f)) eqn:Hsz.
  - destruct (next_target_in_buf_spec f l Hf) as (f1 & -> & Hf1 & Hfd & Hdp).
    cbn [mbind result_bind].
    assert (Hlen : zlen (spec_line (_def_port f) l).2 ≤ zlen l).
    { unfold spec_line. destruct (find_byte 10 l); simpl; [rewrite length_drop|]; lia. }
    destruct (spec_line (_def_port f) l) as [t l1]. simpl in Hf1, Hlen |- *.
    replace (target_neqb t Target_end) with (negb (target_eqb t Target_end))
      by (unfold target_neqb, target_eqb; by rewrite negb_andb).
    destruct (target_eqb t Target_end) eqn:Ht; simpl; [|by eexists _, _, _, _].
    destruct (read_next_target_spec f1 l1 w Hf1 Hfull) as (r & f' & l' & w' & Hr & Hspec & Hf' & Hfd' & Hdp').
    { intros n Hn. rewrite Hfd in Hn. apply Havail in Hn. lia. }
    rewrite Hfd, Hdp in Hspec. rewrite Hfd in Hfd'. rewrite Hdp in Hdp'. by exists r, f', l', w'.
  - apply Z.ltb_ge in Hsz. rewrite Buffer.contents_size, Hc in Hsz by done.
    destruct l; [|simpl in Hsz; lia]. rewrite spec_line_nil, target_eqb_refl.
    destruct (read_next_target_spec f [] w Hf Hfull Havail) as (r & f' & l' & w' & ? & ? & ? & ? & ?).
    by exists r, f', l', w'.
Qed.

(** C26. When the reads give all that was announced, [next_target] returns what
    the specification computes on the bytes that are buffered, and leaves the
    bytes it leaves: the first buffered line if it is an address; otherwise,
    that line being dropped, what [select] and [FIONREAD] say, and then the
    first line of the bytes buffered and read together. *)
Theorem async_file_refines f l w :
  holds f l → full_reads →
  (∀ navail, sys_fionread (_fd f) w = Some navail →
             0 ≤ navail ∧ zlen l + navail < Buffer.max_size) →
  ∃ r f' l' w', file_next_target f w = Ok (r, (f', w')) ∧
    spec_next_target (_def_port f) (_fd f) l w = (r, l', w') ∧ holds f' l'.
Proof.
  intros Hf Hfull Havail. destruct (file_next_target_spec f l w Hf Hfull Havail)
    as (r & f' & l' & w' & ? & ? & ? & _). by exists r, f', l', w'.
Qed.

(** When the first buffered line does not parse and the input has come to
    its end, [next_target] returns the end of the targets, whatever complete
    lines are still in the buffer: they are lost when this ends the scan. *)
Theorem invalid_line_hides_lines f w bad rest :
  holds f (bad ++ 10 :: rest) → 10 ∉ bad → ipv4toi bad = None →
  sys_select_read STDIN_FILENO w = 1 → sys_fionread (_fd f) w = Some 0 →
  ∃ f', file_next_target f w = Ok (NextTarget Target_end, (f', w)) ∧ holds f' rest.
Proof.
  intros Hf Hbad Hparse Hsel Havail. unfold file_next_target.
  pose proof Hf as [Hwf Hc].
  rewrite (proj2 (Z.ltb_lt _ _)).
  2:{ rewrite Buffer.contents_size, Hc, length_app by done. simpl. lia. }
  destruct (next_target_in_buf_spec f _ Hf) as (f1 & -> & Hf1 & Hfd & _).
  assert (Hline : spec_line (_def_port f) (bad ++ 10 :: rest) = (Target_end, rest)).
  { unfold spec_line. rewrite find_byte_app by done. simpl. rewrite Nat.add_0_r.
    rewrite take_app_length, Hparse. by rewrite drop_app_ge, Nat.sub_succ_l, Nat.sub_diag by lia. }
  rewrite Hline in *. simpl in *.
  replace (target_neqb Target_end Target_end) with false
    by (unfold target_neqb; by rewrite Z.eqb_refl, bool_decide_eq_true_2).
  unfold read_next_target. rewrite Hsel, Hfd, Havail. simpl. by exists f1.
Qed.

End TargetFile.
