(* ===== verification/Engine.v ===== *)
(** * The engine's periodic save: src/src/include/ns/engine.h and
      src/src/engine.cpp

    [Engine] holds the set of targets, here part of the world, and decides when
    its state is to be saved. The constructor does not set [_last_save]
    ([None]); [auto_save_state] does. *)

From S2P Require Import Prelude Leeloo Target HostSM TargetSet.

Record Engine := mkEngine {
  _file_autosave : list Z;
  _last_save : option Z;
  _time_autosave : Z;
}.

Definition Engine_ctor : Engine := mkEngine [] None 0.

(** [file] is [None] for NULL. *)
Definition auto_save_state (file : option (list Z)) (time_s : Z) (e : Engine) : Engine :=
  match file with
  | None => mkEngine (_file_autosave e) (_last_save e) 0
  | Some file => mkEngine file (Some 0) time_s
  end.

Definition should_save_state {W} {OSW : OS W} (e : Engine) (w : W) :
    result (bool * Engine * W) :=
  if (_time_autosave e =? 0) || bool_decide (_file_autosave e = []) then Ok (false, e, w) else
  let '(now, w) := sys_time w in
  last_save ← of_option UB (_last_save e);
  if _time_autosave e <=? now - last_save
  then Ok (true, mkEngine (_file_autosave e) (Some now) (_time_autosave e), w)
  else Ok (false, e, w).

Section Engine.
Context {L : Leeloo} {C : Closures} {W : Type} {OSW : OS W} {T : TargetSet W}.

Definition save_state (file : list Z) (w : W) : result W := ts_save_state file w.
Definition restore_state (file : list Z) (w : W) : result W := ts_restore_state file w.
Definition init_scan (w : W) : result W := ts_init w.
Definition next_target (w : W) : result (next * W) := ts_next_target w.
Definition target_finished (t : Target) (hsm : HostSM) (w : W) : result (bool * HostSM * W) :=
  ts_target_finished t hsm w.
Definition init_host_sm (t : Target) (hsm : HostSM) (w : W) : result (HostSM * W) :=
  ts_init_host_sm t hsm w.

End Engine.

(** ** When the state is saved *)

(** The answers of [should_save_state] when it is asked at the times [nows]. *)
Inductive asked : Engine → list Z → list bool → Engine → Prop :=
| asked_nil e : asked e [] [] e
| asked_cons {W} {OSW : OS W} e (w : W) now w' b e1 w1 nows bs e2 :
    sys_time w = (now, w') → should_save_state e w = Ok (b, e1, w1) →
    asked e1 nows bs e2 → asked e (now :: nows) (b :: bs) e2.

(** The times of the positive answers. *)
Fixpoint saves (nows : list Z) (bs : list bool) : list Z :=
  match nows, bs with
  | now :: nows, b :: bs => (if b then [now] else []) ++ saves nows bs
  | _, _ => []
  end.

(** Each time is at least [d] after the one before it, starting from [last]. *)
Fixpoint spaced (d last : Z) (l : list Z) : Prop :=
  match l with [] => True | t :: l => d ≤ t - last ∧ spaced d t l end.

Lemma should_save_state_Ok {W} {OSW : OS W} e (w : W) last now w' :
  _time_autosave e ≠ 0 → _file_autosave e ≠ [] → _last_save e = Some last →
  sys_time w = (now, w') →
  should_save_state e w =
    if _time_autosave e <=? now - last
    then Ok (true, mkEngine (_file_autosave e) (Some now) (_time_autosave e), w')
    else Ok (false, e, w').
Proof.
  intros Ht Hf Hl Hnow. unfold should_save_state.
  rewrite (proj2 (Z.eqb_neq _ _)), bool_decide_eq_false_2, Hnow, Hl by done. done.
Qed.

(** Once [auto_save_state] was given a file and a period, asking
    [should_save_state] never reads an indeterminate [_last_save], and two
    positive answers are always at least the period apart; an answer is
    negative only if less than the period has passed since the last positive
    one. With no file, or a period of 0, every answer is negative. *)
Theorem autosave_period e file time_s nows bs e' :
  asked (auto_save_state file time_s e) nows bs e' →
  match file with
  | Some (_ :: _) =>
      if time_s =? 0 then Forall (λ b, b = false) bs
      else length bs = length nows ∧ spaced time_s 0 (saves nows bs) ∧
           ∀ i now, nows !! i = Some now → bs !! i = Some false →
             now - default 0 (last (saves (take i nows) (take i bs))) < time_s
  | _ => Forall (λ b, b = false) bs
  end.
Proof.
  assert (Hoff : ∀ e e' nows bs, asked e nows bs e' →
    _time_autosave e = 0 ∨ _file_autosave e = [] → Forall (λ b, b = false) bs).
  { clear. induction 1 as [|W OSW e w now w' b e1 w1 nows bs e2 Hnow Hb Ha IH]; [done|].
    intros Hoff. unfold should_save_state in Hb.
    assert (Hc : (_time_autosave e =? 0) || bool_decide (_file_autosave e = []) = true).
    { rewrite orb_true_iff, Z.eqb_eq, bool_decide_eq_true. done. }
    rewrite Hc in Hb. injection Hb as <- <- <-. constructor; [done|by apply IH]. }
  assert (Hon : ∀ e e' nows bs, asked e nows bs e' → ∀ last0,
    _time_autosave e ≠ 0 → _file_autosave e ≠ [] → _last_save e = Some last0 →
    length bs = length nows ∧ spaced (_time_autosave e) last0 (saves nows bs) ∧
    ∀ i now, nows !! i = Some now → bs !! i = Some false →
      now - default last0 (last (saves (take i nows) (take i bs))) < _time_autosave e).
  { clear. induction 1 as [|W OSW e w now w' b e1 w1 nows bs e2 Hnow Hb Ha IH];
      intros last0 Ht Hf Hl; [done|].
    rewrite (should_save_state_Ok e w last0 now w') in Hb by done.
    destruct (_time_autosave e <=? now - last0) eqn:E; injection Hb as <- <- <-; simpl.
    - destruct (IH now Ht Hf eq_refl) as (Hlen & Hsp & Hi). simpl in Hsp, Hi.
      split_and!; [lia|lia|done|]. intros [|i] n Hn Hbi; [done|]. simpl in Hn, Hbi |- *.
      specialize (Hi i n Hn Hbi). rewrite last_cons.
      by destruct (last (saves _ _)).
    - destruct (IH last0 Ht Hf Hl) as (Hlen & Hsp & Hi).
      split_and!; [lia|done|]. intros [|i] n Hn Hbi; simpl in Hn, Hbi |- *; [|by apply Hi].
      injection Hn as <-. lia. }
  intros Ha. destruct file as [[|c file]|]; [eapply Hoff; eauto| |eapply Hoff; eauto].
  destruct (time_s =? 0) eqn:E.
  - apply Z.eqb_eq in E. eapply Hoff; [exact Ha|by left].
  - apply Z.eqb_neq in E. by apply (Hon _ _ _ _ Ha 0).
Qed.
