(* ===== verification/AsyncEngine.v ===== *)
(** * The asynchronous engine: src/src/async_engine.cpp and async_engine.h

    The engine keeps a connection ([Lvl4SM]) and a target per open socket and
    a [HostSM] per address; it connects to the targets of its set with at most
    [_avail_socks] more sockets, dispatches the kernel's events to the
    connections, and ends them when their functions, the peer or a timeout say
    so. Every function runs in the monad [ST] on the engine and the world; a
    reference into a map is read, and written back where the code changes it.

    The maps of the engine are [gmap]s from descriptors, and loops over
    [_lvl4_sms] go through the keys in increasing order, as [std::map]'s
    iterators do. The functions the user gives to the engine, and those of the
    connections, run on the world: they do not call back into the engine. *)

From S2P Require Import Prelude Lvl4Buffer Leeloo Target HostSM Lvl4SM TargetSet Engine.

Definition MAX_EVENTS : nat := 1024.

(** [ns::errors] *)
Definition NS_TIMEOUT : Z := 1000.
Definition WILL_RECONNECT : Z := 1001.

(** The functions given to the engine itself. *)
Class EngineCalls {L : Leeloo} (W : Type) := {
  finish_closure : Type;    (* Lvl4Finish *)
  status_closure : Type;    (* StatusDisplay *)
  watch_closure : Type;     (* WatchTimeout *)
  timeout_closure : Type;   (* TimeoutTarget *)
  (** the block [buf] points to and the size *)
  call_finish : finish_closure → Target → list Z → Z → Z → W → result W;
  call_status : status_closure → Z → Z → W → result W;
  call_watch : watch_closure → ConnectedTarget → W → result (bool * W);
  call_timeout : timeout_closure → Target → W → result (Z * W);
}.

Section AsyncEngine.
Context {L : Leeloo} {C : Closures} {M : Malloc} {W : Type}.
Context {OSW : OS W} {K : Calls W} {T : TargetSet W} {EC : EngineCalls W}.

Record AsyncEngine := mkAsync {
  e_engine : Engine;
  _hosts_sms : gmap Z HostSM;
  _lvl4_sms : gmap Z Lvl4SM;
  _sockets_targets : gmap Z Target;
  _avail_socks : Z;
  _epoll : Z;
  _nlaunched : Z;
  _ndone : Z;
  _last_time_status_display : Z;
  _callback_lvl4_connected : option connect_closure;
  _nsockets : Z;
  _timeout : Z;
  _watch_timeout : Z;
  _watch_timeout_cb : option watch_closure;
  _callback_finish : option finish_closure;
  _callback_timeout_target : option timeout_closure;
  _callback_status : option status_closure;
  _timeout_status_display : Z;
}.

(** ** Updates of one field *)

Definition up_engine f e := mkAsync (f (e_engine e)) (_hosts_sms e) (_lvl4_sms e)
  (_sockets_targets e) (_avail_socks e) (_epoll e) (_nlaunched e) (_ndone e)
  (_last_time_status_display e) (_callback_lvl4_connected e) (_nsockets e) (_timeout e)
  (_watch_timeout e) (_watch_timeout_cb e) (_callback_finish e) (_callback_timeout_target e)
  (_callback_status e) (_timeout_status_display e).
Definition up_hosts f e := mkAsync (e_engine e) (f (_hosts_sms e)) (_lvl4_sms e)
  (_sockets_targets e) (_avail_socks e) (_epoll e) (_nlaunched e) (_ndone e)
  (_last_time_status_display e) (_callback_lvl4_connected e) (_nsockets e) (_timeout e)
  (_watch_timeout e) (_watch_timeout_cb e) (_callback_finish e) (_callback_timeout_target e)
  (_callback_status e) (_timeout_status_display e).
Definition up_lvl4 f e := mkAsync (e_engine e) (_hosts_sms e) (f (_lvl4_sms e))
  (_sockets_targets e) (_avail_socks e) (_epoll e) (_nlaunched e) (_ndone e)
  (_last_time_status_display e) (_callback_lvl4_connected e) (_nsockets e) (_timeout e)
  (_watch_timeout e) (_watch_timeout_cb e) (_callback_finish e) (_callback_timeout_target e)
  (_callback_status e) (_timeout_status_display e).
Definition up_sockets f e := mkAsync (e_engine e) (_hosts_sms e) (_lvl4_sms e)
  (f (_sockets_targets e)) (_avail_socks e) (_epoll e) (_nlaunched e) (_ndone e)
  (_last_time_status_display e) (_callback_lvl4_connected e) (_nsockets e) (_timeout e)
  (_watch_timeout e) (_watch_timeout_cb e) (_callback_finish e) (_callback_timeout_target e)
  (_callback_status e) (_timeout_status_display e).
Definition up_avail f e := mkAsync (e_engine e) (_hosts_sms e) (_lvl4_sms e)
  (_sockets_targets e) (f (_avail_socks e)) (_epoll e) (_nlaunched e) (_ndone e)
  (_last_time_status_display e) (_callback_lvl4_connected e) (_nsockets e) (_timeout e)
  (_watch_timeout e) (_watch_timeout_cb e) (_callback_finish e) (_callback_timeout_target e)
  (_callback_status e) (_timeout_status_display e).
Definition up_epoll ep e := mkAsync (e_engine e) (_hosts_sms e) (_lvl4_sms e)
  (_sockets_targets e) (_avail_socks e) ep (_nlaunched e) (_ndone e)
  (_last_time_status_display e) (_callback_lvl4_connected e) (_nsockets e) (_timeout e)
  (_watch_timeout e) (_watch_timeout_cb e) (_callback_finish e) (_callback_timeout_target e)
  (_callback_status e) (_timeout_status_display e).
Definition up_counts f e := mkAsync (e_engine e) (_hosts_sms e) (_lvl4_sms e)
  (_sockets_targets e) (_avail_socks e) (_epoll e) (f (_nlaunched e, _ndone e)).1
  (f (_nlaunched e, _ndone e)).2
  (_last_time_status_display e) (_callback_lvl4_connected e) (_nsockets e) (_timeout e)
  (_watch_timeout e) (_watch_timeout_cb e) (_callback_finish e) (_callback_timeout_target e)
  (_callback_status e) (_timeout_status_display e).
Definition up_last_status t e := mkAsync (e_engine e) (_hosts_sms e) (_lvl4_sms e)
  (_sockets_targets e) (_avail_socks e) (_epoll e) (_nlaunched e) (_ndone e)
  t (_callback_lvl4_connected e) (_nsockets e) (_timeout e)
  (_watch_timeout e) (_watch_timeout_cb e) (_callback_finish e) (_callback_timeout_target e)
  (_callback_status e) (_timeout_status_display e).

(** ** Construction and configuration *)

(** [AsyncEngine(targets, nsockets, timeout)]; the fields the constructor
    leaves indeterminate are given 0, none is read before it is set. *)
Definition AsyncEngine_ctor (nsockets timeout : Z) : AsyncEngine :=
  mkAsync Engine_ctor ∅ ∅ ∅ nsockets 0 0 0 0 None nsockets timeout 0 None None None None 0.

Definition set_lvl4_connected_callback a e := mkAsync (e_engine e) (_hosts_sms e) (_lvl4_sms e)
  (_sockets_targets e) (_avail_socks e) (_epoll e) (_nlaunched e) (_ndone e)
  (_last_time_status_display e) a (_nsockets e) (_timeout e)
  (_watch_timeout e) (_watch_timeout_cb e) (_callback_finish e) (_callback_timeout_target e)
  (_callback_status e) (_timeout_status_display e).
Definition set_lvl4_finish_callback f e := mkAsync (e_engine e) (_hosts_sms e) (_lvl4_sms e)
  (_sockets_targets e) (_avail_socks e) (_epoll e) (_nlaunched e) (_ndone e)
  (_last_time_status_display e) (_callback_lvl4_connected e) (_nsockets e) (_timeout e)
  (_watch_timeout e) (_watch_timeout_cb e) f (_callback_timeout_target e)
  (_callback_status e) (_timeout_status_display e).
Definition set_status_display_callback f timeout e := mkAsync (e_engine e) (_hosts_sms e)
  (_lvl4_sms e) (_sockets_targets e) (_avail_socks e) (_epoll e) (_nlaunched e) (_ndone e)
  (_last_time_status_display e) (_callback_lvl4_connected e) (_nsockets e) (_timeout e)
  (_watch_timeout e) (_watch_timeout_cb e) (_callback_finish e) (_callback_timeout_target e)
  f timeout.
Definition set_watch_timeout f timeout e := mkAsync (e_engine e) (_hosts_sms e) (_lvl4_sms e)
  (_sockets_targets e) (_avail_socks e) (_epoll e) (_nlaunched e) (_ndone e)
  (_last_time_status_display e) (_callback_lvl4_connected e) (_nsockets e) (_timeout e)
  timeout f (_callback_finish e) (_callback_timeout_target e)
  (_callback_status e) (_timeout_status_display e).
Definition set_timeout_of_target f e := mkAsync (e_engine e) (_hosts_sms e) (_lvl4_sms e)
  (_sockets_targets e) (_avail_socks e) (_epoll e) (_nlaunched e) (_ndone e)
  (_last_time_status_display e) (_callback_lvl4_connected e) (_nsockets e) (_timeout e)
  (_watch_timeout e) (_watch_timeout_cb e) (_callback_finish e) f
  (_callback_status e) (_timeout_status_display e).

Definition ensure_available_sockets (n : Z) (e : AsyncEngine) : AsyncEngine :=
  if _avail_socks e <? n then up_avail (λ a, u32 (a + (n - a))) e else e.

(** ** The monad *)

Definition st : Type := AsyncEngine * W.
Definition ST (A : Type) : Type := st → result (A * st).

#[export] Instance ST_ret : MRet ST := λ A a s, Ok (a, s).
#[export] Instance ST_bind : MBind ST := λ A B f m s, '(a, s) ← m s; f a s.

Definition gets {A} (f : AsyncEngine → A) : ST A := λ s, Ok (f s.1, s).
Definition modify (f : AsyncEngine → AsyncEngine) : ST () := λ s, Ok ((), (f s.1, s.2)).
(** A system call, or a function of the user, on the world. *)
Definition sys {A} (f : W → A * W) : ST A := λ s, let '(a, w) := f s.2 in Ok (a, (s.1, w)).
Definition sys_ (f : W → W) : ST () := λ s, Ok ((), (s.1, f s.2)).
Definition ask {A} (f : W → A) : ST A := λ s, Ok (f s.2, s).
Definition run {A} (f : W → result (A * W)) : ST A :=
  λ s, '(a, w) ← f s.2; Ok (a, (s.1, w)).
Definition run_ (f : W → result W) : ST () := λ s, w ← f s.2; Ok ((), (s.1, w)).
Definition lift {A} (r : result A) : ST A := λ s, a ← r; Ok (a, s).

(** ** The maps *)

Definition host_sm (ip : Z) : ST HostSM :=
  hs ← gets _hosts_sms;
  match hs !! ip with
  | Some h => mret h
  | None => h ← sys HostSM_ctor; modify (up_hosts (λ m, <[ip := h]> m));; mret h
  end.
Definition put_host_sm (ip : Z) (h : HostSM) : ST () := modify (up_hosts (λ m, <[ip := h]> m)).
Definition del_host_sm (t : Target) : ST () := modify (up_hosts (λ m, delete (ipv4 t) m)).

Definition target_from_socket (s : Z) : ST Target :=
  ts ← gets _sockets_targets; lift (of_option UB (ts !! s)).

(** [insert] on a [std::map] keeps the element a key already has. *)
Definition map_insert {A} (k : Z) (a : A) (m : gmap Z A) : gmap Z A :=
  match m !! k with Some _ => m | None => <[k := a]> m end.

Definition new_lvl4_sm (s : Z) : ST () :=
  l ← sys Lvl4SM_ctor; modify (up_lvl4 (map_insert s l)).
Definition del_lvl4_sm (s : Z) : ST () := modify (up_lvl4 (delete s)).

(** [_lvl4_sms[s]] *)
Definition lvl4_sm (s : Z) : ST Lvl4SM :=
  ls ← gets _lvl4_sms;
  match ls !! s with
  | Some l => mret l
  | None => l ← sys Lvl4SM_ctor; modify (up_lvl4 (λ m, <[s := l]> m));; mret l
  end.
Definition put_lvl4_sm (s : Z) (l : Lvl4SM) : ST () := modify (up_lvl4 (λ m, <[s := l]> m)).

(** A change through a reference to the connection of [s]. *)
Definition alter_lvl4_sm (s : Z) (f : Lvl4SM → Lvl4SM) : ST () := modify (up_lvl4 (alter f s)).
Definition update_lvl4_ts (s : Z) : ST () :=
  l ← lvl4_sm s; l ← sys (update_ts l); put_lvl4_sm s l.

(** ** Sockets *)

Definition socket_bytes_avail (s : Z) (w : W) : Z :=
  u32 (match sys_fionread s w with Some n => n | None => stack_int w end).

Definition new_socket (type proto : Z) (w : W) : Z * W :=
  let '(s, w) := sys_socket type proto w in (s, sys_set_nonblock s w).

Definition add_connecting_socket (s : Z) : ST () :=
  ep ← gets _epoll; sys_ (sys_epoll_add ep s EPOLLOUT).
Definition add_connected_socket (s : Z) : ST () :=
  ep ← gets _epoll; sys_ (sys_epoll_add ep s EPOLLIN).
Definition remove_connecting_socket (s : Z) : ST () :=
  ep ← gets _epoll; sys_ (sys_epoll_del ep s).
Definition remove_connected_socket (s : Z) : ST () :=
  ep ← gets _epoll; sys_ (sys_epoll_del ep s).

Definition free_socket (s : Z) : ST () :=
  remove_connecting_socket s;;
  remove_connected_socket s;;
  sys_ (sys_close s);;
  del_lvl4_sm s;;
  modify (up_avail (λ a, u32 (a + 1)));;
  modify (up_sockets (delete s)).

Definition callback_finish (t : Target) (buf : Lvl4Buffer) (error : Z) : ST () :=
  cb ← gets _callback_finish;
  match cb with
  | Some f => run_ (call_finish f t (Buffer.block buf) (Buffer.size buf) error)
  | None => mret ()
  end.

Definition engine_target_finished (t : Target) (hsm : HostSM) : ST bool :=
  '(b, hsm) ← run (λ w, '(b, hsm, w) ← target_finished t hsm w; Ok ((b, hsm), w));
  put_host_sm (ipv4 t) hsm;;
  mret (b : bool).

Definition socket_finished (s err : Z) : ST () :=
  modify (up_counts (λ '(nl, nd), (nl, nd + 1)));;
  t ← target_from_socket s;
  lvl4sm ← lvl4_sm s;
  callback_finish t (_buf lvl4sm) err;;
  alter_lvl4_sm s free_buffer;;
  hsm ← host_sm (ipv4 t);
  done ← engine_target_finished t hsm;
  (if (done : bool) then del_host_sm t else mret ());;
  free_socket s.

(** The return value and the new socket. *)
Definition create_socket (target : Target) : ST (Z * Z) :=
  avail ← gets _avail_socks;
  lift (assume_defined (0 <? avail));;
  let port := _port target in
  s ← sys (new_socket (socket_type port) (socket_proto port));
  if s =? -1 then e ← ask errno; mret (e, s) else
  modify (up_avail (λ a, u32 (a - 1)));;
  ret ← sys (sys_connect s (to_sockaddr_in target));
  new_lvl4_sm s;;
  cb ← gets _callback_lvl4_connected;
  alter_lvl4_sm s (λ l, set_on_connect cb (set_sm (StateMachine.set_valid true (l_sm l)) l));;
  update_lvl4_ts s;;
  modify (up_sockets (map_insert s target));;
  mret (ret, s).

Definition reconnect (s : Z) (target : Target) (lvl4sm : Lvl4SM) : ST () :=
  let cur_action := _func_connect lvl4sm in
  remove_connected_socket s;;
  sys_ (sys_close s);;
  modify (up_avail (λ a, u32 (a + 1)));;
  '(_, s) ← create_socket target;
  _ ← lvl4_sm s;
  alter_lvl4_sm s (set_on_connect cur_action);;
  add_connecting_socket s.

(** ** Events *)

(** Runs a function of the connection of [s] on the connection, the host of
    the target and the world. *)
Definition on_connection (s : Z) (target : Target)
    (f : ctx W → result (bool * ctx W)) : ST bool :=
  lvl4sm ← lvl4_sm s;
  hsm ← host_sm (ipv4 target);
  '(ret, c) ← (λ s : st, '(ret, c) ← f (mkCtx lvl4sm hsm s.2);
                         Ok ((ret, c), (s.1, c_world c)));
  put_lvl4_sm s (c_sm c);;
  put_host_sm (ipv4 target) (c_hsm c);;
  mret (ret : bool).

Definition process_connecting_ready (s : Z) : ST () :=
  err ← sys (sys_so_error s);
  if negb (err =? 0) then socket_finished s err else
  target ← target_from_socket s;
  ret ← on_connection s target (on_connect s target);
  if (ret : bool)
  then remove_connecting_socket s;; add_connected_socket s;; update_lvl4_ts s
  else socket_finished s 0.

Definition process_connected_ready (fuel : nat) (s : Z) (target : Target) : ST () :=
  navail ← ask (socket_bytes_avail s);
  if navail =? 0 then
    lvl4sm ← lvl4_sm s;
    if _reconnect lvl4sm then
      callback_finish target (_buf lvl4sm) WILL_RECONNECT;;
      alter_lvl4_sm s free_buffer;;
      reconnect s target lvl4sm
    else socket_finished s ECONNRESET
  else
    ret ← on_connection s target (process_lvl4_data fuel s navail target);
    update_lvl4_ts s;;
    if (ret : bool) then mret () else socket_finished s 0.

Definition has_flag (flag events : Z) : bool := Z.land events flag =? flag.

(** One event; the connection is looked up before the function is called. *)
Definition process_event (fuel : nat) (ev : Z * Z) : ST () :=
  let '(fd, events) := ev in
  if has_flag EPOLLOUT events then
    _ ← lvl4_sm fd; process_connecting_ready fd
  else if has_flag EPOLLIN events then
    t ← target_from_socket fd;
    _ ← lvl4_sm fd;
    process_connected_ready fuel fd t
  else mret ().

Fixpoint for_each {A} (f : A → ST ()) (l : list A) : ST () :=
  match l with
  | [] => mret ()
  | a :: l => f a;; for_each f l
  end.

Definition process_events (fuel : nat) : ST Z :=
  ep ← gets _epoll;
  events ← sys (sys_epoll_wait ep MAX_EVENTS);
  match events with
  | None => mret (-1)
  | Some events => for_each (process_event fuel) events;; mret (zlen events)
  end.

(** ** New targets *)

Inductive launch_result := Launched (s : Z) (t : Target) | EndOfTargets | WouldBlock.

(** The [while (true)]: the next target to which [connect] can be called. *)
Fixpoint launch_next (fuel : nat) : ST launch_result :=
  match fuel with
  | O => lift (Fail OutOfFuel)
  | S fuel =>
      r ← run next_target;
      match r with
      | NextTargetWouldBlock => mret WouldBlock
      | NextTarget cur_target =>
          if is_end cur_target then mret EndOfTargets else
          modify (up_counts (λ '(nl, nd), (nl + 1, nd)));;
          '(ret, s) ← create_socket cur_target;
          if ret =? 0 then mret (Launched s cur_target) else
          e ← ask errno;
          if e =? EINPROGRESS then mret (Launched s cur_target) else
          socket_finished s e;;
          launch_next fuel
      end
  end.

(** The rounds of the [for] loop that are left. *)
Fixpoint launch_loop (fuel : nat) (n : nat) : ST bool :=
  match n with
  | O => mret true
  | S n =>
      r ← launch_next fuel;
      match r with
      | EndOfTargets => mret false
      | WouldBlock => mret true
      | Launched s cur_target =>
          hsm ← host_sm (ipv4 cur_target);
          hsm ← run (init_host_sm cur_target hsm);
          put_host_sm (ipv4 cur_target) hsm;;
          add_connecting_socket s;;
          launch_loop fuel n
      end
  end.

Definition process_free_socks (fuel : nat) : ST bool :=
  avail_socks ← gets _avail_socks;
  launch_loop fuel (Z.to_nat avail_socks).

(** ** Timeouts *)

Definition timeout_of_target (t : Target) : ST Z :=
  cb ← gets _callback_timeout_target;
  match cb with
  | Some f => run (call_timeout f t)
  | None => gets _timeout
  end.

Definition has_watch_timedout (ts s : Z) : ST bool :=
  cb ← gets _watch_timeout_cb;
  watch_timeout ← gets _watch_timeout;
  match cb with
  | None => mret false
  | Some f =>
      if watch_timeout =? 0 then mret false else
      lvl4sm ← lvl4_sm s;
      if watch_timeout <=? ts - StateMachine._watch_ts (l_sm lvl4sm) then
        t ← ask (from_socket s);
        go ← run (call_watch f (mkConnected t s));
        if (go : bool) then
          alter_lvl4_sm s (λ l, set_sm (StateMachine.update_watch_ts ts (l_sm l)) l);;
          mret false
        else mret true
      else mret false
  end.

(** One connection: is it to be processed, has it timed out, is it still valid. *)
Definition check_connection (ts s : Z) : ST (bool * bool * bool) :=
  p ← lvl4_sm s;
  if negb (StateMachine._valid (l_sm p)) then mret (false, false, false) else
  let '(dirty, p) := should_process_buffer p in
  put_lvl4_sm s p;;
  t ← ask (from_socket s);
  timeout_target ← timeout_of_target t;
  timedout ← (if timeout_target <=? ts - StateMachine._ts (l_sm p) then mret true
              else has_watch_timedout ts s);
  mret (dirty, (timedout : bool), negb timedout).

(** The first loop: [to_process], [timeouted] and [n_lvl4_sms_valid]. *)
Fixpoint check_loop (ts : Z) (keys : list Z) : ST (list Z * list Z * Z) :=
  match keys with
  | [] => mret ([], [], 0)
  | s :: keys =>
      '(dirty, timedout, valid) ← check_connection ts s;
      '(to_process, timeouted, n) ← check_loop ts keys;
      mret ((if (dirty : bool) then [s] else []) ++ to_process,
            (if (timedout : bool) then [s] else []) ++ timeouted,
            (if (valid : bool) then 1 else 0) + n)
  end.

(** The keys of a [std::map<int, _>], in order. *)
Definition map_keys {A} (m : gmap Z A) : list Z := merge_sort Z.le (elements (dom m)).

Definition process_dirty (fuel : nat) (s : Z) : ST () :=
  target ← target_from_socket s;
  ret ← on_connection s target (process_buffer fuel s target);
  if (ret : bool) then mret () else socket_finished s 0.

Definition process_dirty_and_timeouts (fuel : nat) : ST Z :=
  ts ← sys timestamp;
  sms ← gets _lvl4_sms;
  '(to_process, timeouted, n) ← check_loop ts (map_keys sms);
  for_each (process_dirty fuel) to_process;;
  for_each (λ s, socket_finished s NS_TIMEOUT) timeouted;;
  mret n.

(** ** The scan *)

Definition should_call_status_display : ST bool :=
  cb ← gets _callback_status;
  timeout ← gets _timeout_status_display;
  if bool_decide (is_Some cb) && negb (timeout =? 0) then
    now ← sys timestamp;
    last ← gets _last_time_status_display;
    if timeout <=? now - last then modify (up_last_status now);; mret true else mret false
  else mret false.

Definition call_status_display : ST () :=
  should ← should_call_status_display;
  if (should : bool) then
    cb ← gets _callback_status;
    nl ← gets _nlaunched;
    nd ← gets _ndone;
    f ← lift (of_option BadFunctionCall cb);
    run_ (call_status f (u32 nl) (u32 nd))
  else mret ().

Definition call_autosave : ST () :=
  e ← gets e_engine;
  '(should, e) ← run (λ w, '(b, e, w) ← should_save_state e w; Ok ((b, e), w));
  modify (up_engine (λ _, e));;
  if (should : bool) then run_ (save_state (_file_autosave e)) else mret ().

(** One round of the [while (true)]; [true] is its [break]. *)
Definition scan_round (fuel : nat) : ST bool :=
  nfds ← process_events fuel;
  n_lvl4_sms_valid ← process_dirty_and_timeouts fuel;
  more_targets ← process_free_socks fuel;
  let end_targets := negb more_targets in
  if (nfds =? 0) && (n_lvl4_sms_valid =? 0) && end_targets then mret true else
  call_status_display;;
  call_autosave;;
  mret false.

Fixpoint scan_loop (fuel rounds : nat) : ST () :=
  match rounds with
  | O => lift (Fail OutOfFuel)
  | S rounds =>
      stop ← scan_round fuel;
      if (stop : bool) then mret () else scan_loop fuel rounds
  end.

Definition do_async_scan (fuel rounds : nat) : ST () :=
  nsockets ← gets _nsockets;
  ep ← sys (sys_epoll_create nsockets);
  modify (up_epoll ep);;
  modify (up_counts (λ _, (0, 0)));;
  modify (up_last_status 0);;
  _ ← process_free_socks fuel;
  scan_loop fuel rounds.

Definition launch (fuel rounds : nat) : ST () :=
  run_ init_scan;; do_async_scan fuel rounds.

Definition launch_shrd (fuel rounds : nat) : ST () := do_async_scan fuel rounds.

End AsyncEngine.
