(* ===== verification/Frames.v ===== *)
(** * Reasoning on the engine's monad

    The rules of [post], what holds of every result of a computation, and the
    functions of the engine that change neither the sockets nor what is said on
    them: they look at the connections, the hosts, the clock and the functions
    of the user. Any relation on states that allows these few things ([Frame])
    holds between the state before such a function and the one after it; the
    accounts of Accounting.v, the logs of Ledger.v and the conversations of
    Talks.v are such relations. *)

From S2P Require Import Prelude Lvl4Buffer Leeloo Target HostSM Lvl4SM TargetSet Engine AsyncEngine.

Section Post.
Context {L : Leeloo} {C : Closures} {M : Malloc} {W : Type}.
Context {OSW : OS W} {K : Calls W} {T : TargetSet W} {EC : EngineCalls W}.

(** [Q] holds of every result of [m] from [s]. *)
Definition post {A} (m : ST A) (s : st) (Q : A → st → Prop) : Prop :=
  ∀ a s', m s = Ok (a, s') → Q a s'.

Lemma post_ret {A} (a : A) s Q : Q a s → post (mret a) s Q.
Proof. intros H a' s' [= <- <-]. done. Qed.

Lemma post_bind {A B} (m : ST A) (f : A → ST B) s Q :
  post m s (λ a s', post (f a) s' Q) → post (m ≫= f) s Q.
Proof.
  intros H b s' Hb. unfold mbind, ST_bind in Hb.
  destruct (m s) as [[a s1]|e] eqn:E; [|done]. exact (H a s1 E b s' Hb).
Qed.

Lemma ST_bind_Ok {A B} (m : ST A) (f : A → ST B) s a s' :
  m s = Ok (a, s') → (m ≫= f) s = f a s'.
Proof. intros H. unfold mbind, ST_bind. by rewrite H. Qed.

Lemma post_mono {A} (m : ST A) s (Q R : A → st → Prop) :
  post m s Q → (∀ a s', Q a s' → R a s') → post m s R.
Proof. intros H HQR a s' Hm. apply HQR. by apply H. Qed.

Lemma post_gets {A} (f : AsyncEngine → A) s Q : Q (f s.1) s → post (gets f) s Q.
Proof. intros H a s' [= <- <-]. done. Qed.

Lemma post_modify f s Q : Q () (f s.1, s.2) → post (modify f) s Q.
Proof. intros H a s' [= <- <-]. done. Qed.

Lemma post_sys {A} (f : W → A * W) s Q :
  (∀ a w, f s.2 = (a, w) → Q a (s.1, w)) → post (sys f) s Q.
Proof.
  intros H a s'. unfold sys. destruct (f s.2) as [b w] eqn:E. intros [= <- <-]. by apply H.
Qed.

Lemma post_sys_ (f : W → W) s Q : Q () (s.1, f s.2) → post (sys_ f) s Q.
Proof. intros H a s' [= <- <-]. done. Qed.

Lemma post_ask {A} (f : W → A) s Q : Q (f s.2) s → post (ask f) s Q.
Proof. intros H a s' [= <- <-]. done. Qed.

Lemma post_run {A} (f : W → result (A * W)) s Q :
  (∀ a w, f s.2 = Ok (a, w) → Q a (s.1, w)) → post (run f) s Q.
Proof.
  intros H a s'. unfold run. destruct (f s.2) as [[b w]|] eqn:E; [|done].
  intros [= <- <-]. by apply H.
Qed.

Lemma post_run_ (f : W → result W) s Q :
  (∀ w, f s.2 = Ok w → Q () (s.1, w)) → post (run_ f) s Q.
Proof.
  intros H a s'. unfold run_. destruct (f s.2) as [w|] eqn:E; [|done].
  intros [= <- <-]. by apply H.
Qed.

Lemma post_lift {A} (r : result A) s Q : (∀ a, r = Ok a → Q a s) → post (lift r) s Q.
Proof.
  intros H a s'. unfold lift. destruct r as [b|]; [|done]. intros [= <- <-]. by apply H.
Qed.

Lemma post_for_each {A} (f : A → ST ()) l (I : st → Prop) s :
  I s → (∀ a s, a ∈ l → I s → post (f a) s (λ _, I)) → post (for_each f l) s (λ _, I).
Proof.
  revert s; induction l as [|a l IH]; intros s Hs Hf; simpl; [by apply post_ret|].
  apply post_bind. eapply post_mono; [apply Hf; [set_solver|done]|].
  intros ? s' Hs'. apply IH; [done|]. intros b s'' Hb. apply Hf. set_solver.
Qed.

Lemma post_any {A B} (m : ST A) (f : A → ST B) s Q :
  (∀ a s', post (f a) s' Q) → post (m ≫= f) s Q.
Proof. intros H. apply post_bind. intros a s' _. apply H. Qed.

(** Looking up a connection that is there. *)
Lemma lvl4_sm_present s l st0 :
  _lvl4_sms st0.1 !! s = Some l → lvl4_sm s st0 = Ok (l, st0).
Proof. intros Hl. unfold lvl4_sm, mbind, ST_bind, gets. simpl. by rewrite Hl. Qed.

Lemma target_from_socket_present s st0 r :
  target_from_socket s st0 = r →
  match _sockets_targets st0.1 !! s with
  | Some t => r = Ok (t, st0)
  | None => r = Fail UB
  end.
Proof.
  intros <-. unfold target_from_socket, mbind, ST_bind, gets, lift. simpl.
  by destruct (_ !! s).
Qed.

Lemma post_lvl4_sm s st0 Q :
  s ∈ dom (_lvl4_sms st0.1) →
  (∀ l, _lvl4_sms st0.1 !! s = Some l → Q l st0) → post (lvl4_sm s) st0 Q.
Proof.
  intros [l Hl]%elem_of_dom HQ a s' Hm. rewrite (lvl4_sm_present s l) in Hm by done.
  injection Hm as <- <-. by apply HQ.
Qed.

Lemma post_target s st0 Q :
  (∀ t, _sockets_targets st0.1 !! s = Some t → Q t st0) → post (target_from_socket s) st0 Q.
Proof.
  intros HQ a s' Hm. pose proof (target_from_socket_present s st0 _ Hm) as H.
  destruct (_ !! s) as [t|] eqn:E; [|done]. injection H as -> ->. by apply HQ.
Qed.

(** What a function run on a connection has done: it was given the host of the
    target, which may be new. *)
Lemma on_connection_inv i t f s r s2 :
  on_connection i t f s = Ok (r, s2) → i ∈ dom (_lvl4_sms s.1) →
  ∃ l h s1 c hs, _lvl4_sms s.1 !! i = Some l ∧ host_sm (ipv4 t) s = Ok (h, s1) ∧
    _lvl4_sms s1.1 = _lvl4_sms s.1 ∧ f (mkCtx l h s1.2) = Ok (r, c) ∧
    s2 = (up_hosts hs (up_lvl4 (<[i := c_sm c]>) s1.1), c_world c).
Proof.
  intros Hm Hi. revert r s2 Hm.
  apply (post_bind (lvl4_sm i) _ s (λ r s2, _)), post_lvl4_sm; [done|]. intros l Hl.
  apply post_bind. intros h s1 Hh. apply post_bind. intros [r c] s3 Hf. simpl in Hf.
  destruct (f (mkCtx l h s1.2)) as [[r' c']|] eqn:E; [|done]. injection Hf as <- <- <-.
  apply post_bind, post_modify, post_bind, post_modify, post_ret.
  exists l, h, s1, c'. eexists. split_and!; [done|done| |done|reflexivity].
  revert Hh. unfold host_sm, mbind, ST_bind, gets, sys, modify. simpl.
  destruct (_ !! ipv4 t); [by intros [= <- <-]|]. destruct (HostSM_ctor s.2). by intros [= <- <-].
Qed.

Lemma map_insert_None {A} k (a : A) m : m !! k = None → map_insert k a m = <[k := a]> m.
Proof. unfold map_insert. by intros ->. Qed.

Lemma elem_of_map_keys {A} (m : gmap Z A) k : k ∈ map_keys m ↔ k ∈ dom m.
Proof.
  unfold map_keys. rewrite merge_sort_Permutation. apply elem_of_elements.
Qed.

Lemma map_keys_NoDup {A} (m : gmap Z A) : NoDup (map_keys m).
Proof. unfold map_keys. rewrite merge_sort_Permutation. apply NoDup_elements. Qed.

End Post.

(** ** Frames *)

Section Frames.
Context {L : Leeloo} {C : Closures} {M : Malloc} {W : Type}.
Context {OSW : OS W} {K : Calls W} {T : TargetSet W} {EC : EngineCalls W}.

(** What the engine's own tests change of a connection is its state machine
    and whether it is to be processed again. *)
Definition same_connection (l l' : Lvl4SM) : Prop :=
  _trigger l' = _trigger l ∧ _buf l' = _buf l ∧ _func_connect l' = _func_connect l ∧
  _reconnect l' = _reconnect l.

(** A relation on states, and one on the world, that the functions which
    write no connection respect. *)
Class Frame (R : st → st → Prop) (RW : W → W → Prop) : Prop := {
  frame_preorder : PreOrder R;
  frame_world e w w' : RW w w' → R (e, w) (e, w');
  frame_hosts e w f : R (e, w) (up_hosts f e, w);
  frame_engine e w f : R (e, w) (up_engine f e, w);
  frame_last_status e w t : R (e, w) (up_last_status t e, w);
  frame_time w t w' : sys_time w = (t, w') → RW w w';
}.

(** The tests leave alone whether a connection is valid and its time stamp. *)
Definition tested (l l' : Lvl4SM) : Prop :=
  same_connection l l' ∧ StateMachine._valid (l_sm l') = StateMachine._valid (l_sm l) ∧
  StateMachine._ts (l_sm l') = StateMachine._ts (l_sm l).

(** The relation allows the engine's tests of a connection, too, or anything
    that the engine does to its state machine. *)
Class Touches (R : st → st → Prop) : Prop :=
  touches e w i l l' : _lvl4_sms e !! i = Some l → tested l l' →
    R (e, w) (up_lvl4 (<[i := l']>) e, w).
Class Stamps (R : st → st → Prop) : Prop :=
  stamps e w i l l' : _lvl4_sms e !! i = Some l → same_connection l l' →
    R (e, w) (up_lvl4 (<[i := l']>) e, w).

#[export] Instance stamps_touches R : Stamps R → Touches R.
Proof. intros H e w i l l' Hl [Ht _]. by eapply H. Qed.

(** The functions of the user and of the set that do not end a target. *)
Class Asked (RW : W → W → Prop) : Prop := {
  asked_status f nl nd w w' : call_status f nl nd w = Ok w' → RW w w';
  asked_watch f t w b w' : call_watch f t w = Ok (b, w') → RW w w';
  asked_timeout f t w n w' : call_timeout f t w = Ok (n, w') → RW w w';
  asked_init_host t h w h' w' : ts_init_host_sm t h w = Ok (h', w') → RW w w';
  asked_save f w w' : ts_save_state f w = Ok w' → RW w w';
}.

(** The relation keeps the connections that there are. *)
Class Domed (R : st → st → Prop) : Prop :=
  domed s s' : R s s' → dom (_lvl4_sms s.1) ⊆ dom (_lvl4_sms s'.1).

(** The world may be told that a target is finished. *)
Class Told (RW : W → W → Prop) : Prop := {
  told_finish f t buf n err w w' : call_finish f t buf n err w = Ok w' → RW w w';
  told_finished t h w b h' w' : ts_target_finished t h w = Ok (b, h', w') → RW w w';
}.

Definition both {A} (R1 R2 : A → A → Prop) (x y : A) : Prop := R1 x y ∧ R2 x y.

#[export] Instance frame_both R1 RW1 R2 RW2 :
  Frame R1 RW1 → Frame R2 RW2 → Frame (both R1 R2) (both RW1 RW2).
Proof.
  intros F1 F2. split.
  - pose proof (frame_preorder (Frame := F1)). pose proof (frame_preorder (Frame := F2)).
    split; [by split|]. intros s1 s2 s3 [] []. split; by etrans.
  - intros * []. split; by eapply frame_world.
  - split; eapply frame_hosts.
  - split; eapply frame_engine.
  - split; eapply frame_last_status.
  - split; by eapply frame_time.
Qed.

#[export] Instance touches_both R1 R2 : Touches R1 → Touches R2 → Touches (both R1 R2).
Proof. intros T1 T2. split; by eapply touches. Qed.

#[export] Instance stamps_both R1 R2 : Stamps R1 → Stamps R2 → Stamps (both R1 R2).
Proof. intros T1 T2. split; by eapply stamps. Qed.

#[export] Instance asked_both RW1 RW2 : Asked RW1 → Asked RW2 → Asked (both RW1 RW2).
Proof. intros [] []. split; split; eauto. Qed.

#[export] Instance domed_both_l R1 R2 : Domed R1 → Domed (both R1 R2).
Proof. intros D s s' []. by apply D. Qed.

#[export] Instance told_both RW1 RW2 : Told RW1 → Told RW2 → Told (both RW1 RW2).
Proof. intros [] []. split; split; eauto. Qed.

(** What the functions of a connection do to it, and what this is for [R]. A
    function of the protocols or of the user is in [RC]; so is anything that
    reads from the socket or leaves alone whether to reconnect and the state
    machine. *)
Class Runs (R : st → st → Prop) (RC : ctx W → ctx W → Prop) : Prop := {
  runs_preorder : PreOrder RC;
  runs_connection e w i l h c : _lvl4_sms e !! i = Some l → RC (mkCtx l h w) c →
    R (e, w) (up_lvl4 (<[i := c_sm c]>) e, c_world c);
  runs_data d t off n (c : ctx W) r c' : call_data d t off n c = Ok (r, c') → RC c c';
  runs_connect a t (c : ctx W) r c' : call_connect a t c = Ok (r, c') → RC c c';
  runs_python o t pos (c : ctx W) r c' : call_python o t pos c = Ok (r, c') → RC c c';
  runs_sm c l : _reconnect l = _reconnect (c_sm c) → l_sm l = l_sm (c_sm c) →
    RC c (mkCtx l (c_hsm c) (c_world c));
  runs_read s n c r d w : sys_read s n (c_world c) = (r, d, w) → RC c (with_world w c);
}.

#[export] Instance runs_both R1 RC1 R2 RC2 :
  Runs R1 RC1 → Runs R2 RC2 → Runs (both R1 R2) (both RC1 RC2).
Proof.
  intros F1 F2. split.
  - pose proof (runs_preorder (Runs := F1)). pose proof (runs_preorder (Runs := F2)).
    split; [by split|]. intros c1 c2 c3 [] []. split; by etrans.
  - intros * Hl []. split; by eapply runs_connection.
  - split; by eapply runs_data.
  - split; by eapply runs_connect.
  - split; by eapply runs_python.
  - split; by eapply runs_sm.
  - split; by eapply runs_read.
Qed.

(** [m] is framed by [R] from [s]. *)
Abbreviation frames R m s := (post m s (λ _, R s)).

Context {R : st → st → Prop} {RW : W → W → Prop} {FR : Frame R RW}.

#[local] Instance frame_pre : PreOrder R.
Proof. apply frame_preorder. Qed.

Lemma frame_bind {A B} (m : ST A) (f : A → ST B) s :
  frames R m s → (∀ a s', R s s' → frames R (f a) s') → frames R (m ≫= f) s.
Proof.
  intros Hm Hf. apply post_bind. eapply post_mono; [exact Hm|]. simpl. intros a s1 H1.
  eapply post_mono; [by apply Hf|]. simpl. intros _ s2 H2. by etrans.
Qed.

Lemma frame_ret {A} (a : A) s : frames R (mret a) s.
Proof. by apply post_ret. Qed.
Lemma frame_gets {A} (f : AsyncEngine → A) s : frames R (gets f) s.
Proof. by apply post_gets. Qed.
Lemma frame_ask {A} (f : W → A) s : frames R (ask f) s.
Proof. by apply post_ask. Qed.
Lemma frame_lift {A} (r : result A) s : frames R (lift r) s.
Proof. by apply post_lift. Qed.
Lemma frame_sys {A} (f : W → A * W) s : (∀ a w, f s.2 = (a, w) → RW s.2 w) → frames R (sys f) s.
Proof. intros H. destruct s as [e0 w0]. apply post_sys. intros a w' Hf. eapply frame_world, H, Hf. Qed.
Lemma frame_sys_ (f : W → W) s : RW s.2 (f s.2) → frames R (sys_ f) s.
Proof. intros H. destruct s. by apply post_sys_, frame_world. Qed.
Lemma frame_run {A} (f : W → result (A * W)) s :
  (∀ a w, f s.2 = Ok (a, w) → RW s.2 w) → frames R (run f) s.
Proof. intros H. destruct s as [e0 w0]. apply post_run. intros a w' Hf. eapply frame_world, H, Hf. Qed.
Lemma frame_run_ (f : W → result W) s : (∀ w, f s.2 = Ok w → RW s.2 w) → frames R (run_ f) s.
Proof. intros H. destruct s as [e0 w0]. apply post_run_. intros w' Hf. eapply frame_world, H, Hf. Qed.

Lemma frame_epoll (f : Z → W → W) s :
  (∀ ep w, RW w (f ep w)) → frames R (ep ← gets _epoll; sys_ (f ep)) s.
Proof. intros H. apply frame_bind; [apply frame_gets|]. intros. by apply frame_sys_. Qed.

(** ** Hosts and clocks *)

Lemma timestamp_RW w t w' : timestamp w = (t, w') → RW w w'.
Proof. apply frame_time. Qed.

Lemma frame_timestamp s : frames R (sys timestamp) s.
Proof. apply frame_sys. intros. by eapply timestamp_RW. Qed.

Lemma HostSM_RW w h w' : HostSM_ctor w = (h, w') → RW w w'.
Proof.
  unfold HostSM_ctor, StateMachine.StateMachine_ctor. destruct (timestamp w) as [t w1] eqn:E.
  intros [= _ <-]. by eapply timestamp_RW.
Qed.

Lemma Lvl4SM_RW w l w' : Lvl4SM_ctor w = (l, w') → RW w w'.
Proof.
  unfold Lvl4SM_ctor, StateMachine.StateMachine_ctor. destruct (timestamp w) as [t w1] eqn:E.
  intros [= _ <-]. by eapply timestamp_RW.
Qed.

Lemma update_ts_RW l w l' w' : update_ts l w = (l', w') → same_connection l l' ∧ RW w w'.
Proof.
  unfold update_ts, StateMachine.update_ts. destruct (timestamp w) as [t w1] eqn:E.
  intros [= <- <-]. split; [done|]. by eapply timestamp_RW.
Qed.

Lemma frame_put_hosts f s : frames R (modify (up_hosts f)) s.
Proof. destruct s. apply post_modify, frame_hosts. Qed.

Lemma frame_host_sm ip s : frames R (host_sm ip) s.
Proof.
  apply frame_bind; [apply frame_gets|intros hs s1 _]. destruct (hs !! ip); [apply frame_ret|].
  apply frame_bind; [apply frame_sys, HostSM_RW|intros h s2 _].
  apply frame_bind; [apply frame_put_hosts|intros; apply frame_ret].
Qed.

Lemma frame_init_host_sm `{!Asked RW} t h s : frames R (run (init_host_sm t h)) s.
Proof. apply frame_run. intros. by eapply asked_init_host. Qed.

Lemma frame_callback_finish `{!Told RW} t b err s : frames R (callback_finish t b err) s.
Proof.
  apply frame_bind; [apply frame_gets|intros [f|] s1 _; [|apply frame_ret]].
  apply frame_run_. intros. by eapply told_finish.
Qed.

Lemma frame_engine_target_finished `{!Told RW} t h s : frames R (engine_target_finished t h) s.
Proof.
  apply frame_bind.
  - apply frame_run. intros [b h'] w H. inv_ok. by eapply told_finished.
  - intros [b h'] s1 _. apply frame_bind; [apply frame_put_hosts|intros; apply frame_ret].
Qed.

(** ** Connections *)

Context {D : Domed R}.

Lemma frame_dom i s s' : R s s' → i ∈ dom (_lvl4_sms s.1) → i ∈ dom (_lvl4_sms s'.1).
Proof. intros H. by apply D. Qed.

Lemma frame_lvl4_sm i s : i ∈ dom (_lvl4_sms s.1) → frames R (lvl4_sm i) s.
Proof. intros Hi. by apply post_lvl4_sm. Qed.

Lemma frame_update_ts {SR : Stamps R} i s :
  i ∈ dom (_lvl4_sms s.1) → frames R (update_lvl4_ts i) s.
Proof.
  intros Hi. apply post_bind, post_lvl4_sm; [done|]. intros l Hl. destruct s as [e w].
  apply post_bind, post_sys. intros l' w' [Hs Hw]%update_ts_RW. apply post_modify. simpl in *.
  etrans; [by apply frame_world|by eapply stamps].
Qed.

Section Touching.
Context {TR : Touches R}.

Lemma frame_put_lvl4_sm i l l' s :
  _lvl4_sms s.1 !! i = Some l → tested l l' → frames R (put_lvl4_sm i l') s.
Proof. intros Hl Hs. destruct s. by eapply post_modify, touches. Qed.

Lemma frame_alter_lvl4_sm i f s :
  i ∈ dom (_lvl4_sms s.1) → (∀ l, tested l (f l)) → frames R (alter_lvl4_sm i f) s.
Proof.
  intros [l Hl]%elem_of_dom Hf. destruct s as [e w]. apply post_modify. simpl in *.
  replace (up_lvl4 (alter f i) e) with (up_lvl4 (<[i := f l]>) e); [by eapply touches|].
  unfold up_lvl4. f_equal. apply map_eq. intros j. rewrite lookup_insert, lookup_alter.
  case_decide; [subst; by rewrite Hl|done].
Qed.

Lemma frame_timeout_of_target `{!Asked RW} t s : frames R (timeout_of_target t) s.
Proof.
  apply frame_bind; [apply frame_gets|intros [f|] s1 _]; [|apply frame_gets].
  apply frame_run. intros. by eapply asked_timeout.
Qed.

Lemma frame_has_watch_timedout `{!Asked RW} ts i s :
  i ∈ dom (_lvl4_sms s.1) → frames R (has_watch_timedout ts i) s.
Proof.
  intros Hi. apply frame_bind; [apply frame_gets|intros cb s1 H1].
  apply frame_bind; [apply frame_gets|intros n s2 H2].
  assert (Hi2 : i ∈ dom (_lvl4_sms s2.1)) by (do 2 (eapply frame_dom; [eassumption|]); done).
  destruct cb as [f|]; [|apply frame_ret]. destruct (n =? 0); [apply frame_ret|].
  apply frame_bind; [by apply frame_lvl4_sm|intros l s3 H3]. destruct (_ <=? _); [|apply frame_ret].
  apply frame_bind; [apply frame_ask|intros t s4 H4].
  apply frame_bind; [apply frame_run; intros; by eapply asked_watch|intros [] s5 H5; [|apply frame_ret]].
  apply frame_bind; [|intros; apply frame_ret]. apply frame_alter_lvl4_sm; [|done].
  do 3 (eapply frame_dom; [eassumption|]). done.
Qed.

Lemma should_process_buffer_same l : tested l (should_process_buffer l).2.
Proof. unfold should_process_buffer. by destruct (_reprocess l). Qed.

Lemma frame_check_connection `{!Asked RW} ts i s :
  i ∈ dom (_lvl4_sms s.1) → frames R (check_connection ts i) s.
Proof.
  intros Hi. apply post_bind, post_lvl4_sm; [done|]. intros p Hp.
  destruct (negb _); [apply frame_ret|]. pose proof (should_process_buffer_same p) as Hs.
  destruct (should_process_buffer p) as [dirty p']. simpl in Hs.
  apply frame_bind; [by eapply frame_put_lvl4_sm|intros _ s1 H1].
  apply frame_bind; [apply frame_ask|intros t s2 H2].
  apply frame_bind; [apply frame_timeout_of_target|intros n s3 H3].
  apply frame_bind; [|intros; apply frame_ret].
  destruct (_ <=? _); [apply frame_ret|]. apply frame_has_watch_timedout.
  do 3 (eapply frame_dom; [eassumption|]). done.
Qed.

Lemma frame_check_loop `{!Asked RW} ts keys s :
  (∀ i, i ∈ keys → i ∈ dom (_lvl4_sms s.1)) → frames R (check_loop ts keys) s.
Proof.
  revert s; induction keys as [|i keys IH]; intros s Hk; [apply frame_ret|].
  apply frame_bind; [apply frame_check_connection, Hk; set_solver|intros [[d o] v] s1 H1].
  apply frame_bind; [|intros [[tp to] n] s2 _; apply frame_ret].
  apply IH. intros j Hj. eapply frame_dom; [exact H1|]. apply Hk. set_solver.
Qed.

End Touching.

(** ** Functions run on a connection *)

Section Runs.
Context {RC : ctx W → ctx W → Prop} {RR : Runs R RC}.

#[local] Instance runs_pre : PreOrder RC.
Proof. apply runs_preorder. Qed.

Lemma runs_trigger ct pos (c : ctx W) r c' :
  trigger_process_buffer ct pos c = Ok (r, c') → RC c c'.
Proof.
  assert (Hcall : ∀ f off n (c : ctx W) b r c1 k, call_function f ct off n c = Ok (b, c1) →
    k = with_sm (set_buf r) c1 → RC c k).
  { intros f off n c0 b r0 c1 k H ->. unfold call_function in H. inv_ok.
    etrans; [by eapply runs_data|by apply runs_sm]. }
  unfold trigger_process_buffer, SizeDataTrigger_process_buffer, CharDataTrigger_process_buffer.
  destruct (_trigger (c_sm c)) as [|n f|ch f|o]; [by intros [= <- <-]| | |apply runs_python].
  - destruct (_ <? _); [by intros [= <- <-]|]. intros H. inv_ok.
    destruct b; simpl in H; inv_ok; [by eapply Hcall|].
    unfold call_function in *. inv_ok. by eapply runs_data.
  - intros H. inv_ok. destruct (find_byte _ _); inv_ok; [|done].
    destruct b; simpl in H; inv_ok; [by eapply Hcall|].
    unfold call_function in *. inv_ok. by eapply runs_data.
Qed.

Lemma runs_process_loop fuel ct pos (c : ctx W) r c' :
  process_loop fuel ct pos c = Ok (r, c') → RC c c'.
Proof.
  revert pos c. induction fuel as [|fuel IH]; intros pos c; simpl; [done|].
  destruct (trigger_process_buffer ct pos c) as [[r1 c1]|] eqn:E; [|done]. simpl.
  apply runs_trigger in E. destruct r1; [by intros [= <- <-]| |by intros [= <- <-]].
  intros H%IH. by etrans.
Qed.

Lemma runs_process_lvl4_data fuel s n t (c : ctx W) r c' :
  process_lvl4_data fuel s n t c = Ok (r, c') → RC c c'.
Proof.
  unfold process_lvl4_data. destruct (Buffer.grow_by _ _) as [b off].
  destruct (sys_read s n (c_world c)) as [[nread data] w] eqn:Hr. intros H. inv_ok.
  apply runs_read in Hr. match goal with H : Buffer.write_at _ _ _ = Ok ?b |- _ =>
    assert (H1 : RC c (with_world w (with_sm (set_buf b) c))) by
      (etrans; [exact Hr|by apply (runs_sm (with_world w c))]) end.
  destruct (nread <=? 0); inv_ok; [done|].
  match goal with H : process_loop _ _ _ _ = _ |- _ => apply runs_process_loop in H end. by etrans.
Qed.

Lemma runs_process_buffer fuel s t (c : ctx W) r c' :
  process_buffer fuel s t c = Ok (r, c') → RC c c'.
Proof. unfold process_buffer. intros H. inv_ok. by eapply runs_process_loop. Qed.

Lemma runs_on_connect s t (c : ctx W) r c' : on_connect s t c = Ok (r, c') → RC c c'.
Proof.
  unfold on_connect. destruct (_func_connect _); [|by intros [= <- <-]]. apply runs_connect.
Qed.

Lemma frame_on_connection i t f s :
  i ∈ dom (_lvl4_sms s.1) → (∀ c r c', f c = Ok (r, c') → RC c c') →
  frames R (on_connection i t f) s.
Proof.
  intros Hi Hf r s2 Hm. destruct (on_connection_inv _ _ _ _ _ _ Hm Hi)
    as (l & h & [e1 w1] & c & hs & Hl & Hh & Hl1 & Hc & ->). apply frame_host_sm in Hh.
  simpl in *. rewrite <- Hl1 in Hl. etrans; [exact Hh|]. etrans; [|apply frame_hosts].
  eapply runs_connection; [exact Hl|by eapply Hf].
Qed.

End Runs.

(** ** Display and save *)

Lemma frame_call_status_display `{!Asked RW} s : frames R call_status_display s.
Proof.
  unfold call_status_display, should_call_status_display. apply frame_bind.
  - apply frame_bind; [apply frame_gets|intros cb s1 _]. apply frame_bind; [apply frame_gets|intros to s2 _].
    destruct (_ && _); [|apply frame_ret].
    apply frame_bind; [apply frame_timestamp|intros now s3 _].
    apply frame_bind; [apply frame_gets|intros last s4 _]. destruct (_ <=? _); [|apply frame_ret].
    apply frame_bind; [|intros; apply frame_ret]. destruct s4. apply post_modify, frame_last_status.
  - intros [] s1 _; [|apply frame_ret]. do 3 (apply frame_bind; [apply frame_gets|intros]).
    apply frame_bind; [apply frame_lift|intros]. apply frame_run_. intros. by eapply asked_status.
Qed.

Lemma frame_call_autosave `{!Asked RW} s : frames R call_autosave s.
Proof.
  apply frame_bind; [apply frame_gets|intros e s1 _]. apply frame_bind.
  - destruct s1 as [e1 w1]. apply post_run. intros [b e'] w H. simpl in H.
    unfold should_save_state in H. destruct (_ || _); inv_ok; [reflexivity|].
    apply frame_world. destruct (sys_time w1) as [now w'] eqn:Ht. apply frame_time in Ht.
    inv_ok. destruct (_ <=? _); by inv_ok.
  - intros [b e'] s2 _. apply frame_bind; [destruct s2; apply post_modify, frame_engine|intros].
    destruct b; [|apply frame_ret]. apply frame_run_. intros. by eapply asked_save.
Qed.

End Frames.

(** [m] is framed by [R] from [s]. *)
Abbreviation frames R m s := (post m s (λ _, R s)).
