(* ===== verification/Sockets.v ===== *)
(** * What the sockets of the engine add up to

    The invariant of the engine ([accounts]): the connections and the targets
    of the open sockets have the same descriptors, all of them open; the
    sockets in use and those that are left add up to the number the engine was
    given; the targets launched are those that are done and those in flight.
    What creating and ending a socket and running functions on a connection do
    to it, when no connection asks to be reconnected; [reconnect] itself breaks
    it when the kernel gives another descriptor ([reconnect_leaks]). *)

From S2P Require Import Prelude Lvl4Buffer Leeloo Target HostSM Lvl4SM TargetSet Engine AsyncEngine Frames.

Section Sockets.
Context {L : Leeloo} {C : Closures} {M : Malloc} {W : Type}.
Context {OSW : OS W} {K : Calls W} {T : TargetSet W} {EC : EngineCalls W}.
Context {FD : OSFdLaws W OSW}.

(** ** The invariant *)

(** [N] is the number of sockets the engine was given, [d] the number of
    targets launched that are neither done nor in flight. *)
Record accounts (N d : Z) (s : st) : Prop := {
  acc_dom : dom (_lvl4_sms s.1) = dom (_sockets_targets s.1);
  acc_open : dom (_sockets_targets s.1) ⊆ open_fds s.2;
  acc_avail : 0 ≤ _avail_socks s.1 ∧
              _avail_socks s.1 + Z.of_nat (size (_sockets_targets s.1)) = N;
  acc_max : N < 2 ^ 32;
  acc_counts : _nlaunched s.1 = _ndone s.1 + Z.of_nat (size (_sockets_targets s.1)) + d;
  acc_quiet : map_Forall (λ _ l, _reconnect l = false) (_lvl4_sms s.1);
}.

(** What most functions leave alone. *)
Record same_accounts (s s' : st) : Prop := {
  sa_dom : dom (_lvl4_sms s'.1) = dom (_lvl4_sms s.1);
  sa_sockets : _sockets_targets s'.1 = _sockets_targets s.1;
  sa_avail : _avail_socks s'.1 = _avail_socks s.1;
  sa_nlaunched : _nlaunched s'.1 = _nlaunched s.1;
  sa_ndone : _ndone s'.1 = _ndone s.1;
  sa_fds : open_fds s'.2 = open_fds s.2;
  sa_quiet : map_Forall (λ _ l, _reconnect l = false) (_lvl4_sms s.1) →
             map_Forall (λ _ l, _reconnect l = false) (_lvl4_sms s'.1);
}.

#[export] Instance same_accounts_preorder : PreOrder same_accounts.
Proof.
  split; [by split|]. intros s1 s2 s3 [] []. split; try congruence. auto.
Qed.

#[export] Instance same_accounts_domed : Domed same_accounts.
Proof. intros s s' H. by rewrite (sa_dom _ _ H). Qed.

Lemma accounts_same N d s s' : same_accounts s s' → accounts N d s → accounts N d s'.
Proof.
  intros [Hd Hs Ha Hl Hn Hf Hq] [? ? ? ? ? ?].
  split; rewrite ?Hs, ?Ha, ?Hl, ?Hn, ?Hf, ?Hd in *; auto.
Qed.

Definition same_fds (w w' : W) : Prop := open_fds w' = open_fds w.

#[export] Instance accounts_frame : Frame same_accounts same_fds.
Proof.
  split; try by split.
  - exact same_accounts_preorder.
  - intros w t w'. apply time_fds.
Qed.

#[export] Instance accounts_stamps : Stamps same_accounts.
Proof.
  intros e w i l l' Hl (_ & _ & _ & Hr). split; simpl; try done.
  - rewrite dom_insert_L. apply elem_of_dom_2 in Hl. set_solver.
  - intros Hq. apply map_Forall_insert_2; [|done]. rewrite Hr. by apply (Hq i).
Qed.

(** ** Sockets that are created *)

(** A new descriptor is one that no connection has, and [create_socket]
    takes it into account. *)
Lemma create_socket_accounts N d t st0 :
  accounts N d st0 →
  post (create_socket t) st0 (λ '(ret, s) st1,
    (s = (-1) ∧ accounts N d st1 ∧ _sockets_targets st1.1 = _sockets_targets st0.1) ∨
    (0 ≤ s ∧ accounts N (d - 1) st1 ∧ s ∉ dom (_sockets_targets st0.1) ∧
     _sockets_targets st1.1 = <[s := t]> (_sockets_targets st0.1))).
Proof.
  intros Hacc. apply post_bind, post_gets. apply post_bind, post_lift. intros [] Hpos.
  apply assume_defined_Ok, Z.ltb_lt in Hpos. apply post_bind, post_sys. intros s w Hw.
  unfold new_socket in Hw.
  destruct (sys_socket _ _ st0.2) as [s' w'] eqn:Hsock. injection Hw as <- <-.
  destruct Hacc as [Hd Ho [Ha HN] Hm Hc Hq].
  destruct (s' =? -1) eqn:Es.
  { apply Z.eqb_eq in Es as ->. apply post_bind, post_ask, post_ret. left.
    split; [done|]. split; [|done]. apply socket_fresh in Hsock as [[_ Hf]|[? _]]; [|lia].
    split; simpl; try done. by rewrite set_nonblock_fds, Hf. }
  apply Z.eqb_neq in Es. apply socket_fresh in Hsock as [[? _]|(Hs0 & Hfresh & Hf)]; [lia|].
  assert (Hns : s' ∉ dom (_sockets_targets st0.1)) by set_solver.
  assert (Hnl : _lvl4_sms st0.1 !! s' = None) by (apply not_elem_of_dom; by rewrite Hd).
  apply post_bind, post_modify. simpl. apply post_bind, post_sys. intros ret w1 Hconn.
  apply connect_fds in Hconn. apply post_bind, post_bind, post_sys. intros l w2 Hl. simpl in *.
  assert (Hf2 : open_fds w2 = {[s']} ∪ open_fds st0.2).
  { unfold Lvl4SM_ctor, StateMachine.StateMachine_ctor in Hl.
    destruct (timestamp w1) as [now w2'] eqn:E. injection Hl as _ <-.
    apply time_fds in E. by rewrite E, Hconn, set_nonblock_fds. }
  assert (Hlr : _reconnect l = false).
  { unfold Lvl4SM_ctor, StateMachine.StateMachine_ctor in Hl.
    destruct (timestamp w1). by injection Hl as <- _. }
  apply post_modify. apply post_bind, post_gets. apply post_bind, post_modify.
  match goal with |- post _ ?s _ => set (st2 := s) end.
  assert (Hl2 : ∃ l', _lvl4_sms st2.1 = <[s' := l']> (_lvl4_sms st0.1) ∧ _reconnect l' = false).
  { eexists. split; [simpl; by rewrite map_insert_None, alter_insert_eq by done|done]. }
  destruct Hl2 as (l' & Hl2 & Hlr').
  apply post_bind, post_bind, post_lvl4_sm; [rewrite Hl2; set_solver|].
  intros l1 Hl1. rewrite Hl2, lookup_insert_eq in Hl1. injection Hl1 as <-.
  apply post_bind, post_sys. simpl. intros l2 w3 Hts.
  unfold update_ts, StateMachine.update_ts in Hts.
  destruct (timestamp w2) as [now w3'] eqn:Ets. injection Hts as <- <-.
  apply time_fds in Ets. apply post_modify, post_bind, post_modify, post_ret. right.
  simpl in Hl2.
  assert (Hns' : _sockets_targets st0.1 !! s' = None) by (by apply not_elem_of_dom).
  split; [done|]. split; [|split; [done|simpl; by apply map_insert_None]].
  split; simpl; rewrite ?Hl2, ?(map_insert_None s' t), ?insert_insert_eq by done.
  - by rewrite !dom_insert_L, Hd.
  - rewrite dom_insert_L, Ets, Hf2. set_solver.
  - rewrite map_size_insert_None by done. rewrite u32_small; lia.
  - done.
  - rewrite map_size_insert_None by done. lia.
  - by apply map_Forall_insert_2.
Qed.

Lemma accounts_nonneg N d st0 s : accounts N d st0 → s ∈ dom (_sockets_targets st0.1) → 0 ≤ s.
Proof. intros Hacc Hs. eapply open_fds_nonneg. by apply (acc_open _ _ _ Hacc). Qed.

(** A [socket] that fails leads to [socket_finished(-1)]. *)
Lemma create_socket_failed t st0 :
  post (create_socket t) st0 (λ '(ret, s) st1,
    s = -1 → ret = errno st1.2 ∧ ret ≠ 0 ∧ ret ≠ EINPROGRESS).
Proof.
  apply post_any. intros avail st1. apply post_any. intros _ st2.
  apply post_bind, post_sys. intros s w. unfold new_socket.
  destruct (sys_socket _ _ st2.2) as [s' w'] eqn:Hs. intros [= <- <-].
  destruct (s' =? -1) eqn:E.
  - apply Z.eqb_eq in E as ->. apply post_bind, post_ask, post_ret. intros _. simpl.
    split; [done|]. by eapply socket_errno.
  - apply Z.eqb_neq in E. do 6 (apply post_any; intros). by apply post_ret.
Qed.

(** ** Sockets that end *)

Lemma size_delete_in {A} (m : gmap Z A) i :
  i ∈ dom m → Z.of_nat (size (delete i m)) = Z.of_nat (size m) - 1.
Proof.
  intros [a Ha]%elem_of_dom. rewrite map_size_delete, Ha.
  assert (size m ≠ 0%nat); [|lia]. intros H%map_size_empty_inv. by rewrite H in Ha.
Qed.

Lemma free_socket_accounts N d s st0 :
  s ∈ dom (_sockets_targets st0.1) → accounts N d st0 →
  post (free_socket s) st0 (λ _ st1, accounts N (d + 1) st1 ∧
    _sockets_targets st1.1 = delete s (_sockets_targets st0.1)).
Proof.
  intros Hs [Hd Ho [Ha HN] Hm Hc Hq]. destruct st0 as [e w]. intros [] st1 H.
  unfold free_socket, remove_connecting_socket, remove_connected_socket, del_lvl4_sm in H.
  injection H as <-. simpl in *. split; [|done]. split; simpl.
  - rewrite !dom_delete_L. by rewrite Hd.
  - rewrite dom_delete_L, close_fds, !epoll_del_fds. set_solver.
  - rewrite size_delete_in by done. rewrite u32_small by (pose proof (size_delete_in _ _ Hs); lia). lia.
  - done.
  - rewrite size_delete_in by done. lia.
  - by apply map_Forall_delete.
Qed.

(** ** Descriptors that have no socket *)

Lemma target_finished_missing s err st0 :
  s ∉ dom (_sockets_targets st0.1) → socket_finished s err st0 = Fail UB.
Proof.
  intros Hs%not_elem_of_dom. unfold socket_finished, mbind, ST_bind, modify.
  simpl. unfold target_from_socket, mbind, ST_bind, gets, lift. simpl. by rewrite Hs.
Qed.

Lemma lvl4_sm_sockets s st0 :
  post (lvl4_sm s) st0 (λ _ st1, _sockets_targets st1.1 = _sockets_targets st0.1).
Proof.
  apply post_bind, post_gets. destruct (_ !! s); [by apply post_ret|].
  apply post_bind, post_sys. intros l w _. by apply post_bind, post_modify, post_ret.
Qed.

Lemma process_connecting_ready_missing s st0 Q :
  s ∉ dom (_sockets_targets st0.1) → post (process_connecting_ready s) st0 Q.
Proof.
  intros Hs. apply post_bind, post_sys. intros err w _. destruct (negb _).
  - intros a st1 H. by rewrite target_finished_missing in H.
  - apply post_bind, post_target. intros t Ht. exfalso. apply Hs, elem_of_dom. eauto.
Qed.

(** ** The functions of the user *)

(** What a function run on a connection may not do: open or close
    descriptors, or ask for the connection to be reconnected. *)
Definition ctx_keeps (c c' : ctx W) : Prop :=
  open_fds (c_world c') = open_fds (c_world c) ∧ _reconnect (c_sm c') = _reconnect (c_sm c).

Record user_keeps : Prop := {
  keeps_data d t off n (c : ctx W) r c' :
    call_data d t off n c = Ok (r, c') → ctx_keeps c c';
  keeps_connect a t (c : ctx W) r c' : call_connect a t c = Ok (r, c') → ctx_keeps c c';
  keeps_python o t pos (c : ctx W) r c' : call_python o t pos c = Ok (r, c') → ctx_keeps c c';
  keeps_finish f t buf n err w w' :
    call_finish f t buf n err w = Ok w' → open_fds w' = open_fds w;
  keeps_status f nl nd w w' : call_status f nl nd w = Ok w' → open_fds w' = open_fds w;
  keeps_watch f t w b w' : call_watch f t w = Ok (b, w') → open_fds w' = open_fds w;
  keeps_timeout f t w n w' : call_timeout f t w = Ok (n, w') → open_fds w' = open_fds w;
  keeps_init w w' : ts_init w = Ok w' → open_fds w' = open_fds w;
  keeps_next w r w' : ts_next_target w = Ok (r, w') → open_fds w' = open_fds w;
  keeps_finished t h w b h' w' :
    ts_target_finished t h w = Ok (b, h', w') → open_fds w' = open_fds w;
  keeps_init_host t h w h' w' :
    ts_init_host_sm t h w = Ok (h', w') → open_fds w' = open_fds w;
  keeps_save f w w' : ts_save_state f w = Ok w' → open_fds w' = open_fds w;
}.

Context (HU : user_keeps).

#[local] Instance fds_asked : Asked same_fds.
Proof.
  split.
  - apply (keeps_status HU).
  - apply (keeps_watch HU).
  - apply (keeps_timeout HU).
  - apply (keeps_init_host HU).
  - apply (keeps_save HU).
Qed.

#[local] Instance fds_told : Told same_fds.
Proof. split; [apply (keeps_finish HU)|apply (keeps_finished HU)]. Qed.

#[export] Instance ctx_keeps_preorder : PreOrder ctx_keeps.
Proof. unfold ctx_keeps. split; [done|]. intros c1 c2 c3 [] []. split; congruence. Qed.

#[local] Instance accounts_runs : Runs same_accounts ctx_keeps.
Proof.
  split.
  - exact ctx_keeps_preorder.
  - intros e w i l h c Hl [Hf Hr]. simpl in *. split; simpl; try done.
    + rewrite dom_insert_L. apply elem_of_dom_2 in Hl. set_solver.
    + intros Hq. apply map_Forall_insert_2; [|done]. rewrite Hr. by apply (Hq i).
  - apply (keeps_data HU).
  - apply (keeps_connect HU).
  - apply (keeps_python HU).
  - by split.
  - intros s n c r d w Hr%read_fds. by split.
Qed.

(** A step that leaves the accounts alone. *)
Lemma accounts_step {A B} N d (m : ST A) (f : A → ST B) Q st0 :
  accounts N d st0 → frames same_accounts m st0 →
  (∀ a st1, same_accounts st0 st1 → accounts N d st1 → post (f a) st1 Q) →
  post (m ≫= f) st0 Q.
Proof.
  intros Hacc Hm Hf. apply post_bind. eapply post_mono; [exact Hm|].
  simpl. intros a st1 H1. apply Hf; [done|]. by eapply accounts_same.
Qed.

Lemma keeps_free_buffer s st0 : frames same_accounts (alter_lvl4_sm s free_buffer) st0.
Proof.
  apply post_modify. split; simpl; try done; [by rewrite dom_alter_L|].
  intros Hq i l. rewrite lookup_alter. case_decide as Hi; [|by apply Hq].
  intros [l' [Hl' ->]]%fmap_Some. exact (Hq _ _ Hl').
Qed.

(** A socket that ends is counted as done. *)
Lemma socket_finished_accounts N d s err st0 :
  accounts N d st0 →
  post (socket_finished s err) st0 (λ _ st1, accounts N d st1 ∧
    _sockets_targets st1.1 = delete s (_sockets_targets st0.1)).
Proof.
  intros Hacc. apply post_bind, post_modify.
  assert (H1 : accounts N (d - 1) (up_counts (λ '(nl, nd), (nl, nd + 1)) st0.1, st0.2)).
  { destruct Hacc. split; simpl; try done. lia. }
  set (st1 := (_, _)) in *. assert (Hsock : _sockets_targets st1.1 = _sockets_targets st0.1) by done.
  clearbody st1. apply post_bind, post_target. intros t Ht.
  assert (Hs : s ∈ dom (_sockets_targets st1.1)) by (apply elem_of_dom; eauto).
  apply post_bind, post_lvl4_sm; [by rewrite (acc_dom _ _ _ H1)|]. intros l _. rewrite <- Hsock.
  eapply accounts_step; [exact H1|apply frame_callback_finish|]. intros _ st2 H12 H2.
  eapply accounts_step; [exact H2|apply keeps_free_buffer|]. intros _ st3 H23 H3.
  eapply accounts_step; [exact H3|apply frame_host_sm|]. intros h st4 H34 H4.
  eapply accounts_step; [exact H4|apply frame_engine_target_finished|]. intros b st5 H45 H5.
  eapply accounts_step; [exact H5|destruct b; [apply frame_put_hosts|apply frame_ret]|].
  intros _ st6 H56 H6. assert (Hs6 : _sockets_targets st6.1 = _sockets_targets st1.1).
  { by rewrite (sa_sockets _ _ H56), (sa_sockets _ _ H45), (sa_sockets _ _ H34),
      (sa_sockets _ _ H23), (sa_sockets _ _ H12). }
  eapply post_mono; [apply (free_socket_accounts N (d - 1)); [by rewrite Hs6|exact H6]|].
  simpl. intros _ st7 [H7 Hs7]. rewrite Hs6 in Hs7. by replace (d - 1 + 1) with d in H7 by lia.
Qed.

Lemma socket_finished_keeps N d s err st0 :
  accounts N d st0 → post (socket_finished s err) st0 (λ _, accounts N d).
Proof.
  intros Hacc. eapply post_mono; [by eapply socket_finished_accounts|].
  by intros ? ? [].
Qed.

End Sockets.
