(* ===== verification/Rounds.v ===== *)
(** * Invariants of a scan, round by round

    An invariant [I] of the engine, next to the accounts of Sockets.v, through a
    whole scan. Most functions of the engine are framed by a relation [X] that
    [I] respects; what is left to show of [I] is what sockets that end, targets
    that are launched and events do to it. Accounting.v, Ledger.v and Talks.v
    are three such invariants. *)

From S2P Require Import Prelude Lvl4Buffer Leeloo Target HostSM Lvl4SM TargetSet Engine AsyncEngine Frames Sockets.

(** ** Scans as rounds *)

Section Scans.
Context {L : Leeloo} {C : Closures} {M : Malloc} {W : Type}.
Context {OSW : OS W} {K : Calls W} {T : TargetSet W} {EC : EngineCalls W}.

(** The states at the head of the rounds of a scan. *)
Inductive scan_reaches (fuel : nat) : st → st → Prop :=
| scan_start s : scan_reaches fuel s s
| scan_next s s1 s2 stop :
    scan_reaches fuel s s1 → scan_round fuel s1 = Ok (stop, s2) → scan_reaches fuel s s2.

(** An engine that has not started. *)
Record fresh_engine (N : Z) (e : AsyncEngine) : Prop := {
  fresh_lvl4 : _lvl4_sms e = ∅;
  fresh_sockets : _sockets_targets e = ∅;
  fresh_avail : _avail_socks e = N;
  fresh_range : 0 ≤ N < 2 ^ 32;
}.

(** The part of [do_async_scan] before its loop. *)
Definition start_scan (fuel : nat) : ST bool :=
  nsockets ← gets _nsockets;
  ep ← sys (sys_epoll_create nsockets);
  modify (up_epoll ep);;
  modify (up_counts (λ _, (0, 0)));;
  modify (up_last_status 0);;
  process_free_socks fuel.

(** The engine that it launches the first targets with. *)
Definition ready_engine (ep : Z) (e : AsyncEngine) : AsyncEngine :=
  up_last_status 0 (up_counts (λ _, (0, 0)) (up_epoll ep e)).

Lemma ST_bind_assoc {A B D} (m : ST A) (f : A → ST B) (g : B → ST D) s :
  ((m ≫= f) ≫= g) s = (m ≫= λ a, f a ≫= g) s.
Proof. unfold mbind, ST_bind, mbind, result_bind. by destruct (m s) as [[]|]. Qed.

Lemma scan_loop_reaches fuel rounds s s' :
  scan_loop fuel rounds s = Ok ((), s') → scan_reaches fuel s s'.
Proof.
  assert (Hgen : ∀ s0, scan_reaches fuel s0 s → scan_loop fuel rounds s = Ok ((), s') →
                       scan_reaches fuel s0 s').
  { revert s. induction rounds as [|rounds IH]; intros s s0 H0; [done|]. simpl.
    unfold mbind, ST_bind. destruct (scan_round fuel s) as [[stop s1]|] eqn:E; [|done]. simpl.
    pose proof (scan_next _ _ _ _ _ H0 E) as H1.
    destruct stop; [by intros [= <-]|by apply IH]. }
  apply Hgen. constructor.
Qed.

Lemma do_async_scan_start fuel rounds s :
  do_async_scan fuel rounds s = (start_scan fuel ≫= λ _, scan_loop fuel rounds) s.
Proof.
  unfold do_async_scan, start_scan.
  repeat (rewrite ST_bind_assoc; unfold mbind at 1, ST_bind at 1;
          unfold mbind at 2, ST_bind at 2; f_equal).
  unfold gets, sys, modify, mbind, ST_bind. simpl. by destruct (sys_epoll_create _ _).
Qed.

(** A scan that returns has reached the state it returns. *)
Lemma do_async_scan_reaches fuel rounds s s' :
  do_async_scan fuel rounds s = Ok ((), s') →
  ∃ more s1, start_scan fuel s = Ok (more, s1) ∧ scan_reaches fuel s1 s'.
Proof.
  rewrite do_async_scan_start. unfold mbind, ST_bind.
  destruct (start_scan fuel s) as [[more s1]|]; [|done]. intros H.
  exists more, s1. split; [done|]. by eapply scan_loop_reaches.
Qed.

End Scans.

(** ** Invariants *)

Section Rounds.
Context {L : Leeloo} {C : Closures} {M : Malloc} {W : Type}.
Context {OSW : OS W} {K : Calls W} {T : TargetSet W} {EC : EngineCalls W}.
Context {FD : OSFdLaws W OSW} (HU : user_keeps).

#[local] Instance rounds_asked : Asked same_fds := fds_asked HU.
#[local] Instance rounds_runs : Runs same_accounts ctx_keeps := accounts_runs HU.

Context {X : st → st → Prop} {XW : W → W → Prop} {FX : Frame X XW} {SX : Stamps X} {AX : Asked XW}.
Context {XC : ctx W → ctx W → Prop} {RX : Runs X XC}.
Context (I : st → Prop).

(** What leaves the accounts and the invariant alone. *)
#[local] Abbreviation quiet := (both same_accounts X).

Definition ok (N : Z) (s : st) : Prop := accounts N 0 s ∧ I s.

(** What carries [I] through a scan, at the end of which [E] holds. *)
Record carried (E : st → Prop) : Prop := {
  ca_frame s s' : same_accounts s s' → X s s' → I s → I s';
  ca_finished N i err s : ok N s → post (socket_finished i err) s (λ _, I);
  ca_events N fuel s : ok N s → post (process_events fuel) s (λ _, ok N);
  ca_dirty N fuel i t s : ok N s → i ∈ dom (_lvl4_sms s.1) →
    frames quiet (on_connection i t (process_buffer fuel i t)) s;
  ca_launch N fuel s : ok N s →
    post (process_free_socks fuel) s (λ more s', ok N s' ∧ (more = false → E s'));
}.

Context (I_frame : ∀ s s', same_accounts s s' → X s s' → I s → I s').
Context (I_finished : ∀ N i err s, ok N s → post (socket_finished i err) s (λ _, I)).

Lemma ok_quiet N s s' : quiet s s' → ok N s → ok N s'.
Proof. intros [] []. split; [by eapply accounts_same|by eapply I_frame]. Qed.

(** A quiet step. *)
Lemma ok_step {A B} N (m : ST A) (f : A → ST B) Q s :
  ok N s → frames quiet m s → (∀ a s', quiet s s' → ok N s' → post (f a) s' Q) →
  post (m ≫= f) s Q.
Proof.
  intros Hok Hm Hf. apply post_bind. eapply post_mono; [exact Hm|]. simpl. intros a s' Hs.
  apply Hf; [done|]. by eapply ok_quiet.
Qed.

Lemma ok_sockets N s i : ok N s → i ∈ dom (_sockets_targets s.1) ↔ i ∈ dom (_lvl4_sms s.1).
Proof. intros [Hacc _]. by rewrite (acc_dom _ _ _ Hacc). Qed.

Lemma ok_finished N i err s : ok N s → post (socket_finished i err) s (λ _, ok N).
Proof.
  intros Hok a s' Hm. split; [|by eapply I_finished].
  by eapply (socket_finished_keeps HU); [apply Hok|].
Qed.

(** ** Launching *)

(** [J] holds between the target that the set has given and its socket, [P] of
    a socket that is not yet registered, [E] once the set has given its end, and
    [B] when it would block. *)
Section Launching.
Context (J : Target → st → Prop) (P : Z → st → Prop) (E B : st → Prop).
Context (J_counts : ∀ t f s, J t s → J t (up_counts f s.1, s.2)).
Context (P_frame : ∀ i s s', X s s' → P i s → P i s').
Context (I_next : ∀ N s, ok N s → post (run next_target) s (λ r s',
  match r with
  | NextTarget t => if is_end t then I s' ∧ (accounts N 0 s' → E s') else J t s'
  | NextTargetWouldBlock => I s' ∧ B s'
  end)).
Context (I_create : ∀ N t s, accounts N 1 s → J t s →
  post (create_socket t) s (λ '(_, i) s', i ≠ -1 → I s' ∧ P i s')).
Context (I_register : ∀ N i s, ok N s → P i s → post (add_connecting_socket i) s (λ _, I)).

Lemma ok_launch_next N fuel s :
  ok N s → post (launch_next fuel) s (λ r s', ok N s' ∧
    match r with Launched i _ => P i s' | EndOfTargets => E s' | WouldBlock => B s' end).
Proof.
  revert s; induction fuel as [|fuel IH]; intros s Hok; [done|]. cbn [launch_next].
  apply post_bind. intros r s1 Hn. pose proof (I_next N s Hok _ _ Hn) as HI. cbv beta in HI.
  assert (H1 : accounts N 0 s1).
  { eapply accounts_same; [|apply Hok]. refine ((_ : frames same_accounts (run next_target) s) r s1 Hn).
    apply frame_run. intros ? ?. by apply (keeps_next HU). }
  destruct r as [t|]; [|destruct HI; by apply post_ret]. destruct (is_end t).
  { destruct HI as [HI He]. apply post_ret. split; [by split|by apply He]. }
  apply post_bind, post_modify, post_bind. intros [ret i] s3 Hcr.
  match type of Hcr with create_socket t ?s = _ => set (s2 := s) in * end.
  assert (H2 : accounts N 1 s2) by (destruct H1; split; simpl in *; try done; lia).
  pose proof (create_socket_accounts N 1 t s2 H2 _ _ Hcr) as Hpost. simpl in Hpost.
  pose proof (I_create N t s2 H2 (J_counts _ _ _ HI) _ _ Hcr) as Hnew. simpl in Hnew.
  destruct Hpost as [(-> & H3 & _)|(Hi & H3 & _)].
  { destruct (create_socket_failed t s2 _ _ Hcr eq_refl) as (Hret & H0 & Hp).
    rewrite (proj2 (Z.eqb_neq _ _) H0). apply post_bind, post_ask.
    rewrite <- Hret, (proj2 (Z.eqb_neq _ _) Hp). apply post_bind.
    intros [] s4 Hm. rewrite target_finished_missing in Hm; [done|].
    intros H. apply (accounts_nonneg _ _ _ _ H3) in H. lia. }
  destruct Hnew as [HI3 HP]; [lia|]. assert (Hok3 : ok N s3) by by split.
  destruct (ret =? 0); [by apply post_ret|]. apply post_bind, post_ask.
  destruct (_ =? _); [by apply post_ret|].
  apply post_bind. eapply post_mono; [by apply ok_finished|]. simpl. intros _ s4 H4. by apply IH.
Qed.

Lemma ok_launch_loop N fuel n s :
  ok N s → post (launch_loop fuel n) s (λ more s', ok N s' ∧ (more = false → E s')).
Proof.
  revert s; induction n as [|n IH]; intros s Hok; [by apply post_ret|]. cbn [launch_loop].
  apply post_bind. eapply post_mono; [by apply ok_launch_next|].
  intros [i t| |] s1 [H1 Hi]; [|by apply post_ret|by apply post_ret].
  eapply ok_step; [exact H1|apply frame_host_sm|]. intros h s2 [_ H12] H2.
  eapply ok_step; [exact H2|apply frame_init_host_sm|]. intros h' s3 [_ H23] H3.
  eapply ok_step; [exact H3|apply frame_put_hosts|]. intros _ s4 [_ H34] H4.
  apply post_bind. intros a s5 Hm. apply IH. split.
  - eapply accounts_same; [|apply H4].
    refine ((_ : frames same_accounts (add_connecting_socket i) s4) a s5 Hm).
    apply (frame_epoll (λ ep, sys_epoll_add ep i EPOLLOUT)). intros. apply epoll_add_fds.
  - eapply I_register; [exact H4| |exact Hm]. by do 3 (eapply P_frame; [eassumption|]).
Qed.

Lemma ok_process_free_socks N fuel s :
  ok N s → post (process_free_socks fuel) s (λ more s', ok N s' ∧ (more = false → E s')).
Proof. intros. apply post_bind, post_gets. by apply ok_launch_loop. Qed.

End Launching.

(** ** Events *)

(** An event on a descriptor without a socket does not return. *)
Lemma ok_event_cases N fuel ev s (Q : () → st → Prop) :
  ok N s →
  (ev.1 ∈ dom (_lvl4_sms s.1) → has_flag EPOLLOUT ev.2 = true →
     post (process_connecting_ready ev.1) s Q) →
  (∀ t, ev.1 ∈ dom (_lvl4_sms s.1) → has_flag EPOLLIN ev.2 = true →
     post (process_connected_ready fuel ev.1 t) s Q) →
  Q () s → post (process_event fuel ev) s Q.
Proof.
  intros Hok Hout Hin Hno. destruct ev as [fd events]. simpl in *.
  destruct (has_flag EPOLLOUT events); [|destruct (has_flag EPOLLIN events); [|by apply post_ret]].
  - destruct (decide (fd ∈ dom (_sockets_targets s.1))) as [Hi|Hi].
    + apply (ok_sockets N) in Hi; [|done]. apply post_bind, post_lvl4_sm; [done|]. auto.
    + apply post_bind. eapply post_mono; [apply lvl4_sm_sockets|]. intros l s1 H1.
      apply process_connecting_ready_missing. by rewrite H1.
  - apply post_bind, post_target. intros t Ht.
    assert (Hi : fd ∈ dom (_lvl4_sms s.1)) by (apply (ok_sockets N); [done|]; apply elem_of_dom; eauto).
    apply post_bind, post_lvl4_sm; [done|]. auto.
Qed.

(** When the functions of a connection are in [X] as well ([RX]). *)
Section Events.
Context (X_so_error : ∀ i w r w', sys_so_error i w = (r, w') → XW w w').
Context (X_epoll_add : ∀ ep i ev w, XW w (sys_epoll_add ep i ev w)).
Context (X_epoll_del : ∀ ep i w, XW w (sys_epoll_del ep i w)).
Context (X_epoll_wait : ∀ ep n w l w', sys_epoll_wait ep n w = (l, w') → XW w w').

Lemma ok_process_connecting_ready N i s :
  ok N s → post (process_connecting_ready i) s (λ _, ok N).
Proof.
  intros Hok. eapply ok_step; [exact Hok| |].
  { apply frame_sys. intros; split; [by eapply so_error_fds|by eapply X_so_error]. }
  intros err s1 _ H1. destruct (negb _); [by apply ok_finished|].
  apply post_bind, post_target. intros t Ht.
  assert (Hi : i ∈ dom (_lvl4_sms s1.1)) by (apply (ok_sockets N), elem_of_dom; eauto).
  eapply ok_step; [exact H1|apply frame_on_connection; [done|apply runs_on_connect]|].
  intros [] s2 H12 H2; [|by apply ok_finished]. eapply ok_step; [exact H2| |].
  { apply (frame_epoll (λ ep, sys_epoll_del ep i)). split; [apply epoll_del_fds|apply X_epoll_del]. }
  intros _ s3 H23 H3. eapply ok_step; [exact H3| |].
  { apply (frame_epoll (λ ep, sys_epoll_add ep i EPOLLIN)). split; [apply epoll_add_fds|apply X_epoll_add]. }
  intros _ s4 H34 H4. eapply post_mono; [apply (frame_update_ts (R := quiet))|].
  - by do 3 (eapply (frame_dom (R := quiet)); [eassumption|]).
  - simpl. intros _ s5 H5. by eapply ok_quiet.
Qed.

Lemma ok_process_connected_ready N fuel i t s :
  ok N s → i ∈ dom (_lvl4_sms s.1) → post (process_connected_ready fuel i t) s (λ _, ok N).
Proof.
  intros Hok Hi. apply post_bind, post_ask. destruct (_ =? 0).
  - apply post_bind, post_lvl4_sm; [done|]. intros l Hl.
    rewrite (acc_quiet _ _ _ (proj1 Hok) i l Hl). by apply ok_finished.
  - eapply ok_step; [exact Hok|apply frame_on_connection; [done|apply runs_process_lvl4_data]|].
    intros r s1 H01 H1. eapply ok_step; [exact H1|apply frame_update_ts|].
    { by eapply (frame_dom (R := quiet)). }
    intros _ s2 _ H2. destruct r; [by apply post_ret|by apply ok_finished].
Qed.

Lemma ok_process_event N fuel ev s : ok N s → post (process_event fuel ev) s (λ _, ok N).
Proof.
  intros Hok. eapply ok_event_cases; [done|..|done]; intros.
  - by apply ok_process_connecting_ready.
  - by apply ok_process_connected_ready.
Qed.

Lemma ok_process_events N fuel s : ok N s → post (process_events fuel) s (λ _, ok N).
Proof.
  intros Hok. apply post_bind, post_gets. eapply ok_step; [exact Hok| |].
  { apply frame_sys. intros; split; [by eapply epoll_wait_fds|by eapply X_epoll_wait]. }
  intros [evs|] s1 _ H1; [|by apply post_ret]. apply post_bind. eapply post_mono.
  { apply (post_for_each _ _ (ok N)); [done|]. intros. by apply ok_process_event. }
  simpl. intros _ s2 H2. by apply post_ret.
Qed.

Lemma quiet_dirty N fuel i t s :
  ok N s → i ∈ dom (_lvl4_sms s.1) → frames quiet (on_connection i t (process_buffer fuel i t)) s.
Proof. intros _ Hi. apply frame_on_connection; [done|apply runs_process_buffer]. Qed.

End Events.

End Rounds.

(** ** Rounds *)

Section Scan.
Context {L : Leeloo} {C : Closures} {M : Malloc} {W : Type}.
Context {OSW : OS W} {K : Calls W} {T : TargetSet W} {EC : EngineCalls W}.
Context {FD : OSFdLaws W OSW} (HU : user_keeps).

#[local] Instance scan_asked : Asked same_fds := fds_asked HU.

Context {X : st → st → Prop} {XW : W → W → Prop} {FX : Frame X XW} {TX : Touches X} {AX : Asked XW}.
Context {I E : st → Prop} (CA : carried (X := X) I E).

#[local] Abbreviation ok_finished := (ok_finished HU I (ca_finished _ _ CA)).
#[local] Abbreviation ok_step := (ok_step I (ca_frame _ _ CA)).

Lemma ok_process_dirty N fuel i s : ok I N s → post (process_dirty fuel i) s (λ _, ok I N).
Proof.
  intros Hok. apply post_bind, post_target. intros t Ht.
  eapply ok_step; [exact Hok|eapply (ca_dirty _ _ CA); [exact Hok|]|].
  { apply (ok_sockets I N), elem_of_dom; eauto. }
  intros [] s1 _ H1; [by apply post_ret|by apply ok_finished].
Qed.

Lemma ok_process_dirty_and_timeouts N fuel s :
  ok I N s → post (process_dirty_and_timeouts fuel) s (λ _, ok I N).
Proof.
  intros Hok. eapply ok_step; [exact Hok|apply frame_timestamp|].
  intros ts s1 _ H1. apply post_bind, post_gets.
  eapply ok_step; [exact H1|apply frame_check_loop; intros i; apply elem_of_map_keys|].
  intros [[to_process timeouted] n] s2 _ H2. apply post_bind. eapply post_mono.
  { apply (post_for_each _ _ (ok I N)); [done|]. intros. by apply ok_process_dirty. }
  simpl. intros _ s3 H3. apply post_bind. eapply post_mono.
  { apply (post_for_each _ _ (ok I N)); [done|]. intros. by apply ok_finished. }
  simpl. intros _ s4 H4. by apply post_ret.
Qed.

Lemma ok_scan_round N fuel s :
  ok I N s → post (scan_round fuel) s (λ stop s', ok I N s' ∧ (stop = true → E s')).
Proof.
  intros Hok. apply post_bind. eapply post_mono; [by apply (ca_events _ _ CA)|].
  cbn beta. intros nfds s1 H1. apply post_bind.
  eapply post_mono; [by apply ok_process_dirty_and_timeouts|].
  cbn beta. intros n s2 H2. apply post_bind. eapply post_mono; [by apply (ca_launch _ _ CA)|].
  cbn beta. intros more s3 [H3 He]. cbv zeta. destruct (_ && negb more) eqn:Estop.
  { apply post_ret. split; [done|]. intros _. apply He. by apply andb_true_iff in Estop as [_ ?%negb_true_iff]. }
  eapply ok_step; [exact H3|apply frame_call_status_display|]. intros _ s4 _ H4.
  eapply ok_step; [exact H4|apply frame_call_autosave|]. intros _ s5 _ H5. by apply post_ret.
Qed.

Lemma ok_scan_loop N fuel rounds s : ok I N s → post (scan_loop fuel rounds) s (λ _ s', ok I N s' ∧ E s').
Proof.
  revert s. induction rounds as [|rounds IH]; intros s Hok; [done|]. cbn [scan_loop].
  apply post_bind. eapply post_mono; [by apply ok_scan_round|].
  intros [] s1 [H1 He]; [apply post_ret; auto|by apply IH].
Qed.

Lemma ok_scan_reaches N fuel s1 s2 : ok I N s1 → scan_reaches fuel s1 s2 → ok I N s2.
Proof.
  intros Hok. induction 1 as [s|s s1 s2 stop _ IH Hround]; [done|].
  eapply ok_scan_round in Hround; [apply Hround|]. by apply IH.
Qed.

(** The scan starts with the invariant, on the engine that it has made ready. *)
Lemma ok_start_scan N fuel s :
  fresh_engine N s.1 →
  (∀ ep w, sys_epoll_create (_nsockets s.1) s.2 = (ep, w) → I (ready_engine ep s.1, w)) →
  post (start_scan fuel) s (λ _, ok I N).
Proof.
  intros [Hl Hs Ha HN] HI. apply post_bind, post_gets, post_bind, post_sys. intros ep w Hep.
  apply post_bind, post_modify, post_bind, post_modify, post_bind, post_modify.
  eapply post_mono; [apply (ca_launch _ _ CA N)|by intros ? ? []]. split; [|by apply HI].
  apply epoll_create_fds in Hep.
  split; simpl; rewrite ?Hl, ?Hs, ?Ha, ?dom_empty_L, ?map_size_empty; try done; lia.
Qed.

End Scan.
