(* ===== verification/Accounting.v ===== *)
(** * What the engine keeps count of

    The accounts of Sockets.v hold of every state a scan reaches
    ([scan_accounts]), and of the engine when it returns ([launch_accounts]). *)

From S2P Require Import Prelude Lvl4Buffer Leeloo Target HostSM Lvl4SM TargetSet Engine AsyncEngine Frames Sockets Rounds.

Section Accounting.
Context {L : Leeloo} {C : Closures} {M : Malloc} {W : Type}.
Context {OSW : OS W} {K : Calls W} {T : TargetSet W} {EC : EngineCalls W}.
Context {FD : OSFdLaws W OSW} (HU : user_keeps).

(** Anything. *)
#[local] Abbreviation any_state := (λ _ _ : st, True).
#[local] Instance any_frame : Frame any_state (λ _ _, True).
Proof. by split. Qed.
#[local] Instance any_stamps : Stamps any_state.
Proof. done. Qed.
#[local] Instance any_asked : Asked (λ _ _ : W, True).
Proof. by split. Qed.
#[local] Instance any_runs : Runs any_state (λ _ _, True).
Proof. by split. Qed.

Lemma counted_carried : carried (X := any_state) (λ _, True) (λ _, True).
Proof.
  split; try done; intros N fuel.
  - by apply (ok_process_events HU (X := any_state) (XC := λ _ _, True)).
  - by apply (quiet_dirty HU (X := any_state) (XC := λ _ _, True)).
  - apply (ok_process_free_socks HU (X := any_state) _ ltac:(done) ltac:(done)
      (λ _ _, True) (λ _ _, True) (λ _, True) (λ _, True)); try done.
    + intros N' s _ [t|] s1 _; [by destruct (is_end t)|done].
    + by intros N' t s _ _ [r i] s1.
Qed.

Lemma process_event_accounts N fuel ev s :
  accounts N 0 s → post (process_event fuel ev) s (λ _, accounts N 0).
Proof.
  intros Hacc. eapply post_mono.
  - by apply (ok_process_event HU (X := any_state) (XC := λ _ _, True) (λ _, True)).
  - by intros ? ? [].
Qed.

Lemma start_scan_accounts N fuel s :
  fresh_engine N s.1 → post (start_scan fuel) s (λ _, accounts N 0).
Proof.
  intros Hf. eapply post_mono; [by apply (ok_start_scan counted_carried)|]. by intros ? ? [].
Qed.

Lemma scan_reaches_accounts N fuel s1 s2 :
  accounts N 0 s1 → scan_reaches fuel s1 s2 → accounts N 0 s2.
Proof.
  intros Hacc Hreach. by apply (ok_scan_reaches HU counted_carried N fuel s1 s2 (conj Hacc I)) in Hreach as [? _].
Qed.

(** C1. At the head of every round of a scan: the open connections and their
    targets have the same descriptors, all of them open; the sockets in use and
    the ones left add up to the [N] the engine was given, so that there are
    never more than [N]; and every target launched is either counted as done or
    has a socket. This holds whatever the kernel, the peers and the user's
    functions do, as long as these neither open nor close descriptors nor ask
    for reconnections. *)
Theorem scan_accounts N fuel st0 more st1 st2 :
  fresh_engine N st0.1 → start_scan fuel st0 = Ok (more, st1) → scan_reaches fuel st1 st2 →
  accounts N 0 st2 ∧ Z.of_nat (size (_sockets_targets st2.1)) ≤ N.
Proof.
  intros Hfresh Hstart Hreach. apply (start_scan_accounts N) in Hstart; [|done].
  pose proof (scan_reaches_accounts _ _ _ _ Hstart Hreach) as H2.
  split; [done|]. destruct (acc_avail _ _ _ H2). lia.
Qed.

(** When [launch] returns, the targets it launched are those it counts as
    done and those whose sockets are still open, and the sockets it left
    open and those available are all the sockets the engine was given. *)
Theorem launch_accounts N fuel rounds st0 st1 :
  fresh_engine N st0.1 → launch fuel rounds st0 = Ok ((), st1) →
  accounts N 0 st1 ∧
  _nlaunched st1.1 = _ndone st1.1 + Z.of_nat (size (_sockets_targets st1.1)) ∧
  _avail_socks st1.1 = N - Z.of_nat (size (_sockets_targets st1.1)).
Proof.
  intros Hfresh H. unfold launch, mbind, ST_bind, run_ in H. inv_ok.
  apply do_async_scan_reaches in H as (more & s1 & Hstart & Hreach).
  apply (start_scan_accounts N) in Hstart; [|done].
  pose proof (scan_reaches_accounts _ _ _ _ Hstart Hreach) as H2.
  split; [done|]. destruct (acc_avail _ _ _ H2). pose proof (acc_counts _ _ _ H2). lia.
Qed.

End Accounting.
