(* ===== verification/Stays.v ===== *)
(** * Invariants of the engine, operation by operation

    The reasoning that carries a property [J] of the engine, and a property [P]
    of its connections, through every function of AsyncEngine.v: [J] depends
    on the connections and on the number of sockets left only, and is kept by
    writing a connection that has [P] at a key that has [K]. Outcomes.v and
    PyBinding.v give [J], [P] and [K]. *)

From S2P Require Import Prelude Lvl4Buffer Leeloo Target HostSM Lvl4SM TargetSet Engine.
From S2P Require Import AsyncEngine Frames Rounds.

Section Stays.
Context {L : Leeloo} {C : Closures} {M : Malloc} {W : Type}.
Context {OSW : OS W} {K : Calls W} {T : TargetSet W} {EC : EngineCalls W}.
Context (J : AsyncEngine → Prop).

(** From a state with [J], [m] gives a state with [J] and a value with [Q]. *)
Definition stays {A} (m : ST A) (Q : A → Prop) : Prop :=
  ∀ s, J s.1 → post m s (λ a s', J s'.1 ∧ Q a).
Abbreviation keepsJ m := (stays m (λ _, True)).

Lemma stays_ret {A} (a : A) Q : Q a → stays (mret a) Q.
Proof. intros H s Hs. by apply post_ret. Qed.

Lemma stays_bind {A B} (m : ST A) (f : A → ST B) Q R :
  stays m Q → (∀ a, Q a → stays (f a) R) → stays (m ≫= f) R.
Proof.
  intros Hm Hf s Hs. apply post_bind. eapply post_mono; [by apply Hm|].
  intros a s' [Hs' Ha]. by apply Hf.
Qed.

Lemma stays_then {A B} (m : ST A) (f : A → ST B) R :
  keepsJ m → (∀ a, stays (f a) R) → stays (m ≫= f) R.
Proof. intros Hm Hf. eapply stays_bind; [exact Hm|auto]. Qed.

Lemma stays_mono {A} (m : ST A) (Q R : A → Prop) :
  stays m Q → (∀ a, Q a → R a) → stays m R.
Proof. intros Hm H s Hs. eapply post_mono; [by apply Hm|]. intros a s' []. auto. Qed.

Lemma stays_gets {A} (f : AsyncEngine → A) (Q : A → Prop) :
  (∀ e, J e → Q (f e)) → stays (gets f) Q.
Proof. intros H s Hs. apply post_gets. auto. Qed.

Lemma stays_modify f : (∀ e, J e → J (f e)) → keepsJ (modify f).
Proof. intros H s Hs. apply post_modify. simpl. auto. Qed.

Lemma stays_sys {A} (f : W → A * W) (Q : A → Prop) :
  (∀ w a w', f w = (a, w') → Q a) → stays (sys f) Q.
Proof. intros H s Hs. apply post_sys. intros a w Hf. eauto. Qed.

Lemma stays_sys_ (f : W → W) : keepsJ (sys_ f).
Proof. intros s Hs. by apply post_sys_. Qed.

Lemma stays_ask {A} (f : W → A) : keepsJ (ask f).
Proof. intros s Hs. by apply post_ask. Qed.

Lemma stays_run {A} (f : W → result (A * W)) : keepsJ (run f).
Proof. intros s Hs. by apply post_run. Qed.

Lemma stays_run_ (f : W → result W) : keepsJ (run_ f).
Proof. intros s Hs. by apply post_run_. Qed.

Lemma stays_lift {A} (r : result A) (Q : A → Prop) : (∀ a, r = Ok a → Q a) → stays (lift r) Q.
Proof. intros H s Hs. apply post_lift. auto. Qed.

Lemma stays_for_each {A} (f : A → ST ()) l :
  (∀ a, a ∈ l → keepsJ (f a)) → keepsJ (for_each f l).
Proof.
  intros Hf s Hs. eapply post_mono; [apply (post_for_each f l (λ s, J s.1))|]; [done| |done].
  intros a s' Ha Hs'. eapply post_mono; [by apply Hf|]. by intros ? ? [].
Qed.

(** ** One connection *)

Context (keyed : Z → Prop) (P : Z → Lvl4SM → Prop).

(** What [J] and [P] must be closed under. *)
Record closed : Prop := {
  J_rest e e' : _lvl4_sms e' = _lvl4_sms e → _avail_socks e' = _avail_socks e → J e → J e';
  J_avail f e : J e → J (up_avail (λ a, u32 (f a)) e);
  J_get e i l : keyed i → J e → _lvl4_sms e !! i = Some l → P i l;
  J_put e i l : keyed i → J e → P i l → J (up_lvl4 (λ m, <[i := l]> m) e);
  J_del e i : keyed i → J e → J (up_lvl4 (delete i) e);
  P_ctor w i l w' : keyed i → Lvl4SM_ctor w = (l, w') → P i l;
  P_sm i m l : P i l → P i (set_sm m l);
  P_free i l : P i l → P i (free_buffer l);
  P_connect i f l : P i l → P i (set_on_connect f l);
  P_process i l : P i l → P i (should_process_buffer l).2;
}.

Context (HJ : closed).

Lemma stays_rest f :
  (∀ e, _lvl4_sms (f e) = _lvl4_sms e ∧ _avail_socks (f e) = _avail_socks e) → keepsJ (modify f).
Proof. intros H. apply stays_modify. intros e. by apply (J_rest HJ); apply H. Qed.

(** Goes through a function that leaves the connections and the number of
    sockets alone. *)
Ltac stays_tac :=
  repeat first
    [ apply stays_ret; done | apply stays_gets; done | apply stays_ask | apply stays_lift; done
    | apply stays_sys; done | apply stays_sys_ | apply stays_run | apply stays_run_
    | apply stays_rest; done
    | apply stays_then; [|intros ?]
    | match goal with |- context [match ?x with _ => _ end] => destruct x end ].

Lemma stays_lvl4_sm i : keyed i → stays (lvl4_sm i) (P i).
Proof.
  intros Hi. apply stays_bind with (λ ls, ∀ l, ls !! i = Some l → P i l).
  { apply stays_gets. intros e He l. by apply (J_get HJ). }
  intros ls Hls. destruct (ls !! i) eqn:E; [apply stays_ret; by apply Hls|].
  apply stays_bind with (P i); [apply stays_sys; intros w a w'; by apply (P_ctor HJ)|].
  intros l Hl. apply stays_then; [|intros _; by apply stays_ret].
  apply stays_modify. intros e He. by apply (J_put HJ).
Qed.

Lemma stays_put i l : keyed i → P i l → keepsJ (put_lvl4_sm i l).
Proof. intros. apply stays_modify. intros e He. by apply (J_put HJ). Qed.

Lemma stays_alter i f : keyed i → (∀ l, P i l → P i (f l)) → keepsJ (alter_lvl4_sm i f).
Proof.
  intros Hi Hf. apply stays_modify. intros e He.
  destruct (_lvl4_sms e !! i) as [l|] eqn:E.
  - apply (J_rest HJ (up_lvl4 (λ m, <[i := f l]> m) e)); [simpl|done|].
    + apply map_eq. intros j. rewrite lookup_alter, lookup_insert.
      case_decide as Hj; [|done]. by rewrite E.
    + apply (J_put HJ); [done|done|]. apply Hf. by eapply (J_get HJ).
  - apply (J_rest HJ e); [simpl|done|done]. apply map_eq. intros j.
    rewrite lookup_alter. case_decide as Hj; [|done]. by rewrite <- Hj, E.
Qed.

Lemma stays_host_sm ip : keepsJ (host_sm ip).
Proof. unfold host_sm. stays_tac. Qed.

Lemma stays_target_from_socket i : keepsJ (target_from_socket i).
Proof. unfold target_from_socket. stays_tac. Qed.

Lemma stays_update_ts i : keyed i → keepsJ (update_lvl4_ts i).
Proof.
  intros Hi. eapply stays_bind; [by apply stays_lvl4_sm|]. intros l Hl.
  apply stays_bind with (P i); [|intros l' Hl'; by apply stays_put].
  apply stays_sys. intros w a w'. unfold update_ts. destruct (StateMachine.update_ts _ _).
  intros [= <- <-]. by apply (P_sm HJ).
Qed.

Lemma stays_free_socket i : keyed i → keepsJ (free_socket i).
Proof.
  intros Hi. unfold free_socket, remove_connecting_socket, remove_connected_socket.
  do 3 (apply stays_then; [stays_tac|intros _]).
  apply stays_then; [apply stays_modify; intros; by apply (J_del HJ)|intros _].
  apply stays_then; [apply stays_modify; intros; by apply (J_avail HJ)|intros _]. stays_tac.
Qed.

Lemma stays_callback_finish t b err : keepsJ (callback_finish t b err).
Proof. unfold callback_finish. stays_tac. Qed.

Lemma stays_engine_target_finished t h : keepsJ (engine_target_finished t h).
Proof. unfold engine_target_finished, put_host_sm. stays_tac. Qed.

Lemma stays_socket_finished i err : keyed i → keepsJ (socket_finished i err).
Proof.
  intros Hi. apply stays_then; [stays_tac|intros _].
  apply stays_then; [apply stays_target_from_socket|intros t].
  eapply stays_bind; [by apply stays_lvl4_sm|intros l Hl].
  apply stays_then; [apply stays_callback_finish|intros _].
  apply stays_then; [apply stays_alter; [done|intros; by apply (P_free HJ)]|intros _].
  apply stays_then; [apply stays_host_sm|intros h].
  apply stays_then; [apply stays_engine_target_finished|intros done].
  apply stays_then; [|intros _; by apply stays_free_socket].
  unfold del_host_sm. stays_tac.
Qed.

(** Functions run on a connection. *)
Definition stable (i : Z) (f : ctx W → result (bool * ctx W)) : Prop :=
  ∀ c r c', P i (c_sm c) → f c = Ok (r, c') → P i (c_sm c').

Lemma stays_on_connection i t f : keyed i → stable i f → keepsJ (on_connection i t f).
Proof.
  intros Hi Hf. eapply stays_bind; [by apply stays_lvl4_sm|intros l Hl].
  apply stays_then; [apply stays_host_sm|intros h].
  apply stays_bind with (λ '(r, c), P i (c_sm c)).
  - intros s Hs [r c] s' H. destruct (f (mkCtx l h s.2)) as [[r' c']|] eqn:E; [|done].
    injection H as <- <- <-. split; [done|]. by eapply Hf; [|exact E].
  - intros [r c] Hc. apply stays_then; [by apply stays_put|intros _].
    unfold put_host_sm. stays_tac.
Qed.

Lemma stays_process_dirty fuel i :
  keyed i → (∀ t, stable i (process_buffer fuel i t)) → keepsJ (process_dirty fuel i).
Proof.
  intros Hi Hf. apply stays_then; [apply stays_target_from_socket|intros t].
  apply stays_then; [by apply stays_on_connection|intros []]; [stays_tac|].
  by apply stays_socket_finished.
Qed.

Lemma stays_check_connection ts i : keyed i → keepsJ (check_connection ts i).
Proof.
  intros Hi. eapply stays_bind; [by apply stays_lvl4_sm|intros l Hl]. destruct (negb _); [stays_tac|].
  apply (P_process HJ) in Hl. destruct (should_process_buffer l) as [d l']. simpl in Hl.
  apply stays_then; [by apply stays_put|intros _]. apply stays_then; [stays_tac|intros t].
  apply stays_then; [unfold timeout_of_target; stays_tac|intros n].
  apply stays_then; [|intros; stays_tac]. destruct (_ <=? _); [stays_tac|].
  unfold has_watch_timedout. apply stays_then; [stays_tac|intros [f|]]; [|stays_tac].
  apply stays_then; [stays_tac|intros k]. destruct (k =? 0); [stays_tac|].
  eapply stays_bind; [by apply stays_lvl4_sm|intros l2 _]. destruct (_ <=? _); [|stays_tac].
  apply stays_then; [stays_tac|intros t']. apply stays_then; [stays_tac|intros []]; [|stays_tac].
  apply stays_then; [apply stays_alter; [done|intros; by apply (P_sm HJ)]|intros _; stays_tac].
Qed.

(** ** The whole scan *)

Context (all_keyed : ∀ i, keyed i).
Context (connect_stable : ∀ i s t, stable i (on_connect s t)).
Context (data_stable : ∀ i fuel s n t, stable i (process_lvl4_data fuel s n t)).
Context (buffer_stable : ∀ i fuel s t, stable i (process_buffer fuel s t)).

Lemma stays_new_lvl4_sm i : keepsJ (new_lvl4_sm i).
Proof.
  apply stays_bind with (P i); [apply stays_sys; intros w l w'; by apply (P_ctor HJ)|].
  intros l Hl. apply stays_modify. intros e He. unfold map_insert.
  destruct (_lvl4_sms e !! i) eqn:E; [|eapply (J_rest HJ); [| |by apply (J_put HJ e i l)]];
    [eapply (J_rest HJ e); simpl; rewrite ?E; done|simpl; by rewrite E|done].
Qed.

Lemma stays_create_socket t : keepsJ (create_socket t).
Proof.
  unfold create_socket. apply stays_then; [stays_tac|intros a].
  apply stays_then; [stays_tac|intros _]. apply stays_then; [stays_tac|intros i].
  destruct (i =? -1); [stays_tac|].
  apply stays_then; [apply stays_modify; intros; by apply (J_avail HJ)|intros _].
  apply stays_then; [stays_tac|intros r]. apply stays_then; [apply stays_new_lvl4_sm|intros _].
  apply stays_then; [stays_tac|intros cb]. apply stays_then; [apply stays_alter|intros _]; [done| |].
  { intros l Hl. by apply (P_connect HJ), (P_sm HJ). }
  apply stays_then; [by apply stays_update_ts|intros _]. stays_tac.
Qed.

Lemma stays_reconnect i t l : keepsJ (reconnect i t l).
Proof.
  unfold reconnect, remove_connected_socket, add_connecting_socket.
  do 2 (apply stays_then; [stays_tac|intros _]).
  apply stays_then; [apply stays_modify; intros; by apply (J_avail HJ)|intros _].
  apply stays_then; [apply stays_create_socket|intros [r s]].
  eapply stays_bind; [by apply stays_lvl4_sm|intros l' _].
  apply stays_then; [apply stays_alter; [done|intros; by apply (P_connect HJ)]|intros _]. stays_tac.
Qed.

Lemma stays_process_connecting_ready i : keepsJ (process_connecting_ready i).
Proof.
  unfold process_connecting_ready, remove_connecting_socket, add_connected_socket.
  apply stays_then; [stays_tac|intros err].
  destruct (negb _); [by apply stays_socket_finished|].
  apply stays_then; [apply stays_target_from_socket|intros t].
  apply stays_then; [by apply stays_on_connection|intros []]; [|by apply stays_socket_finished].
  do 2 (apply stays_then; [stays_tac|intros _]). by apply stays_update_ts.
Qed.

Lemma stays_process_connected_ready fuel i t : keepsJ (process_connected_ready fuel i t).
Proof.
  apply stays_then; [stays_tac|intros n]. destruct (n =? 0).
  - eapply stays_bind; [by apply stays_lvl4_sm|intros l Hl].
    destruct (_reconnect l); [|by apply stays_socket_finished].
    apply stays_then; [apply stays_callback_finish|intros _].
    apply stays_then; [apply stays_alter; [done|intros; by apply (P_free HJ)]|intros _].
    apply stays_reconnect.
  - apply stays_then; [by apply stays_on_connection|intros r].
    apply stays_then; [by apply stays_update_ts|intros _].
    destruct r; [stays_tac|by apply stays_socket_finished].
Qed.

Lemma stays_process_events fuel : keepsJ (process_events fuel).
Proof.
  apply stays_then; [stays_tac|intros ep]. apply stays_then; [stays_tac|intros [evs|]]; [|stays_tac].
  apply stays_then; [apply stays_for_each|intros _; stays_tac]. intros [fd ev] _. simpl.
  destruct (has_flag EPOLLOUT ev).
  { eapply stays_bind; [by apply stays_lvl4_sm|intros _ _]. apply stays_process_connecting_ready. }
  destruct (has_flag EPOLLIN ev); [|stays_tac].
  apply stays_then; [apply stays_target_from_socket|intros t].
  eapply stays_bind; [by apply stays_lvl4_sm|intros _ _]. apply stays_process_connected_ready.
Qed.

Lemma stays_launch_next fuel : keepsJ (launch_next fuel).
Proof.
  induction fuel as [|fuel IH]; [apply stays_lift; done|].
  apply stays_then; [stays_tac|intros [t|]]; [|stays_tac].
  destruct (is_end t); [stays_tac|]. apply stays_then; [stays_tac|intros _].
  apply stays_then; [apply stays_create_socket|intros [r s]].
  destruct (r =? 0); [stays_tac|]. apply stays_then; [stays_tac|intros e].
  destruct (e =? EINPROGRESS); [stays_tac|].
  apply stays_then; [by apply stays_socket_finished|intros _; apply IH].
Qed.

Lemma stays_process_free_socks fuel : keepsJ (process_free_socks fuel).
Proof.
  apply stays_then; [stays_tac|intros n]. induction (Z.to_nat n) as [|k IH]; [stays_tac|].
  apply stays_then; [apply stays_launch_next|intros [s t| |]]; [|stays_tac|stays_tac].
  apply stays_then; [apply stays_host_sm|intros h]. unfold put_host_sm, add_connecting_socket.
  do 3 (apply stays_then; [stays_tac|intros ?]). apply IH.
Qed.

Lemma stays_process_dirty_and_timeouts fuel : keepsJ (process_dirty_and_timeouts fuel).
Proof.
  apply stays_then; [stays_tac|intros ts]. apply stays_then; [stays_tac|intros sms].
  apply stays_then.
  { induction (map_keys sms) as [|i keys IH]; [stays_tac|].
    apply stays_then; [by apply stays_check_connection|intros [[d o] v]].
    apply stays_then; [apply IH|intros [[tp to] n]]. stays_tac. }
  intros [[tp to] n]. apply stays_then.
  { apply stays_for_each. intros. by apply stays_process_dirty. }
  intros _. apply stays_then; [|intros _; stays_tac].
  apply stays_for_each. intros. by apply stays_socket_finished.
Qed.

Lemma stays_scan_round fuel : keepsJ (scan_round fuel).
Proof.
  apply stays_then; [apply stays_process_events|intros n].
  apply stays_then; [apply stays_process_dirty_and_timeouts|intros k].
  apply stays_then; [apply stays_process_free_socks|intros more].
  cbv zeta. destruct (_ && negb more); [stays_tac|].
  apply stays_then; [|intros _; apply stays_then; [|intros _; stays_tac]].
  - unfold call_status_display, should_call_status_display. stays_tac.
  - unfold call_autosave. stays_tac.
Qed.

Lemma stays_start_scan fuel : keepsJ (start_scan fuel).
Proof.
  unfold start_scan. do 5 (apply stays_then; [stays_tac|intros ?]). apply stays_process_free_socks.
Qed.

(** [J] holds of every state of a scan when it holds of the first. *)
Lemma scan_reaches_stays fuel s s' : scan_reaches fuel s s' → J s.1 → J s'.1.
Proof.
  induction 1 as [|s s1 s2 stop _ IH Hr]; [done|]. intros Hs.
  by apply (stays_scan_round fuel s1 (IH Hs) stop s2 Hr).
Qed.

End Stays.

(** ** One connection in the loops over all *)

Section OneInAll.
Context {L : Leeloo} {C : Closures} {M : Malloc} {W : Type}.
Context {OSW : OS W} {K : Calls W} {T : TargetSet W} {EC : EngineCalls W}.

(** [B] holds until the test of [i], which answers [Q], and [A] after it. *)
Lemma check_loop_at (B A : st → Prop) (Q : bool * bool * bool → Prop) ts i keys s :
  (∀ j s, j ∈ keys → j ≠ i → B s → post (check_connection ts j) s (λ _, B)) →
  (∀ j s, j ∈ keys → j ≠ i → A s → post (check_connection ts j) s (λ _, A)) →
  (∀ s, B s → post (check_connection ts i) s (λ r s', Q r ∧ A s')) →
  NoDup keys → i ∈ keys → B s →
  post (check_loop ts keys) s (λ '(to_process, timeouted, _) s', A s' ∧
    ∃ d t v, Q (d, t, v) ∧ (d = true → i ∈ to_process) ∧ (t = true → i ∈ timeouted)).
Proof.
  intros HB HA Hi. revert s. induction keys as [|j keys IH]; intros s Hnd Hin Hs.
  { by apply elem_of_nil in Hin. }
  apply NoDup_cons in Hnd as [Hj Hnd]. cbn [check_loop]. apply post_bind.
  destruct (decide (j = i)) as [->|Hne].
  - eapply post_mono; [by apply Hi|]. intros [[d t] v] s1 [HQ H1]. apply post_bind.
    apply (post_mono _ _ (λ _ s', A s')).
    + clear IH HB Hi Hs Hin HQ. revert s1 H1. induction keys as [|k keys IH]; intros s1 H1.
      { by apply post_ret. }
      apply NoDup_cons in Hnd as [_ Hnd]. cbn [check_loop]. apply post_bind.
      eapply post_mono; [apply HA; [set_solver..|done]|]. intros [[d' t'] v'] s2 H2. apply post_bind.
      eapply post_mono; [apply IH; [|set_solver|done|done]|].
      { intros k' s' Hk'. apply HA. set_solver. }
      intros [[tp to] n] s3 H3. by apply post_ret.
    + intros [[tp to] n] s2 H2. apply post_ret. split; [done|]. exists d, t, v.
      split; [done|]. split; intros ->; set_solver.
  - eapply post_mono; [by apply HB; [left|..]|]. intros [[d t] v] s1 H1. apply post_bind.
    eapply post_mono; [apply IH; [set_solver..|done|set_solver|done]|].
    intros [[tp to] n] s2 (H2 & d' & t' & v' & HQ & Hd & Ht). apply post_ret. split; [done|].
    exists d', t', v'. split; [done|]. split; intros E; [apply Hd in E|apply Ht in E]; set_solver.
Qed.

(** [B] holds until the first turn of [i], and [A] after it. *)
Lemma for_each_at (B A : st → Prop) (f : Z → ST ()) i l s :
  (∀ j s, j ≠ i → B s → post (f j) s (λ _, B)) → (∀ j s, A s → post (f j) s (λ _, A)) →
  (∀ s, B s → post (f i) s (λ _, A)) →
  i ∈ l → B s → post (for_each f l) s (λ _, A).
Proof.
  intros HB HA Hi. revert s. induction l as [|j l IH]; intros s Hin Hs; [by apply elem_of_nil in Hin|].
  apply post_bind. destruct (decide (j = i)) as [->|Hne].
  - eapply post_mono; [by apply Hi|]. intros a s1 H1.
    apply (post_for_each f l A s1); [done|]. intros j s2 _. apply HA.
  - eapply post_mono; [by apply HB|]. intros a s1 H1. apply IH; [set_solver|done].
Qed.

End OneInAll.
