(* ===== verification/Liveness.v ===== *)
(** * Scans of silent peers end

    When the peers never answer, every connection runs into its timeout. Under
    the laws of such a world ([silent_kernel], [silent_set]: [epoll_wait]
    reports nothing and takes its millisecond, the clock does not go back, the
    set of targets is finite, the functions of the user return), no operation
    of the engine runs into undefined behaviour, and [launch] returns, within a
    number of rounds that the theorem gives, having launched every target.

    A set of targets may need more than a target to be told that it is finished:
    what it needs of the hosts and of the targets in flight is a parameter,
    [fits], which the launching and the ending of targets keep. *)

From S2P Require Import Prelude Lvl4Buffer Leeloo Target HostSM Lvl4SM TargetSet Engine AsyncEngine.
From S2P Require Import Frames Sockets Rounds Accounting.

Section Liveness.
Context {L : Leeloo} {C : Closures} {M : Malloc} {W : Type}.
Context {OSW : OS W} {K : Calls W} {T : TargetSet W} {EC : EngineCalls W}.
Context {FD : OSFdLaws W OSW}.

(** ** Total correctness *)

(** [m] returns from [s], and [Q] holds of its result. *)
Definition will {A} (m : ST A) s (Q : A → st → Prop) : Prop :=
  ∃ a s', m s = Ok (a, s') ∧ Q a s'.

Lemma will_ret {A} (a : A) s (Q : A → st → Prop) : Q a s → will (mret a) s Q.
Proof. intros. by exists a, s. Qed.

Lemma will_bind {A B} (m : ST A) (f : A → ST B) s Q :
  will m s (λ a s', will (f a) s' Q) → will (m ≫= f) s Q.
Proof.
  intros (a & s1 & Hm & b & s2 & Hf & HQ). exists b, s2. split; [|done].
  unfold mbind, ST_bind. by rewrite Hm.
Qed.

Lemma will_mono {A} (m : ST A) s (Q R : A → st → Prop) :
  will m s Q → (∀ a s', Q a s' → R a s') → will m s R.
Proof. intros (a & s' & Hm & HQ) HR. exists a, s'. auto. Qed.

(** A total result and a partial one. *)
Lemma will_post {A} (m : ST A) s (Q R : A → st → Prop) :
  will m s Q → post m s R → will m s (λ a s', Q a s' ∧ R a s').
Proof. intros (a & s' & Hm & HQ) HR. exists a, s'. auto. Qed.

Lemma will_gets {A} (f : AsyncEngine → A) s (Q : A → st → Prop) : Q (f s.1) s → will (gets f) s Q.
Proof. intros. by eexists _, s. Qed.

Lemma will_modify f s (Q : () → st → Prop) : Q () (f s.1, s.2) → will (modify f) s Q.
Proof. intros. by eexists _, _. Qed.

Lemma will_ask {A} (f : W → A) s (Q : A → st → Prop) : Q (f s.2) s → will (ask f) s Q.
Proof. intros. by eexists _, s. Qed.

Lemma will_sys {A} (f : W → A * W) s (Q : A → st → Prop) :
  (∀ a w, f s.2 = (a, w) → Q a (s.1, w)) → will (sys f) s Q.
Proof.
  intros H. unfold will, sys. destruct (f s.2) as [a w]. eexists _, _. split; [done|]. by apply H.
Qed.

Lemma will_sys_ (f : W → W) s (Q : () → st → Prop) : Q () (s.1, f s.2) → will (sys_ f) s Q.
Proof. intros. by eexists _, _. Qed.

Lemma will_run {A} (f : W → result (A * W)) s (Q : A → st → Prop) :
  (∃ a w, f s.2 = Ok (a, w) ∧ Q a (s.1, w)) → will (run f) s Q.
Proof. intros (a & w & H & HQ). exists a, (s.1, w). unfold run. by rewrite H. Qed.

Lemma will_run_ (f : W → result W) s (Q : () → st → Prop) :
  (∃ w, f s.2 = Ok w ∧ Q () (s.1, w)) → will (run_ f) s Q.
Proof. intros (w & H & HQ). exists (), (s.1, w). unfold run_. by rewrite H. Qed.

Lemma will_lift {A} (r : result A) s (Q : A → st → Prop) :
  (∃ a, r = Ok a ∧ Q a s) → will (lift r) s Q.
Proof. intros (a & -> & HQ). by exists a, s. Qed.

(** ** A world where nobody answers *)

(** The clock in milliseconds, the number of targets the set has left, an
    invariant of the world and a bound of the timeouts in seconds. *)
Context (clock : W → Z) (left : W → nat) (good : W → Prop) (max_timeout : Z).

(** What the set needs of the hosts and of the targets in flight to be told
    that one of these is finished, the set having given one more target or not;
    and whether a connection may be refused at once. *)
Context (fits : gmap Z HostSM → gmap Z Target → option Target → W → Prop) (refused : Prop).

(** What a call that launches nothing does. *)
Record follows (w w' : W) : Prop := {
  fo_good : good w';
  fo_clock : clock w ≤ clock w';
  fo_left : left w' = left w;
}.

(** What a call that does not concern the set does. *)
Definition apart (w w' : W) : Prop :=
  follows w w' ∧ ∀ hs ts po, fits hs ts po w → fits hs ts po w'.

(** The host the engine has for an address, or a new one. *)
Definition found (hs : gmap Z HostSM) (ip : Z) (h : HostSM) : Prop :=
  hs !! ip = Some h ∨
  hs !! ip = None ∧ _ports_done h = pl_empty ∧ _rand_idx_ip h = None.

(** The hosts once [target_finished] has answered [b] and left [h]. *)
Definition hosts_after (b : bool) (ip : Z) (h : HostSM) (hs : gmap Z HostSM) : gmap Z HostSM :=
  if b then delete ip hs else <[ip := h]> hs.

(** The kernel and the functions of the user, whose calls are in [R]. *)
Record silent_kernel (R : W → W → Prop) (ready : W → Prop) : Prop := {
  sk_timeout : 0 ≤ max_timeout;
  (** descriptors are left *)
  sk_socket ty pr w s w' : ready w → sys_socket ty pr w = (s, w') → s ≠ -1 ∧ R w w';
  sk_set_nonblock s w : ready w → R w (sys_set_nonblock s w);
  sk_connect s a w r w' : ready w → sys_connect s a w = (r, w') →
    R w w' ∧ (refused ∨ r = 0 ∨ errno w' = EINPROGRESS);
  sk_close s w : ready w → R w (sys_close s w);
  sk_epoll_create n w ep w' : ready w → sys_epoll_create n w = (ep, w') → R w w';
  sk_epoll_add e s ev w : ready w → R w (sys_epoll_add e s ev w);
  sk_epoll_del e s w : ready w → R w (sys_epoll_del e s w);
  (** silence: [epoll_wait] times out after 1 ms *)
  sk_epoll_wait e n w l w' : ready w → sys_epoll_wait e n w = (l, w') →
    l = Some [] ∧ R w w' ∧ clock w + 1 ≤ clock w';
  (** [time] counts seconds, and cannot fail *)
  sk_time w t w' : ready w → sys_time w = (t, w') →
    R w w' ∧ clock w / 1000 ≤ t ≤ clock w' / 1000 ∧ errno w' = errno w;
  (** the user's functions return *)
  sk_finish f t buf n err w : ready w → ∃ w', call_finish f t buf n err w = Ok w' ∧ R w w';
  sk_status f nl nd w : ready w → ∃ w', call_status f nl nd w = Ok w' ∧ R w w';
  sk_watch f t w : ready w → ∃ b w', call_watch f t w = Ok (b, w') ∧ R w w';
  sk_call_timeout f t w : ready w →
    ∃ n w', call_timeout f t w = Ok (n, w') ∧ n ≤ max_timeout ∧ R w w';
}.

(** A kernel does as well in fewer states, seen from less close. *)
Lemma silent_kernel_mono (R R' : W → W → Prop) (ready ready' : W → Prop) :
  (∀ w, ready' w → ready w) → (∀ w w', ready' w → R w w' → R' w w') →
  silent_kernel R ready → silent_kernel R' ready'.
Proof. clear left good. intros Hr HR []. split; naive_solver. Qed.

Record silent_set : Prop := {
  (** the set gives its targets one by one, then the end *)
  ss_next w : good w → ∃ t w', ts_next_target w = Ok (NextTarget t, w') ∧
    if is_end t then left w = 0%nat ∧ apart w w'
    else left w = S (left w') ∧ good w' ∧ clock w ≤ clock w' ∧
         ∀ hs ts, fits hs ts None w → fits hs ts (Some t) w';
  ss_init_host t h w : good w → ∃ h' w', ts_init_host_sm t h w = Ok (h', w') ∧ follows w w' ∧
    ∀ hs ts i, fits hs ts (Some t) w → found hs (ipv4 t) h → ts !! i = None →
      fits (<[ipv4 t := h']> hs) (<[i := t]> ts) None w';
  (** it can be told that a target in flight is finished *)
  ss_finished hs ts i t h w : good w → fits hs ts None w → ts !! i = Some t →
    found hs (ipv4 t) h → ∃ b h' w', ts_target_finished t h w = Ok (b, h', w') ∧
      follows w w' ∧ fits (hosts_after b (ipv4 t) h' hs) (delete i ts) None w';
  (** or one whose connection was refused, before its host is initialised *)
  ss_refused hs ts t h w : refused → good w → fits hs ts (Some t) w →
    found hs (ipv4 t) h → ∃ b h' w', ts_target_finished t h w = Ok (b, h', w') ∧
      follows w w' ∧ fits (hosts_after b (ipv4 t) h' hs) ts None w';
  ss_save f w : good w → ∃ w', ts_save_state f w = Ok w' ∧ apart w w';
}.

Context (SK : silent_kernel apart good) (SS : silent_set) (HU : user_keeps).

#[local] Instance liveness_asked : Asked same_fds := fds_asked HU.

Lemma follows_refl w : good w → follows w w.
Proof. by split. Qed.

Lemma follows_trans w1 w2 w3 : follows w1 w2 → follows w2 w3 → follows w1 w3.
Proof. intros [] []. split; [done|lia|congruence]. Qed.

Lemma follows_good w w' : follows w w' → good w'.
Proof. by intros []. Qed.

Lemma apart_refl w : good w → apart w w.
Proof. split; [by apply follows_refl|done]. Qed.

Lemma apart_trans w1 w2 w3 : apart w1 w2 → apart w2 w3 → apart w1 w3.
Proof. intros [? ?] [? ?]. split; [by eapply follows_trans|auto]. Qed.

Lemma apart_good w w' : apart w w' → good w'.
Proof. intros [? _]. by eapply follows_good. Qed.

(** ** What operations do to the connections *)

(** What the engine's tests read of a connection. *)
Definition status (l : Lvl4SM) : bool * Z * bool :=
  (StateMachine._valid (l_sm l), StateMachine._ts (l_sm l), _reprocess l).

Abbreviation conns s := (status <$> _lvl4_sms s.1).

Definition saves_ready (e : Engine) : Prop := _time_autosave e = 0 ∨ is_Some (_last_save e).

(** What every operation but the launching of a target does. *)
Record rest (s s' : st) : Prop := {
  re_world : follows s.2 s'.2;
  re_timeout : _timeout s'.1 = _timeout s.1;
  re_save : saves_ready (e_engine s.1) → saves_ready (e_engine s'.1);
  re_launched : _nlaunched s'.1 = _nlaunched s.1;
}.

Lemma rest_refl s : good s.2 → rest s s.
Proof. split; auto using follows_refl. Qed.

Lemma rest_trans s1 s2 s3 : rest s1 s2 → rest s2 s3 → rest s1 s3.
Proof. intros [] []. split; [by eapply follows_trans|congruence|auto|congruence]. Qed.

Lemma rest_good s s' : rest s s' → good s'.2.
Proof. by intros [[] ? ? ?]. Qed.

(** The connections, the hosts and the targets are left alone as well. *)
Record calm (s s' : st) : Prop := {
  ca_rest : rest s s';
  ca_apart : apart s.2 s'.2;
  ca_conns : conns s' = conns s;
  ca_hosts : _hosts_sms s'.1 = _hosts_sms s.1;
  ca_sockets : _sockets_targets s'.1 = _sockets_targets s.1;
}.

Lemma calm_refl s : good s.2 → calm s s.
Proof. split; [by apply rest_refl|by apply apart_refl|done..]. Qed.

Lemma calm_trans s1 s2 s3 : calm s1 s2 → calm s2 s3 → calm s1 s3.
Proof.
  intros [] []. split; [by eapply rest_trans|by eapply apart_trans|congruence..].
Qed.

Lemma calm_good s s' : calm s s' → good s'.2.
Proof. intros [? _ _ _ _]. by eapply rest_good. Qed.

Abbreviation calms m s := (will m s (λ _, calm s)).

Lemma calms_bind {A B} (m : ST A) (f : A → ST B) s :
  calms m s → (∀ a s', calm s s' → calms (f a) s') → calms (m ≫= f) s.
Proof.
  intros Hm Hf. apply will_bind. eapply will_mono; [exact Hm|]. simpl. intros a s1 H1.
  eapply will_mono; [by apply Hf|]. simpl. intros _ s2 H2. by eapply calm_trans.
Qed.

(** A calm operation in front of another one. *)
Lemma calm_step {A B} (m : ST A) (f : A → ST B) Q s0 s :
  calm s0 s → calms m s → (∀ a s', calm s0 s' → will (f a) s' Q) → will (m ≫= f) s Q.
Proof.
  intros H0 Hm Hf. apply will_bind. eapply will_mono; [exact Hm|]. simpl. intros a s1 H1.
  apply Hf. by eapply calm_trans.
Qed.

Lemma calms_ret {A} (a : A) s : good s.2 → calms (mret a) s.
Proof. intros. by apply will_ret, calm_refl. Qed.

Lemma calms_gets {A} (f : AsyncEngine → A) s : good s.2 → calms (gets f) s.
Proof. intros. by apply will_gets, calm_refl. Qed.

Lemma calms_ask {A} (f : W → A) s : good s.2 → calms (ask f) s.
Proof. intros. by apply will_ask, calm_refl. Qed.

Lemma calm_world s w : apart s.2 w → calm s (s.1, w).
Proof. intros Hw. split; [split; [apply Hw|done..]|done..]. Qed.

Lemma calms_sys {A} (f : W → A * W) s :
  (∀ a w, f s.2 = (a, w) → apart s.2 w) → calms (sys f) s.
Proof. intros H. apply will_sys. intros a w Hf. apply calm_world. by eapply H. Qed.

Lemma calms_sys_ (f : W → W) s : apart s.2 (f s.2) → calms (sys_ f) s.
Proof. intros. by apply will_sys_, calm_world. Qed.

Lemma calms_modify f s :
  good s.2 → calm s (f s.1, s.2) → calms (modify f) s.
Proof. intros. by apply will_modify. Qed.

(** The engine's other fields. *)
Lemma calm_fields s e :
  good s.2 → _timeout e = _timeout s.1 → e_engine e = e_engine s.1 →
  _nlaunched e = _nlaunched s.1 → status <$> _lvl4_sms e = conns s →
  _hosts_sms e = _hosts_sms s.1 → _sockets_targets e = _sockets_targets s.1 → calm s (e, s.2).
Proof.
  intros Hs Ht He Hn Hl Hh Hso. split; [|by apply apart_refl|done..].
  split; simpl; [by apply follows_refl|done|by rewrite He|done].
Qed.

Lemma timestamp_apart w t w' : good w → timestamp w = (t, w') → apart w w'.
Proof. intros Hw H. by apply (sk_time _ _ SK) in H as [? _]. Qed.

(** The host of an address; a new one is put into the map. *)
Lemma will_host_sm ip s : good s.2 →
  will (host_sm ip) s (λ h s', rest s s' ∧ apart s.2 s'.2 ∧ conns s' = conns s ∧
    _sockets_targets s'.1 = _sockets_targets s.1 ∧ found (_hosts_sms s.1) ip h ∧
    ∀ h', <[ip := h']> (_hosts_sms s'.1) = <[ip := h']> (_hosts_sms s.1)).
Proof.
  intros Hs. apply will_bind, will_gets. destruct (_hosts_sms s.1 !! ip) as [h|] eqn:Eh.
  { apply will_ret. split_and!; [by apply rest_refl|by apply apart_refl|done|done|by left|done]. }
  apply will_bind, will_sys. intros h w Hw. unfold HostSM_ctor, StateMachine.StateMachine_ctor in Hw.
  destruct (timestamp s.2) as [now w'] eqn:E. injection Hw as <- <-. apply timestamp_apart in E; [|done].
  apply will_bind, will_modify, will_ret. simpl.
  split_and!; [by split; [apply E|..]|done|done|done|by right|].
  intros h'. by rewrite insert_insert_eq.
Qed.

Lemma will_lvl4_sm s l st0 (Q : Lvl4SM → st → Prop) :
  _lvl4_sms st0.1 !! s = Some l → Q l st0 → will (lvl4_sm s) st0 Q.
Proof. intros Hl HQ. apply will_bind, will_gets. rewrite Hl. by apply will_ret. Qed.

Lemma will_target s t st0 (Q : Target → st → Prop) :
  _sockets_targets st0.1 !! s = Some t → Q t st0 → will (target_from_socket s) st0 Q.
Proof. intros Ht HQ. apply will_bind, will_gets, will_lift. rewrite Ht. by eexists. Qed.

Lemma calms_callback_finish t b err s : good s.2 → calms (callback_finish t b err) s.
Proof.
  intros Hs. apply calms_bind; [by apply calms_gets|]. intros [f|] s1 H1%calm_good; [|by apply calms_ret].
  apply will_run_. destruct (sk_finish _ _ SK f t (Buffer.block b) (Buffer.size b) err _ H1) as (w & Hw & Hf).
  exists w. split; [done|]. by apply calm_world.
Qed.

Lemma calms_put_same s l l' st0 :
  good st0.2 → _lvl4_sms st0.1 !! s = Some l → status l' = status l → calms (put_lvl4_sm s l') st0.
Proof.
  intros Hg Hl Heq. apply calms_modify; [done|]. apply calm_fields; try done.
  simpl. rewrite fmap_insert, Heq. apply insert_id. by rewrite lookup_fmap, Hl.
Qed.

Lemma calms_alter s f st0 :
  good st0.2 → (∀ l, status (f l) = status l) → calms (alter_lvl4_sm s f) st0.
Proof.
  intros Hg Hf. apply calms_modify; [done|]. apply calm_fields; try done.
  simpl. apply map_eq. intros i. rewrite !lookup_fmap, lookup_alter.
  case_decide; [|done]. subst. destruct (_lvl4_sms st0.1 !! i); simpl; by rewrite ?Hf.
Qed.

(** A socket in use can be ended when the set can be told so: only its
    connection goes. *)
Lemma will_socket_finished s t err (P : gmap Z HostSM → W → Prop) st0 :
  good st0.2 → _sockets_targets st0.1 !! s = Some t → s ∈ dom (_lvl4_sms st0.1) →
  (∀ hs w w', apart w w' → P hs w → P hs w') →
  (∀ h w, apart st0.2 w → found (_hosts_sms st0.1) (ipv4 t) h →
     ∃ b h' w', ts_target_finished t h w = Ok (b, h', w') ∧ follows w w' ∧
       P (hosts_after b (ipv4 t) h' (_hosts_sms st0.1)) w') →
  will (socket_finished s err) st0 (λ _ st1,
    rest st0 st1 ∧ conns st1 = delete s (conns st0) ∧ P (_hosts_sms st1.1) st1.2).
Proof.
  intros Hg Ht [l Hl]%elem_of_dom HP Hfin. apply will_bind, will_modify.
  apply will_bind. eapply will_target; [exact Ht|]. apply will_bind.
  eapply will_lvl4_sm; [exact Hl|].
  match goal with |- will _ ?s _ => assert (H1 : calm st0 s) by (by apply calm_fields) end.
  eapply calm_step; [exact H1|by apply calms_callback_finish|]. intros _ st2 H2.
  eapply calm_step; [exact H2|apply calms_alter; [by eapply calm_good|done]|]. intros _ st3 H3.
  apply will_bind. eapply will_mono; [apply will_host_sm; by eapply calm_good|].
  intros h st4 (Hr4 & Ha4 & Hc4 & Hso4 & Hh4 & Hins).
  rewrite (ca_hosts _ _ H3) in Hh4. setoid_rewrite (ca_hosts _ _ H3) in Hins.
  destruct (Hfin h st4.2) as (b & h' & w & Hw & Hf & HPw);
    [eapply apart_trans; [apply H3|done]|done|].
  apply will_bind, will_bind, will_run. exists (b, h'), w. unfold target_finished. rewrite Hw.
  split; [done|]. apply will_bind, will_modify, will_ret. simpl.
  apply will_bind. apply will_mono with (λ _ s5, rest st0 s5 ∧ conns s5 = conns st0 ∧ s5.2 = w ∧
    _hosts_sms s5.1 = hosts_after b (ipv4 t) h' (_hosts_sms st0.1)).
  { assert (Hr : rest st0 (st4.1, w)).
    { eapply rest_trans; [eapply rest_trans; [apply H3|exact Hr4]|]. by split. }
    assert (Hc : conns st4 = conns st0) by (rewrite Hc4; apply H3).
    destruct b; [apply will_modify|apply will_ret]; simpl; unfold hosts_after;
      (split_and!; [by split; apply Hr|done|done|]).
    - by rewrite Hins, delete_insert_eq.
    - by apply Hins. }
  intros _ s5 (Hr5 & Hc5 & <- & Hh5). pose proof (rest_good _ _ Hr5) as Hg5.
  eexists _, _. split; [reflexivity|]. simpl.
  assert (Ha : apart s5.2 (sys_close s (sys_epoll_del (_epoll s5.1) s (sys_epoll_del (_epoll s5.1) s s5.2)))).
  { pose proof (sk_epoll_del _ _ SK (_epoll s5.1) s _ Hg5) as Ha1.
    pose proof (sk_epoll_del _ _ SK (_epoll s5.1) s _ (apart_good _ _ Ha1)) as Ha2.
    eapply apart_trans; [by eapply apart_trans|]. apply (sk_close _ _ SK). by eapply apart_good. }
  split; [|split; [by rewrite fmap_delete, Hc5|]].
  - eapply rest_trans; [exact Hr5|]. split; simpl; auto. apply Ha.
  - eapply HP; [exact Ha|]. by rewrite Hh5.
Qed.

(** ** Launching *)

Lemma will_update_ts s l st0 :
  good st0.2 → _lvl4_sms st0.1 !! s = Some l →
  will (update_lvl4_ts s) st0 (λ _ st1, rest st0 st1 ∧ apart st0.2 st1.2 ∧
    errno st1.2 = errno st0.2 ∧ _hosts_sms st1.1 = _hosts_sms st0.1 ∧
    _sockets_targets st1.1 = _sockets_targets st0.1 ∧ ∃ ts,
    conns st1 = <[s := ((status l).1.1, ts, (status l).2)]> (conns st0) ∧
    ts ≤ clock st1.2 / 1000).
Proof.
  intros Hg Hl. apply will_bind. eapply will_lvl4_sm; [exact Hl|].
  apply will_bind, will_sys. intros l' w Hts. unfold update_ts, StateMachine.update_ts in Hts.
  destruct (timestamp st0.2) as [now w'] eqn:E. injection Hts as <- <-.
  apply (sk_time _ _ SK) in E as (Hf & Hnow & He); [|done]. apply will_modify. simpl.
  split; [split; [apply Hf|done..]|]. split_and!; [done|done|done|done|].
  exists now. split; [by rewrite fmap_insert|lia].
Qed.

Lemma new_lvl4_sm_spec s st0 :
  good st0.2 → _lvl4_sms st0.1 !! s = None →
  will (new_lvl4_sm s) st0 (λ _ st1, apart st0.2 st1.2 ∧ errno st1.2 = errno st0.2 ∧ ∃ l,
    st1.1 = up_lvl4 (λ m, <[s := l]> m) st0.1 ∧ _reprocess l = false).
Proof.
  intros Hg Hn. apply will_bind, will_sys. intros l w Hl.
  unfold Lvl4SM_ctor, StateMachine.StateMachine_ctor in Hl.
  destruct (timestamp st0.2) as [now w'] eqn:E. injection Hl as <- <-.
  apply (sk_time _ _ SK) in E as (Ha & _ & He); [|done]. apply will_modify. split; [done|split; [done|]].
  eexists. simpl. unfold up_lvl4. rewrite map_insert_None by done. by split.
Qed.

(** With a socket left, a connection to the target is created; the kernel may
    refuse it at once. *)
Lemma will_create_socket N d t st0 :
  accounts N d st0 → good st0.2 → 0 < _avail_socks st0.1 →
  will (create_socket t) st0 (λ '(ret, s) st1, rest st0 st1 ∧ apart st0.2 st1.2 ∧
    _hosts_sms st1.1 = _hosts_sms st0.1 ∧ s ≠ -1 ∧
    (refused ∨ ret = 0 ∨ errno st1.2 = EINPROGRESS) ∧ ∃ ts,
    conns st1 = <[s := (true, ts, false)]> (conns st0) ∧ ts ≤ clock st1.2 / 1000).
Proof.
  intros Hacc Hg Hav. apply will_bind, will_gets, will_bind, will_lift.
  rewrite (proj2 (Z.ltb_lt _ _) Hav). eexists. split; [done|].
  apply will_bind, will_sys. intros s w Hs. unfold new_socket in Hs.
  destruct (sys_socket _ _ st0.2) as [s' w'] eqn:Hsock. injection Hs as <- <-.
  pose proof (sk_socket _ _ SK _ _ _ _ _ Hg Hsock) as [Hs1 Hf1].
  apply socket_fresh in Hsock as [[? _]|(_ & Hfresh & _)]; [done|].
  assert (Hns : s' ∉ dom (_sockets_targets st0.1)) by (pose proof (acc_open _ _ _ Hacc); set_solver).
  rewrite <- (acc_dom _ _ _ Hacc) in Hns. apply not_elem_of_dom in Hns.
  rewrite (proj2 (Z.eqb_neq _ _) Hs1).
  pose proof (sk_set_nonblock _ _ SK s' w' (apart_good _ _ Hf1)) as Hf2.
  pose proof (apart_trans _ _ _ Hf1 Hf2) as Hf3. clear Hf1 Hf2.
  apply will_bind, will_modify, will_bind, will_sys. simpl. intros ret w1 Hconn.
  apply (sk_connect _ _ SK) in Hconn as [Hconn Hret]; [|by eapply apart_good].
  pose proof (apart_trans _ _ _ Hf3 Hconn) as Hf4. clear Hf3 Hconn.
  apply will_bind. eapply will_mono; [apply new_lvl4_sm_spec; [by eapply apart_good|done]|].
  intros _ [e2 w2] (Hf5 & He2 & l & He & Hl). simpl in Hf5, He, He2. subst e2.
  pose proof (apart_trans _ _ _ Hf4 Hf5) as Hf6. clear Hf4 Hf5.
  apply will_bind, will_gets, will_bind, will_modify, will_bind.
  eapply will_mono; [eapply will_update_ts; simpl; [by eapply apart_good|]|].
  { by rewrite alter_insert_eq, lookup_insert_eq. }
  simpl. intros _ st3 (Hrest & Ha3 & He3 & Hh3 & _ & ts & Hconns & Hts).
  apply will_bind, will_modify, will_ret.
  pose proof (apart_trans _ _ _ Hf6 Ha3) as Ha. simpl.
  split_and!; [|done|done|done|by rewrite He3, He2|].
  - destruct Hrest as [Hw Ht Hsv Hn]. simpl in *. split; simpl; auto. apply Ha.
  - exists ts. simpl. split; [|done]. rewrite Hconns. simpl.
    rewrite alter_insert_eq, fmap_insert, insert_insert_eq. by rewrite Hl.
Qed.

(** ** Quiet states *)

Section Quiet.
Context (N total : Z).

(** Every connection waits, since a time that has passed, and no trigger was
    installed. [d] is that of [accounts]; [total] is the number of targets. *)
Record quiet (d : Z) (s : st) : Prop := {
  q_accounts : accounts N d s;
  q_good : good s.2;
  q_timeout : _timeout s.1 ≤ max_timeout;
  q_save : saves_ready (e_engine s.1);
  q_conns : map_Forall (λ _ p, ∃ ts, p = (true, ts, false) ∧ ts ≤ clock s.2 / 1000) (conns s);
  q_total : _nlaunched s.1 + Z.of_nat (left s.2) = total;
}.

(** The targets that are to be launched and those in flight. *)
Definition work (s : st) : nat := left s.2 + size (conns s).

Lemma q_size d s : quiet d s → size (conns s) = size (_sockets_targets s.1).
Proof.
  intros Hq. rewrite map_size_fmap, <- !size_dom. by rewrite (acc_dom _ _ _ (q_accounts _ _ Hq)).
Qed.

Lemma q_dom d s i : quiet d s → i ∈ dom (_sockets_targets s.1) ↔ is_Some (conns s !! i).
Proof.
  intros Hq. by rewrite <- (acc_dom _ _ _ (q_accounts _ _ Hq)), <- elem_of_dom, dom_fmap.
Qed.

Lemma conns_later (s : st) (m : gmap Z (bool * Z * bool)) w :
  clock s.2 ≤ clock w →
  map_Forall (λ _ p, ∃ ts, p = (true, ts, false) ∧ ts ≤ clock s.2 / 1000) m →
  map_Forall (λ _ p, ∃ ts, p = (true, ts, false) ∧ ts ≤ clock w / 1000) m.
Proof.
  intros Hc H i p Hp. destruct (H i p Hp) as (ts & -> & ?). exists ts. split; [done|].
  pose proof (Z.div_le_mono _ _ 1000 ltac:(lia) Hc). lia.
Qed.

(** A change of the connections between two quiet states. *)
Lemma quiet_rest d d' s s' :
  quiet d s → rest s s' → accounts N d' s' →
  map_Forall (λ _ p, ∃ ts, p = (true, ts, false) ∧ ts ≤ clock s'.2 / 1000) (conns s') →
  quiet d' s'.
Proof.
  intros [] [[] Ht Hs Hn] Hacc Hc. split; auto; [by rewrite Ht|congruence].
Qed.

Lemma quiet_calm d s s' : quiet d s → calm s s' → accounts N d s' → quiet d s'.
Proof.
  intros Hq [Hr _ Hc _ _] Hacc. eapply quiet_rest; [done..|]. rewrite Hc.
  apply conns_later with (s := s); [apply Hr|apply Hq].
Qed.

(** What is needed of the hosts, the target [po] being on no socket. *)
Definition fit (po : option Target) (s : st) : Prop :=
  fits (_hosts_sms s.1) (_sockets_targets s.1) po s.2.

Lemma fit_calm po s s' : fit po s → calm s s' → fit po s'.
Proof. unfold fit. intros Hf [_ [_ Ha] _ -> ->]. by apply Ha. Qed.

(** Ending the socket [s], of target [t], that leaves the targets [ts]. *)
Lemma quiet_ended d s t err ts st0 :
  quiet d st0 → _sockets_targets st0.1 !! s = Some t → ts = delete s (_sockets_targets st0.1) →
  (∀ h w, apart st0.2 w → found (_hosts_sms st0.1) (ipv4 t) h →
     ∃ b h' w', ts_target_finished t h w = Ok (b, h', w') ∧ follows w w' ∧
       fits (hosts_after b (ipv4 t) h' (_hosts_sms st0.1)) ts None w') →
  will (socket_finished s err) st0 (λ _ st1,
    quiet d st1 ∧ fit None st1 ∧ follows st0.2 st1.2 ∧ conns st1 = delete s (conns st0)).
Proof.
  intros Hq Hs Hts Hfin. pose proof (q_accounts _ _ Hq) as Hacc.
  eapply will_mono.
  { apply will_post; [eapply (will_socket_finished s t err (λ hs w, fits hs ts None w))|
      by apply (socket_finished_accounts HU N d)].
    - apply Hq.
    - done.
    - rewrite (acc_dom _ _ _ Hacc). apply elem_of_dom. eauto.
    - intros hs w w' [_ Ha]. apply Ha.
    - exact Hfin. }
  simpl. intros _ st1 [(Hr & Hc & Hf) [Hacc1 Hso]]. split; [|split_and!; [|apply Hr|done]].
  - eapply quiet_rest; [done..|]. rewrite Hc. apply map_Forall_delete.
    apply conns_later with (s := st0); [apply Hr|apply Hq].
  - unfold fit. by rewrite Hso, <- Hts.
Qed.

Lemma quiet_finished d s err st0 :
  quiet d st0 → fit None st0 → s ∈ dom (_sockets_targets st0.1) →
  will (socket_finished s err) st0 (λ _ st1,
    quiet d st1 ∧ fit None st1 ∧ follows st0.2 st1.2 ∧ conns st1 = delete s (conns st0)).
Proof.
  intros Hq Hf [t Ht]%elem_of_dom. eapply quiet_ended; [done..|]. intros h w [Hw Ha] Hh.
  eapply (ss_finished SS); [by eapply follows_good|by apply Ha|done|done].
Qed.

Lemma quiet_refused d s t err ts st0 :
  refused → quiet d st0 → _sockets_targets st0.1 = <[s := t]> ts → ts !! s = None →
  fits (_hosts_sms st0.1) ts (Some t) st0.2 →
  will (socket_finished s err) st0 (λ _ st1,
    quiet d st1 ∧ fit None st1 ∧ follows st0.2 st1.2 ∧ conns st1 = delete s (conns st0)).
Proof.
  intros Hrf Hq Hso Hs Hf. eapply (quiet_ended d s t err ts); [done| | |].
  - by rewrite Hso, lookup_insert_eq.
  - by rewrite Hso, delete_insert_id.
  - intros h w [Hw Ha] Hh. eapply (ss_refused SS); [done|by eapply follows_good|by apply Ha|done].
Qed.

Lemma quiet_create t st0 :
  quiet 1 st0 → fit (Some t) st0 → 0 < _avail_socks st0.1 →
  will (create_socket t) st0 (λ '(ret, s) st1,
    quiet 0 st1 ∧ follows st0.2 st1.2 ∧
    (refused ∨ ret = 0 ∨ errno st1.2 = EINPROGRESS) ∧
    conns st0 !! s = None ∧ (∃ p, conns st1 = <[s := p]> (conns st0)) ∧
    ∃ ts, _sockets_targets st1.1 = <[s := t]> ts ∧ ts !! s = None ∧
      fits (_hosts_sms st1.1) ts (Some t) st1.2).
Proof.
  intros Hq Hf Hav. pose proof (q_accounts _ _ Hq) as Hacc.
  eapply will_mono.
  { apply will_post; [eapply will_create_socket; [done|apply Hq|done]|].
    by apply (create_socket_accounts N 1). }
  simpl. intros [ret s] st1 [(Hr & Ha & Hh & Hs1 & He & ts & Hc & Hts) [[? _]|(_ & Hacc1 & Hns & Hs)]]; [done|].
  assert (Hn : conns st0 !! s = None).
  { rewrite lookup_fmap. rewrite <- (acc_dom _ _ _ Hacc) in Hns.
    apply not_elem_of_dom in Hns. by rewrite Hns. }
  split_and!; [|apply Hr|done|done|by eexists|].
  - eapply quiet_rest; [done..|]. rewrite Hc. apply map_Forall_insert_2; [by exists ts|].
    apply conns_later with (s := st0); [apply Hr|apply Hq].
  - exists (_sockets_targets st0.1). split_and!; [done|by apply not_elem_of_dom|].
    rewrite Hh. by apply Ha.
Qed.

(** The clock goes on, the work decreases or the connections are still there. *)
Record advances (s s' : st) : Prop := {
  ad_clock : clock s.2 ≤ clock s'.2;
  ad_left : (left s'.2 ≤ left s.2)%nat;
  ad_work : (work s' ≤ work s)%nat;
  ad_conns : (work s' < work s)%nat ∨ conns s ⊆ conns s';
}.

Lemma advances_trans s1 s2 s3 : advances s1 s2 → advances s2 s3 → advances s1 s3.
Proof.
  intros [Hc1 Hl1 Hw1 H1] [Hc2 Hl2 Hw2 H2]. split; [lia..|].
  destruct H1 as [?|H1]; [left; lia|]. destruct H2 as [?|H2]; [left; lia|right]. by trans (conns s2).
Qed.

Lemma advances_calm s s' : calm s s' → advances s s'.
Proof.
  intros [[[_ ? Hl] _ _ _] _ Hc _ _]. split; [done|lia|..]; unfold work; rewrite Hc; [lia|by right].
Qed.

Lemma calms_quiet {A} d (m : ST A) s :
  quiet d s → calms m s → post m s (λ _, same_accounts s) →
  will m s (λ _ s', quiet d s' ∧ calm s s').
Proof.
  intros Hq Hm Hp. eapply will_mono; [by apply will_post|]. simpl. intros _ s' [Hc Ha].
  split; [|done]. eapply quiet_calm; [done..|]. eapply accounts_same; [done|apply Hq].
Qed.

(** ** The next targets *)

(** Between two operations of a scan. *)
Definition settled (s : st) : Prop := quiet 0 s ∧ fit None s.

Lemma calms_settled {A} (m : ST A) s :
  settled s → calms m s → post m s (λ _, same_accounts s) →
  will m s (λ _ s', settled s' ∧ calm s s').
Proof.
  intros [Hq Hf] Hm Hp. eapply will_mono; [by eapply calms_quiet|]. simpl. intros _ s' [Hq' Hc].
  split; [split; [done|by eapply fit_calm]|done].
Qed.

Lemma settled_calm s s' : settled s → calm s s' → same_accounts s s' → settled s'.
Proof.
  intros [Hq Hf] Hc Ha. split; [|by eapply fit_calm].
  eapply quiet_calm; [done..|]. eapply accounts_same; [done|apply Hq].
Qed.

(** The target [t] has the socket [i], and its host is to be initialised. *)
Definition placing (i : Z) (t : Target) (s : st) : Prop := ∃ ts,
  _sockets_targets s.1 = <[i := t]> ts ∧ ts !! i = None ∧
  fits (_hosts_sms s.1) ts (Some t) s.2.

(** What launching does: the target it found is in flight, or there is none left. *)
Definition launched (s : st) (r : launch_result) (s' : st) : Prop :=
  match r with
  | Launched i t => size (conns s') = S (size (conns s)) ∧ placing i t s'
  | EndOfTargets => left s'.2 = 0%nat ∧ fit None s'
  | WouldBlock => False
  end.

Lemma work_create s1 s2 s i p :
  conns s1 !! i = None → conns s2 = <[i := p]> (conns s1) → left s = S (left s1.2) →
  left s2.2 = left s1.2 → (left s2.2 + size (conns s2) = left s + size (conns s1))%nat.
Proof. intros Hi -> Hl ->. rewrite map_size_insert_None by done. lia. Qed.

Lemma will_launch_next fuel s :
  settled s → 0 < _avail_socks s.1 → (left s.2 < fuel)%nat →
  will (launch_next fuel) s (λ r s', quiet 0 s' ∧ advances s s' ∧ launched s r s').
Proof.
  revert s; induction fuel as [|fuel IH]; intros s [Hq Hfit] Hav Hfuel; [lia|]. cbn [launch_next].
  destruct (ss_next SS _ (q_good _ _ Hq)) as (t & w1 & Hnext & Hcase).
  assert (Hfds : open_fds w1 = open_fds s.2) by (by eapply (keeps_next HU)).
  apply will_bind, will_run. exists (NextTarget t), w1. split; [done|].
  destruct (is_end t).
  { destruct Hcase as [Hl Hf]. apply will_ret.
    assert (Hcalm : calm s (s.1, w1)) by (by apply calm_world).
    destruct (settled_calm s (s.1, w1)) as [Hq1 Hf1]; [done|done|by split|].
    split; [done|split; [by apply advances_calm|]]. split; [|done]. simpl.
    by rewrite (fo_left _ _ (proj1 Hf)). }
  destruct Hcase as (Hl & Hg1 & Hc1 & Hf1). apply will_bind, will_modify. simpl.
  match goal with |- will _ ?s _ => set (s2 := s) end.
  assert (H2 : quiet 1 s2).
  { destruct Hq as [[] ? ? ? Hconns Htot]. simpl in *. split; try done.
    - split; simpl; try done; [by rewrite Hfds|lia].
    - by apply conns_later with (s := s).
    - simpl. lia. }
  assert (Hs2 : conns s2 = conns s ∧ left s2.2 = left w1 ∧ clock s2.2 = clock w1 ∧
                _avail_socks s2.1 = _avail_socks s.1 ∧ fit (Some t) s2) by (by split_and!; [..|apply Hf1]).
  clearbody s2. destruct Hs2 as (Hc2 & Hl2 & Hk2 & Hav2 & Hf2).
  apply will_bind. eapply will_mono; [apply quiet_create; [done|done|by rewrite Hav2]|].
  intros [ret i] s3 (H3 & [Hg3 Hc3 Hl3] & Hret & Hn & [p Hp] & Hplace).
  pose proof (work_create s2 s3 s.2 i p Hn Hp ltac:(congruence) Hl3) as Hwork.
  assert (Hlaunched : quiet 0 s3 ∧ advances s s3 ∧ launched s (Launched i t) s3).
  { split; [done|]. simpl. rewrite Hp, map_size_insert_None by done.
    split; [split; [lia|lia|unfold work; rewrite <- Hc2; lia|right]|by rewrite Hc2].
    rewrite Hp, Hc2. rewrite Hc2 in Hn. by apply insert_subseteq. }
  destruct (ret =? 0) eqn:Er; [by apply will_ret|]. apply will_bind, will_ask.
  destruct (_ =? EINPROGRESS) eqn:Ep; [by apply will_ret|].
  apply Z.eqb_neq in Er, Ep. destruct Hret as [Hrf|[?|?]]; [|done|done].
  destruct Hplace as (ts & Hts & Hi & Hf3).
  apply will_bind. eapply will_mono; [by eapply quiet_refused|].
  simpl. intros _ s4 (H4 & Hf4 & [Hg4 Hc4 Hl4] & Hcn4).
  assert (Hcs : conns s4 = conns s) by (by rewrite Hcn4, Hp, delete_insert_id, Hc2).
  assert (Hav4 : _avail_socks s4.1 = _avail_socks s.1).
  { pose proof (acc_avail _ _ _ (q_accounts _ _ H4)). pose proof (acc_avail _ _ _ (q_accounts _ _ Hq)).
    rewrite <- (q_size _ _ H4), Hcs in *. rewrite <- (q_size _ _ Hq) in *. lia. }
  eapply will_mono; [apply IH; [done|lia|lia]|].
  intros r s5 (H5 & Hadv & Hr). split; [done|].
  assert (H45 : advances s s4).
  { split; [lia|lia|unfold work; rewrite Hcs; lia|left; unfold work; rewrite Hcs; lia]. }
  split; [by eapply advances_trans|]. destruct r; simpl in *; by rewrite <- ?Hcs.
Qed.

Lemma quiet_step {A B} (m : ST A) (f : A → ST B) Q s0 s :
  settled s → advances s0 s → conns s = conns s0 → calms m s → post m s (λ _, same_accounts s) →
  (∀ a s', settled s' → advances s0 s' → conns s' = conns s0 → will (f a) s' Q) →
  will (m ≫= f) s Q.
Proof.
  intros Hq Hadv Hc Hm Hp Hf. apply will_bind. eapply will_mono; [by eapply calms_settled|].
  simpl. intros a s' [Hq' Hcalm]. apply Hf; [done| |].
  - eapply advances_trans; [done|by apply advances_calm].
  - rewrite (ca_conns _ _ Hcalm). done.
Qed.

(** The host of the target that was placed is initialised. *)
Lemma will_place {B} (f : ST B) Q i t s :
  quiet 0 s → placing i t s →
  (∀ s', settled s' → advances s s' → conns s' = conns s → will f s' Q) →
  will (h ← host_sm (ipv4 t); h ← run (init_host_sm t h); put_host_sm (ipv4 t) h;; f) s Q.
Proof.
  intros Hq (ts & Hts & Hi & Hfit) Hnext. apply will_bind.
  eapply will_mono; [apply will_post; [apply will_host_sm, Hq|apply (frame_host_sm (R := same_accounts))]|].
  intros h s1 [(Hr1 & [Hf1 Hap1] & Hc1 & Hso1 & Hh1 & Hins1) Ha1]. cbv beta in Ha1.
  destruct (ss_init_host SS t h s1.2) as (h' & w & Hw & Hf & Hfits); [by eapply follows_good|].
  apply will_bind, will_run. exists h', w. split; [done|]. apply will_bind, will_modify.
  assert (Hfd : open_fds w = open_fds s1.2) by (by eapply (keeps_init_host HU)).
  assert (Hr : rest s (s1.1, w)) by (eapply rest_trans; [exact Hr1|by split]).
  apply Hnext.
  - split.
    + eapply quiet_rest; [done|split; apply Hr| |].
      * eapply accounts_same; [|eapply accounts_same; [exact Ha1|apply Hq]]. by split.
      * simpl. rewrite Hc1. apply conns_later with (s := s); [apply Hr|apply Hq].
    + unfold fit. simpl. rewrite Hins1, Hso1, Hts. by apply Hfits; [apply Hap1|..].
  - pose proof (re_world _ _ Hr) as [_ Hck Hl]. simpl in Hck, Hl.
    split; simpl; [done|by rewrite Hl|unfold work; simpl; rewrite Hl, Hc1; lia|right; by rewrite Hc1].
  - done.
Qed.

Lemma avail_size s : quiet 0 s → _avail_socks s.1 = N - Z.of_nat (size (conns s)).
Proof. intros Hq. pose proof (acc_avail _ _ _ (q_accounts _ _ Hq)). rewrite (q_size _ _ Hq). lia. Qed.

(** The target that was found is registered; the others follow. *)
Lemma will_launch_loop fuel n s :
  settled s → Z.of_nat n ≤ _avail_socks s.1 → (left s.2 < fuel)%nat →
  will (launch_loop fuel n) s (λ more s', settled s' ∧ advances s s' ∧
    (more = false → left s'.2 = 0%nat) ∧
    (more = true → n ≠ 0%nat → (work s' < work s)%nat ∨ conns s' ≠ ∅)).
Proof.
  revert s; induction n as [|n IH]; intros s Hq Hav Hfuel.
  { apply will_ret. split; [done|]. split_and!; [|done|done]. apply advances_calm, calm_refl, Hq. }
  cbn [launch_loop]. apply will_bind.
  eapply will_mono; [apply will_launch_next; [done|lia|done]|].
  intros r s1 (H1 & Hadv & Hr).
  destruct r as [i t| |]; [|destruct Hr; apply will_ret; by split_and!|done].
  destruct Hr as [Hr Hplace]. eapply will_place; [done..|]. intros s4 H4 Ha4 Hc4.
  eapply quiet_step; [exact H4|exact Ha4|done| | |].
  { apply calms_bind; [apply calms_gets, H4|]. intros ep s5 H5%calm_good.
    by apply calms_sys_, (sk_epoll_add _ _ SK). }
  { apply (frame_epoll (R := same_accounts) (λ ep, sys_epoll_add ep i EPOLLOUT)). intros. apply epoll_add_fds. }
  intros _ s5 H5 Ha5 Hc5.
  eapply will_mono; [apply IH; [done| |]|].
  { rewrite (avail_size _ (proj1 H5)), Hc5, Hr. pose proof (avail_size _ (proj1 Hq)). lia. }
  { destruct Ha5, Hadv. lia. }
  intros more s6 (H6 & Ha6 & Hend & _). split_and!; [done| |done|].
  { eapply advances_trans; [exact Hadv|]. by eapply advances_trans. }
  intros _ _. destruct Hadv as [_ _ Hw _], Ha5 as [_ _ Hw5 _], Ha6 as [_ _ _ [?|Hsub]]; [left; lia|right].
  intros Hemp. rewrite Hemp, Hc5 in Hsub. apply map_subseteq_size in Hsub.
  rewrite Hr, map_size_empty in Hsub. lia.
Qed.

(** ** Timeouts *)

Lemma will_timeout_of_target t s :
  quiet 0 s → will (timeout_of_target t) s (λ n s', n ≤ max_timeout ∧ calm s s').
Proof.
  intros Hq. apply will_bind, will_gets. destruct (_callback_timeout_target s.1) as [f|].
  - apply will_run. destruct (sk_call_timeout _ _ SK f t _ (q_good _ _ Hq)) as (n & w & Hw & ? & Hf).
    exists n, w. split; [done|]. split; [done|by apply calm_world].
  - apply will_gets. split; [apply Hq|apply calm_refl, Hq].
Qed.

Lemma calms_has_watch_timedout ts s st0 :
  good st0.2 → s ∈ dom (_lvl4_sms st0.1) → calms (has_watch_timedout ts s) st0.
Proof.
  intros Hg [l Hl]%elem_of_dom. apply will_bind, will_gets, will_bind, will_gets.
  destruct (_watch_timeout_cb st0.1) as [f|]; [|by apply calms_ret].
  destruct (_ =? 0); [by apply calms_ret|]. apply will_bind. eapply will_lvl4_sm; [exact Hl|].
  destruct (_ <=? _); [|by apply calms_ret]. apply will_bind, will_ask.
  eapply calm_step; [by apply calm_refl| |].
  { apply will_run. destruct (sk_watch _ _ SK f (mkConnected (from_socket s st0.2) s) _ Hg) as (b & w & Hw & Hf).
    exists b, w. split; [done|by apply calm_world]. }
  intros [] st1 H1; [|by apply will_ret].
  eapply calm_step; [exact H1|apply calms_alter; [by eapply calm_good|done]|].
  intros _ st2 H2. by apply will_ret.
Qed.

Lemma will_check_connection ts s t0 st0 :
  quiet 0 st0 → conns st0 !! s = Some (true, t0, false) →
  will (check_connection ts s) st0 (λ r st1, calm st0 st1 ∧
    ∃ b, r = (false, b, negb b) ∧ (t0 + max_timeout ≤ ts → b = true)).
Proof.
  intros Hq Hs. rewrite lookup_fmap in Hs. destruct (_lvl4_sms st0.1 !! s) as [l|] eqn:Hl; [|done].
  injection Hs as Hv Hts Hre. apply will_bind. eapply will_lvl4_sm; [exact Hl|].
  rewrite Hv. cbn [negb]. unfold should_process_buffer. rewrite Hre.
  assert (Hput : up_lvl4 (λ m, <[s := l]> m) st0.1 = st0.1).
  { destruct st0 as [e w]. unfold up_lvl4. simpl in *. rewrite insert_id by done. by destruct e. }
  apply will_bind, will_modify. rewrite Hput. apply will_bind, will_ask.
  destruct st0 as [e w]. simpl in *. apply will_bind.
  eapply will_mono; [by apply will_timeout_of_target|]. intros n st1 [Hn H1]. apply will_bind.
  destruct (n <=? _) eqn:En.
  - apply will_ret, will_ret. split; [done|]. by exists true.
  - eapply will_mono; [apply calms_has_watch_timedout; [by eapply calm_good|]|].
    + rewrite <- (dom_fmap_L status), (ca_conns _ _ H1), dom_fmap_L. simpl.
      apply elem_of_dom. by exists l.
    + simpl. intros b st2 H2. apply will_ret. split; [by eapply calm_trans|].
      exists b. split; [done|lia].
Qed.

(** A connection to which nothing happened for the longest timeout. *)
Definition expired (ts : Z) (s : st) (i : Z) : Prop :=
  ∃ t0, conns s !! i = Some (true, t0, false) ∧ t0 + max_timeout ≤ ts.

Lemma will_check_loop ts keys s :
  settled s → (∀ i, i ∈ keys → i ∈ dom (_lvl4_sms s.1)) →
  will (check_loop ts keys) s (λ '(to_process, timeouted, n) s', settled s' ∧ calm s s' ∧
    to_process = [] ∧ timeouted `sublist_of` keys ∧ (keys = [] → n = 0) ∧
    ∀ i, i ∈ keys → expired ts s i → i ∈ timeouted).
Proof.
  revert s; induction keys as [|i keys IH]; intros s Hq Hk.
  { apply will_ret. split_and!; [done|apply calm_refl, Hq|done..|]. by intros i ?%elem_of_nil. }
  cbn [check_loop].
  assert (Hi : i ∈ dom (_lvl4_sms s.1)) by (apply Hk; set_solver).
  pose proof Hi as [l Hl]%elem_of_dom.
  assert (Hci : conns s !! i = Some (status l)) by (by rewrite lookup_fmap, Hl).
  destruct (q_conns _ _ (proj1 Hq) _ _ Hci) as (t0 & Hst & _). rewrite Hst in Hci.
  apply will_bind. eapply will_mono.
  { apply will_post; [apply (will_check_connection ts); [apply Hq|done]|by apply (frame_check_connection (R := same_accounts))]. }
  intros r s1 [(H1 & b & -> & Hb) Ha]. cbv beta in Ha.
  pose proof (settled_calm _ _ Hq H1 Ha) as Hq1.
  apply will_bind. eapply will_mono; [apply IH; [done|]|].
  { intros j Hj. rewrite (sa_dom _ _ Ha). apply Hk. set_solver. }
  intros [[tp to] n] s2 (Hq2 & H2 & -> & Hsub & _ & Hall). apply will_ret.
  split_and!; [done|by eapply calm_trans|done| |done|].
  - destruct b; [by apply sublist_skip|by apply sublist_cons].
  - intros j Hj (t1 & Hcj & Ht1). apply elem_of_app. apply elem_of_cons in Hj as [->|Hj].
    + left. rewrite Hci in Hcj. injection Hcj as <-. rewrite (Hb Ht1). set_solver.
    + right. apply Hall; [done|]. exists t1. by rewrite (ca_conns _ _ H1).
Qed.

(** Ending sockets takes their connections away, one each. *)
Lemma will_finish_all l s err :
  settled s → NoDup l → (∀ i, i ∈ l → is_Some (conns s !! i)) →
  will (for_each (λ i, socket_finished i err) l) s (λ _ s', settled s' ∧ follows s.2 s'.2 ∧
    (size (conns s') + length l = size (conns s))%nat ∧ (l = [] → conns s' = conns s)).
Proof.
  revert s; induction l as [|i l IH]; intros s Hq Hnd Hl; cbn [for_each].
  { apply will_ret. split; [done|]. split_and!; [apply follows_refl, Hq|simpl; lia|done]. }
  apply NoDup_cons in Hnd as [Hi Hnd]. pose proof (Hl i ltac:(set_solver)) as Hci.
  apply will_bind. eapply will_mono; [apply quiet_finished; [apply Hq|apply Hq|by apply (q_dom 0); [apply Hq|]]|].
  intros _ s1 (H1 & Hfit1 & Hf1 & Hc1). eapply will_mono; [apply IH; [by split|done|]|].
  { intros j Hj. rewrite Hc1, lookup_delete_ne by set_solver. apply Hl. set_solver. }
  intros _ s2 (H2 & Hf2 & Hsz & _). split; [done|]. split_and!; [by eapply follows_trans| |done].
  pose proof (size_delete_in (conns s) i) as Hdel. rewrite <- Hc1, elem_of_dom in Hdel.
  simpl. specialize (Hdel Hci). lia.
Qed.

(** The pass over the connections: unless it ends some, none had expired. *)
Lemma will_process_dirty_and_timeouts fuel s :
  settled s → will (process_dirty_and_timeouts fuel) s (λ n s', settled s' ∧ advances s s' ∧
    (conns s = ∅ → n = 0 ∧ conns s' = ∅) ∧
    ((work s' < work s)%nat ∨ ∀ ts i, ts ≤ clock s.2 / 1000 → ¬ expired ts s i)).
Proof.
  intros Hq. apply will_bind. eapply will_mono.
  { apply will_post; [|apply (frame_timestamp (R := same_accounts))].
    apply (will_sys _ _ (λ ts s', calm s s' ∧ clock s.2 / 1000 ≤ ts)). intros ts w Hts.
    apply (sk_time _ _ SK) in Hts as (Hf & Hts & _); [|apply Hq]. split; [by apply calm_world|lia]. }
  intros ts s1 [[H1 Hts] Ha]. cbv beta in Ha.
  pose proof (settled_calm _ _ Hq H1 Ha) as Hq1.
  apply will_bind, will_gets, will_bind.
  eapply will_mono; [apply (will_check_loop ts); [done|intros i; apply elem_of_map_keys]|].
  intros [[tp to] n] s2 (Hq2 & H2 & -> & Hsub & Hn & Hall). cbn [for_each].
  pose proof (calm_trans _ _ _ H1 H2) as [H02 _ Hc02 _ _].
  apply will_bind, will_ret, will_bind.
  eapply will_mono; [apply will_finish_all; [done|eapply sublist_NoDup; [|exact Hsub]; apply map_keys_NoDup|]|].
  { intros i Hi. rewrite (ca_conns _ _ H2), <- elem_of_dom, dom_fmap_L.
    apply elem_of_map_keys. by eapply elem_of_sublist. }
  intros _ s3 (Hq3 & [_ Hck Hlf] & Hsz & Hnil). apply will_ret.
  destruct H02 as [[_ Hck0 Hlf0] _ _ _].
  assert (Hwork : (work s3 + length to = work s)%nat).
  { unfold work. rewrite Hlf, Hlf0, <- Hc02. lia. }
  split; [done|]. split_and!.
  - split; [lia|lia|lia|]. destruct to; [right; by rewrite Hnil, Hc02|left; simpl in Hwork; lia].
  - intros Hemp. split; [apply Hn|apply map_size_empty_inv; rewrite Hc02, Hemp, map_size_empty in Hsz; lia].
    pose proof (ca_conns _ _ H1) as H1c.
    destruct (map_keys (_lvl4_sms s1.1)) as [|i keys] eqn:E; [done|].
    assert (Hi : i ∈ dom (_lvl4_sms s1.1)) by (apply elem_of_map_keys; rewrite E; set_solver).
    rewrite <- (dom_fmap_L status), H1c, Hemp in Hi. set_solver.
  - destruct to as [|i to]; [right|left; simpl in Hwork; lia].
    intros ts' i Hts' (t0 & Hi & Ht0).
    assert (Hin : i ∈ []); [|by apply elem_of_nil in Hin]. pose proof (ca_conns _ _ H1) as H1c.
    apply Hall; [|exists t0; split; [by rewrite H1c|lia]].
    apply elem_of_map_keys. rewrite <- (dom_fmap_L status), H1c. by apply elem_of_dom.
Qed.

(** ** Rounds *)

Lemma will_process_events fuel s :
  settled s → will (process_events fuel) s (λ n s', n = 0 ∧ settled s' ∧ calm s s' ∧
    clock s.2 + 1 ≤ clock s'.2).
Proof.
  intros Hq. apply will_bind, will_gets, will_bind, will_sys. intros evs w Hw.
  pose proof (epoll_wait_fds _ _ _ _ _ Hw) as Hfds.
  apply (sk_epoll_wait _ _ SK) in Hw as (-> & Hf & Hc); [|apply Hq]. cbn [for_each].
  apply will_bind, will_ret, will_ret. assert (Hcalm : calm s (s.1, w)) by (by apply calm_world).
  split; [done|split; [|by split]]. by eapply settled_calm.
Qed.

Lemma calms_call_status_display s : good s.2 → calms call_status_display s.
Proof.
  intros Hg. apply will_bind. apply will_mono with
    (λ b s', calm s s' ∧ (b = true → is_Some (_callback_status s'.1))).
  - apply will_bind, will_gets, will_bind, will_gets.
    case_bool_decide as Hcb; [|by apply will_ret; split; [apply calm_refl|]].
    destruct (negb _); cbn [andb]; [|by apply will_ret; split; [apply calm_refl|]].
    apply will_bind, will_sys. intros now w Hw. apply timestamp_apart in Hw; [|done].
    apply will_bind, will_gets. destruct (_ <=? _).
    + apply will_bind, will_modify, will_ret. split; [|done].
      eapply calm_trans; [by apply calm_world|]. apply calm_fields; try done. by eapply apart_good.
    + apply will_ret. split; [by apply calm_world|done].
  - intros [] s1 [H1 Hcb]; [|by apply will_ret].
    destruct (Hcb eq_refl) as [f Hf].
    apply will_bind, will_gets, will_bind, will_gets, will_bind, will_gets, will_bind, will_lift.
    rewrite Hf. exists f. split; [done|]. apply will_run_.
    destruct (sk_status _ _ SK f (u32 (_nlaunched s1.1)) (u32 (_ndone s1.1)) _ (calm_good _ _ H1))
      as (w & Hw & Hfw).
    exists w. split; [done|]. eapply calm_trans; [done|by apply calm_world].
Qed.

Lemma calms_call_autosave s : saves_ready (e_engine s.1) → good s.2 → calms call_autosave s.
Proof.
  intros Hsv Hg. apply will_bind, will_gets, will_bind.
  apply will_mono with (λ '(b, e) s', apart s.2 s'.2 ∧ s'.1 = s.1 ∧ saves_ready e).
  - apply will_run. unfold should_save_state. destruct (_ || _) eqn:Eoff.
    { eexists _, _. split; [done|]. split_and!; [by apply apart_refl|done|done]. }
    apply orb_false_iff in Eoff as [Ht _]. apply Z.eqb_neq in Ht.
    destruct Hsv as [?|[last Hlast]]; [done|]. destruct (sys_time s.2) as [now w] eqn:Hw.
    apply (sk_time _ _ SK) in Hw as (Hf & _ & _); [|done]. rewrite Hlast. simpl.
    destruct (_ <=? _); eexists _, _; (split; [done|]); (split_and!; [done|done|right; simpl; eauto]).
  - intros [b e] [e0 w] (Hf & He & Hsv'). simpl in *. subst e0. apply will_bind, will_modify.
    assert (Hcalm : calm s (up_engine (λ _, e) s.1, w)) by (by split; [split; [apply Hf|..]|..]).
    destruct b; [|by apply will_ret]. apply will_run_.
    destruct (ss_save SS (_file_autosave e) w) as (w' & Hw & Hf'); [by eapply apart_good|].
    exists w'. split; [done|]. eapply calm_trans; [done|]. by apply (calm_world (_, w)).
Qed.

(** A round stops the scan with no target left, or ends a connection, or lets
    the time go by with connections waiting. *)
Definition waits (s s' : st) : Prop :=
  clock s.2 + 1 ≤ clock s'.2 ∧ conns s ⊆ conns s' ∧ conns s' ≠ ∅ ∧
  ∀ i, ¬ expired (clock s.2 / 1000) s i.

(** The end of a round that does not stop. *)
Lemma will_round_end s :
  settled s → will (call_status_display;; call_autosave;; mret false) s (λ stop s',
    stop = false ∧ settled s' ∧ calm s s').
Proof.
  intros Hq. apply will_bind. eapply will_mono.
  { apply calms_settled; [done|apply calms_call_status_display, Hq|by apply (frame_call_status_display (R := same_accounts))]. }
  intros _ s1 [H1 Hc1]. apply will_bind. eapply will_mono.
  { apply calms_settled; [done|by apply calms_call_autosave; apply H1|by apply (frame_call_autosave (R := same_accounts))]. }
  intros _ s2 [H2 Hc2]. apply will_ret. split_and!; [done|done|by eapply calm_trans].
Qed.

Lemma will_scan_round fuel s :
  0 < N → settled s → (left s.2 < fuel)%nat →
  will (scan_round fuel) s (λ stop s', settled s' ∧ advances s s' ∧
    if stop : bool then left s'.2 = 0%nat else (work s' < work s)%nat ∨ waits s s').
Proof.
  intros HN Hq Hfuel. apply will_bind. eapply will_mono; [by apply will_process_events|].
  intros nfds s1 (-> & H1 & Hc1 & Hk1). pose proof (advances_calm _ _ Hc1) as Ha1.
  apply will_bind. eapply will_mono; [by apply will_process_dirty_and_timeouts|].
  intros n s2 (H2 & Ha2 & Hn & Hexp). pose proof (advances_trans _ _ _ Ha1 Ha2) as Ha02.
  apply will_bind. eapply will_mono.
  { apply will_bind, will_gets, will_launch_loop; [done| |].
    - pose proof (acc_avail _ _ _ (q_accounts _ _ (proj1 H2))). lia.
    - pose proof (ad_left _ _ Ha02). lia. }
  intros more s3 (H3 & Ha3 & Hend & Hmore). pose proof (advances_trans _ _ _ Ha02 Ha3) as Ha03.
  cbv zeta. destruct ((0 =? 0) && (n =? 0) && negb more) eqn:Estop.
  { apply will_ret. destruct more; [by rewrite andb_false_r in Estop|auto]. }
  eapply will_mono; [by apply will_round_end|]. intros stop s4 (-> & H4 & Hc4).
  pose proof (advances_trans _ _ _ Ha03 (advances_calm _ _ Hc4)) as Ha04.
  split; [done|split; [done|]]. destruct (ad_conns _ _ Ha04) as [?|Hsub]; [by left|].
  destruct Hexp as [Hless|Hexp].
  { left. destruct Ha1, Ha3, (advances_calm _ _ Hc4). lia. }
  destruct Hc1 as [_ _ Hc1 _ _]. destruct Hc4 as [[[_ Hk4 Hl4] _ _ _] _ Hc4 _ _].
  assert (Hne : (work s4 < work s)%nat ∨ conns s4 ≠ ∅).
  { destruct (decide (conns s = ∅)) as [Hemp|Hne].
    2:{ right. intros Hemp. apply Hne. rewrite Hemp in Hsub. apply map_subseteq_size in Hsub. rewrite map_size_empty in Hsub. apply map_size_empty_inv. lia. }
    rewrite <- Hc1 in Hemp. destruct (Hn Hemp) as [-> Hemp2]. destruct more; [|done].
    destruct Hmore as [Hlt|Hne]; [done| | |by right; rewrite Hc4].
    - rewrite (avail_size _ (proj1 H2)), Hemp2, map_size_empty. lia.
    - left. destruct Ha02. unfold work in *. rewrite Hc4, Hl4. lia. }
  destruct Hne as [?|Hne]; [by left|right]. split_and!; [|done|done|].
  - destruct Ha2, Ha3. lia.
  - intros i (t0 & Hi & Ht0). apply (Hexp (clock s.2 / 1000) i).
    + pose proof (Z.div_le_mono (clock s.2) (clock s1.2) 1000). lia.
    + exists t0. by rewrite Hc1.
Qed.

(** ** The scan *)

(** The rounds that are enough for [k] targets. *)
Definition enough_rounds (k : nat) : Z := (1000 * max_timeout + 2) * Z.of_nat k + 1.

Lemma will_wait fuel k :
  0 < N →
  (∀ rounds s, settled s → (work s < k)%nat → (left s.2 < fuel)%nat →
     enough_rounds (k - 1) ≤ Z.of_nat rounds →
     will (scan_loop fuel rounds) s (λ _ s', settled s' ∧ left s'.2 = 0%nat)) →
  ∀ m rounds s i t0, settled s → (work s ≤ k)%nat → (left s.2 < fuel)%nat →
    conns s !! i = Some (true, t0, false) → 1000 * (t0 + max_timeout) ≤ clock s.2 + Z.of_nat m →
    Z.of_nat m + 1 + enough_rounds (k - 1) ≤ Z.of_nat rounds →
    will (scan_loop fuel rounds) s (λ _ s', settled s' ∧ left s'.2 = 0%nat).
Proof.
  intros HN Hk m. pose proof (sk_timeout _ _ SK) as Hmax.
  assert (Hpos : 0 < enough_rounds (k - 1)) by (unfold enough_rounds; nia).
  induction m as [|m IH]; intros rounds s i t0 Hq Hw Hl Hi Hm Hr;
    (destruct rounds as [|rounds]; [lia|]); cbn [scan_loop]; apply will_bind;
    (eapply will_mono; [by apply will_scan_round|]);
    intros [] s1 (H1 & Ha & Hc); try (by apply will_ret); pose proof (ad_left _ _ Ha);
    (destruct Hc as [?|(Hck & Hsub & _ & Hexp)]; [apply Hk; [done|lia..]|]).
  - destruct (Hexp i). exists t0. split; [done|]. apply Z.div_le_lower_bound; lia.
  - eapply (IH rounds s1 i t0); [done|pose proof (ad_work _ _ Ha); lia|lia| |lia|lia].
    by eapply lookup_weaken.
Qed.

Lemma will_scan_loop fuel k rounds s :
  0 < N → settled s → (work s ≤ k)%nat → (left s.2 < fuel)%nat →
  enough_rounds k ≤ Z.of_nat rounds →
  will (scan_loop fuel rounds) s (λ _ s', settled s' ∧ left s'.2 = 0%nat).
Proof.
  intros HN. pose proof (sk_timeout _ _ SK) as Hmax.
  revert rounds s; induction k as [k IH] using (well_founded_induction lt_wf).
  intros rounds s Hq Hw Hl Hr.
  assert (Hless : ∀ rounds s, settled s → (work s < k)%nat → (left s.2 < fuel)%nat →
     enough_rounds (k - 1) ≤ Z.of_nat rounds →
     will (scan_loop fuel rounds) s (λ _ s', settled s' ∧ left s'.2 = 0%nat)).
  { intros r s' Hq' Hw' Hl' Hr'. apply (IH (k - 1)%nat); [lia|done|lia|done|done]. }
  assert (Hpos : 0 < enough_rounds (k - 1)) by (unfold enough_rounds; nia).
  destruct rounds as [|rounds]; [unfold enough_rounds in Hr; nia|].
  cbn [scan_loop]. apply will_bind. eapply will_mono; [by apply will_scan_round|].
  intros [] s1 (H1 & Ha & Hc); [by apply will_ret|].
  pose proof (ad_left _ _ Ha). pose proof (ad_work _ _ Ha).
  destruct Hc as [?|(_ & _ & Hne & _)].
  { apply Hless; [done|lia|lia|]. unfold enough_rounds in *. nia. }
  apply map_choose in Hne as (i & p & Hi).
  destruct (q_conns _ _ (proj1 H1) _ _ Hi) as (t0 & -> & Ht0).
  assert (Hk : (0 < k)%nat).
  { assert (size (conns s1) ≠ 0%nat); [|unfold work in *; lia].
    intros Hz%map_size_empty_inv. by rewrite Hz in Hi. }
  eapply (will_wait fuel k HN Hless (Z.to_nat (1000 * max_timeout)));
    [exact H1|lia|lia|exact Hi| |].
  - pose proof (Z.mul_div_le (clock s1.2) 1000). lia.
  - unfold enough_rounds in *. nia.
Qed.

End Quiet.

Lemma silent_launch N fuel rounds e w w1 :
  fresh_engine N e → 0 < N →
  _timeout e ≤ max_timeout → saves_ready (e_engine e) →
  ts_init w = Ok w1 → good w1 → fits (_hosts_sms e) ∅ None w1 → (left w1 < fuel)%nat →
  enough_rounds (left w1) ≤ Z.of_nat rounds →
  will (launch fuel rounds) (e, w) (λ _ s', settled N (Z.of_nat (left w1)) s' ∧ left s'.2 = 0%nat).
Proof.
  intros Hfresh HN Ht Hsv Hinit Hg Hfit Hfuel Hr. set (total := Z.of_nat (left w1)).
  apply will_bind, will_run_. exists w1. split; [done|].
  apply will_bind, will_gets, will_bind, will_sys. simpl. intros ep w2 Hep.
  pose proof (sk_epoll_create _ _ SK _ _ _ _ Hg Hep) as [[Hg2 Hc2 Hl2] Ha2].
  apply epoll_create_fds in Hep.
  apply will_bind, will_modify, will_bind, will_modify, will_bind, will_modify. simpl.
  match goal with |- will _ ?s _ => set (s2 := s) end.
  assert (H2 : settled N total s2).
  { destruct Hfresh as [Hlv Hso Hav ?]. split; [|unfold fit; simpl; rewrite Hso; by apply Ha2].
    split; simpl; try done.
    - split; simpl; rewrite ?Hlv, ?Hso, ?Hav, ?dom_empty_L, ?map_size_empty; try done; lia.
    - by rewrite Hlv, fmap_empty.
    - simpl. lia. }
  assert (Hw2 : work s2 = left w1 ∧ left s2.2 = left w1).
  { unfold work. simpl. by rewrite (fresh_lvl4 _ _ Hfresh), fmap_empty, map_size_empty, Hl2, Nat.add_0_r. }
  clearbody s2. destruct Hw2 as [Hw2 Hl2']. apply will_bind. eapply will_mono.
  { apply will_bind, will_gets, (will_launch_loop N total); [done| |lia].
    pose proof (acc_avail _ _ _ (q_accounts _ _ _ _ (proj1 H2))). lia. }
  intros more s3 (H3 & Ha & _). pose proof (ad_left _ _ Ha). pose proof (ad_work _ _ Ha).
  eapply (will_scan_loop N total fuel (left w1)); [done|done|lia|lia|done].
Qed.

(** C6. A scan of peers that stay silent ends: with at least one socket, a
    kernel where [socket] never fails, a set of [k] targets and functions that
    return, [launch] returns after at most [(1000 * T + 2) * k + 1] rounds where
    [T] is the longest timeout in seconds ([epoll_wait] lets a millisecond pass
    in each), runs into no undefined behaviour on the way, and has launched
    every target of the set; each one is done, or has one of the sockets still
    open. *)
Theorem silent_scan_ends N fuel rounds e w w1 :
  fresh_engine N e → 0 < N →
  _timeout e ≤ max_timeout → saves_ready (e_engine e) →
  ts_init w = Ok w1 → good w1 → fits (_hosts_sms e) ∅ None w1 → (left w1 < fuel)%nat →
  enough_rounds (left w1) ≤ Z.of_nat rounds →
  ∃ e' w', launch fuel rounds (e, w) = Ok ((), (e', w')) ∧
    left w' = 0%nat ∧ _nlaunched e' = Z.of_nat (left w1) ∧
    _ndone e' + Z.of_nat (size (_sockets_targets e')) = Z.of_nat (left w1) ∧
    _avail_socks e' + Z.of_nat (size (_sockets_targets e')) = N.
Proof.
  intros Hfresh HN Ht Hsv Hinit Hg Hfit Hfuel Hr.
  destruct (silent_launch N fuel rounds e w w1) as ([] & [e' w'] & Hm & [Hq _] & Hl); [done..|].
  exists e', w'. destruct Hq as [[_ _ [_ Hav] _ Hcnt _] _ _ _ _ Htot]. simpl in *. rewrite Hl in Htot.
  split_and!; [done|lia..].
Qed.

End Liveness.
