(* ===== verification/Ledger.v ===== *)
(** * Every target is reported once

    The accounts of Accounting.v count targets; this file says which ones.
    Three lists are observed between two states of the world: the targets the
    set gave, those it was told are finished, and those the user's finish
    function was called with; the observation is a relation [seen] that the
    calls of the engine obey ([observed]). However the kernel and the peers
    behave, the targets given are those reported and those in flight, each as
    many times ([scan_books], and [every_target_once] for a world that keeps
    the three lists). *)

From S2P Require Import Prelude Lvl4Buffer Leeloo Target HostSM Lvl4SM TargetSet Engine AsyncEngine.
From S2P Require Import Frames Sockets Rounds.

Section Ledger.
Context {L : Leeloo} {C : Closures} {M : Malloc} {W : Type}.
Context {OSW : OS W} {K : Calls W} {T : TargetSet W} {EC : EngineCalls W}.
Context {FD : OSFdLaws W OSW}.

(** ** The logs *)

(** What one looks at: [seen w given told reported w'] says that from [w] to
    [w'] the set gave [given] and was told that [told] are finished, and that
    the finish function was called for [reported]. *)
Context (seen : W → list Target → list Target → list Target → W → Prop).

Definition same_logs (w w' : W) : Prop := seen w [] [] [] w'.

(** What the kernel and the user's functions but the finish function do to the
    world is in [R]. *)
Record quietly (R : W → W → Prop) : Prop := {
  qu_socket ty pr w s w' : sys_socket ty pr w = (s, w') → R w w';
  qu_set_nonblock s w : R w (sys_set_nonblock s w);
  qu_connect s a w r w' : sys_connect s a w = (r, w') → R w w';
  qu_close s w : R w (sys_close s w);
  qu_epoll_create n w ep w' : sys_epoll_create n w = (ep, w') → R w w';
  qu_epoll_add e s ev w : R w (sys_epoll_add e s ev w);
  qu_epoll_del e s w : R w (sys_epoll_del e s w);
  qu_epoll_wait e n w l w' : sys_epoll_wait e n w = (l, w') → R w w';
  qu_so_error s w r w' : sys_so_error s w = (r, w') → R w w';
  qu_read s n w r d w' : sys_read s n w = (r, d, w') → R w w';
  qu_time w t w' : sys_time w = (t, w') → R w w';
  qu_data d t off n (c : ctx W) r c' :
    call_data d t off n c = Ok (r, c') → R (c_world c) (c_world c');
  qu_connect_call a t (c : ctx W) r c' :
    call_connect a t c = Ok (r, c') → R (c_world c) (c_world c');
  qu_python o t pos (c : ctx W) r c' :
    call_python o t pos c = Ok (r, c') → R (c_world c) (c_world c');
  qu_status f nl nd w w' : call_status f nl nd w = Ok w' → R w w';
  qu_watch f t w b w' : call_watch f t w = Ok (b, w') → R w w';
  qu_timeout f t w n w' : call_timeout f t w = Ok (n, w') → R w w';
}.

(** Only the set writes to the first two logs, and only the finish function to
    the third. *)
Record observed : Prop := {
  ob_refl w : same_logs w w;
  ob_trans w1 w2 w3 g1 t1 r1 g2 t2 r2 :
    seen w1 g1 t1 r1 w2 → seen w2 g2 t2 r2 w3 → seen w1 (g1 ++ g2) (t1 ++ t2) (r1 ++ r2) w3;
  ob_quietly : quietly same_logs;
  ob_init_host t h w h' w' : ts_init_host_sm t h w = Ok (h', w') → same_logs w w';
  ob_save f w w' : ts_save_state f w = Ok w' → same_logs w w';
  ob_finish f t buf n err w w' : call_finish f t buf n err w = Ok w' → seen w [] [] [t] w';
  ob_finished t h w b h' w' : ts_target_finished t h w = Ok (b, h', w') → seen w [] [t] [] w';
  ob_next w r w' : ts_next_target w = Ok (r, w') →
    seen w (match r with
            | NextTarget t => if is_end t then [] else [t]
            | NextTargetWouldBlock => []
            end) [] [] w';
}.

Context (OB : observed) (HU : user_keeps).

#[local] Instance ledger_asked : Asked same_fds := fds_asked HU.
#[local] Instance ledger_runs : Runs same_accounts ctx_keeps := accounts_runs HU.

#[local] Instance same_logs_preorder : PreOrder same_logs.
Proof.
  split; [exact (ob_refl OB)|]. intros w1 w2 w3 H1 H2. exact (ob_trans OB _ _ _ _ _ _ _ _ _ H1 H2).
Qed.

(** Nothing before, or nothing after. *)
Lemma seen_after w1 w2 w3 g t r : same_logs w1 w2 → seen w2 g t r w3 → seen w1 g t r w3.
Proof. intros H1 H2. exact (ob_trans OB _ _ _ _ _ _ _ _ _ H1 H2). Qed.

Lemma seen_before w1 w2 w3 g t r : seen w1 g t r w2 → same_logs w2 w3 → seen w1 g t r w3.
Proof.
  intros H1 H2. pose proof (ob_trans OB _ _ _ _ _ _ _ _ _ H1 H2) as H. by rewrite !app_nil_r in H.
Qed.

(** ** Operations that write to no log *)

Definition steady (s s' : st) : Prop :=
  same_logs s.2 s'.2 ∧ _callback_finish s'.1 = _callback_finish s.1.

#[local] Instance steady_preorder : PreOrder steady.
Proof. split; [done|]. intros s1 s2 s3 [? ?] [? ?]. split; [by etrans|congruence]. Qed.

#[local] Instance steady_frame : Frame steady same_logs.
Proof.
  split; try (by intros; split); try (by intros; split; [apply (ob_refl OB)|]).
  - exact steady_preorder.
  - apply (qu_time _ (ob_quietly OB)).
Qed.

#[local] Instance steady_stamps : Stamps steady.
Proof. intros e w i l l' _ _. split; [apply (ob_refl OB)|done]. Qed.

#[local] Instance logs_asked : Asked same_logs.
Proof.
  split.
  - apply (qu_status _ (ob_quietly OB)).
  - apply (qu_watch _ (ob_quietly OB)).
  - apply (qu_timeout _ (ob_quietly OB)).
  - apply (ob_init_host OB).
  - apply (ob_save OB).
Qed.

(** What the functions of a connection do writes to no log. *)
Definition ctx_logs (c c' : ctx W) : Prop := same_logs (c_world c) (c_world c').

#[local] Instance steady_runs : Runs steady ctx_logs.
Proof.
  split; unfold ctx_logs.
  - split; [intros c; apply (ob_refl OB)|]. intros c1 c2 c3 H1 H2. by etrans.
  - intros e w i l h c _ Hc. by split.
  - apply (qu_data _ (ob_quietly OB)).
  - apply (qu_connect_call _ (ob_quietly OB)).
  - apply (qu_python _ (ob_quietly OB)).
  - intros c l _ _. apply (ob_refl OB).
  - intros s n c r d w. apply (qu_read _ (ob_quietly OB)).
Qed.

Abbreviation steadies m s := (frames steady m s).

Lemma steady_modify f s :
  _callback_finish (f s.1) = _callback_finish s.1 → steadies (modify f) s.
Proof. intros. by apply post_modify. Qed.

(** Goes through a function that only reads, writes the engine and calls what
    writes to no log. *)
Ltac steady_tac :=
  repeat first
    [ apply frame_ret | apply frame_gets | apply frame_ask | apply frame_lift
    | apply steady_modify; reflexivity
    | apply frame_sys, Lvl4SM_RW
    | apply frame_bind; [|intros ? ? _]
    | match goal with |- context [match ?x with _ => _ end] => destruct x end ].

Lemma steady_lvl4_sm i s : steadies (lvl4_sm i) s.
Proof. unfold lvl4_sm. steady_tac. Qed.

Lemma steady_update_ts i s : steadies (update_lvl4_ts i) s.
Proof.
  apply frame_bind; [apply steady_lvl4_sm|intros l s1 _]. unfold put_lvl4_sm.
  apply frame_bind; [apply frame_sys; intros ? ? [_ H]%update_ts_RW; exact H|intros]. steady_tac.
Qed.

Lemma steady_create_socket t s : steadies (create_socket t) s.
Proof.
  unfold create_socket, new_lvl4_sm, alter_lvl4_sm.
  do 2 (apply frame_bind; [steady_tac|intros ? ? _]). apply frame_bind.
  { apply frame_sys. unfold new_socket. intros i w Hs. destruct (sys_socket _ _ _) as [j w1] eqn:E.
    injection Hs as <- <-. etrans; [by eapply (qu_socket _ (ob_quietly OB))|apply (qu_set_nonblock _ (ob_quietly OB))]. }
  intros i s1 _. destruct (i =? -1); [steady_tac|]. apply frame_bind; [by apply steady_modify|intros ? ? _].
  apply frame_bind; [apply frame_sys; intros; by eapply (qu_connect _ (ob_quietly OB))|intros ? ? _].
  do 3 (apply frame_bind; [steady_tac|intros ? ? _]).
  apply frame_bind; [apply steady_update_ts|intros ? ? _]. steady_tac.
Qed.

Lemma steady_free_socket i s : steadies (free_socket i) s.
Proof.
  unfold free_socket.
  do 2 (apply frame_bind; [apply (frame_epoll (λ ep, sys_epoll_del ep i)); intros; apply (qu_epoll_del _ (ob_quietly OB))|intros ? ? _]).
  apply frame_bind; [apply frame_sys_, (qu_close _ (ob_quietly OB))|intros]. unfold del_lvl4_sm. steady_tac.
Qed.

(** ** The books *)

Definition in_flight (s : st) : list Target := (map_to_list (_sockets_targets s.1)).*2.

(** What the finish function of the engine, if there is one, is called with. *)
Definition to_report (s : st) (l : list Target) : list Target :=
  match _callback_finish s.1 with Some _ => l | None => [] end.

(** From [s] to [s'] the set gave [new] and [fin] were finished: what was in
    flight and what was given are what is finished and what is in flight. *)
Definition books (s s' : st) : Prop :=
  ∃ new fin, seen s.2 new fin (to_report s fin) s'.2 ∧
    in_flight s ++ new ≡ₚ in_flight s' ++ fin ∧ _callback_finish s'.1 = _callback_finish s.1.

Lemma to_report_nil s : to_report s [] = [].
Proof. unfold to_report. by destruct (_callback_finish s.1). Qed.

Lemma to_report_app s l l' : to_report s (l ++ l') = to_report s l ++ to_report s l'.
Proof. unfold to_report. by destruct (_callback_finish s.1). Qed.

Lemma to_report_same s s' l :
  _callback_finish s'.1 = _callback_finish s.1 → to_report s' l = to_report s l.
Proof. unfold to_report. by intros ->. Qed.

#[local] Instance books_preorder : PreOrder books.
Proof.
  split.
  - intros s. exists [], []. rewrite to_report_nil. split_and!; [apply (ob_refl OB)|done|done].
  - intros s1 s2 s3 (n1 & f1 & H1 & Hp1 & Hc1) (n2 & f2 & H2 & Hp2 & Hc2).
    exists (n1 ++ n2), (f1 ++ f2). rewrite to_report_app. split_and!; [| |congruence].
    + apply (ob_trans OB _ _ _ _ _ _ _ _ _ H1). by rewrite <- (to_report_same s1 s2).
    + rewrite (app_assoc (in_flight s1)), Hp1. rewrite <- app_assoc, (Permutation_app_comm f1 n2).
      rewrite (app_assoc (in_flight s2)), Hp2. by rewrite <- app_assoc, (Permutation_app_comm f2 f1).
Qed.

Lemma books_steady s s' : same_accounts s s' → steady s s' → books s s'.
Proof.
  intros Ha [Hs Hc]. exists [], []. unfold in_flight.
  by rewrite (sa_sockets _ _ Ha), to_report_nil, !app_nil_r.
Qed.

Lemma steady_step {A B} (m : ST A) (f : A → ST B) Q s0 s :
  steady s0 s → steadies m s → (∀ a s', steady s0 s' → post (f a) s' Q) → post (m ≫= f) s Q.
Proof.
  intros H0 Hm Hf. apply post_bind. eapply post_mono; [exact Hm|]. simpl. intros a s' H.
  apply Hf. by etrans.
Qed.

(** Every end of a socket is reported, to the finish function and to the set. *)
Lemma socket_finished_logs i err s :
  post (socket_finished i err) s (λ _ s', ∃ t, _sockets_targets s.1 !! i = Some t ∧
    seen s.2 [] [t] (to_report s [t]) s'.2 ∧ _callback_finish s'.1 = _callback_finish s.1).
Proof.
  apply post_bind, post_modify, post_bind, post_target. intros t Ht. simpl in Ht.
  match goal with |- post _ ?s1 _ => assert (H1 : steady s s1) by done end.
  eapply steady_step; [exact H1|apply steady_lvl4_sm|]. intros l s2 [H2 Hc2].
  apply post_bind, post_bind, post_gets. rewrite Hc2.
  apply (post_mono _ _ (λ _ s3, seen s.2 [] [] (to_report s [t]) s3.2 ∧
    _callback_finish s3.1 = _callback_finish s.1)).
  { unfold to_report. destruct (_callback_finish s.1) as [f|]; [|by apply post_ret].
    apply post_run_. intros w H3%(ob_finish OB). simpl. split; [|done].
    by eapply seen_after. }
  intros _ s3 (H3 & Hc3). clear H1 H2 Hc2 s2.
  eapply (steady_step _ _ _ s3); [done|by apply steady_modify|]. intros _ s4 H4.
  eapply steady_step; [exact H4|apply frame_host_sm|]. intros h s5 [H5 Hc5].
  apply post_bind, post_bind, post_run. intros [b h'] w Hw. unfold target_finished in Hw.
  destruct (ts_target_finished t h s5.2) as [[[b1 h1] w1]|] eqn:E; [|done].
  injection Hw as <- <- <-. apply (ob_finished OB) in E.
  apply post_bind, post_modify, post_ret.
  match goal with |- post _ ?s6 _ => set (s6' := s6) end.
  assert (H6 : seen s.2 [] [t] (to_report s [t]) s6'.2 ∧
    _callback_finish s6'.1 = _callback_finish s.1).
  { simpl. split; [|congruence].
    pose proof (ob_trans OB _ _ _ _ _ _ _ _ _ H3 (seen_after _ _ _ _ _ _ H5 E)) as H6.
    simpl in H6. by rewrite app_nil_r in H6. }
  clearbody s6'. eapply (steady_step _ _ _ s6'); [done|destruct b1; [by apply steady_modify|apply frame_ret]|].
  intros _ s7 H7. eapply post_mono; [apply steady_free_socket|].
  simpl; intros _ s8 H8. exists t. destruct (transitivity H7 H8) as [H68 Hc8].
  destruct H6 as [H6 Hc6]. split_and!; [done|by eapply seen_before|congruence].
Qed.

(** A socket that ends is one that is finished. *)
Lemma books_finished N d i err s s' :
  accounts N d s → socket_finished i err s = Ok ((), s') → books s s'.
Proof.
  intros Hacc Hm.
  pose proof (socket_finished_accounts HU N d i err s Hacc _ _ Hm) as [Hacc' Hso].
  destruct (socket_finished_logs i err s _ _ Hm) as (t & Ht & Hs & Hc).
  exists [], [t]. split_and!; [done| |done].
  unfold in_flight. rewrite Hso, app_nil_r.
  rewrite <- (insert_delete_id (_sockets_targets s.1) i t) at 1 by done.
  rewrite map_to_list_insert by apply lookup_delete_eq. simpl.
  by rewrite Permutation_cons_append.
Qed.

(** ** Launching *)

(** The set has given [t], which has no socket yet. *)
Definition given_next (s0 : st) (t : Target) (s : st) : Prop := ∃ s1, books s0 s1 ∧
  seen s1.2 [t] [] [] s.2 ∧ _sockets_targets s.1 = _sockets_targets s1.1 ∧
  _callback_finish s.1 = _callback_finish s1.1.

(** The last thing that happened is that the set gave the end. *)
Definition exhausted (s0 s : st) : Prop := ∃ w t,
  books s0 (s.1, w) ∧ ts_next_target w = Ok (NextTarget t, s.2) ∧ is_end t = true.

Lemma books_next s0 s :
  books s0 s → post (run next_target) s (λ r s',
    match r with
    | NextTarget t => if is_end t then books s0 s' ∧ exhausted s0 s' else given_next s0 t s'
    | NextTargetWouldBlock => books s0 s'
    end).
Proof.
  intros Hb. apply post_run. intros r w Hn. pose proof (ob_next OB _ _ _ Hn) as Hs.
  assert (Hsame : same_logs s.2 w → books s0 (s.1, w)).
  { intros Hw. etrans; [exact Hb|]. exists [], []. unfold in_flight.
    by rewrite to_report_nil, !app_nil_r. }
  destruct r as [t|]; [|auto]. destruct (is_end t) eqn:Et; [|by exists s].
  split; [auto|]. exists s.2, t. by destruct s.
Qed.

Lemma books_create N s0 t s :
  accounts N 1 s → given_next s0 t s →
  post (create_socket t) s (λ '(_, i) s', i ≠ -1 → books s0 s' ∧ True).
Proof.
  intros Hacc (s1 & Hb & Hw & Hso & Hc) [ret i] s3 Hcr Hi. split; [|done].
  pose proof (create_socket_accounts N 1 t s Hacc _ _ Hcr) as Hpost.
  pose proof (steady_create_socket t s _ _ Hcr) as [Hw3 Hc3]. simpl in Hpost.
  destruct Hpost as [(-> & _)|(_ & _ & Hns & Hs3)]; [done|].
  etrans; [exact Hb|]. exists [t], []. rewrite to_report_nil, !app_nil_r.
  split_and!; [by eapply seen_before| |congruence].
  unfold in_flight. rewrite Hs3, Hso, map_to_list_insert.
  - simpl. by rewrite <- Permutation_cons_append.
  - by apply not_elem_of_dom; rewrite <- Hso.
Qed.

(** ** The books of a scan *)

Lemma books_frame s0 s s' : same_accounts s s' → steady s s' → books s0 s → books s0 s'.
Proof. intros Ha Hs Hb. etrans; [exact Hb|by apply books_steady]. Qed.

Lemma books_ended s0 N i err s :
  ok (books s0) N s → post (socket_finished i err) s (λ _, books s0).
Proof. intros [Hacc Hb] [] s' Hm. etrans; [exact Hb|by eapply books_finished]. Qed.

Lemma books_carried s0 : carried (X := steady) (books s0) (exhausted s0).
Proof.
  split; [apply books_frame|apply books_ended|..]; intros N fuel.
  - apply (ok_process_events HU (X := steady) (XC := ctx_logs)); [apply books_frame|apply books_ended|..];
      destruct (ob_quietly OB); eauto.
  - apply (quiet_dirty HU (X := steady) (XC := ctx_logs)).
  - apply (ok_process_free_socks HU (X := steady) (books s0) (books_frame s0)
      (books_ended s0) (given_next s0) (λ _ _, True) (exhausted s0) (λ _, True)); try done.
    + intros N' s [_ Hb]. eapply post_mono; [by apply books_next|]. intros [t|] s1 H; [|by split].
      destruct (is_end t); [|done]. by destruct H.
    + intros N' t s. apply books_create.
    + intros N' i s [_ Hb] _. apply (post_mono _ _ (λ _, both same_accounts steady s)).
      { apply (frame_epoll (λ ep, sys_epoll_add ep i EPOLLOUT)). intros.
        split; [apply epoll_add_fds|apply (qu_epoll_add _ (ob_quietly OB))]. }
      intros _ s1 [Ha Hs]. by eapply books_frame.
Qed.

Lemma books_start N fuel s :
  fresh_engine N s.1 → post (start_scan fuel) s (λ _, ok (books s) N).
Proof.
  intros Hf. apply (ok_start_scan (books_carried s)); [done|]. intros ep w Hep. exists [], [].
  rewrite to_report_nil, !app_nil_r. split_and!; [by eapply (qu_epoll_create _ (ob_quietly OB))|done|done].
Qed.

Lemma fresh_in_flight N s : fresh_engine N s.1 → in_flight s = [].
Proof. intros [_ Hs _ _]. unfold in_flight. by rewrite Hs, map_to_list_empty. Qed.

(** The books at the head of every round of a scan. *)
Lemma scan_books N fuel st0 more st1 st2 :
  fresh_engine N st0.1 → start_scan fuel st0 = Ok (more, st1) → scan_reaches fuel st1 st2 →
  ∃ launched finished,
    seen st0.2 launched finished (to_report st0 finished) st2.2 ∧
    launched ≡ₚ in_flight st2 ++ finished.
Proof.
  intros Hfresh Hstart Hreach. apply (books_start N) in Hstart; [|done].
  apply (ok_scan_reaches HU (books_carried st0) N fuel) in Hreach; [|exact Hstart].
  destruct Hreach as [_ (new & fin & Hs & Hp & _)]. rewrite (fresh_in_flight N) in Hp by done.
  by exists new, fin.
Qed.

(** And at the end of a scan, when the set has nothing left to give. *)
Lemma launch_books N fuel rounds e w0 w st2 :
  fresh_engine N e → ts_init w0 = Ok w → launch fuel rounds (e, w0) = Ok ((), st2) →
  ∃ launched finished w' t,
    seen w launched finished (to_report (e, w) finished) w' ∧
    launched ≡ₚ in_flight st2 ++ finished ∧
    ts_next_target w' = Ok (NextTarget t, st2.2) ∧ is_end t = true.
Proof.
  intros Hfresh Hinit Hl.
  assert (Hscan : do_async_scan fuel rounds (e, w) = Ok ((), st2)).
  { unfold launch, mbind, ST_bind, run_, init_scan in Hl. simpl in Hl. by rewrite Hinit in Hl. }
  rewrite do_async_scan_start in Hscan. revert Hscan. generalize (). intros u Hscan.
  assert (H : post (start_scan fuel ≫= λ _, scan_loop fuel rounds) (e, w)
    (λ _ s', ok (books (e, w)) N s' ∧ exhausted (e, w) s')).
  { apply post_bind. eapply post_mono; [by apply books_start|]. cbn beta. intros _ s1 Hok.
    by apply (ok_scan_loop HU (books_carried (e, w))). }
  destruct (H _ _ Hscan) as (_ & w' & t & (new & fin & Hs & Hp & _) & Hn & Ht).
  rewrite (fresh_in_flight N (e, w)) in Hp by done. exists new, fin, w', t. by split_and!.
Qed.

End Ledger.

(** ** Logs in the world *)

Section Logs.
Context {L : Leeloo} {C : Closures} {M : Malloc} {W : Type}.
Context {OSW : OS W} {K : Calls W} {T : TargetSet W} {EC : EngineCalls W}.
Context {FD : OSFdLaws W OSW}.
Context (given told reported : W → list Target).

(** The world keeps the three logs. *)
Definition logged (w : W) (g t r : list Target) (w' : W) : Prop :=
  given w' = given w ++ g ∧ told w' = told w ++ t ∧ reported w' = reported w ++ r.

(** C5. At the head of every round of a scan, the targets the set has given
    since the start are, each as many times, those that were finished and
    those with a socket open; and the finish function was called for exactly
    the targets the set was told are finished, in the same order. So no target
    is lost, none is reported twice and none is reported that was not
    launched, whatever the kernel, the peers and the user's functions do, as
    long as these neither open nor close descriptors nor ask for
    reconnections. *)
Theorem every_target_once N fuel st0 more st1 st2 :
  observed logged → user_keeps → fresh_engine N st0.1 → is_Some (_callback_finish st0.1) →
  start_scan fuel st0 = Ok (more, st1) → scan_reaches fuel st1 st2 →
  ∃ launched finished,
    given st2.2 = given st0.2 ++ launched ∧
    told st2.2 = told st0.2 ++ finished ∧ reported st2.2 = reported st0.2 ++ finished ∧
    launched ≡ₚ in_flight st2 ++ finished.
Proof.
  intros OB HU Hfresh [f Hf] Hstart Hreach.
  destruct (scan_books logged OB HU N fuel st0 more st1 st2 Hfresh Hstart Hreach)
    as (new & fin & (Hg & Ht & Hr) & Hp).
  exists new, fin. unfold to_report in Hr. by rewrite Hf in Hr.
Qed.

End Logs.
