(* ===== verification/Ends.v ===== *)
(** * A scan whose world gives finitely much ends

    The set of targets, the kernel's events and its interruptions are what keeps
    a scan going. When these are finitely many ([todo] bounds those that are
    left), peers may answer or not, send anything and close at any time: a scan
    returns within the rounds that [rounds_for] gives, unless one of its rounds
    does not return ([scan_ends]). Every event that is handled, every target that
    is given and every connection that ends uses up the potential [pot], and
    between two such rounds the connections run into their timeouts. *)

From S2P Require Import Prelude Lvl4Buffer Leeloo Target HostSM Lvl4SM TargetSet Engine AsyncEngine.
From S2P Require Import Frames Sockets Rounds Accounting Ledger.

Section Ends.
Context {L : Leeloo} {C : Closures} {M : Malloc} {W : Type}.
Context {OSW : OS W} {K : Calls W} {T : TargetSet W} {EC : EngineCalls W}.
Context {FD : OSFdLaws W OSW}.

(** The clock in milliseconds, what the world has left to give, and a bound of
    the timeouts in seconds. *)
Context (clock : W → Z) (todo : W → nat) (max_timeout : Z).

(** ** A world that gives finitely much *)

(** A call that gives nothing new. *)
Record goes (w w' : W) : Prop := {
  go_clock : clock w ≤ clock w';
  go_todo : (todo w' ≤ todo w)%nat;
}.

(** [epoll_wait] gives an event or fails finitely often, and takes its
    millisecond when it gives none; the set gives finitely many targets, and
    would block finitely often; the functions of a connection leave its state
    machine to the engine. *)
Record finite_world : Prop := {
  fw_timeout : 0 ≤ max_timeout;
  fw_quietly : quietly goes;
  fw_epoll_wait e n w l w' : sys_epoll_wait e n w = (l, w') →
    (todo w' < todo w)%nat ∨ l = Some [] ∧ clock w + 1 ≤ clock w';
  fw_time w t w' : sys_time w = (t, w') → clock w / 1000 ≤ t ≤ clock w' / 1000;
  fw_call_timeout f t w n w' : call_timeout f t w = Ok (n, w') → n ≤ max_timeout;
  fw_finish f t buf n err w w' : call_finish f t buf n err w = Ok w' → goes w w';
  fw_next w r w' : ts_next_target w = Ok (r, w') → goes w w' ∧
    match r with
    | NextTarget t => is_end t = true ∨ (todo w' < todo w)%nat
    | NextTargetWouldBlock => (todo w' < todo w)%nat
    end;
  fw_finished t h w b h' w' : ts_target_finished t h w = Ok (b, h', w') → goes w w';
  fw_init_host t h w h' w' : ts_init_host_sm t h w = Ok (h', w') → goes w w';
  fw_save f w w' : ts_save_state f w = Ok w' → goes w w';
  fw_data d t off n (c : ctx W) r c' :
    call_data d t off n c = Ok (r, c') → l_sm (c_sm c') = l_sm (c_sm c);
  fw_connect a t (c : ctx W) r c' :
    call_connect a t c = Ok (r, c') → l_sm (c_sm c') = l_sm (c_sm c);
  fw_python o t pos (c : ctx W) r c' :
    call_python o t pos c = Ok (r, c') → l_sm (c_sm c') = l_sm (c_sm c);
}.

Context (FW : finite_world) (HU : user_keeps).

#[local] Instance ends_fds : Asked same_fds := fds_asked HU.
#[local] Instance ends_runs : Runs same_accounts ctx_keeps := accounts_runs HU.

#[local] Instance goes_preorder : PreOrder goes.
Proof. split; [by split|]. intros w1 w2 w3 [] []. split; lia. Qed.

#[local] Instance goes_asked : Asked goes.
Proof.
  split.
  - apply (qu_status _ (fw_quietly FW)).
  - apply (qu_watch _ (fw_quietly FW)).
  - apply (qu_timeout _ (fw_quietly FW)).
  - apply (fw_init_host FW).
  - apply (fw_save FW).
Qed.

#[local] Instance goes_told : Told goes.
Proof. split; [apply (fw_finish FW)|apply (fw_finished FW)]. Qed.

(** ** The connections *)

(** What the timeouts read of a connection: is it valid, and since when has
    nothing happened to it. *)
Definition standing (l : Lvl4SM) : bool * Z :=
  (StateMachine._valid (l_sm l), StateMachine._ts (l_sm l)).

Abbreviation conns s := (standing <$> _lvl4_sms s.1).

Definition pot (s : st) : nat := todo s.2 + size (conns s).

(** A step that leaves the standing of the connections alone. *)
Record still (s s' : st) : Prop := {
  st_goes : goes s.2 s'.2;
  st_conns : conns s' = conns s;
  st_timeout : _timeout s'.1 = _timeout s.1;
}.

#[local] Instance still_preorder : PreOrder still.
Proof. split; [by split|]. intros s1 s2 s3 [] []. split; [by etrans|congruence..]. Qed.

#[local] Instance still_frame : Frame still goes.
Proof.
  split; try (by split).
  - exact still_preorder.
  - apply (qu_time _ (fw_quietly FW)).
Qed.

Lemma conns_insert e w i l l' :
  _lvl4_sms e !! i = Some l → standing l' = standing l →
  still (e, w) (up_lvl4 (<[i := l']>) e, w).
Proof.
  intros Hl Hs. split; [done| |done]. simpl. rewrite fmap_insert, Hs. apply insert_id.
  by rewrite lookup_fmap, Hl.
Qed.

#[local] Instance still_touches : Touches still.
Proof.
  intros e w i l l' Hl (_ & Hv & Hts). eapply conns_insert; [done|]. unfold standing. by rewrite Hv, Hts.
Qed.

#[local] Instance still_domed : Domed still.
Proof.
  intros s s' H. rewrite <- (dom_fmap_L standing), <- (st_conns _ _ H), dom_fmap_L. done.
Qed.

Definition ctx_still (c c' : ctx W) : Prop :=
  goes (c_world c) (c_world c') ∧ l_sm (c_sm c') = l_sm (c_sm c).

#[local] Instance still_runs : Runs still ctx_still.
Proof.
  split; unfold ctx_still.
  - split; [done|]. intros c1 c2 c3 [] []. split; [by etrans|congruence].
  - intros e w i l h c Hl [Hw Hs]. simpl in *.
    trans (e, c_world c); [by split|]. eapply conns_insert; [done|]. unfold standing. by rewrite Hs.
  - split; [by eapply (qu_data _ (fw_quietly FW))|by eapply (fw_data FW)].
  - split; [by eapply (qu_connect_call _ (fw_quietly FW))|by eapply (fw_connect FW)].
  - split; [by eapply (qu_python _ (fw_quietly FW))|by eapply (fw_python FW)].
  - by intros c l _ Hs.
  - intros s n c r d w Hr. split; [by eapply (qu_read _ (fw_quietly FW))|done].
Qed.

(** ** The invariant *)

Definition since (now : Z) (m : gmap Z (bool * Z)) : Prop :=
  map_Forall (λ _ p, p.1 = true ∧ p.2 ≤ now / 1000) m.

(** Every connection is valid, since a time that has passed. *)
Definition fine (s : st) : Prop := _timeout s.1 ≤ max_timeout ∧ since (clock s.2) (conns s).

#[local] Abbreviation quiet := (both same_accounts still).
#[local] Abbreviation ok := (ok fine).

Lemma since_later now now' m : now ≤ now' → since now m → since now' m.
Proof.
  intros Hn H i p Hp. destruct (H i p Hp) as [? ?]. split; [done|].
  pose proof (Z.div_le_mono now now' 1000). lia.
Qed.

Lemma fine_still s s' : same_accounts s s' → still s s' → fine s → fine s'.
Proof.
  intros _ [[Hc _] Hcn Ht] [Hm Hs]. split; [by rewrite Ht|]. rewrite Hcn. by eapply since_later.
Qed.

#[local] Abbreviation ends_step := (ok_step fine fine_still).

Lemma ok_conns N s i : ok N s → i ∈ dom (_sockets_targets s.1) ↔ i ∈ dom (_lvl4_sms s.1).
Proof. apply (ok_sockets fine). Qed.

(** Connections only go, and the others keep their standing. *)
Record shrinks (s s' : st) : Prop := {
  sh_goes : goes s.2 s'.2;
  sh_conns : conns s' ⊆ conns s;
  sh_timeout : _timeout s'.1 = _timeout s.1;
}.

#[local] Instance shrinks_preorder : PreOrder shrinks.
Proof. split; [by split|]. intros s1 s2 s3 [] []. split; by etrans. Qed.

Lemma still_shrinks s s' : still s s' → shrinks s s'.
Proof. intros [? H ?]. split; [done|by rewrite H|done]. Qed.

Lemma fine_shrinks s s' : shrinks s s' → fine s → fine s'.
Proof.
  intros [[Hc _] Hcn Ht] [Hm Hs]. split; [by rewrite Ht|].
  apply (since_later (clock s.2)); [done|]. intros i p Hp. apply (Hs i). by eapply lookup_weaken.
Qed.

(** A connection that ends goes, and nothing else. *)
Lemma socket_finished_conns N d i err s :
  accounts N d s → post (socket_finished i err) s (λ _ s', goes s.2 s'.2 ∧
    _timeout s'.1 = _timeout s.1 ∧ i ∈ dom (conns s) ∧ conns s' = delete i (conns s)).
Proof.
  intros Hacc. apply post_bind, post_modify, post_bind, post_target. intros t Ht.
  assert (Hi : i ∈ dom (_lvl4_sms s.1)).
  { rewrite (acc_dom _ _ _ Hacc). apply elem_of_dom. by exists t. }
  match goal with |- post _ ?s1 _ => set (s1' := s1) end.
  assert (H1 : still s s1') by by split. clearbody s1'.
  assert (Hnext : ∀ A B (m : ST A) (f : A → ST B) Q s2, still s s2 → frames still m s2 →
    (∀ a s3, still s s3 → post (f a) s3 Q) → post (m ≫= f) s2 Q).
  { intros A B m f Q s2 H2 Hm Hf. apply post_bind. eapply post_mono; [exact Hm|]. simpl.
    intros a s3 H3. apply Hf. by etrans. }
  eapply Hnext; [exact H1|apply frame_lvl4_sm; eapply (frame_dom (R := still)); eassumption|]. intros l s2 H2.
  eapply Hnext; [exact H2|apply frame_callback_finish|]. intros _ s3 H3.
  eapply Hnext; [exact H3| |].
  { apply post_modify. split; [done| |done]. simpl. apply map_eq. intros j.
    rewrite !lookup_fmap, lookup_alter. case_decide; [subst|done]. by destruct (_lvl4_sms s3.1 !! _). }
  intros _ s4 H4. eapply Hnext; [exact H4|apply frame_host_sm|]. intros h s5 H5.
  eapply Hnext; [exact H5|apply frame_engine_target_finished|]. intros b s6 H6.
  eapply Hnext; [exact H6|destruct b; [apply frame_put_hosts|apply frame_ret]|].
  intros _ s7 [Hw Hc Hto] [] s8 H. unfold free_socket in H. injection H as <-. simpl.
  pose proof (fw_quietly FW) as Q. split_and!; [|done|by rewrite dom_fmap|by rewrite fmap_delete, Hc].
  etrans; [exact Hw|]. do 2 (etrans; [apply (qu_epoll_del _ Q)|]). apply (qu_close _ Q).
Qed.

Lemma finished_shrinks N i err s :
  ok N s → post (socket_finished i err) s (λ _ s',
    ok N s' ∧ shrinks s s' ∧ (pot s' < pot s)%nat ∧ conns s' !! i = None).
Proof.
  intros [Hacc Hf] [] s' Hm.
  destruct (socket_finished_conns N 0 i err s Hacc _ _ Hm) as (Hg & Ht & Hi & Hc).
  assert (H : shrinks s s') by (split; [done|rewrite Hc; apply delete_subseteq|done]).
  split; [|split_and!; [done| |by rewrite Hc, lookup_delete_eq]].
  - split; [by eapply (socket_finished_keeps HU)|by eapply fine_shrinks].
  - unfold pot. pose proof (size_delete_in (conns s) i Hi) as Hsz. rewrite <- Hc in Hsz.
    destruct Hg. lia.
Qed.

Lemma fine_finished N i err s : ok N s → post (socket_finished i err) s (λ _, fine).
Proof. intros H. eapply post_mono; [by apply finished_shrinks|]. by intros _ s' ([] & _). Qed.

(** ** Events *)

(** No connection is new. *)
Record moves (s s' : st) : Prop := {
  mv_goes : goes s.2 s'.2;
  mv_dom : dom (conns s') ⊆ dom (conns s);
}.

#[local] Instance moves_preorder : PreOrder moves.
Proof. split; [by split|]. intros s1 s2 s3 [] []. split; by etrans. Qed.

Lemma shrinks_moves s s' : shrinks s s' → moves s s'.
Proof. intros [? H _]. split; [done|by apply subseteq_dom]. Qed.

Lemma still_moves s s' : still s s' → moves s s'.
Proof. intros. by apply shrinks_moves, still_shrinks. Qed.

Lemma moves_pot s s' : moves s s' → (pot s' ≤ pot s)%nat.
Proof.
  intros [[_ Ht] Hd%subseteq_size]. rewrite !size_dom in Hd. unfold pot. lia.
Qed.

Lemma shrinks_pot s s' : shrinks s s' → conns s' = conns s ∨ (pot s' < pot s)%nat.
Proof.
  intros [[_ Ht] Hc _]. unfold pot. destruct (decide (size (conns s) ≤ size (conns s'))%nat).
  - left. by apply map_subseteq_size_eq.
  - right. lia.
Qed.

(** The engine stamps a connection with the time. *)
Lemma update_ts_moves N i s :
  ok N s → i ∈ dom (_lvl4_sms s.1) → post (update_lvl4_ts i) s (λ _ s', ok N s' ∧ moves s s').
Proof.
  intros [Hacc Hf] Hi [] s' Hm.
  assert (Hacc' : accounts N 0 s').
  { eapply accounts_same; [|exact Hacc]. by apply (frame_update_ts (R := same_accounts) i s Hi) in Hm. }
  revert Hm. revert s' Hacc'. enough (post (update_lvl4_ts i) s (λ _ s', fine s' ∧ moves s s')) as H.
  { intros s' Hacc' Hm. destruct (H _ _ Hm). split; [by split|done]. }
  apply post_bind, post_lvl4_sm; [done|]. intros l Hl. apply post_bind, post_sys. intros l' w Hts.
  unfold update_ts, StateMachine.update_ts in Hts.
  destruct (timestamp s.2) as [now w'] eqn:E. injection Hts as <- <-.
  pose proof (qu_time _ (fw_quietly FW) _ _ _ E) as Hg. apply (fw_time FW) in E.
  destruct Hf as [Hto Hs]. assert (Hcl : conns s !! i = Some (standing l)) by (by rewrite lookup_fmap, Hl).
  apply post_modify. split; [split; [done|]|split; [done|]]; simpl; rewrite fmap_insert.
  - apply map_Forall_insert_2; [|by eapply since_later; [apply Hg|]].
    split; simpl; [apply (Hs i _ Hcl)|lia].
  - rewrite dom_insert_L. apply elem_of_dom_2 in Hcl. set_solver.
Qed.

Lemma connecting_moves N i s :
  ok N s → post (process_connecting_ready i) s (λ _ s', ok N s' ∧ moves s s').
Proof.
  intros Hok. pose proof (fw_quietly FW) as Q.
  assert (Hfin : ∀ err s', moves s s' → ok N s' →
    post (socket_finished i err) s' (λ _ s2, ok N s2 ∧ moves s s2)).
  { intros err s' Hmv Hok'. eapply post_mono; [by apply finished_shrinks|].
    intros _ s2 (H2 & Hsh%shrinks_moves & _). split; [done|by etrans]. }
  eapply ends_step; [exact Hok| |].
  { apply frame_sys. intros; split; [by eapply so_error_fds|by eapply (qu_so_error _ Q)]. }
  intros err s1 [_ H01%still_moves] H1. destruct (negb _); [by apply Hfin|].
  apply post_bind, post_target. intros t Ht.
  assert (Hi : i ∈ dom (_lvl4_sms s1.1)) by (apply (ok_conns N), elem_of_dom; eauto).
  eapply ends_step; [exact H1|apply frame_on_connection; [done|apply runs_on_connect]|].
  intros r s2 K12 H2. assert (H02 : moves s s2) by (etrans; [exact H01|by apply still_moves, K12]).
  destruct r; [|by apply Hfin]. eapply ends_step; [exact H2| |].
  { apply (frame_epoll (λ ep, sys_epoll_del ep i)). split; [apply epoll_del_fds|apply (qu_epoll_del _ Q)]. }
  intros _ s3 K23 H3. eapply ends_step; [exact H3| |].
  { apply (frame_epoll (λ ep, sys_epoll_add ep i EPOLLIN)). split; [apply epoll_add_fds|apply (qu_epoll_add _ Q)]. }
  intros _ s4 K34 H4. eapply post_mono; [apply (update_ts_moves N); [done|]|].
  - by do 3 (eapply (frame_dom (R := quiet)); [eassumption|]).
  - intros _ s5 [H5 K45]. split; [done|]. etrans; [exact H02|]. etrans; [by apply still_moves, K23|].
    etrans; [by apply still_moves, K34|done].
Qed.

Lemma connected_moves N fuel i t s :
  ok N s → i ∈ dom (_lvl4_sms s.1) →
  post (process_connected_ready fuel i t) s (λ _ s', ok N s' ∧ moves s s').
Proof.
  intros Hok Hi. apply post_bind, post_ask. destruct (_ =? 0).
  - apply post_bind, post_lvl4_sm; [done|]. intros l Hl.
    rewrite (acc_quiet _ _ _ (proj1 Hok) i l Hl). eapply post_mono; [by apply finished_shrinks|].
    intros _ s2 (H2 & Hsh%shrinks_moves & _). by split.
  - eapply ends_step; [exact Hok|apply frame_on_connection; [done|apply runs_process_lvl4_data]|].
    intros r s1 K01 H1. apply post_bind. eapply post_mono; [apply (update_ts_moves N); [done|]|].
    { by eapply (frame_dom (R := quiet)). }
    intros _ s2 [H2 K12]. assert (H02 : moves s s2) by (etrans; [by apply still_moves, K01|done]).
    destruct r; [by apply post_ret|]. eapply post_mono; [by apply finished_shrinks|].
    intros _ s3 (H3 & Hsh%shrinks_moves & _). split; [done|by etrans].
Qed.

Lemma process_event_moves N fuel ev s :
  ok N s → post (process_event fuel ev) s (λ _ s', ok N s' ∧ moves s s').
Proof.
  intros Hok. apply (ok_event_cases fine N); [done|..|by split]; intros.
  - by apply connecting_moves.
  - by apply connected_moves.
Qed.

(** The events of a round use something up, or there are none and time goes by. *)
Lemma process_events_moves N fuel s :
  ok N s → post (process_events fuel) s (λ n s', ok N s' ∧ moves s s' ∧
    ((pot s' < pot s)%nat ∨ n = 0 ∧ clock s.2 + 1 ≤ clock s'.2 ∧ conns s' = conns s)).
Proof.
  intros Hok. destruct s as [e w]. apply post_bind, post_gets, post_bind, post_sys.
  intros evs w1 Hw. pose proof (fw_epoll_wait FW _ _ _ _ _ Hw) as Hcase.
  pose proof (epoll_wait_fds _ _ _ _ _ Hw) as Hfd.
  apply (qu_epoll_wait _ (fw_quietly FW)) in Hw. simpl in *.
  assert (H01 : still (e, w) (e, w1)) by by split.
  assert (H1 : ok N (e, w1)).
  { eapply (ok_quiet fine fine_still); [|exact Hok]. by split. }
  destruct Hcase as [Hless|[-> Hck]].
  2: { apply post_bind, post_ret, post_ret. split; [done|]. split; [by apply still_moves|by right]. }
  assert (Hpot : (pot (e, w1) < pot (e, w))%nat) by (unfold pot; simpl; lia).
  destruct evs as [evs|]; [|apply post_ret; split; [done|split; [by apply still_moves|by left]]].
  apply post_bind. eapply post_mono.
  { apply (post_for_each _ _ (λ s', ok N s' ∧ moves (e, w1) s')); [by split|].
    intros ev s' _ [H' Hmv]. eapply post_mono; [by apply process_event_moves|].
    intros _ s2 [H2 Hmv2]. split; [done|by etrans]. }
  intros _ s2 [H2 Hmv]. apply post_ret. split; [done|].
  split; [etrans; [by apply still_moves|done]|left]. pose proof (moves_pot _ _ Hmv). lia.
Qed.

(** ** Launching *)

Lemma create_socket_conns N d t s :
  accounts N d s → fine s → post (create_socket t) s (λ '(_, i) s', i ≠ -1 →
    goes s.2 s'.2 ∧ fine s' ∧ conns s !! i = None ∧ ∃ p, conns s' = <[i := p]> (conns s)).
Proof.
  intros Hacc [Hto Hs]. pose proof (fw_quietly FW) as Q.
  apply post_bind, post_gets, post_bind, post_lift. intros _ _. apply post_bind, post_sys.
  intros i w Hw. unfold new_socket in Hw.
  destruct (sys_socket _ _ s.2) as [j w1] eqn:Hsock. injection Hw as -> <-.
  pose proof (qu_socket _ Q _ _ _ _ _ Hsock) as Hw1. pose proof (qu_set_nonblock _ Q i w1) as Hw1'.
  destruct (i =? -1) eqn:Ei; [apply Z.eqb_eq in Ei as ->; by apply post_bind, post_ask, post_ret|].
  apply Z.eqb_neq in Ei. assert (Hnone : _lvl4_sms s.1 !! i = None).
  { apply not_elem_of_dom. rewrite (acc_dom _ _ _ Hacc). intros Hin.
    apply socket_fresh in Hsock as [[? _]|(_ & Hfresh & _)]; [done|]. by apply Hfresh, (acc_open _ _ _ Hacc). }
  apply post_bind, post_modify, post_bind, post_sys. simpl. intros ret w2 Hw2%(qu_connect _ Q).
  apply post_bind, post_bind, post_sys. simpl. intros l w3 Hw3%(Lvl4SM_RW (R := still)).
  apply post_modify, post_bind, post_gets, post_bind, post_modify.
  match goal with |- post _ ?s2 _ => set (st2 := s2) end.
  assert (H2 : ∃ l1, _lvl4_sms st2.1 = <[i := l1]> (_lvl4_sms s.1) ∧
    StateMachine._valid (l_sm l1) = true ∧ _timeout st2.1 = _timeout s.1 ∧ st2.2 = w3).
  { eexists. split; [simpl; by rewrite map_insert_None, alter_insert_eq by done|done]. }
  destruct H2 as (l1 & Hl1 & Hv & Hto2 & Hst2). clearbody st2. destruct st2 as [e2 ?]. simpl in *. subst.
  apply post_bind, post_bind, post_lvl4_sm; simpl; [rewrite Hl1; set_solver|]. intros l2 Hl2.
  rewrite Hl1, lookup_insert_eq in Hl2. injection Hl2 as <-.
  apply post_bind, post_sys. intros l' w4 Hts. simpl in Hts.
  unfold update_ts, StateMachine.update_ts in Hts. destruct (timestamp w3) as [now w5] eqn:E.
  injection Hts as <- <-. pose proof (qu_time _ Q _ _ _ E) as Hw5. apply (fw_time FW) in E.
  apply post_modify, post_bind, post_modify, post_ret. simpl. intros _.
  assert (Hg : goes s.2 w5) by (do 5 (etrans; [eassumption|]); done).
  rewrite Hl1, insert_insert_eq, fmap_insert. unfold fine. simpl. rewrite Hl1, insert_insert_eq, fmap_insert.
  split_and!; [done|by rewrite Hto2| |by rewrite lookup_fmap, Hnone|by eexists].
  apply map_Forall_insert_2; [|by eapply since_later; [apply Hg|]]. split; simpl; [done|lia].
Qed.

(** From [s0] to [s] something was used up, or the connections are all there. *)
Record grew (s0 s : st) : Prop := {
  gr_goes : goes s0.2 s.2;
  gr_pot : (pot s ≤ pot s0)%nat;
  gr_conns : (pot s < pot s0)%nat ∨ conns s0 ⊆ conns s;
}.

#[local] Instance grew_preorder : PreOrder grew.
Proof.
  split; [intros s; split; [done|lia|by right]|]. intros s1 s2 s3 [Hg1 Hp1 H1] [Hg2 Hp2 H2].
  split; [by etrans|lia|]. destruct H1 as [?|H1]; [left; lia|]. destruct H2 as [?|H2]; [left; lia|].
  right. by etrans.
Qed.

Lemma still_grew s s' : still s s' → grew s s'.
Proof.
  intros H. split; [apply H|by apply moves_pot, still_moves|right; by rewrite (st_conns _ _ H)].
Qed.

(** A target was given, and is to have a socket. *)
Definition granted (s0 s : st) : Prop :=
  fine s ∧ goes s0.2 s.2 ∧ (pot s < pot s0)%nat ∧ ((S (pot s) < pot s0)%nat ∨ conns s0 ⊆ conns s).

Definition growing (s0 s : st) : Prop := fine s ∧ grew s0 s.

Lemma growing_finished s0 N i err s :
  Rounds.ok (growing s0) N s → post (socket_finished i err) s (λ _, growing s0).
Proof.
  intros [Hacc [Hf [Hg Hp _]]]. eapply post_mono; [apply (finished_shrinks N); by split|].
  intros _ s2 ([_ Hf2] & Hsh & Hlt & _). split; [done|].
  split; [etrans; [exact Hg|apply Hsh]|lia|left; lia].
Qed.

Lemma growing_next s0 s : growing s0 s → post (run next_target) s (λ r s',
  match r with
  | NextTarget t => if is_end t then growing s0 s' else granted s0 s'
  | NextTargetWouldBlock => growing s0 s' ∧ (pot s' < pot s0)%nat
  end).
Proof.
  destruct s as [e w]. intros [Hf1 Hg1]. apply post_run. intros r w' Hn.
  apply (fw_next FW) in Hn as [Hg Hr]. simpl in *.
  assert (Hst : still (e, w) (e, w')) by by split.
  assert (Hf2 : fine (e, w')) by (by eapply fine_shrinks; [apply still_shrinks|]).
  assert (Hg2 : grew s0 (e, w')) by (etrans; [exact Hg1|by apply still_grew]).
  destruct Hg1 as [_ Hp1 Hc1]. unfold pot in *. simpl in *.
  destruct r as [t|]; [|split; [by split|lia]]. destruct (is_end t); [by split|].
  destruct Hr as [|Hr]; [done|]. split; [done|]. destruct Hg2. split; [done|].
  unfold pot. simpl. split; [lia|]. destruct Hc1; [left; lia|by right].
Qed.

Lemma growing_create s0 N t s :
  accounts N 1 s → granted s0 s →
  post (create_socket t) s (λ '(_, i) s', i ≠ -1 → growing s0 s' ∧ conns s' ≠ ∅).
Proof.
  intros Hacc (Hf1 & Hg1 & Hp1 & Hc1).
  eapply post_mono; [by eapply create_socket_conns|]. intros [ret i] s2 H Hi.
  destruct (H Hi) as (Hg2 & Hf2 & Hn & p & Hc2).
  assert (Hp2 : (pot s2 ≤ S (pot s))%nat).
  { destruct Hg2. unfold pot. rewrite Hc2, map_size_insert_None by done. lia. }
  split; [split; [done|split; [by etrans|lia|]]|rewrite Hc2; apply insert_non_empty].
  destruct Hc1 as [?|Hc1]; [left; lia|right]. rewrite Hc2. etrans; [exact Hc1|].
  by apply insert_subseteq.
Qed.

Lemma launch_next_grew N fuel s :
  ok N s → post (launch_next fuel) s (λ r s', ok N s' ∧ grew s s' ∧
    match r with
    | Launched _ _ => conns s' ≠ ∅
    | EndOfTargets => True
    | WouldBlock => (pot s' < pot s)%nat
    end).
Proof.
  intros [Hacc Hf]. eapply post_mono.
  { apply (ok_launch_next HU (growing s) (growing_finished s) (λ _, granted s) (λ _ s', conns s' ≠ ∅)
      (λ _, True) (λ s', (pot s' < pot s)%nat)); [done| |apply growing_create|by split].
    intros N' s1 [_ H1]. eapply post_mono; [by apply growing_next|].
    intros [t|] s2 H2; [by destruct (is_end t)|done]. }
  intros r s' [[Hacc' [Hf' Hg']] Hr]. by destruct r.
Qed.

Lemma launch_loop_grew N fuel n s :
  ok N s → post (launch_loop fuel n) s (λ more s', ok N s' ∧ grew s s' ∧
    (more = true → n ≠ 0%nat → (pot s' < pot s)%nat ∨ conns s' ≠ ∅)).
Proof.
  revert s; induction n as [|n IH]; intros s Hok; [by apply post_ret|]. cbn [launch_loop].
  apply post_bind. eapply post_mono; [by apply launch_next_grew|].
  intros [i t| |] s1 (H1 & G1 & Hr); [|by apply post_ret|by apply post_ret; auto].
  eapply ends_step; [exact H1|apply frame_host_sm|]. intros h s2 [_ H12] H2.
  eapply ends_step; [exact H2|apply frame_init_host_sm|]. intros h' s3 [_ H23] H3.
  eapply ends_step; [exact H3|apply frame_put_hosts|]. intros _ s4 [_ H34] H4.
  eapply ends_step; [exact H4| |].
  { apply (frame_epoll (λ ep, sys_epoll_add ep i EPOLLOUT)).
    split; [apply epoll_add_fds|apply (qu_epoll_add _ (fw_quietly FW))]. }
  intros _ s5 [_ H45] H5. assert (H15 : still s1 s5) by (do 3 (etrans; [eassumption|]); done).
  eapply post_mono; [by apply IH|]. intros more s6 (H6 & G6 & _). split; [done|].
  assert (G5 : grew s s5) by (etrans; [exact G1|by apply still_grew]).
  split; [by etrans|]. intros _ _. destruct G6 as [_ Hp6 [?|Hsub]], G5 as [_ Hp5 _]; [left; lia|right].
  intros Hemp. rewrite Hemp, (st_conns _ _ H15) in Hsub. apply Hr.
  by apply (anti_symm (⊆)); [|apply map_empty_subseteq].
Qed.

(** ** Timeouts *)

(** A connection to which nothing happened for the longest timeout. *)
Definition outlasted (ts : Z) (s : st) (i : Z) : Prop :=
  ∃ p, conns s !! i = Some p ∧ p.2 + max_timeout ≤ ts.

Lemma timeout_of_target_bound t s :
  fine s → post (timeout_of_target t) s (λ n _, n ≤ max_timeout).
Proof.
  intros [Ht _]. apply post_bind, post_gets. destruct (_callback_timeout_target s.1) as [f|].
  - apply post_run. intros n w. apply (fw_call_timeout FW).
  - by apply post_gets.
Qed.

Lemma check_connection_outlasted ts i s :
  fine s → i ∈ dom (_lvl4_sms s.1) →
  post (check_connection ts i) s (λ '(_, timedout, _) _, outlasted ts s i → timedout = true).
Proof.
  intros Hf Hi. apply post_bind, post_lvl4_sm; [done|]. intros l Hl.
  assert (Hcl : conns s !! i = Some (standing l)) by (by rewrite lookup_fmap, Hl).
  pose proof (proj1 (proj2 Hf i _ Hcl)) as Hv. simpl in Hv. rewrite Hv. cbn [negb].
  pose proof (should_process_buffer_same l) as (Hsc & Hv' & Hts).
  destruct (should_process_buffer l) as [dirty l']. simpl in *.
  apply post_bind, post_modify, post_bind, post_ask.
  match goal with |- post _ ?s1 _ => assert (Hf1 : fine s1) end.
  { destruct s as [e w]. eapply fine_shrinks; [|exact Hf]. eapply still_shrinks, conns_insert; [done|].
    unfold standing. by rewrite Hv', Hts. }
  apply post_bind. eapply post_mono; [by apply timeout_of_target_bound|]. simpl. intros n s2 Hn.
  apply post_bind. destruct (n <=? _) eqn:E; [by apply post_ret, post_ret|].
  apply (post_mono _ _ (λ _ _, True)); [done|]. intros b s3 _. apply post_ret.
  intros (p & Hp & Hle). rewrite Hcl in Hp. injection Hp as <-. simpl in Hle. lia.
Qed.

Lemma check_loop_outlasted N ts keys s :
  ok N s → (∀ i, i ∈ keys → i ∈ dom (_lvl4_sms s.1)) →
  post (check_loop ts keys) s (λ '(_, timeouted, n) s', (keys = [] → n = 0) ∧
    ∀ i, i ∈ keys → outlasted ts s i → i ∈ timeouted).
Proof.
  revert s; induction keys as [|i keys IH]; intros s Hok Hk.
  { apply post_ret. split; [done|]. by intros i ?%elem_of_nil. }
  cbn [check_loop]. pose proof (Hk i ltac:(set_solver)) as Hi.
  apply post_bind. intros [[dirty timedout] valid] s1 Hm.
  pose proof (check_connection_outlasted ts i s (proj2 Hok) Hi _ _ Hm) as Hto. simpl in Hto.
  apply (frame_check_connection (R := quiet) ts i s Hi) in Hm. cbv beta in Hm.
  apply post_bind. eapply post_mono.
  { apply IH; [by eapply (ok_quiet fine fine_still)|]. intros j Hj.
    eapply (frame_dom (R := quiet)); [exact Hm|]. apply Hk. set_solver. }
  intros [[tp to] n] s2 [_ Hall]. apply post_ret. split; [done|].
  intros j Hj Hout. apply elem_of_app. apply elem_of_cons in Hj as [->|Hj].
  - left. rewrite (Hto Hout). set_solver.
  - right. apply Hall; [done|]. destruct Hout as (p & Hp & Hle). exists p.
    by rewrite (st_conns _ _ (proj2 Hm)).
Qed.

Lemma process_dirty_shrinks N fuel i s :
  ok N s → post (process_dirty fuel i) s (λ _ s', ok N s' ∧ shrinks s s').
Proof.
  intros Hok. apply post_bind, post_target. intros t Ht.
  eapply ends_step; [exact Hok|apply frame_on_connection; [|apply runs_process_buffer]|].
  { apply (ok_conns N), elem_of_dom; eauto. }
  intros [] s1 [_ H01%still_shrinks] H1; [by apply post_ret|].
  eapply post_mono; [by apply finished_shrinks|]. intros _ s2 (H2 & H12 & _). split; [done|by etrans].
Qed.

(** Ending sockets leaves none of them. *)
Lemma finish_all_shrinks N err l s :
  ok N s → post (for_each (λ i, socket_finished i err) l) s (λ _ s',
    ok N s' ∧ shrinks s s' ∧ ∀ i, i ∈ l → conns s' !! i = None).
Proof.
  revert s; induction l as [|i l IH]; intros s Hok; cbn [for_each].
  { apply post_ret. split; [done|]. split; [done|]. by intros i ?%elem_of_nil. }
  apply post_bind. eapply post_mono; [by apply finished_shrinks|]. intros _ s1 (H1 & H01 & _ & Hn).
  eapply post_mono; [by apply IH|]. intros _ s2 (H2 & H12 & Hall). split; [done|].
  split; [by etrans|]. intros j [->|Hj]%elem_of_cons; [|by apply Hall].
  eapply lookup_weaken_None; [exact Hn|apply H12].
Qed.

(** The pass over the connections ends those that have outlasted the timeout. *)
Lemma dirty_and_timeouts_shrinks N fuel s :
  ok N s → post (process_dirty_and_timeouts fuel) s (λ n s', ok N s' ∧ shrinks s s' ∧
    (conns s = ∅ → n = 0) ∧
    ∀ i, outlasted (clock s.2 / 1000) s i → conns s' !! i = None).
Proof.
  intros Hok. destruct s as [e w]. apply post_bind, post_sys. intros ts w1 Hts.
  pose proof (fw_time FW _ _ _ Hts) as Hb.
  pose proof (time_fds _ _ _ Hts) as Hfd. apply (qu_time _ (fw_quietly FW)) in Hts. simpl in *.
  assert (K1 : still (e, w) (e, w1)) by by split.
  assert (H1 : ok N (e, w1)) by (eapply (ok_quiet fine fine_still); [|exact Hok]; by split).
  apply post_bind, post_gets, post_bind. intros [[tp to] n] s2 Hm. cbn [fst] in Hm.
  assert (Hkeys : ∀ i, i ∈ map_keys (_lvl4_sms e) → i ∈ dom (_lvl4_sms (e, w1).1)).
  { intros i. apply elem_of_map_keys. }
  destruct (check_loop_outlasted N ts _ _ H1 Hkeys _ _ Hm) as [Hn Hout].
  apply (frame_check_loop (R := quiet) ts _ _ Hkeys) in Hm. cbv beta in Hm.
  assert (H2 : ok N s2) by by eapply (ok_quiet fine fine_still).
  assert (K2 : shrinks (e, w) s2) by (apply still_shrinks; etrans; [exact K1|apply Hm]).
  apply post_bind. eapply post_mono.
  { apply (post_for_each _ _ (λ s', ok N s' ∧ shrinks s2 s')); [by split|].
    intros i s' _ [H' Hs']. eapply post_mono; [by apply process_dirty_shrinks|].
    intros _ s3 [H3 K3]. split; [done|by etrans]. }
  intros _ s3 [H3 K3]. apply post_bind. eapply post_mono; [by apply finish_all_shrinks|].
  intros _ s4 (H4 & K4 & Hall). apply post_ret. split; [done|]. split; [etrans; [exact K2|by etrans]|].
  split.
  - intros Hemp. apply Hn. destruct (map_keys (_lvl4_sms e)) as [|i l] eqn:E; [done|].
    assert (Hi : i ∈ dom (_lvl4_sms e)) by (apply elem_of_map_keys; rewrite E; set_solver).
    rewrite <- (dom_fmap_L standing), Hemp in Hi. set_solver.
  - intros i (p & Hp & Hle). apply Hall, Hout; [|exists p; split; [done|lia]].
    apply elem_of_map_keys. rewrite <- (dom_fmap_L standing). by eapply elem_of_dom_2.
Qed.

(** ** Rounds *)

(** Time goes by with the connections there are, none of which has outlasted
    the longest timeout. *)
Record idles (s s' : st) : Prop := {
  id_clock : clock s.2 + 1 ≤ clock s'.2;
  id_conns : conns s ⊆ conns s';
  id_some : conns s' ≠ ∅;
  id_in_time i : ¬ outlasted (clock s.2 / 1000) s i;
}.

Lemma round_end_still N s :
  ok N s → post (call_status_display;; call_autosave;; mret false) s (λ stop s',
    stop = false ∧ ok N s' ∧ still s s').
Proof.
  intros Hok. eapply ends_step; [exact Hok|apply frame_call_status_display|]. intros _ s1 [_ H01] H1.
  eapply ends_step; [exact H1|apply frame_call_autosave|]. intros _ s2 [_ H12] H2.
  apply post_ret. split_and!; [done|done|by etrans].
Qed.

Lemma available N s : 0 < N → ok N s → conns s = ∅ → Z.to_nat (_avail_socks s.1) ≠ 0%nat.
Proof.
  intros HN [Hacc _] Hemp. destruct (acc_avail _ _ _ Hacc) as [_ Hav].
  rewrite <- size_dom, <- (acc_dom _ _ _ Hacc), <- (dom_fmap_L standing), Hemp, dom_empty_L, size_empty in Hav.
  lia.
Qed.

(** A round stops the scan, or uses something up, or idles. *)
Lemma scan_round_idles N fuel s :
  0 < N → ok N s → post (scan_round fuel) s (λ stop s', stop = true ∨
    stop = false ∧ ok N s' ∧ (pot s' ≤ pot s)%nat ∧ ((pot s' < pot s)%nat ∨ idles s s')).
Proof.
  intros HN Hok. apply post_bind. eapply post_mono; [by apply process_events_moves|].
  intros nfds s1 (H1 & M1 & Hev). apply post_bind.
  eapply post_mono; [by apply dirty_and_timeouts_shrinks|]. intros n s2 (H2 & K2 & Hn & Hgone).
  apply post_bind, post_bind, post_gets. eapply post_mono; [by apply launch_loop_grew|].
  intros more s3 (H3 & [[Hk3 _] Hp3 Hc3] & Hmore). cbv zeta.
  destruct (_ && negb more) eqn:Estop; [by apply post_ret; left|].
  eapply post_mono; [by apply round_end_still|]. intros stop s4 (-> & H4 & K4). right.
  pose proof (moves_pot _ _ M1). pose proof (moves_pot _ _ (shrinks_moves _ _ K2)).
  pose proof (moves_pot _ _ (still_moves _ _ K4)). split; [done|split; [done|split; [lia|]]].
  destruct Hev as [?|(-> & Hck & Hc1)]; [left; lia|].
  destruct (shrinks_pot _ _ K2) as [Hc2|?]; [|left; lia]. rewrite Hc1 in Hc2.
  destruct Hc3 as [?|Hsub]; [left; lia|]. rewrite Hc2, <- (st_conns _ _ K4) in Hsub.
  assert (Hne : (pot s4 < pot s)%nat ∨ conns s4 ≠ ∅).
  { destruct (decide (conns s = ∅)) as [Hemp|Hne].
    - rewrite Hn in Estop by (by rewrite Hc1). destruct more; [|done].
      rewrite (st_conns _ _ K4). destruct (Hmore eq_refl); [|left; lia|by right].
      by apply (available N); [| |rewrite Hc2].
    - right. intros Hemp. apply Hne. rewrite Hemp in Hsub.
      by apply (anti_symm (⊆)); [|apply map_empty_subseteq]. }
  destruct Hne as [?|Hne]; [by left|right]. destruct (sh_goes _ _ K2), (st_goes _ _ K4).
  split; [lia|done|done|]. intros i (p & Hp & Hle).
  assert (Hnone : conns s2 !! i = None).
  { apply Hgone. exists p. rewrite Hc1. split; [done|].
    pose proof (Z.div_le_mono (clock s.2) (clock s1.2) 1000). lia. }
  rewrite Hc2 in Hnone. congruence.
Qed.

(** ** The scan *)

(** The rounds that are enough for what the world gives: one for each thing it
    gives, or connection to it, and one per millisecond of the longest timeout
    until the connection ends. *)
Definition rounds_for (k : nat) : Z := (1000 * max_timeout + 2) * Z.of_nat k + 1.

(** The scan returns, or comes to a round that does not. *)
Definition ends (fuel rounds : nat) (s : st) : Prop :=
  (∃ s', scan_loop fuel rounds s = Ok ((), s')) ∨
  (∃ s' e, scan_reaches fuel s s' ∧ scan_round fuel s' = Fail e).

Lemma scan_reaches_after fuel s s1 s2 stop :
  scan_round fuel s = Ok (stop, s1) → scan_reaches fuel s1 s2 → scan_reaches fuel s s2.
Proof.
  intros H. induction 1 as [s1|s1 s2 s3 stop' _ IH H']; [|by eapply scan_next; [apply IH|]].
  eapply scan_next; [apply scan_start|exact H].
Qed.

Lemma ends_round N fuel rounds s :
  0 < N → ok N s →
  (∀ s', ok N s' → (pot s' ≤ pot s)%nat → (pot s' < pot s)%nat ∨ idles s s' → ends fuel rounds s') →
  ends fuel (S rounds) s.
Proof.
  intros HN Hok Hnext. unfold ends. cbn [scan_loop]. unfold mbind, ST_bind.
  destruct (scan_round fuel s) as [[stop s1]|e] eqn:E.
  2: { right. exists s, e. split; [apply scan_start|done]. }
  destruct (scan_round_idles N fuel s HN Hok _ _ E) as [->|(-> & H1 & Hp & Hcase)]; [left; by eexists|].
  destruct (Hnext s1 H1 Hp Hcase) as [[s' Hs]|(s2 & e & Hr & Hf)]; [left; by exists s'|right].
  exists s2, e. split; [by eapply scan_reaches_after|done].
Qed.

(** While a connection waits for its timeout. *)
Lemma ends_waiting N fuel k :
  0 < N →
  (∀ rounds s, ok N s → (pot s < k)%nat → rounds_for (k - 1) ≤ Z.of_nat rounds → ends fuel rounds s) →
  ∀ m rounds s i p, ok N s → (pot s ≤ k)%nat → conns s !! i = Some p →
    1000 * (p.2 + max_timeout) ≤ clock s.2 + Z.of_nat m →
    Z.of_nat m + 1 + rounds_for (k - 1) ≤ Z.of_nat rounds → ends fuel rounds s.
Proof.
  intros HN Hk m. pose proof (fw_timeout FW) as Hmax.
  assert (Hpos : 0 < rounds_for (k - 1)) by (unfold rounds_for; nia).
  induction m as [|m IH]; intros rounds s i p Hok Hp Hi Hm Hr; (destruct rounds as [|rounds]; [lia|]);
    (apply (ends_round N); [done..|]); intros s1 H1 Hp1 [?|[Hck Hsub _ Hin]]; try (apply Hk; [done|lia..]).
  - destruct (Hin i). exists p. split; [done|]. apply Z.div_le_lower_bound; lia.
  - eapply (IH rounds s1 i p); [done|lia| |lia|lia]. by eapply lookup_weaken.
Qed.

Lemma ends_loop N fuel k rounds s :
  0 < N → ok N s → (pot s ≤ k)%nat → rounds_for k ≤ Z.of_nat rounds → ends fuel rounds s.
Proof.
  intros HN. pose proof (fw_timeout FW) as Hmax.
  revert rounds s; induction k as [k IH] using (well_founded_induction lt_wf). intros rounds s Hok Hp Hr.
  assert (Hless : ∀ rounds s, ok N s → (pot s < k)%nat →
    rounds_for (k - 1) ≤ Z.of_nat rounds → ends fuel rounds s).
  { intros r s' Hok' Hp' Hr'. apply (IH (k - 1)%nat); [lia|done|lia|done]. }
  assert (Hpos : 0 < rounds_for (k - 1)) by (unfold rounds_for; nia).
  destruct rounds as [|rounds]; [unfold rounds_for in Hr; nia|].
  apply (ends_round N); [done..|]. intros s1 H1 Hp1 [?|[_ _ Hne _]].
  { apply Hless; [done|lia|]. unfold rounds_for in *. nia. }
  apply map_choose in Hne as (i & p & Hi). destruct (proj2 (proj2 H1) i p Hi) as [_ Hts].
  assert (Hk : (0 < k)%nat).
  { assert (size (conns s1) ≠ 0%nat); [|unfold pot in *; lia].
    intros Hz%map_size_empty_inv. by rewrite Hz in Hi. }
  eapply (ends_waiting N fuel k HN Hless (Z.to_nat (1000 * max_timeout))); [exact H1|lia|exact Hi| |].
  - pose proof (Z.mul_div_le (clock s1.2) 1000). lia.
  - unfold rounds_for in *. nia.
Qed.

Lemma start_scan_grew N fuel s :
  fresh_engine N s.1 → _timeout s.1 ≤ max_timeout →
  post (start_scan fuel) s (λ _ s', ok N s' ∧ (pot s' ≤ todo s.2)%nat).
Proof.
  intros [Hl Hs Ha HN] Hto. apply post_bind, post_gets, post_bind, post_sys. intros ep w Hep.
  pose proof (qu_epoll_create _ (fw_quietly FW) _ _ _ _ Hep) as [_ Hw].
  apply epoll_create_fds in Hep.
  apply post_bind, post_modify, post_bind, post_modify, post_bind, post_modify, post_bind, post_gets.
  eapply post_mono; [apply (launch_loop_grew N)|].
  - split; [|split; [done|]; simpl; by rewrite Hl, fmap_empty].
    split; simpl; rewrite ?Hl, ?Hs, ?Ha, ?dom_empty_L, ?map_size_empty; try done; lia.
  - intros more s1 (H1 & [_ Hp _] & _). split; [done|]. unfold pot in Hp. simpl in Hp.
    rewrite Hl, fmap_empty, map_size_empty in Hp. unfold pot. lia.
Qed.

(** C7. A scan of a world that gives finitely many targets, events and
    interruptions ends, whatever the peers send and however the scan is spread
    over the sockets: from an engine with at least one socket whose timeouts are
    bounded, [do_async_scan] returns within [rounds_for (todo w)] rounds; or else
    it reaches a round that fails: on undefined behaviour, an exception, or a
    loop over the data of a connection that its fuel does not cover. *)
Theorem scan_ends N fuel rounds st0 more st1 :
  fresh_engine N st0.1 → 0 < N → _timeout st0.1 ≤ max_timeout →
  rounds_for (todo st0.2) ≤ Z.of_nat rounds → start_scan fuel st0 = Ok (more, st1) →
  (∃ st2, do_async_scan fuel rounds st0 = Ok ((), st2)) ∨
  (∃ st2 e, scan_reaches fuel st1 st2 ∧ scan_round fuel st2 = Fail e).
Proof.
  intros Hfresh HN Hto Hr Hstart.
  destruct (start_scan_grew N fuel st0 Hfresh Hto _ _ Hstart) as [H1 Hp].
  pose proof (ends_loop N fuel (todo st0.2) rounds st1 HN H1 Hp Hr) as [[st2 Hl]|Hfail]; [left|by right].
  exists st2. rewrite do_async_scan_start. unfold mbind, ST_bind. by rewrite Hstart.
Qed.

End Ends.
