(* ===== verification/IPV4Scan.v ===== *)
(** * Whole scans of addresses and ports

    The engine and [IPV4TargetSet] together: in a scan of a list of addresses
    and a list of ports, each pair of the product is at any time in one of three
    places, still to be given by the set, on a socket that is open, or
    reported to the finish function ([ipv4_scan_partitions]); when [launch]
    returns, none is left to be given ([ipv4_scan_complete]). The kernel, the
    peers and the user's functions do what they like beside the set. *)

From S2P Require Import Prelude Lvl4Buffer Leeloo Target HostSM Lvl4SM TargetSet IPV4Set Engine AsyncEngine Frames Sockets Rounds Accounting Ledger.

Section IPV4Scan.
Context {L : Leeloo} {LL : LeelooLaws L} {C : Closures} {M : Malloc} {R : LeelooRandom} {RL : LeelooRandomLaws R}.
Context {A : Archives R} {F : Type} {FS : Files F}.

(** ** What the set has left to give *)

Abbreviation addrs_left s := (v4_left (_ipv4s s) (_rand_v4 s)).

(** Sets that give the same targets: they differ in the steps done. *)
Record same_left (s s' : IPV4TargetSet) : Prop := {
  sl_ipv4s : _ipv4s s' = _ipv4s s;
  sl_ports : _ports s' = _ports s;
  sl_port : _rand_port s' = _rand_port s;
  sl_rand : g_mt_rand s' = g_mt_rand s;
  sl_left : addrs_left s' = addrs_left s;
}.

Lemma v4_end_same l v v' : v4_left l v' = v4_left l v → v4_end v' = v4_end v.
Proof.
  intros Hl. apply eq_bool_prop_intro. rewrite !Is_true_true.
  by rewrite !(v4_end_left l), Hl.
Qed.

Lemma next_same_left s s' :
  same_left s s' →
  (ipv4_next_target s').1 = (ipv4_next_target s).1 ∧
  same_left (ipv4_next_target s).2 (ipv4_next_target s').2.
Proof.
  destruct s as [l ps v r g], s' as [l' ps' v' r' g'].
  intros [Hl Hps Hr Hg Hv]; simpl in *; subst. unfold ipv4_next_target. simpl.
  assert (Hnext : v4_left l (v4_next v') = v4_left l (v4_next v)) by (by rewrite !v4_next_left, Hv).
  assert (Hgo : ∀ w w' q h, v4_left l w' = v4_left l w →
    let f w := if v4_end w then (Target_end, mkIPV4 l ps w q h) else
      let '(p, q) := rp_call ps q in
      (mkTarget (v4_get_current l w) (port_of_u32 p), mkIPV4 l ps w q h) in
    (f w').1 = (f w).1 ∧ same_left (f w).2 (f w').2).
  { intros w w' q h Hw. simpl. rewrite (v4_end_same l w w' Hw).
    destruct (v4_end w) eqn:E; [by split|]. destruct (rp_call ps q) as [p q']. simpl.
    split; [|by split]. f_equal. destruct (v4_left l w) as [|a rest] eqn:Hq.
    - apply (v4_end_left l) in Hq. congruence.
    - rewrite (v4_get_current_left l w a rest Hq). by apply (v4_get_current_left l w' a rest). }
  destruct (rp_end r); [|by apply Hgo].
  destruct (rp_init ps g) as [q h]. by apply Hgo.
Qed.

Lemma gives_same_left s s' ts : same_left s s' → gives (F := F) s ts → gives (F := F) s' ts.
Proof.
  assert (H : ∀ n (fs : F) s s', same_left s s' → ∀ l s1,
    next_targets (H := ipv4_target_set) n (s, fs) = Ok (l, (s1, fs)) →
    ∃ s1', next_targets (H := ipv4_target_set) n (s', fs) = Ok (l, (s1', fs))).
  { induction n as [|n IH]; intros fs u u' Hu l s1; simpl; [intros [= <- _]; by eexists|].
    destruct (next_same_left u u' Hu) as [Ht Hs].
    destruct (ipv4_next_target u) as [t v], (ipv4_next_target u') as [t' v']. simpl in *. subst t'.
    destruct (next_targets n (v, fs)) as [[l' [s2 fs2]]|] eqn:E; [|done]. simpl.
    intros [= <- <- ->]. destruct (IH fs v v' Hs l' s2 E) as [s1' E']. rewrite E'. by eexists. }
  intros Hs Hg n fs. destruct (Hg n fs) as [s1 H1]. by apply (H n fs s s' Hs _ s1).
Qed.

(** What one call gives is the first of what is left. *)
Lemma gives_next s ts (fs : F) :
  gives (F := F) s ts →
  let '(t, s') := ipv4_next_target s in
  match ts with
  | [] => t = Target_end ∧ gives (F := F) s' []
  | u :: ts => t = u ∧ gives (F := F) s' ts
  end.
Proof.
  intros Hg. destruct (ipv4_next_target s) as [t s'] eqn:Hn.
  assert (H : ∀ n (fs : F), ∃ s1, next_targets (H := ipv4_target_set) n (s', fs) =
      Ok (tail (take (S n) ts ++ replicate (S n - length ts) Target_end), (s1, fs)) ∧
    head (take (S n) ts ++ replicate (S n - length ts) Target_end) = Some t).
  { intros n fs'. destruct (Hg (S n) fs') as [s1 H1]. simpl in H1. rewrite Hn in H1. simpl in H1.
    destruct (next_targets n (s', fs')) as [[l [s2 fs2]]|]; [|done]. simpl in H1.
    injection H1 as H1 <- <-. rewrite <- H1. by eexists. }
  destruct ts as [|u ts].
  - split; [by destruct (H 0%nat fs) as (s1 & _ & [= <-])|]. intros n fs'.
    destruct (H n fs') as (s1 & H1 & _). exists s1. rewrite H1. simpl. by rewrite take_nil, Nat.sub_0_r.
  - split; [by destruct (H 0%nat fs) as (s1 & _ & [= <-])|]. intros n fs'.
    destruct (H n fs') as (s1 & H1 & _). by exists s1.
Qed.

(** ** The set in the engine *)

Context {OSW : OS (IPV4TargetSet * F)} {K : Calls (IPV4TargetSet * F)}.
Context {EC : EngineCalls (IPV4TargetSet * F)} {FD : OSFdLaws _ OSW}.
#[local] Existing Instance ipv4_target_set.

(** What the finish function was called for. *)
Context (reported : F → list Target).

(** The kernel and the user's functions leave the set alone, and only the
    finish function is in the log. *)
Record surroundings : Prop := {
  su_quietly : quietly (λ w w' : IPV4TargetSet * F, w'.1 = w.1 ∧ reported w'.2 = reported w.2);
  su_finish f t buf n err w w' : call_finish f t buf n err w = Ok w' →
    w'.1 = w.1 ∧ reported w'.2 = reported w.2 ++ [t];
  su_open_out file fs : reported (open_out file fs).2 = reported fs;
  su_close_out file os fs : reported (close_out file os fs) = reported fs;
}.

(** [g] is the beginning of what was left. *)
Definition ipv4_seen (w : IPV4TargetSet * F) (g t r : list Target) (w' : IPV4TargetSet * F) : Prop :=
  (∀ ts, Forall (λ t, is_end t = false) ts → gives (F := F) w.1 ts →
         ∃ rest, ts = g ++ rest ∧ gives (F := F) w'.1 rest) ∧
  reported w'.2 = reported w.2 ++ r.

Lemma ipv4_seen_same_left w w' r :
  same_left w.1 w'.1 → reported w'.2 = reported w.2 ++ r → ipv4_seen w [] [] r w'.
Proof. intros Hs Hr. split; [|done]. intros ts _ Hg. exists ts. split; [done|]. by eapply gives_same_left. Qed.

Lemma ipv4_seen_set w w' r t :
  w'.1 = w.1 → reported w'.2 = reported w.2 ++ r → ipv4_seen w [] t r w'.
Proof. intros Hs Hr. split; [|done]. intros ts _ Hg. exists ts. by rewrite Hs. Qed.

Lemma target_finished_same_left t h s b h' s' :
  ipv4_target_finished t h s = Ok (b, h', s') → same_left s s'.
Proof.
  unfold ipv4_target_finished. destruct (_ =? _); intros H; inv_ok; [|by split].
  split; simpl; try done. apply v4_step_done_left.
Qed.

Lemma ipv4_observed : surroundings → observed ipv4_seen.
Proof.
  intros SU. split.
  - intros w. by apply ipv4_seen_set; rewrite ?app_nil_r.
  - intros w1 w2 w3 g1 t1 r1 g2 t2 r2 [H1 Hr1] [H2 Hr2]. split; [|by rewrite Hr2, Hr1, app_assoc].
    intros ts Hts Hg. destruct (H1 ts Hts Hg) as (q1 & -> & Hg1). apply Forall_app in Hts as [_ Hq1].
    destruct (H2 q1 Hq1 Hg1) as (q2 & -> & Hg2). exists q2. by rewrite app_assoc.
  - destruct (su_quietly SU).
    split; intros; apply ipv4_seen_set; rewrite ?app_nil_r;
      match goal with
      | |- _.1 = _ => eapply proj1; eauto
      | |- reported _ = _ => eapply proj2; eauto
      end.
  - intros t h [s fs] h' w' [= <- <-]. by apply ipv4_seen_set; rewrite ?app_nil_r.
  - intros f [s fs] w' H. simpl in H. unfold TargetSet_save_state in H.
    pose proof (su_open_out SU f fs) as Ho. destruct (open_out f fs) as [os fs'].
    simpl in Ho. inv_ok. apply ipv4_seen_set; simpl; [done|]. by rewrite (su_close_out SU), Ho, app_nil_r.
  - intros f t buf n err w w' [Hs Hr]%(su_finish SU). by apply ipv4_seen_set.
  - intros t h [s fs] b h' w' H. simpl in H. inv_ok. apply target_finished_same_left in E.
    split; [|simpl; by rewrite app_nil_r]. intros ts _ Hg. exists ts. split; [done|].
    by eapply gives_same_left.
  - intros [s fs] r w' H. simpl in H. destruct (ipv4_next_target s) as [t s'] eqn:Hn.
    injection H as <- <-. split; [|simpl; by rewrite app_nil_r]. simpl. intros ts Hts Hg.
    apply (gives_next s ts fs) in Hg. rewrite Hn in Hg. destruct ts as [|u ts].
    + exists []. destruct Hg as [-> Hg]. by rewrite is_end_Target_end.
    + destruct Hg as [-> Hg]. inversion_clear Hts as [|? ? Hu _]. rewrite Hu. by exists ts.
Qed.

Context (SU : surroundings) (HU : user_keeps) (N : Z) (e : AsyncEngine) (s : IPV4TargetSet) (f : F).
Context (Hfresh : fresh_engine N e) (Hfinish : is_Some (_callback_finish e)).

(** The scan of the addresses and ports of [s]. *)
Context (Hips : NoDup (il_addrs (_ipv4s s))) (Hports : NoDup (pl_elems (_ports s))).
Context (Hne : pl_elems (_ports s) ≠ []).
Abbreviation all := (targets_of (il_addrs (_ipv4s s)) (pl_elems (_ports s))).
Context (Hall : Forall (λ t, is_end t = false) all).

Lemma ipv4_seen_parts g r w w' open :
  w.1 = ipv4_init s → ipv4_seen w g r r w' → g ≡ₚ open ++ r →
  ∃ left, gives (F := F) w'.1 left ∧ reported w'.2 = reported w.2 ++ r ∧
    left ++ open ++ r ≡ₚ all ∧ NoDup (left ++ open ++ r).
Proof.
  intros Hw [Hseen Hr] Hg.
  destruct (ipv4_gives_all (F := F) s Hips Hports Hne) as (ts & Hts & Hgives).
  rewrite <- Hw in Hgives. destruct (Hseen ts) as (left & -> & Hleft); [by rewrite Hts|done|].
  assert (Hp : left ++ open ++ r ≡ₚ all) by (by rewrite <- Hg, <- Hts, Permutation_app_comm).
  exists left. split_and!; [done|done|done|]. rewrite Hp. by apply NoDup_targets_of.
Qed.

(** C3. At the head of every round of the scan of a list of addresses and a
    list of ports, each pair of an address and a port is in exactly one place:
    left to be given by the set, on an open socket, or reported to the
    finish function, once. The kernel, the peers and the user's functions are
    arbitrary, as long as they leave the set and the descriptors alone and ask
    for no reconnection; no pair is the end marker 255.255.255.255:65535. *)
Theorem ipv4_scan_partitions fuel more st1 st2 :
  start_scan fuel (e, (ipv4_init s, f)) = Ok (more, st1) → scan_reaches fuel st1 st2 →
  ∃ left finished, gives (F := F) st2.2.1 left ∧ reported st2.2.2 = reported f ++ finished ∧
    left ++ in_flight st2 ++ finished ≡ₚ all ∧ NoDup (left ++ in_flight st2 ++ finished).
Proof.
  intros Hstart Hreach.
  destruct (scan_books ipv4_seen (ipv4_observed SU) HU N fuel (e, (ipv4_init s, f)) more st1 st2 Hfresh Hstart Hreach)
    as (g & fin & Hseen & Hp).
  unfold to_report in Hseen. destruct Hfinish as [? Hf]. simpl in Hseen. rewrite Hf in Hseen.
  destruct (ipv4_seen_parts g fin (ipv4_init s, f) _ (in_flight st2) eq_refl Hseen Hp) as (left & H).
  by exists left, fin.
Qed.

Lemma ipv4_launch_reports fuel rounds st2 :
  launch fuel rounds (e, (s, f)) = Ok ((), st2) →
  ∃ finished, reported st2.2.2 = reported f ++ finished ∧
    in_flight st2 ++ finished ≡ₚ all ∧ NoDup (in_flight st2 ++ finished).
Proof.
  intros Hl. destruct (launch_books ipv4_seen (ipv4_observed SU) HU N fuel rounds e (s, f)
    (ipv4_init s, f) st2 Hfresh eq_refl Hl) as (g & fin & w' & t & Hseen & Hp & Hnext & Ht).
  unfold to_report in Hseen. destruct Hfinish as [? Hf]. simpl in Hseen. rewrite Hf in Hseen.
  destruct (ipv4_seen_parts g fin (ipv4_init s, f) _ (in_flight st2) eq_refl Hseen Hp) as (left & Hg & Hr & Hall' & Hnd).
  destruct w' as [s' f']. simpl in Hnext.
  pose proof (gives_next s' left f' Hg) as Hgn.
  destruct (ipv4_next_target s') as [t' s1]. injection Hnext as -> Hw.
  destruct left as [|u left].
  - exists fin. rewrite <- Hw. by split_and!.
  - destruct Hgn as [-> _]. rewrite <- Hall' in Hall. inversion_clear Hall. congruence.
Qed.

(** C2. When [launch] returns from the scan of a list of addresses and a list of
    ports, every pair of an address and a port was reported to the finish
    function exactly once, or is on a socket that is still open: none is left
    out, none is scanned twice. The conditions are those of
    [ipv4_scan_partitions]: lists without repetition and some port, a finish
    function, no pair that is the end marker 255.255.255.255:65535, and a
    kernel, peers and functions of the user that are arbitrary as long as they
    leave the set and the descriptors alone and ask for no reconnection. *)
Theorem ipv4_scan_complete fuel rounds st2 :
  launch fuel rounds (e, (s, f)) = Ok ((), st2) →
  ∃ finished, reported st2.2.2 = reported f ++ finished ∧
    in_flight st2 ++ finished ≡ₚ all ∧ NoDup (in_flight st2 ++ finished).
Proof. apply ipv4_launch_reports. Qed.

End IPV4Scan.
