(* ===== verification/FileScan.v ===== *)
(** * Whole scans of targets read from a descriptor

    The engine and [TargetAsyncFile] together. The set reads its descriptor in
    pieces, between the rounds of the engine, keeps what is not yet a line, and
    tells the engine that a target would block or that there are no more. For
    all this the targets a scan launches are the addresses of the lines that
    were read, in the order of the lines, and what was read and not launched is
    still in the buffer ([file_scan_launches]). *)

From S2P Require Import Prelude Lvl4Buffer Leeloo Target HostSM Lvl4SM Framing TargetSet TargetFile.
From S2P Require Import Engine AsyncEngine Frames Sockets Rounds Ledger.

Section FileScan.
Context {L : Leeloo} {LL : LeelooLaws L} {C : Closures} {M : Malloc} {P : AddressParser}.

(** ** Lines *)

(** The whole lines of [l], of which [cur] is the beginning of the first. *)
Fixpoint lines_from (cur l : list Z) : list (list Z) :=
  match l with
  | [] => []
  | c :: l => if c =? 10 then cur :: lines_from [] l else lines_from (cur ++ [c]) l
  end.

Definition whole_lines (l : list Z) : Prop := l = [] ∨ last l = Some 10.

Definition address_of (p : port) (line : list Z) : option Target :=
  ip ← ipv4toi line; let t := mkTarget ip p in if is_end t then None else Some t.

(** The addresses of the whole lines of [l]; other lines are skipped. *)
Definition addresses (p : port) (l : list Z) : list Target :=
  omap (address_of p) (lines_from [] l).

Lemma lines_from_line cur line : 10 ∉ line → lines_from cur (line ++ [10]) = [cur ++ line].
Proof.
  revert cur. induction line as [|c line IH]; intros cur Hn; simpl; [by rewrite app_nil_r|].
  apply not_elem_of_cons in Hn as [Hc Hn]. rewrite (proj2 (Z.eqb_neq _ _)) by done.
  by rewrite IH, <- app_assoc.
Qed.

Lemma lines_from_app cur l l' :
  last l = Some 10 → lines_from cur (l ++ l') = lines_from cur l ++ lines_from [] l'.
Proof.
  revert cur. induction l as [|c l IH]; intros cur Hl; [done|]. simpl.
  destruct l as [|d l]; [by injection Hl as ->|].
  rewrite !IH by done. by destruct (c =? 10).
Qed.

Lemma addresses_app p l l' : whole_lines l → addresses p (l ++ l') = addresses p l ++ addresses p l'.
Proof.
  intros [->|Hl]; [done|]. unfold addresses. by rewrite lines_from_app, omap_app.
Qed.

Lemma whole_lines_app l l' : whole_lines l → whole_lines l' → whole_lines (l ++ l').
Proof.
  intros Hl [->|Hl']; [by rewrite app_nil_r|]. right. rewrite last_app. by rewrite Hl'.
Qed.

(** ** What a call eats *)

(** From [l] in the buffer, [data] being read, to [l'] in the buffer, with the
    addresses [g] given. *)
Definition eats (p : port) (l data : list Z) (g : list Target) (l' : list Z) : Prop :=
  ∃ e, l ++ data = e ++ l' ∧ whole_lines e ∧ addresses p e = g.

Lemma eats_nothing p l : eats p l [] [] l.
Proof. exists []. rewrite app_nil_r. split_and!; [done|by left|done]. Qed.

Lemma eats_more p l1 d1 g1 l2 d2 g2 l3 :
  eats p l1 d1 g1 l2 → eats p l2 d2 g2 l3 → eats p l1 (d1 ++ d2) (g1 ++ g2) l3.
Proof.
  intros (e1 & H1 & Hw1 & <-) (e2 & H2 & Hw2 & <-). exists (e1 ++ e2).
  rewrite addresses_app by done. split_and!; [|by apply whole_lines_app|done].
  by rewrite app_assoc, H1, <- app_assoc, H2, app_assoc.
Qed.

(** The targets that an answer of the set gives. *)
Definition gave (r : next) : list Target :=
  match r with
  | NextTarget t => if is_end t then [] else [t]
  | NextTargetWouldBlock => []
  end.

Lemma spec_line_eats p l : eats p l [] (gave (NextTarget (spec_line p l).1)) (spec_line p l).2.
Proof.
  unfold spec_line. destruct (find_byte 10 l) as [i|] eqn:Hi; simpl.
  - exists (take i l ++ [10]). rewrite app_nil_r, <- app_assoc. split_and!.
    + by apply find_byte_split.
    + right. by rewrite last_snoc.
    + apply find_byte_Some in Hi as [_ Hn]. unfold addresses. rewrite lines_from_line by done.
      unfold address_of. simpl. destruct (ipv4toi (take i l)); simpl; [|by rewrite is_end_Target_end].
      by destruct (is_end _).
  - rewrite is_end_Target_end. apply eats_nothing.
Qed.

Lemma gave_end t : target_eqb t Target_end = true → gave (NextTarget t) = [].
Proof. intros ->%target_eqb_eq. simpl. by rewrite is_end_Target_end. Qed.

(** ** The set and its descriptor *)

Context {W : Type} {OSW : OS W}.

(** The bytes read so far from the descriptor of the file, and what the finish
    function was called for. *)
Context (input_read : W → list Z) (reported : W → list Target) (fd : Z).

(** A read gives what was announced, and the input is shorter than 2^30. *)
Record reads_input : Prop := {
  ri_full : full_reads;
  ri_avail n w : sys_fionread fd w = Some n → 0 ≤ n ∧ zlen (input_read w) + n < Buffer.max_size;
  ri_read n w r data w' : sys_read fd n w = (r, data, w') →
    input_read w' = input_read w ++ data ∧ reported w' = reported w;
}.

Lemma spec_read_eats p l w r l' w' :
  reads_input → spec_read p fd l w = (r, l', w') →
  ∃ data, input_read w' = input_read w ++ data ∧ reported w' = reported w ∧ eats p l data (gave r) l'.
Proof.
  intros RI. unfold spec_read.
  assert (Hend : ∀ r0, gave r0 = [] → (r0, l, w) = (r, l', w') →
    ∃ data, input_read w' = input_read w ++ data ∧ reported w' = reported w ∧ eats p l data (gave r) l').
  { intros r0 Hr [= <- <- <-]. exists []. rewrite app_nil_r, Hr. split_and!; [done|done|apply eats_nothing]. }
  assert (Hte : gave (NextTarget Target_end) = []) by (simpl; by rewrite is_end_Target_end).
  destruct (_ =? -1); [by apply Hend|].
  destruct (_ =? 0); [by apply Hend|].
  destruct (sys_fionread fd w) as [n|]; [|by apply Hend].
  destruct (n =? 0); [by apply Hend|].
  destruct (sys_read fd n w) as [[nread data] w1] eqn:Hr. apply (ri_read RI) in Hr as [Hr Hrep].
  destruct (spec_line_eats p (l ++ data)) as (e & He & Hw & Ha). rewrite app_nil_r in He.
  destruct (spec_line p (l ++ data)) as [t l1]. simpl in He, Ha. intros [= <- <- <-].
  exists data. split_and!; [done|done|]. exists e. split_and!; [done|done|].
  rewrite Ha. destruct (target_eqb t Target_end) eqn:Et; [by apply gave_end|done].
Qed.

Lemma spec_next_eats p l w r l' w' :
  reads_input → spec_next_target p fd l w = (r, l', w') →
  ∃ data, input_read w' = input_read w ++ data ∧ reported w' = reported w ∧ eats p l data (gave r) l'.
Proof.
  intros RI. unfold spec_next_target. pose proof (spec_line_eats p l) as He.
  destruct (spec_line p l) as [t l1]. simpl in He. destruct (target_eqb t Target_end) eqn:Et.
  - intros (data & Hd & Hr & He')%spec_read_eats; [|done]. exists data. split_and!; [done|done|].
    rewrite <- (app_nil_l data), <- (app_nil_l (gave r)). eapply eats_more; [|done].
    by rewrite <- (gave_end t Et).
  - intros [= <- <- <-]. exists []. by rewrite app_nil_r.
Qed.

(** ** The set in the engine *)

Context {OSF : OS (TargetAsyncFile * W)} {K : Calls (TargetAsyncFile * W)}.
Context {EC : EngineCalls (TargetAsyncFile * W)} {FD : OSFdLaws _ OSF}.
#[local] Existing Instance target_async_file.

Context (p : port).

(** The kernel, seen from the sockets, and the user's functions leave the file
    and its descriptor alone; only the finish function is in the log. *)
Record file_surroundings : Prop := {
  fs_quietly : quietly (λ w w' : TargetAsyncFile * W,
    w'.1 = w.1 ∧ input_read w'.2 = input_read w.2 ∧ reported w'.2 = reported w.2);
  fs_finish f t buf n err w w' : call_finish f t buf n err w = Ok w' →
    w'.1 = w.1 ∧ input_read w'.2 = input_read w.2 ∧ reported w'.2 = reported w.2 ++ [t];
}.

(** The buffer of the file holds [l], the end of what was read. *)
Record buffered (l : list Z) (w : TargetAsyncFile * W) : Prop := {
  bu_holds : holds w.1 l;
  bu_fd : _fd w.1 = fd;
  bu_port : _def_port w.1 = p;
  bu_read : l `suffix_of` input_read w.2;
}.

(** From [w] to [w'] the set gave the addresses [g] of the lines it ate. *)
Definition file_seen (w : TargetAsyncFile * W) (g t r : list Target) (w' : TargetAsyncFile * W) : Prop :=
  ∀ l, buffered l w → ∃ l' data, buffered l' w' ∧ input_read w'.2 = input_read w.2 ++ data ∧
    eats p l data g l' ∧ reported w'.2 = reported w.2 ++ r.

Lemma file_seen_nothing w w' t r :
  w'.1 = w.1 → input_read w'.2 = input_read w.2 → reported w'.2 = reported w.2 ++ r →
  file_seen w [] t r w'.
Proof.
  intros Hf Hi Hr l []. exists l, [].
  split_and!; [by split; rewrite ?Hf, ?Hi|by rewrite Hi, app_nil_r|apply eats_nothing|done].
Qed.

Lemma file_seen_next f w r w' :
  reads_input → file_next_target f w = Ok (r, w') → file_seen (f, w) (gave r) [] [] w'.
Proof.
  intros RI Hn l [Hh Hfd Hp Hl]. simpl in *.
  destruct (file_next_target_spec f l w Hh (ri_full RI)) as (r1 & f1 & l1 & w1 & Hr1 & Hspec & Hh1 & Hfd1 & Hp1).
  { intros n Hn1. rewrite Hfd in Hn1. apply (ri_avail RI) in Hn1. apply suffix_length in Hl. lia. }
  rewrite Hn in Hr1. injection Hr1 as -> ->. rewrite Hfd, Hp in *.
  destruct (spec_next_eats _ _ _ _ _ _ RI Hspec) as (data & Hd & Hr & He). exists l1, data.
  split_and!; [|done|done|by rewrite app_nil_r]. split; simpl; [done|done|done|].
  destruct Hl as [pre Hl], He as (e & He & _). exists (pre ++ e).
  by rewrite Hd, Hl, <- app_assoc, He, app_assoc.
Qed.

Lemma file_observed : reads_input → file_surroundings → observed file_seen.
Proof.
  intros RI FS. split.
  - intros w. by apply file_seen_nothing; rewrite ?app_nil_r.
  - intros w1 w2 w3 g1 t1 r1 g2 t2 r2 H1 H2 l Hl.
    destruct (H1 l Hl) as (l1 & d1 & Hl1 & Hd1 & He1 & Hr1).
    destruct (H2 l1 Hl1) as (l2 & d2 & Hl2 & Hd2 & He2 & Hr2). exists l2, (d1 ++ d2).
    split_and!; [done|by rewrite Hd2, Hd1, app_assoc|by eapply eats_more|by rewrite Hr2, Hr1, app_assoc].
  - destruct (fs_quietly FS).
    split; intros; apply file_seen_nothing; rewrite ?app_nil_r;
      match goal with
      | |- _.1 = _ => eapply proj1; eauto
      | |- input_read _ = _ => eapply proj1, proj2; eauto
      | |- reported _ = _ => eapply proj2, proj2; eauto
      end.
  - intros t h [f w] h' w' [= <- <-]. by apply file_seen_nothing; rewrite ?app_nil_r.
  - intros f [f' w] w' [= <-]. by apply file_seen_nothing; rewrite ?app_nil_r.
  - intros f t buf n err w w' (Hf & Hi & Hr)%(fs_finish FS). by apply file_seen_nothing.
  - intros t h [f w] b h' w' [= <- <- <-]. by apply file_seen_nothing; rewrite ?app_nil_r.
  - intros [f w] r w' H. by apply file_seen_next.
Qed.

(** C25. At the head of every round of a scan of a descriptor, the bytes read from
    it so far are whole lines that were eaten and the bytes still in the buffer
    of the set; and the addresses of the lines eaten are, each as many times as
    it has a line, on a socket that is open or reported to the finish function:
    none is lost and none is made up, however the reads cut the lines and
    whenever the set answers that a target would block. *)
Theorem file_scan_launches N fuel e w more st1 st2 :
  reads_input → file_surroundings → user_keeps → fresh_engine N e →
  is_Some (_callback_finish e) →
  start_scan fuel (e, (TargetAsyncFile_ctor fd p, w)) = Ok (more, st1) → scan_reaches fuel st1 st2 →
  ∃ eaten rest finished,
    input_read st2.2.2 = input_read w ++ eaten ++ rest ∧ whole_lines eaten ∧
    holds st2.2.1 rest ∧ reported st2.2.2 = reported w ++ finished ∧
    addresses p eaten ≡ₚ in_flight st2 ++ finished.
Proof.
  intros RI FS HU Hfresh [f Hf] Hstart Hreach.
  destruct (scan_books file_seen (file_observed RI FS) HU N fuel
    (e, (TargetAsyncFile_ctor fd p, w)) more st1 st2 Hfresh Hstart Hreach)
    as (g & fin & Hseen & Hp). unfold to_report in Hseen. simpl in Hseen. rewrite Hf in Hseen.
  destruct (Hseen []) as (rest & data & [Hh _ _ _] & Hd & (e' & He & Hw & <-) & Hr).
  { split; [by split; [apply Buffer.wf_ctor|]|done|done|apply suffix_nil]. }
  exists e', rest, fin. simpl in He, Hd. rewrite He in Hd. by split_and!.
Qed.

End FileScan.
