(* ===== verification/IPV4Silent.v ===== *)
(** * Scans of addresses and ports that nobody answers

    The engine, the hosts and [IPV4TargetSet] together. [target_finished]
    reads an index of the host that is set when the first of its targets is
    launched, and answers [true] when the host has had all its ports: for each
    address, the ports that its host has done, those in flight and those left
    to be given are the ports of the scan ([host_fits]). On a kernel where nobody
    answers, this makes every call of the set succeed, so that the scan of a
    list of addresses and ports ends, with every pair reported or in flight,
    and no host left but those with a target in flight
    ([ipv4_silent_scan]). *)

From S2P Require Import Prelude Lvl4Buffer Leeloo Target HostSM Lvl4SM TargetSet IPV4Set Engine AsyncEngine Frames Sockets Rounds Accounting Ledger IPV4Scan Liveness.

(** ** The ports of one address *)

Section Ports.
Context {L : Leeloo}.

Definition ports_at (ip : Z) (ts : list Target) : list port :=
  _port <$> filter (λ t, ipv4 t = ip) ts.

#[export] Instance ports_at_proper ip : Proper ((≡ₚ) ==> (≡ₚ)) (ports_at ip).
Proof. intros ts ts' Hp. unfold ports_at. by rewrite Hp. Qed.

Lemma ports_at_app ip ts ts' : ports_at ip (ts ++ ts') = ports_at ip ts ++ ports_at ip ts'.
Proof. unfold ports_at. by rewrite filter_app, fmap_app. Qed.

Lemma ports_at_cons_eq t ts : ports_at (ipv4 t) (t :: ts) = _port t :: ports_at (ipv4 t) ts.
Proof. unfold ports_at. by rewrite filter_cons_True. Qed.

Lemma ports_at_cons_ne ip t ts : ipv4 t ≠ ip → ports_at ip (t :: ts) = ports_at ip ts.
Proof. intros. unfold ports_at. by rewrite filter_cons_False. Qed.

Lemma ports_at_same a ports : ports_at a (mkTarget a <$> ports) = ports.
Proof.
  unfold ports_at. induction ports as [|p ports IH]; [done|].
  rewrite fmap_cons, filter_cons_True by done. rewrite fmap_cons. by f_equal.
Qed.

Lemma ports_at_other ip a ports : a ≠ ip → ports_at ip (mkTarget a <$> ports) = [].
Proof.
  intros Hne. unfold ports_at. induction ports as [|p ports IH]; [done|].
  rewrite fmap_cons, filter_cons_False by done. exact IH.
Qed.

(** Each address of a product has all the ports, and no other one has any. *)
Lemma ports_at_targets_of ip ips ports :
  NoDup ips → ports_at ip (targets_of ips ports) = if decide (ip ∈ ips) then ports else [].
Proof.
  intros Hips. induction Hips as [|a ips Ha _ IH]; [done|].
  change (targets_of (a :: ips) ports) with ((mkTarget a <$> ports) ++ targets_of ips ports).
  rewrite ports_at_app, IH.
  destruct (decide (a = ip)) as [->|Hne].
  - rewrite ports_at_same. rewrite (decide_False (P := ip ∈ ips)) by done.
    rewrite decide_True by set_solver. by rewrite app_nil_r.
  - rewrite ports_at_other by done. simpl. apply decide_ext. set_solver.
Qed.

(** The targets of the sockets. *)
Definition flying (ts : gmap Z Target) : list Target := (map_to_list ts).*2.

Lemma flying_insert i t ts : ts !! i = None → flying (<[i := t]> ts) ≡ₚ t :: flying ts.
Proof. intros Hi. unfold flying. by rewrite map_to_list_insert. Qed.

Lemma flying_delete i t ts : ts !! i = Some t → flying ts ≡ₚ t :: flying (delete i ts).
Proof.
  intros Hi. rewrite <- (insert_delete_id ts i t) at 1 by done.
  apply flying_insert, lookup_delete_eq.
Qed.

Lemma ports_at_flying ip ts :
  ports_at ip (flying ts) ≠ [] ↔ ∃ i t, ts !! i = Some t ∧ ipv4 t = ip.
Proof.
  unfold ports_at, flying. split.
  - intros H. destruct (filter (λ t, ipv4 t = ip) (map_to_list ts).*2) as [|t l] eqn:E; [done|].
    assert (Ht : t ∈ filter (λ t, ipv4 t = ip) (map_to_list ts).*2) by (rewrite E; set_solver).
    apply list_elem_of_filter in Ht as [Hip ((i & t') & -> & Hi)%list_elem_of_fmap].
    exists i, t'. split; [by apply elem_of_map_to_list|done].
  - intros (i & t & Hi & Hip) H. apply fmap_nil_inv in H.
    assert (Ht : t ∈ filter (λ t, ipv4 t = ip) (map_to_list ts).*2).
    { apply list_elem_of_filter. split; [done|]. apply list_elem_of_fmap. exists (i, t).
      split; [done|]. by apply elem_of_map_to_list. }
    rewrite H in Ht. by apply elem_of_nil in Ht.
Qed.

End Ports.

Section IPV4Silent.
Context {L : Leeloo} {LL : LeelooLaws L} {C : Closures} {M : Malloc} {R : LeelooRandom} {RL : LeelooRandomLaws R}.
Context {A : Archives R} {F : Type} {FS : Files F}.

Abbreviation addrs_left s := (v4_left (_ipv4s s) (_rand_v4 s)).
Abbreviation ports_left s := (rp_left (_ports s) (_rand_port s)).

(** ** What the set needs of a host *)

(** [flight] and [later] are the ports of its targets in flight and of those
    to be launched, [ports] those of the scan. *)
Definition host_fits (ports : list port) (h : option HostSM) (flight later : list port) : Prop :=
  match h with
  | Some h => is_Some (_rand_idx_ip h) ∧
              pl_elems (_ports_done h) ++ flight ++ later ≡ₚ ports ∧ flight ++ later ≠ []
  | None => flight = [] ∧ (later = [] ∨ later ≡ₚ ports)
  end.

#[local] Instance host_fits_proper :
  Proper ((≡ₚ) ==> (=) ==> (≡ₚ) ==> (≡ₚ) ==> iff) host_fits.
Proof.
  assert (H : Proper ((≡ₚ) ==> (=) ==> (≡ₚ) ==> (≡ₚ) ==> impl) host_fits).
  { intros ps ps' Hps h h' <- f f' Hf l l' Hl. destruct h as [h|]; simpl.
    - intros (Hi & Hp & Hne).
      assert (Hfl : f ++ l ≡ₚ f' ++ l') by (by rewrite Hf, Hl).
      split_and!; [done|by rewrite <- Hps, <- Hfl|].
      intros He. apply Hne. rewrite He in Hfl. by apply Permutation_nil_r in Hfl.
    - intros [-> H]. apply Permutation_nil_l in Hf as <-. split; [done|].
      destruct H as [->|H]; [left; by apply Permutation_nil_l in Hl as <-|right; by rewrite <- Hl, H]. }
  intros ps ps' Hps h h' Hh f f' Hf l l' Hl. split; apply H; done.
Qed.

(** A target is launched: its host gets an index and keeps its ports. *)
Lemma host_fits_init ports hs ip p flight later h idx :
  host_fits ports (hs !! ip) flight (p :: later) → found hs ip h →
  host_fits ports (Some (set_rand_idx_ip idx h)) (p :: flight) later.
Proof.
  intros Hf Hh. destruct Hh as [E|(E & Hdone & _)]; rewrite E in Hf; simpl in *.
  - destruct Hf as (_ & Hp & _). split_and!; [by eexists| |done]. rewrite <- Hp. simpl.
    by rewrite <- (Permutation_middle flight later).
  - destruct Hf as [-> [?|Hp]]; [done|]. split_and!; [by eexists| |done].
    by rewrite Hdone, pl_elems_empty.
Qed.

(** A target of the host is finished. *)
Lemma host_fits_done ports h p flight later :
  NoDup ports → host_fits ports (Some h) (p :: flight) later →
  let h' := port_done p h in
  length (pl_elems (_ports_done h')) = length ports ∧ host_fits ports None flight later ∧
    is_Some (_rand_idx_ip h') ∨
  length (pl_elems (_ports_done h')) ≠ length ports ∧ host_fits ports (Some h') flight later.
Proof.
  intros Hnd (Hidx & Hp & _). cbv zeta.
  assert (Hp' : (p :: pl_elems (_ports_done h)) ++ flight ++ later ≡ₚ ports).
  { rewrite <- Hp. simpl. by rewrite Permutation_middle. }
  rewrite <- Hp' in Hnd. apply NoDup_app in Hnd as (Hnd & _ & _).
  destruct (port_done_elems p h Hnd) as [Hel Hi]. set (h' := port_done p h) in *. clearbody h'.
  rewrite <- Hel in Hp'. pose proof (Permutation_length Hp') as Hlen. rewrite length_app in Hlen.
  destruct (flight ++ later) as [|q l] eqn:E.
  - left. apply app_eq_nil in E as [-> ->]. simpl in *.
    split; [lia|]. split; [split; [done|by left]|by rewrite Hi].
  - right. simpl in Hlen. split; [lia|]. simpl. rewrite Hi, E. by split_and!.
Qed.

(** ** What the set has left *)

Definition set_left (s : IPV4TargetSet) : nat :=
  match addrs_left s with
  | [] => 0
  | _ :: q => length (ports_left s) + length q * length (pl_elems (_ports s))
  end.

(** The ports can be counted, none of the targets is the end marker. *)
Record set_ok (s : IPV4TargetSet) : Prop := {
  so_ports : pl_elems (_ports s) ≠ [];
  so_nodup : NoDup (pl_elems (_ports s));
  so_small : zlen (pl_elems (_ports s)) < 2 ^ 32;
  so_count : rp_size_original (_rand_port s) = zlen (pl_elems (_ports s));
  so_left p : addrs_left s ≠ [] → p ∈ ports_left s → port_of_u32 p ∈ pl_elems (_ports s);
  so_end a p : a ∈ addrs_left s → p ∈ pl_elems (_ports s) → is_end (mkTarget a p) = false;
}.

Lemma ports_count_ok s : set_ok s → ports_count s = zlen (pl_elems (_ports s)).
Proof.
  intros [Hne _ Hs Hc _ _]. unfold ports_count. rewrite Hc, u32_small; [done|lia].
Qed.

Lemma same_left_set_left s s' : same_left s s' → set_left s' = set_left s.
Proof. intros [_ Hps Hr _ Hv]. unfold set_left. by rewrite Hv, Hps, Hr. Qed.

Lemma same_left_ok s s' : same_left s s' → set_ok s → set_ok s'.
Proof. intros [_ Hps Hr _ Hv] []. split; rewrite ?Hv, ?Hps, ?Hr; done. Qed.

Lemma next_count s :
  rp_size_original (_rand_port s) = zlen (pl_elems (_ports s)) →
  rp_size_original (_rand_port (ipv4_next_target s).2) = zlen (pl_elems (_ports s)).
Proof.
  intros Hs. unfold ipv4_next_target. destruct (rp_end (_rand_port s)).
  - pose proof (rp_size_original_init (_ports s) (g_mt_rand s)) as Hi.
    destruct (rp_init _ _) as [rp g]. simpl in Hi. destruct (v4_end _); [done|].
    pose proof (rp_size_original_call (_ports s) rp) as Hc.
    destruct (rp_call _ _) as [p rp']. simpl in *. congruence.
  - destruct (v4_end _); [done|].
    pose proof (rp_size_original_call (_ports s) (_rand_port s)) as Hc.
    destruct (rp_call _ _) as [p rp']. simpl in *. congruence.
Qed.

Lemma next_ports s : _ports (ipv4_next_target s).2 = _ports s.
Proof.
  unfold ipv4_next_target. destruct (rp_end _); [destruct (rp_init _ _)|];
    (destruct (v4_end _); [done|]); by destruct (rp_call _ _).
Qed.

(** A call when the current address has a port left. *)
Lemma set_next_port s a q p ps :
  set_ok s → addrs_left s = a :: q → ports_left s = p :: ps →
  let '(t, s') := ipv4_next_target s in
  set_ok s' ∧ is_end t = false ∧ set_left s' = (length ps + length q * length (pl_elems (_ports s)))%nat.
Proof.
  intros Hok Hv Hp. pose proof (next_count s (so_count _ Hok)) as Hc.
  destruct (ipv4_next_port s a q p ps Hv Hp) as (s' & Hn & Hps & Hips & Hv' & Hp').
  rewrite Hn in *. simpl in Hc. destruct Hok as [Hne Hnd Hs _ Hl He].
  assert (Hin : port_of_u32 p ∈ pl_elems (_ports s)) by (apply Hl; rewrite ?Hv, ?Hp; set_solver).
  split; [|split].
  - split; rewrite ?Hp', ?Hv', ?Hps; try done; [intros x _ Hx; apply Hl; rewrite ?Hv, ?Hp; set_solver|].
    intros b x Hb. apply He. by rewrite Hv.
  - apply He; [rewrite Hv; set_solver|done].
  - unfold set_left. by rewrite Hv', Hp', Hps.
Qed.

Lemma set_next_end s :
  set_ok s → addrs_left s = [] →
  let '(t, s') := ipv4_next_target s in set_ok s' ∧ t = Target_end ∧ set_left s' = 0%nat.
Proof.
  intros Hok Hv. pose proof (next_count s (so_count _ Hok)) as Hc. pose proof (next_ports s) as Hps.
  destruct (ipv4_next_end s Hv) as (s' & Hn & Hv'). rewrite Hn in *. simpl in *.
  split; [|split; [done|unfold set_left; by rewrite Hv']].
  destruct Hok. split; rewrite ?Hv', ?Hps; try done. by intros a p ?%elem_of_nil.
Qed.

(** The state at the next address, from which a call without a port left goes on. *)
Definition next_addr (s : IPV4TargetSet) : IPV4TargetSet :=
  mkIPV4 (_ipv4s s) (_ports s) (v4_next (_rand_v4 s))
    (rp_init (_ports s) (g_mt_rand s)).1 (rp_init (_ports s) (g_mt_rand s)).2.

Lemma next_addr_ok s a q :
  set_ok s → addrs_left s = a :: q →
  set_ok (next_addr s) ∧ addrs_left (next_addr s) = q ∧
  length (ports_left (next_addr s)) = length (pl_elems (_ports s)).
Proof.
  intros [Hne Hnd Hs Hc Hl He] Hv.
  assert (Hq : addrs_left (next_addr s) = q) by (simpl; by rewrite v4_next_left, Hv).
  pose proof (rp_init_left (_ports s) (g_mt_rand s)) as Hp.
  split; [|split; [done|]].
  - split; rewrite ?Hq; simpl; try done.
    + apply rp_size_original_init.
    + intros p _ Hin. rewrite <- Hp. by apply list_elem_of_fmap_2.
    + intros b p Hb. apply He. rewrite Hv. set_solver.
  - simpl. rewrite <- Hp. by rewrite length_fmap.
Qed.

Lemma set_next s :
  set_ok s →
  let '(t, s') := ipv4_next_target s in
  set_ok s' ∧ if is_end t then set_left s = 0%nat ∧ set_left s' = 0%nat
              else set_left s = S (set_left s').
Proof.
  intros Hok. destruct (addrs_left s) as [|a q] eqn:Hv.
  { pose proof (set_next_end s Hok Hv) as H. destruct (ipv4_next_target s) as [t s'].
    destruct H as (? & -> & ?). rewrite is_end_Target_end. split_and!; [done| |done].
    unfold set_left. by rewrite Hv. }
  destruct (ports_left s) as [|p ps] eqn:Hp.
  - destruct (ipv4_next_addr s a q Hv Hp) as [Hn|?]; [|by destruct (so_ports _ Hok)].
    fold (next_addr s) in Hn. rewrite Hn. destruct (next_addr_ok s a q Hok Hv) as (Hok2 & Hq & Hlen).
    assert (Hleft : set_left s = (length q * length (pl_elems (_ports s)))%nat).
    { unfold set_left. by rewrite Hv, Hp. }
    destruct q as [|b q].
    + pose proof (set_next_end _ Hok2 Hq) as H. destruct (ipv4_next_target (next_addr s)) as [t s'].
      destruct H as (? & -> & ?). by rewrite is_end_Target_end.
    + destruct (ports_left (next_addr s)) as [|p ps] eqn:Hp2.
      { destruct (so_ports _ Hok). by apply length_zero_iff_nil. }
      pose proof (set_next_port _ b q p ps Hok2 Hq Hp2) as H.
      destruct (ipv4_next_target (next_addr s)) as [t s']. destruct H as (? & -> & ->).
      split; [done|]. rewrite Hleft. simpl in *. lia.
  - pose proof (set_next_port s a q p ps Hok Hv Hp) as H. destruct (ipv4_next_target s) as [t s'].
    destruct H as (? & -> & ->). split; [done|]. unfold set_left. by rewrite Hv, Hp.
Qed.

(** ** The set in a silent world *)

Context {OSW : OS (IPV4TargetSet * F)} {K : Calls (IPV4TargetSet * F)}.
Context {EC : EngineCalls (IPV4TargetSet * F)} {FD : OSFdLaws _ OSW}.
#[local] Existing Instance ipv4_target_set.

(** The clock of the world beside the set, what is known of that world, and
    a bound of the timeouts. *)
Context (clock : F → Z) (sound : F → Prop) (max_timeout : Z).

(** What the kernel and the functions of the user do. *)
Definition beside (w w' : IPV4TargetSet * F) : Prop :=
  w'.1 = w.1 ∧ sound w'.2 ∧ clock w.2 ≤ clock w'.2.

(** Nothing answers, no connection is refused at once, and files can be
    written. *)
Record ipv4_silence : Prop := {
  is_kernel : silent_kernel (λ w, clock w.2) max_timeout False beside (λ w, sound w.2);
  is_save file s f : sound f → ∃ w', ts_save_state file (s, f) = Ok w' ∧ beside (s, f) w';
}.

Definition ipv4_good (w : IPV4TargetSet * F) : Prop := set_ok w.1 ∧ sound w.2.

Definition ipv4_fits (hs : gmap Z HostSM) (ts : gmap Z Target) (po : option Target)
    (w : IPV4TargetSet * F) : Prop := ∃ later,
  gives (F := F) w.1 later ∧ length later = set_left w.1 ∧
  ∀ ip, host_fits (pl_elems (_ports w.1)) (hs !! ip) (ports_at ip (flying ts))
          (ports_at ip (option_list po ++ later)).

Abbreviation ipv4_follows := (follows (λ w : IPV4TargetSet * F, clock w.2) (λ w, set_left w.1) ipv4_good).
Abbreviation ipv4_apart := (apart (λ w : IPV4TargetSet * F, clock w.2) (λ w, set_left w.1) ipv4_good ipv4_fits).

Lemma beside_apart w w' : ipv4_good w → beside w w' → ipv4_apart w w'.
Proof.
  intros [Hs _] (He & Hf & Hc). split.
  - split; [by split; [rewrite He|]|done|by rewrite He].
  - intros hs ts po. unfold ipv4_fits. by rewrite He.
Qed.

(** The next target becomes the one to be placed. *)
Lemma fits_next s f :
  ipv4_good (s, f) → let '(t, s') := ipv4_next_target s in
  if is_end t then set_left s = 0%nat ∧ ipv4_apart (s, f) (s', f)
  else set_left s = S (set_left s') ∧ ipv4_good (s', f) ∧
       ∀ hs ts, ipv4_fits hs ts None (s, f) → ipv4_fits hs ts (Some t) (s', f).
Proof.
  intros [Hok Hf]. simpl in *. pose proof (set_next s Hok) as Hn. pose proof (next_ports s) as Hps.
  assert (Hg : ∀ later, gives (F := F) s later → let '(t, s') := ipv4_next_target s in
    match later with [] => t = Target_end ∧ gives (F := F) s' []
    | u :: later => t = u ∧ gives (F := F) s' later end).
  { intros later Hl. exact (gives_next s later f Hl). }
  destruct (ipv4_next_target s) as [t s']. destruct Hn as [Hok' Hn]. simpl in Hps.
  destruct (is_end t) eqn:Et.
  - destruct Hn as [Hn Hl']. split; [done|].
    split; [split; [by split|done|simpl; by rewrite Hl', Hn]|].
    intros hs ts po (later & Hgl & Hlen & Hh). simpl in *. rewrite Hn in Hlen.
    destruct later; [|done]. exists []. simpl. rewrite Hps. split_and!; [by apply (Hg [])|by rewrite Hl'|done].
  - split; [done|split; [by split|]]. intros hs ts (later & Hgl & Hlen & Hh). simpl in *.
    rewrite Hn in Hlen. destruct later as [|u later]; [done|]. destruct (Hg _ Hgl) as [-> Hg'].
    exists later. simpl. rewrite Hps. split_and!; [done|by injection Hlen|done].
Qed.

(** A target that was placed: its host is initialised. *)
Lemma fits_init hs ts i t h s f :
  ipv4_fits hs ts (Some t) (s, f) → found hs (ipv4 t) h → ts !! i = None →
  ipv4_fits (<[ipv4 t := ipv4_init_host_sm h s]> hs) (<[i := t]> ts) None (s, f).
Proof.
  intros (later & Hg & Hlen & Hh) Hf Hi. exists later. simpl in *. split_and!; [done|done|].
  intros ip. specialize (Hh ip). rewrite (flying_insert i t ts Hi).
  destruct (decide (ipv4 t = ip)) as [<-|Hne].
  - rewrite lookup_insert_eq. rewrite ports_at_cons_eq in Hh |- *. by eapply host_fits_init.
  - rewrite lookup_insert_ne by done. by rewrite ports_at_cons_ne in Hh |- * by done.
Qed.

(** The set can be told that a target in flight is finished. *)
Lemma fits_finished hs ts i t h s f :
  set_ok s → ipv4_fits hs ts None (s, f) → ts !! i = Some t → found hs (ipv4 t) h →
  ∃ b h' s', ipv4_target_finished t h s = Ok (b, h', s') ∧ same_left s s' ∧
    ipv4_fits (hosts_after b (ipv4 t) h' hs) (delete i ts) None (s', f).
Proof.
  intros Hok (later & Hg & Hlen & Hh) Hi Hf. simpl in *.
  pose proof (Hh (ipv4 t)) as Ht. rewrite (flying_delete i t ts Hi), ports_at_cons_eq in Ht.
  destruct Hf as [Hf|(Hf & _)]; rewrite Hf in Ht; [|by destruct Ht as [? _]].
  pose proof (host_fits_done _ _ _ _ _ (so_nodup _ Hok) Ht) as Hdone. cbv zeta in Hdone.
  assert (Hothers : ∀ ip, ip ≠ ipv4 t →
    host_fits (pl_elems (_ports s)) (hs !! ip) (ports_at ip (flying (delete i ts))) (ports_at ip later)).
  { intros ip Hne. specialize (Hh ip).
    by rewrite (flying_delete i t ts Hi), ports_at_cons_ne in Hh by done. }
  unfold ipv4_target_finished, ports_done_count. rewrite pl_size_elems, (ports_count_ok s Hok).
  set (h' := port_done (_port t) h) in *. clearbody h'.
  assert (Hu : u32 (zlen (pl_elems (_ports_done h'))) = zlen (pl_elems (_ports_done h'))).
  { apply u32_small. pose proof (so_small _ Hok). destruct Hdone as [(Hl & _)|(_ & _ & Hp & _)]; [lia|].
    apply Permutation_length in Hp. rewrite length_app in Hp. lia. }
  rewrite Hu. destruct Hdone as [(Hl & Hfit & idx & Hidx)|(Hl & Hfit)].
  - rewrite Hl, Z.eqb_refl. unfold rand_idx_ip. rewrite Hidx. simpl.
    eexists true, h', _. split; [done|]. assert (Hs : same_left s (mkIPV4 (_ipv4s s) (_ports s)
      (v4_step_done idx (_rand_v4 s)) (_rand_port s) (g_mt_rand s))).
    { split; simpl; try done. apply v4_step_done_left. }
    split; [done|]. exists later. split_and!; [by eapply gives_same_left|by cbn [fst]; rewrite (same_left_set_left _ _ Hs)|].
    intros ip. simpl. destruct (decide (ip = ipv4 t)) as [->|Hne].
    + by rewrite lookup_delete_eq.
    + rewrite lookup_delete_ne by done. by apply Hothers.
  - rewrite (proj2 (Z.eqb_neq _ _)) by lia. exists false, h', s. split; [done|]. split; [done|].
    exists later. split_and!; [done|done|]. intros ip. simpl.
    destruct (decide (ip = ipv4 t)) as [->|Hne].
    + by rewrite lookup_insert_eq.
    + rewrite lookup_insert_ne by done. by apply Hothers.
Qed.

Context (IS : ipv4_silence).

Lemma ipv4_kernel :
  silent_kernel (λ w, clock w.2) max_timeout False ipv4_apart ipv4_good.
Proof.
  apply (silent_kernel_mono _ _ _ beside ipv4_apart (λ w, sound w.2) ipv4_good);
    [| |exact (is_kernel IS)].
  - intros w Hw. apply Hw.
  - intros w w'. apply beside_apart.
Qed.

Lemma ipv4_silent_set :
  silent_set (λ w : IPV4TargetSet * F, clock w.2) (λ w, set_left w.1) ipv4_good ipv4_fits False.
Proof.
  split.
  - intros [s f] Hg. pose proof (fits_next s f Hg) as H.
    destruct (ipv4_next_target s) as [t s'] eqn:Hn. exists t, (s', f).
    split; [by simpl; rewrite Hn|]. destruct (is_end t); [done|]. destruct H as (? & ? & ?).
    by split_and!.
  - intros t h [s f] Hg. exists (ipv4_init_host_sm h s), (s, f). split; [done|].
    split; [by apply follows_refl|]. intros hs ts i. apply fits_init.
  - intros hs ts i t h [s f] [Hok Hf] Hfit Hi Hh.
    destruct (fits_finished hs ts i t h s f Hok Hfit Hi Hh) as (b & h' & s' & Hfin & Hs & Hfit').
    exists b, h', (s', f). split; [by simpl; rewrite Hfin|]. split; [|done].
    split; [by split; [eapply same_left_ok|]|done|by apply same_left_set_left].
  - done.
  - intros file [s f] Hg. destruct (is_save IS file s f) as (w' & Hw & Hb); [apply Hg|].
    exists w'. split; [done|]. by apply beside_apart.
Qed.

(** At the start. *)
Lemma ipv4_start s f :
  NoDup (il_addrs (_ipv4s s)) → NoDup (pl_elems (_ports s)) → pl_elems (_ports s) ≠ [] →
  zlen (pl_elems (_ports s)) < 2 ^ 32 → sound f →
  Forall (λ t, is_end t = false) (targets_of (il_addrs (_ipv4s s)) (pl_elems (_ports s))) →
  ipv4_good (ipv4_init s, f) ∧ ipv4_fits ∅ ∅ None (ipv4_init s, f) ∧
  set_left (ipv4_init s) = length (targets_of (il_addrs (_ipv4s s)) (pl_elems (_ports s))).
Proof.
  intros Hips Hports Hne Hsmall Hf Hend.
  destruct (ipv4_init_left s Hips Hports) as (Hps & Hv & Hp).
  destruct (ipv4_gives_all (F := F) s Hips Hports Hne) as (ts & Hts & Hgives).
  pose proof (ipv4_init_count s) as Hc. set (s1 := ipv4_init s) in *. clearbody s1.
  assert (Hleft : set_left s1 = length (targets_of (il_addrs (_ipv4s s)) (pl_elems (_ports s)))).
  { rewrite length_targets_of, <- Hps, <- Hv. pose proof (Permutation_length Hp) as Hlen.
    rewrite length_fmap in Hlen. unfold set_left. destruct (addrs_left s1); simpl; [done|lia]. }
  split; [split; [split|done]|split; [|done]]; simpl.
  - intros H. rewrite H in Hps. apply Hne. by apply Permutation_nil_l in Hps.
  - by rewrite Hps.
  - by rewrite Hps.
  - done.
  - intros p _ Hin. rewrite <- Hp. by apply list_elem_of_fmap_2.
  - intros a p Ha Hin. rewrite Hv in Ha. rewrite Hps in Hin.
    rewrite Forall_forall in Hend. apply Hend. by apply elem_of_targets_of.
  - exists ts. split_and!; [done|rewrite Hts; symmetry; exact Hleft|]. intros ip. rewrite lookup_empty.
    simpl. split; [done|]. pose proof (ports_at_proper ip _ _ Hts) as Hat.
    rewrite (ports_at_targets_of ip) in Hat by done.
    destruct (decide _); [right; by rewrite Hat, Hps|left; by apply Permutation_nil_r in Hat].
Qed.

Context (reported : F → list Target) (SU : surroundings reported) (HU : user_keeps).

(** C4. A scan of [k] pairs of an address and a port that nobody answers ends,
    after at most [(1000 * T + 2) * k + 1] rounds where [T] is the longest
    timeout in seconds ([epoll_wait] lets a millisecond pass in each), without
    any undefined behaviour: in particular the index of a
    host is never read before it is set. Every pair of an address and a
    port was then reported once or is on a socket that is open, and the
    engine keeps exactly the hosts of the latter, [target_finished] having
    answered [true] at the last port of every other one. [socket] never
    fails and no connection is refused at once (where the index is read
    unset). *)
Theorem ipv4_silent_scan N fuel rounds e s f :
  fresh_engine N e → 0 < N → _hosts_sms e = ∅ → is_Some (_callback_finish e) →
  _timeout e ≤ max_timeout → saves_ready (e_engine e) →
  NoDup (il_addrs (_ipv4s s)) → NoDup (pl_elems (_ports s)) → pl_elems (_ports s) ≠ [] →
  zlen (pl_elems (_ports s)) < 2 ^ 32 → sound f →
  let all := targets_of (il_addrs (_ipv4s s)) (pl_elems (_ports s)) in
  Forall (λ t, is_end t = false) all →
  (length all < fuel)%nat → enough_rounds max_timeout (length all) ≤ Z.of_nat rounds →
  ∃ st' finished, launch fuel rounds (e, (s, f)) = Ok ((), st') ∧
    reported st'.2.2 = reported f ++ finished ∧
    in_flight st' ++ finished ≡ₚ all ∧ NoDup (in_flight st' ++ finished) ∧
    ∀ ip, is_Some (_hosts_sms st'.1 !! ip) ↔
          ∃ i t, _sockets_targets st'.1 !! i = Some t ∧ ipv4 t = ip.
Proof.
  intros Hfresh HN Hhs Hcb Ht Hsv Hips Hports Hne Hsmall Hf all Hend Hfuel Hr.
  destruct (ipv4_start s f Hips Hports Hne Hsmall Hf Hend) as (Hgood & Hfits & Hleft).
  fold all in Hleft. rewrite <- Hhs in Hfits. rewrite <- Hleft in Hfuel, Hr.
  destruct (silent_launch _ _ _ _ _ _ ipv4_kernel ipv4_silent_set HU N fuel rounds e (s, f)
              (ipv4_init s, f)) as ([] & st' & Hl & [_ (later & Hg & Hlen & Hh)] & H0); [done..|].
  destruct (ipv4_launch_reports reported SU HU N e s f Hfresh Hcb Hips Hports Hne Hend
              fuel rounds st' Hl) as (fin & Hrep & Hp & Hnd).
  exists st', fin. split_and!; [done..|]. intros ip. specialize (Hh ip).
  rewrite H0 in Hlen. destruct later; [|done]. simpl in Hh. rewrite <- ports_at_flying.
  destruct (_hosts_sms st'.1 !! ip); simpl in Hh.
  - destruct Hh as (_ & _ & Hne'). rewrite app_nil_r in Hne'. split; [done|by eexists].
  - destruct Hh as [-> _]. split; [by intros [? ?]|done].
Qed.

End IPV4Silent.
