(* ===== verification/Talks.v ===== *)
(** * The conversations of a scan do not mix

    The engine runs many connections at once: it dispatches events in the order
    of the kernel, runs what is dirty, ends what has timed out and connects new
    sockets, all on shared maps. For scans whose connection function is that of
    a protocol, this file shows that nothing of this is seen in the conversations:
    at the head of every round, what the user has seen of a descriptor is what
    the reader of Conversation.v makes of the bytes read from that descriptor
    since it was opened, and the connection is in the state of that reader
    ([scan_conversations]). *)

From S2P Require Import Prelude Lvl4Buffer Leeloo Target HostSM Lvl4SM Framing Stream Closures SSH SIP Protocols Speak Conversation TargetSet Engine AsyncEngine Frames Sockets Rounds Accounting.

Section Talks.
Context {L : Leeloo} {UC : UserCode} {M : Malloc} {W : Type} {OSW : OS W} {UW : UserCalls W}.
Context {T : TargetSet W} {EC : EngineCalls W} {FD : OSFdLaws W OSW}.
Context {U : Type} (user : handlers U).

#[local] Abbreviation talk := (talk user).
#[local] Abbreviation speak := (speak user).

(** ** Channels *)

(** What the world knows of a descriptor: what the user has seen of it since it
    was opened, the bytes read from it since then, those that wait to be read,
    and the events it is registered for. *)
Record channel := mkChannel {
  ch_view : U;
  ch_received : list Z;
  ch_pending : list Z;
  ch_interest : Z;
}.

Context (chan : Z → W → channel) (v0 : U).

Definition untouched (w w' : W) : Prop := ∀ i, chan i w' = chan i w.
Definition others (s : Z) (w w' : W) : Prop := ∀ i, i ≠ s → chan i w' = chan i w.

#[local] Instance untouched_preorder : PreOrder untouched.
Proof. split; [done|]. intros w1 w2 w3 H1 H2 i. by rewrite H2. Qed.
#[local] Instance others_preorder s : PreOrder (others s).
Proof. split; [done|]. intros w1 w2 w3 H1 H2 i Hi. by rewrite H2, H1. Qed.

Lemma untouched_others s w w' : untouched w w' → others s w w'.
Proof. intros H i _. apply H. Qed.

Definition with_view (v : U) (ch : channel) : channel :=
  mkChannel v (ch_received ch) (ch_pending ch) (ch_interest ch).
Definition with_interest (ev : Z) (ch : channel) : channel :=
  mkChannel (ch_view ch) (ch_received ch) (ch_pending ch) ev.
Definition after_read (n : Z) (ch : channel) : channel :=
  mkChannel (ch_view ch) (ch_received ch ++ ztake n (ch_pending ch)) (zdrop n (ch_pending ch))
    (ch_interest ch).
Definition more_pending (data : list Z) (ch : channel) : channel :=
  mkChannel (ch_view ch) (ch_received ch) (ch_pending ch ++ data) (ch_interest ch).

(** An event is one that its descriptor is registered for. *)
Definition expected (w : W) (ev : Z * Z) : Prop :=
  (has_flag EPOLLIN ev.2 = true → has_flag EPOLLIN (ch_interest (chan ev.1 w)) = true) ∧
  (has_flag EPOLLOUT ev.2 = true → has_flag EPOLLOUT (ch_interest (chan ev.1 w)) = true).

(** The rest of the world, seen from the functions of a connection. *)
Context {O : Type} (outside : Z → W → O).

(** The channels of the kernel, and functions of the user that handle one
    connection at a time. A read gives the bytes that [ioctl] announced; a
    server sends less than 2^30 bytes on a connection. *)
Record separate : Prop := {
  se_outside s w w' : outside s w' = outside s w →
    others s w w' ∧ ∃ v, chan s w' = with_view v (chan s w);
  se_user s t : users_speak user (λ w, ch_view (chan s w)) (outside s)
                  (mkConnected t s);
  se_socket ty pr w s w' : sys_socket ty pr w = (s, w') →
    if s =? -1 then untouched w w' else others s w w' ∧ chan s w' = mkChannel v0 [] [] 0;
  se_close s w : others s w (sys_close s w) ∧
    ch_view (chan s (sys_close s w)) = ch_view (chan s w) ∧
    ch_received (chan s (sys_close s w)) = ch_received (chan s w);
  se_epoll_add e s ev w : others s w (sys_epoll_add e s ev w) ∧
    chan s (sys_epoll_add e s ev w) = with_interest ev (chan s w);
  se_epoll_del e s w : others s w (sys_epoll_del e s w) ∧
    chan s (sys_epoll_del e s w) = with_interest 0 (chan s w);
  se_epoll_wait e n w evs w' : sys_epoll_wait e n w = (evs, w') →
    (∀ i, ∃ data, chan i w' = more_pending data (chan i w)) ∧
    (∀ l, evs = Some l → NoDup l.*1 ∧ Forall (expected w) l);
  se_fionread s w : s ∈ open_fds w → sys_fionread s w = Some (zlen (ch_pending (chan s w)));
  se_read s n w : s ∈ open_fds w → 0 ≤ n ≤ zlen (ch_pending (chan s w)) →
    ∃ w', sys_read s n w = (n, ztake n (ch_pending (chan s w)), w') ∧
          others s w w' ∧ chan s w' = after_read n (chan s w);
  se_small s w : zlen (ch_received (chan s w)) + zlen (ch_pending (chan s w)) < Buffer.max_size;
  se_set_nonblock s w : untouched w (sys_set_nonblock s w);
  se_connect s a w r w' : sys_connect s a w = (r, w') → untouched w w';
  se_epoll_create n w ep w' : sys_epoll_create n w = (ep, w') → untouched w w';
  se_so_error s w r w' : sys_so_error s w = (r, w') → untouched w w';
  se_time w t w' : sys_time w = (t, w') → untouched w w';
  se_finish f t buf n err w w' : call_finish f t buf n err w = Ok w' → untouched w w';
  se_status f nl nd w w' : call_status f nl nd w = Ok w' → untouched w w';
  se_watch f t w b w' : call_watch f t w = Ok (b, w') → untouched w w';
  se_timeout f t w n w' : call_timeout f t w = Ok (n, w') → untouched w w';
  se_next w r w' : ts_next_target w = Ok (r, w') → untouched w w';
  se_finished t h w b h' w' : ts_target_finished t h w = Ok (b, h', w') → untouched w w';
  se_init_host t h w h' w' : ts_init_host_sm t h w = Ok (h', w') → untouched w w';
  se_save f w w' : ts_save_state f w = Ok w' → untouched w w';
}.

Context (SE : separate) (a : connect_action) (Ha : talks a).

(** No server sends bytes for which the protocol is not defined
    ([talk_unbroken]: none does to an SSH or a SIP connection). *)
Context (Hdef : ∀ i w, unbroken (C := protocol_closures) (talk a (ch_received (chan i w)) v0)).

(** ** The states of a connection *)

Record connecting (l : Lvl4SM) (ch : channel) : Prop := {
  co_trigger : _trigger l = DataTrigger;
  co_wf : Buffer.wf (_buf l);
  co_contents : Buffer.contents (_buf l) = [];
  co_action : _func_connect l = Some a;
  co_view : ch_view ch = v0;
  co_received : ch_received ch = [];
  co_interest : has_flag EPOLLIN (ch_interest ch) = false;
}.

(** The connection is where the reader is after the bytes received. *)
Record in_talk (l : Lvl4SM) (ch : channel) : Prop := {
  it_wf : Buffer.wf (_buf l);
  it_talk : talk a (ch_received ch) v0 =
            Waiting (C := protocol_closures) (_trigger l) (Buffer.contents (_buf l)) (ch_view ch);
}.

Definition talking (l : Lvl4SM) (ch : channel) : Prop :=
  in_talk l ch ∧ has_flag EPOLLOUT (ch_interest ch) = false.

(** What the user has seen in an outcome. *)
Definition heard (o : outcome (C := protocol_closures) U) : U :=
  match o with Ended u => u | Waiting _ _ u => u | Broken u => u end.

(** A descriptor without a connection: nothing was done on it, or the
    conversation is over or was cut short. *)
Definition over (ch : channel) : Prop :=
  (ch_view ch = v0 ∧ ch_received ch = []) ∨ ch_view ch = heard (talk a (ch_received ch) v0).

Definition in_state (l : option Lvl4SM) (ch : channel) : Prop :=
  match l with Some l => connecting l ch ∨ talking l ch | None => over ch end.

Lemma in_state_over l ch ch' :
  in_state l ch → ch_view ch' = ch_view ch → ch_received ch' = ch_received ch → over ch'.
Proof.
  unfold over. intros H -> ->. destruct l as [l|]; [|exact H].
  destruct H as [[]|[[_ ->] _]]; [by left|by right].
Qed.

(** ** What the functions of a connection do *)

Lemma kept_outside s w w' u :
  outside s w' = outside s w → ch_view (chan s w') = u →
  others s w w' ∧ chan s w' = with_view u (chan s w).
Proof. intros [Ho [v Hv]]%(se_outside SE) <-. split; [done|]. by rewrite Hv. Qed.

Lemma talk_runs s target :
  runs_act (C := protocol_closures) (K := protocol_calls) speak served
    (λ w, ch_view (chan s w)) (outside s) s target.
Proof. apply speak_runs, (se_user SE). Qed.

(** The connection after a function that answered [r]. *)
Definition next_state (r : bool) (l : Lvl4SM) (ch : channel) : Prop :=
  if r then in_talk l ch else ch_view ch = heard (talk a (ch_received ch) v0).

(** A result of the loop on what was received. *)
Lemma follows_next s tr msg data received v w1 r c' (m : result (bool * ctx W)) :
  talk a received v0 = Waiting (C := protocol_closures) tr msg v →
  follows (C := protocol_closures) (λ w, ch_view (chan s w)) (outside s) true false
    (converse (C := protocol_closures) speak tr msg data v) (outside s w1) m →
  ch_received (chan s w1) = received ++ data → m = Ok (r, c') →
  others s w1 (c_world c') ∧ chan s (c_world c') = with_view (ch_view (chan s (c_world c'))) (chan s w1) ∧
  next_state r (c_sm c') (chan s (c_world c')).
Proof.
  intros Ht Hf Hrec ->. pose proof (Hdef s w1) as Hun. rewrite Hrec in Hun.
  pose proof (talk_app user a received data v0 Ha) as Happ. rewrite Ht in Happ.
  rewrite Happ in Hun.
  assert (∃ u, ch_view (chan s (c_world c')) = u ∧ outside s (c_world c') = outside s w1 ∧
    (if r then in_talk (c_sm c') (mkChannel u (received ++ data) [] 0)
     else u = heard (talk a (received ++ data) v0))) as (u & Hu & Hk & Hn).
  { destruct (converse _ _ _ _ _) as [u|tr' msg' u|u]; cbn [follows] in Hf; [| |done].
    - destruct Hf as (c & [= -> ->] & Hs & Hk). exists u. by rewrite Happ.
    - destruct Hf as (c & [= -> ->] & [Hwf Htr Hc Hs Hk]). exists u. split_and!; [done|done|].
      split; [exact Hwf|]. cbn. rewrite Happ. by rewrite <- Htr, <- Hc. }
  destruct (kept_outside s w1 (c_world c') u Hk Hu) as [Ho Hch].
  split; [done|]. rewrite Hu. split; [done|]. rewrite Hch.
  destruct r; simpl; [|by rewrite Hrec]. destruct Hn as [Hwf Hn]. split; [done|].
  simpl. by rewrite Hrec.
Qed.

Lemma data_in_talk fuel s target n l h w r c' :
  in_talk l (chan s w) → s ∈ open_fds w → n = zlen (ch_pending (chan s w)) → 0 < n →
  process_lvl4_data fuel s n target (mkCtx l h w) = Ok (r, c') →
  others s w (c_world c') ∧ ch_interest (chan s (c_world c')) = ch_interest (chan s w) ∧
  next_state r (c_sm c') (chan s (c_world c')).
Proof.
  intros [Hwf Ht] Hs Hn Hpos Hm.
  destruct (se_read SE s n w Hs ltac:(lia)) as (w1 & Hr & Ho & Hch).
  pose proof (se_small SE s w) as Hsmall.
  destruct (talk_usable user a _ _ _ _ _ Ha Ht) as (Hu & Hw & Hlen).
  pose proof (process_lvl4_data_follows (C := protocol_closures) speak served
    (λ w, ch_view (chan s w)) (outside s) s target (speak_usable user)
    (talk_runs s target) (Nat.max fuel (S (Z.to_nat n))) n _ (_trigger l) (Buffer.contents (_buf l))
    (ch_view (chan s w)) (mkCtx l h w) w1 Hwf eq_refl eq_refl Hu Hw Hr) as Hf.
  specialize (Hf ltac:(rewrite length_take; lia) ltac:(cbv beta; by rewrite Hch) Hpos ltac:(lia) ltac:(lia)).
  destruct (follows_next s _ _ _ _ _ w1 r c' _ Ht Hf) as (Ho' & Hch' & Hn').
  { by rewrite Hch. }
  { by eapply process_lvl4_data_fuel; [exact Hm|lia]. }
  split_and!; [by etrans| |done]. by rewrite Hch', Hch.
Qed.

Lemma dirty_in_state fuel s target l h w r c' :
  in_state (Some l) (chan s w) → process_buffer fuel s target (mkCtx l h w) = Ok (r, c') →
  r = true ∧ c_sm c' = l ∧ c_world c' = w.
Proof.
  intros Hst. unfold process_buffer.
  enough (∀ fuel' x, process_loop fuel' (mkConnected target s) 0 (mkCtx l h w) = Ok x →
    x = (NoMoreToProcess, mkCtx l h w)) as H.
  { destruct (process_loop _ _ _ _) as [x|] eqn:E; [|done]. rewrite (H _ _ E).
    by intros [= <- <-]. }
  intros [|fuel'] x; [done|]. simpl. unfold trigger_process_buffer. simpl.
  destruct Hst as [[-> ]|[[Hwf Ht] _]]; [by intros [= <-]|].
  destruct (talk_usable user a _ _ _ _ _ Ha Ht) as (Hu & Hw & _).
  pose proof (Buffer.contents_size _ Hwf) as Hsz.
  destruct (_trigger l) as [|n f|ch f|]; [by intros [= <-]| | |done]; simpl in Hw.
  - unfold SizeDataTrigger_process_buffer. simpl. unfold c_buf. simpl.
    rewrite (proj2 (Z.ltb_lt _ _)) by lia. by intros [= <-].
  - unfold CharDataTrigger_process_buffer. unfold c_buf. simpl.
    rewrite contents_load by (done || lia). simpl. rewrite drop_0.
    rewrite (proj2 (find_byte_None _ _)) by done. by intros [= <-].
Qed.

Lemma connect_connecting s target l h w r c' :
  connecting l (chan s w) → on_connect s target (mkCtx l h w) = Ok (r, c') →
  r = true ∧ others s w (c_world c') ∧ in_talk (c_sm c') (chan s (c_world c')).
Proof.
  intros [Htr Hwf Hc Hf Hv Hr _]. unfold on_connect. simpl. rewrite Hf.
  destruct (action_speaks user _ _ _ (se_user SE s target) a (mkCtx l h w) Ha)
    as (tr & w' & Hcall & Hk & Hu & Ht).
  intros Hm. change (call_action a (mkConnected target s) (mkCtx l h w) = Ok (r, c')) in Hm.
  rewrite Hcall in Hm. injection Hm as <- <-. destruct (kept_outside s w w' _ Hk eq_refl) as [Ho Hch].
  split_and!; [done|exact Ho|]. cbn in Ht. rewrite Hv in Ht.
  split; [exact Hwf|]. cbn. rewrite Hch. cbn. rewrite Hr, Ht, Hc. done.
Qed.

(** ** Operations that leave the conversations alone *)

Definition same_talk (l l' : Lvl4SM) : Prop :=
  _trigger l' = _trigger l ∧ _buf l' = _buf l ∧ _func_connect l' = _func_connect l.

#[local] Instance same_talk_preorder : PreOrder same_talk.
Proof. split; [done|]. intros l1 l2 l3 (? & ? & ?) (? & ? & ?). split_and!; congruence. Qed.

Record calm (s s' : st) : Prop := {
  cm_sms i : option_Forall2 same_talk (_lvl4_sms s.1 !! i) (_lvl4_sms s'.1 !! i);
  cm_chan : untouched s.2 s'.2;
  cm_action : _callback_lvl4_connected s'.1 = _callback_lvl4_connected s.1;
}.

Lemma calm_same s s' :
  _lvl4_sms s'.1 = _lvl4_sms s.1 → untouched s.2 s'.2 →
  _callback_lvl4_connected s'.1 = _callback_lvl4_connected s.1 → calm s s'.
Proof. intros Hl Hc Hcb. split; [intros i; rewrite Hl; reflexivity|done|done]. Qed.

#[local] Instance calm_preorder : PreOrder calm.
Proof.
  split; [intros s; by apply calm_same|]. intros s1 s2 s3 [Hs1 Hc1 Ha1] [Hs2 Hc2 Ha2].
  split; [intros i; etrans; [apply Hs1|apply Hs2]|by etrans|congruence].
Qed.

#[local] Instance calm_domed : Domed calm.
Proof.
  intros s s' Hc i [l Hl]%elem_of_dom. pose proof (cm_sms _ _ Hc i) as Hs. rewrite Hl in Hs.
  apply elem_of_dom. inversion Hs. by eexists.
Qed.

Lemma calm_of_world e w w' : untouched w w' → calm (e, w) (e, w').
Proof. intros. by apply calm_same. Qed.

(** Writing a connection that is in the same conversation. *)
Lemma calm_insert e w i l l' :
  _lvl4_sms e !! i = Some l → same_talk l l' → calm (e, w) (up_lvl4 (<[i := l']>) e, w).
Proof.
  intros Hi Hl. split; [|done|done]. intros j. simpl. rewrite lookup_insert.
  case_decide as E; [subst j; rewrite Hi; by constructor|reflexivity].
Qed.

#[local] Instance calm_frame : Frame calm untouched.
Proof.
  split; try (by intros; apply calm_same).
  - exact calm_preorder.
  - apply (se_time SE).
Qed.

#[local] Instance calm_stamps : Stamps calm.
Proof. intros e w i l l' Hl (Ht & Hb & Hf & _). by apply (calm_insert e w i l). Qed.

#[local] Instance untouched_asked : Asked untouched.
Proof.
  split.
  - apply (se_status SE).
  - apply (se_watch SE).
  - apply (se_timeout SE).
  - apply (se_init_host SE).
  - apply (se_save SE).
Qed.

#[local] Instance untouched_told : Told untouched.
Proof. split; [apply (se_finish SE)|apply (se_finished SE)]. Qed.

(** ** Operations on one connection *)

(** Only the connection and the channel of [i] change. *)
Record apart (i : Z) (s s' : st) : Prop := {
  ap_sms j : j ≠ i → option_Forall2 same_talk (_lvl4_sms s.1 !! j) (_lvl4_sms s'.1 !! j);
  ap_chan : others i s.2 s'.2;
  ap_action : _callback_lvl4_connected s'.1 = _callback_lvl4_connected s.1;
}.

#[local] Instance apart_preorder i : PreOrder (apart i).
Proof.
  split; [intros s; split; [reflexivity|done|done]|].
  intros s1 s2 s3 [Hs1 Hc1 Ha1] [Hs2 Hc2 Ha2].
  split; [intros j Hj; etrans; [by apply Hs1|by apply Hs2]|by etrans|congruence].
Qed.

Lemma calm_apart i s s' : calm s s' → apart i s s'.
Proof. intros [Hs Hc Hcb]. split; [intros j _; apply Hs|by apply untouched_others|done]. Qed.

(** The invariant of a scan. *)
Record conversing (s : st) : Prop := {
  cv_action : _callback_lvl4_connected s.1 = Some a;
  cv_state i : in_state (_lvl4_sms s.1 !! i) (chan i s.2);
}.

Lemma in_state_same l l' ch :
  option_Forall2 same_talk l l' → in_state l ch → in_state l' ch.
Proof.
  intros [x y (Ht & Hb & Hf)|]; [|done]. simpl.
  intros [[]|[[] ?]]; [left; split|right; split; [split|]]; by rewrite ?Ht, ?Hb, ?Hf.
Qed.

Lemma conversing_calm s s' : conversing s → calm s s' → conversing s'.
Proof.
  intros [Hcb Hst] [Hs Hc Hcb']. split; [congruence|]. intros i. rewrite (Hc i).
  eapply in_state_same; [apply Hs|apply Hst].
Qed.

Lemma conversing_apart i s s' :
  conversing s → apart i s s' → in_state (_lvl4_sms s'.1 !! i) (chan i s'.2) → conversing s'.
Proof.
  intros [Hcb Hst] [Hs Hc Hcb'] Hi. split; [congruence|]. intros j.
  destruct (decide (j = i)) as [->|Hj]; [done|]. rewrite (Hc j Hj).
  eapply in_state_same; [by apply Hs|apply Hst].
Qed.

(** What a socket that ends leaves behind. *)
Record ended (i : Z) (s s' : st) : Prop := {
  en_apart : apart i s s';
  en_none : _lvl4_sms s'.1 !! i = None;
  en_view : ch_view (chan i s'.2) = ch_view (chan i s.2);
  en_received : ch_received (chan i s'.2) = ch_received (chan i s.2);
}.

(** The steps before the socket is freed. *)
Definition ending (i : Z) (s s' : st) : Prop := apart i s s' ∧ untouched s.2 s'.2.

Lemma ending_step {A B} i (m : ST A) (f : A → ST B) Q s0 s :
  ending i s0 s → frames calm m s → (∀ x s', ending i s0 s' → calm s s' → post (f x) s' Q) →
  post (m ≫= f) s Q.
Proof.
  intros [Hap Hun] Hm Hf. apply post_bind. eapply post_mono; [exact Hm|]. simpl.
  intros x s' H. apply Hf; [|done]. split; [etrans; [exact Hap|by apply calm_apart]|].
  etrans; [exact Hun|apply H].
Qed.

Lemma free_socket_ended i s0 s :
  ending i s0 s → post (free_socket i) s (λ _ s', ended i s0 s').
Proof.
  intros [Hap Hun] [] s' H. destruct s as [e w].
  unfold free_socket, remove_connecting_socket, remove_connected_socket, del_lvl4_sm in H.
  injection H as <-. simpl in *.
  set (w1 := sys_epoll_del (_epoll e) i w). set (w2 := sys_epoll_del (_epoll e) i w1).
  destruct (se_epoll_del SE (_epoll e) i w) as [Ho1 Hc1]. fold w1 in Ho1, Hc1.
  destruct (se_epoll_del SE (_epoll e) i w1) as [Ho2 Hc2]. fold w2 in Ho2, Hc2.
  destruct (se_close SE i w2) as (Ho3 & Hv3 & Hr3).
  split; simpl; [|apply lookup_delete_eq|by rewrite Hv3, Hc2, Hc1, (Hun i)|by rewrite Hr3, Hc2, Hc1, (Hun i)].
  etrans; [exact Hap|]. split; [|etrans; [exact Ho1|etrans; [exact Ho2|exact Ho3]]|done].
  intros j Hj. simpl. rewrite lookup_delete_ne by done. reflexivity.
Qed.

Lemma socket_finished_ended N d i err s :
  accounts N d s → post (socket_finished i err) s (λ _ s', ended i s s').
Proof.
  intros Hacc. apply post_bind, post_modify.
  match goal with |- post _ ?s1 _ => set (s1' := s1) end.
  assert (H1 : ending i s s1') by (split; [by apply calm_apart, calm_same|done]).
  assert (Hdom : dom (_lvl4_sms s1'.1) = dom (_sockets_targets s1'.1)) by apply Hacc.
  clearbody s1'. apply post_bind, post_target. intros t Ht.
  assert (Hi : i ∈ dom (_lvl4_sms s1'.1)) by (rewrite Hdom; apply elem_of_dom; eauto).
  eapply ending_step; [exact H1|by apply frame_lvl4_sm|]. intros l s2 H2 _.
  eapply ending_step; [exact H2|apply frame_callback_finish|]. intros _ s3 [H3 Hw3] _.
  apply post_bind, post_modify. match goal with |- post _ ?s4 _ => set (s4' := s4) end.
  assert (H4 : ending i s s4').
  { split; [|exact Hw3]. etrans; [exact H3|]. split; [|done|done]. intros j Hj. simpl.
    rewrite lookup_alter_ne by done. reflexivity. }
  clearbody s4'. eapply ending_step; [exact H4|apply frame_host_sm|]. intros h s5 H5 _.
  eapply ending_step; [exact H5|apply frame_engine_target_finished|]. intros b s6 H6 _.
  eapply ending_step; [exact H6|destruct b; [apply frame_put_hosts|apply frame_ret]|].
  intros _ s7 H7 _. by apply free_socket_ended.
Qed.

Lemma ended_over i s s' : ended i s s' → over (chan i s.2) → over (chan i s'.2).
Proof. intros [_ _ Hv Hr]. unfold over. by rewrite Hv, Hr. Qed.

#[local] Abbreviation ok := (ok conversing).

Context (HU : user_keeps (C := protocol_closures)).

#[local] Instance talks_asked : Asked same_fds := fds_asked HU.
#[local] Instance talks_runs : Runs same_accounts ctx_keeps := accounts_runs HU.

(** Any connection may be ended at any time. *)
Lemma conversing_finished N i err s :
  ok N s → post (socket_finished i err) s (λ _, conversing).
Proof.
  intros [Hacc Hcv] [] s' Hm.
  pose proof (socket_finished_ended N 0 i err s Hacc _ _ Hm) as Hend.
  apply (conversing_apart i s); [done|apply Hend|]. rewrite (en_none _ _ _ Hend).
  apply (ended_over i s); [done|]. by eapply in_state_over; [apply Hcv| |].
Qed.

(** ** New connections *)

Lemma Lvl4SM_new w l w' :
  Lvl4SM_ctor w = (l, w') → _trigger l = DataTrigger ∧ _buf l = Buffer.Buffer_ctor ∧ untouched w w'.
Proof.
  intros H. pose proof (Lvl4SM_RW (R := calm) _ _ _ H) as Hw. revert H Hw.
  unfold Lvl4SM_ctor, StateMachine.StateMachine_ctor. destruct (timestamp w) as [t w1].
  by intros [= <- <-].
Qed.

Lemma new_connecting l ch :
  _trigger l = DataTrigger → _buf l = Buffer.Buffer_ctor → _func_connect l = Some a →
  ch = mkChannel v0 [] [] 0 → connecting l ch.
Proof. intros Ht Hb Hf ->. split; rewrite ?Hb; done || apply Buffer.wf_ctor. Qed.

(** The connection of [i] is connecting. *)
Definition connects (i : Z) (s : st) : Prop :=
  ∃ l, _lvl4_sms s.1 !! i = Some l ∧ connecting l (chan i s.2).

Lemma connects_state i s : connects i s → in_state (_lvl4_sms s.1 !! i) (chan i s.2).
Proof. intros (l & -> & H). by left. Qed.

Lemma connects_calm i s s' : connects i s → calm s s' → connects i s'.
Proof.
  intros (l & Hl & H) [Hs Hc _]. specialize (Hs i). rewrite Hl in Hs. inversion Hs as [? l' Hll' E1 E2|].
  exists l'. split; [done|]. rewrite (Hc i). destruct Hll' as (Ht & Hb & Hf), H.
  split; by rewrite ?Ht, ?Hb, ?Hf.
Qed.

Lemma create_socket_conversing N d t s :
  accounts N d s → conversing s →
  post (create_socket t) s (λ '(_, i) s', conversing s' ∧ (i ≠ -1 → connects i s')).
Proof.
  intros Hacc Hcv. apply post_bind, post_gets. apply post_bind, post_lift. intros [] _.
  apply post_bind, post_sys. intros i w Hw. unfold new_socket in Hw.
  destruct (sys_socket _ _ s.2) as [j w1] eqn:Hsock. injection Hw as -> <-.
  pose proof (se_socket SE _ _ _ _ _ Hsock) as Hch. pose proof (se_set_nonblock SE i w1) as Hw1.
  destruct (i =? -1) eqn:Ei.
  { apply Z.eqb_eq in Ei as ->. apply post_bind, post_ask, post_ret. split; [|done].
    destruct s as [e w0]. eapply conversing_calm; [exact Hcv|]. apply calm_of_world. by etrans. }
  destruct Hch as [Ho Hch]. apply Z.eqb_neq in Ei.
  assert (Hnone : _lvl4_sms s.1 !! i = None).
  { apply not_elem_of_dom. rewrite (acc_dom _ _ _ Hacc). intros Hin.
    apply socket_fresh in Hsock as [[? _]|(_ & Hfresh & _)]; [done|]. by apply Hfresh, (acc_open _ _ _ Hacc). }
  apply post_bind, post_modify, post_bind, post_sys. simpl. intros ret w2 Hw2%(se_connect SE).
  apply post_bind, post_bind, post_sys. simpl. intros l w3 (Htr & Hb & Hw3)%Lvl4SM_new.
  apply post_modify, post_bind, post_gets. simpl. rewrite (cv_action _ Hcv).
  apply post_bind, post_modify. match goal with |- post _ ?s4 _ => set (s4' := s4) end.
  assert (Hnew : connects i s4').
  { eexists. simpl. rewrite map_insert_None, alter_insert_eq, lookup_insert_eq by done. split; [done|].
    apply new_connecting; [exact Htr|exact Hb|done|]. by rewrite (Hw3 i), (Hw2 i), (Hw1 i), Hch. }
  assert (H4 : conversing s4').
  { apply (conversing_apart i s); [done| |by apply connects_state].
    split; [|simpl|done].
    - intros j Hj. simpl. rewrite map_insert_None, alter_insert_eq, lookup_insert_ne by done. reflexivity.
    - etrans; [exact Ho|]. apply untouched_others. by do 2 (etrans; [done|]). }
  assert (Hi : i ∈ dom (_lvl4_sms s4'.1)).
  { simpl. rewrite map_insert_None, alter_insert_eq by done. set_solver. }
  clearbody s4'. apply post_bind. eapply post_mono; [by apply (frame_update_ts (R := calm))|]. simpl.
  intros _ s5 H5. apply post_bind, post_modify, post_ret.
  match goal with |- conversing ?s6 ∧ _ => assert (H6 : calm s4' s6) by (etrans; [exact H5|by apply calm_same]) end.
  split; [by eapply conversing_calm|intros _; by eapply connects_calm].
Qed.

(** Registering a connection for events. *)
Lemma conversing_register i ev s :
  conversing s →
  match _lvl4_sms s.1 !! i with
  | Some l => in_state (Some l) (with_interest ev (chan i s.2))
  | None => True
  end →
  post (ep ← gets _epoll; sys_ (sys_epoll_add ep i ev)) s (λ _ s', conversing s' ∧ apart i s s' ∧
    _lvl4_sms s'.1 = _lvl4_sms s.1).
Proof.
  intros Hcv Hi. apply post_bind, post_gets, post_sys_.
  destruct (se_epoll_add SE (_epoll s.1) i ev s.2) as [Ho Hch].
  assert (Hap : apart i s (s.1, sys_epoll_add (_epoll s.1) i ev s.2)).
  { split; [intros; reflexivity|exact Ho|done]. }
  split; [|by split]. apply (conversing_apart i s); [done|done|]. simpl. rewrite Hch.
  destruct (_ !! i) as [l|] eqn:E; [done|].
  pose proof (cv_state _ Hcv i) as H. rewrite E in H. exact H.
Qed.

Lemma talking_process_free_socks N fuel s : ok N s →
  post (process_free_socks fuel) s (λ more s', ok N s' ∧ (more = false → True)).
Proof.
  apply (ok_process_free_socks HU (X := calm) conversing (λ s s' _ Hc Hcv, conversing_calm s s' Hcv Hc)
    conversing_finished (λ _, conversing) connects (λ _, True) (λ _, True)); try done.
  - intros t f s1 Hcv. eapply conversing_calm; [exact Hcv|by apply calm_same].
  - intros i s1 s2 Hc Hi. by eapply connects_calm.
  - intros N' s1 [_ Hcv]. apply (post_mono _ _ (λ _, calm s1)).
    { apply frame_run. intros. by eapply (se_next SE). }
    intros [t|] s2 Hc; [destruct (is_end t); [split; [|done]|]|split; [|done]]; by eapply conversing_calm.
  - intros N' t s1 Hacc Hcv. eapply post_mono; [by eapply create_socket_conversing|].
    intros [r i] s2 [Hcv2 Hi] Hn. auto.
  - intros N' i s1 [_ Hcv] (l & Hl & []) [] s2 Hm.
    eapply (conversing_register i EPOLLOUT s1 Hcv); [|exact Hm]. rewrite Hl. left. by split.
Qed.

(** ** Events *)

(** The function was given the connection, in a world where the channels are
    the same, and what it left is the connection now. *)
Lemma on_connection_calm i t f s r s2 :
  on_connection i t f s = Ok (r, s2) → i ∈ dom (_lvl4_sms s.1) →
  ∃ l h w1 c', _lvl4_sms s.1 !! i = Some l ∧ untouched s.2 w1 ∧ open_fds w1 = open_fds s.2 ∧
    f (mkCtx l h w1) = Ok (r, c') ∧ _lvl4_sms s2.1 = <[i := c_sm c']> (_lvl4_sms s.1) ∧
    s2.2 = c_world c' ∧ _callback_lvl4_connected s2.1 = _callback_lvl4_connected s.1.
Proof.
  intros Hm Hi. destruct (on_connection_inv _ _ _ _ _ _ Hm Hi)
    as (l & h & s1 & c' & hs & Hl & Hh & Hl1 & Hf & ->).
  apply (frame_host_sm (R := both same_accounts calm)) in Hh as [Hk Hc].
  exists l, h, s1.2, c'. simpl. rewrite Hl1.
  by split_and!; [|apply Hc|apply (sa_fds _ _ Hk)| | | |apply Hc].
Qed.

Lemma on_connection_apart i s s2 c' w1 :
  untouched s.2 w1 → others i w1 (c_world c') →
  _lvl4_sms s2.1 = <[i := c_sm c']> (_lvl4_sms s.1) → s2.2 = c_world c' →
  _callback_lvl4_connected s2.1 = _callback_lvl4_connected s.1 → apart i s s2.
Proof.
  intros Hu Ho Hl Hw Hcb. split; [|rewrite Hw|done].
  - intros j Hj. rewrite Hl, lookup_insert_ne by done. reflexivity.
  - etrans; [by apply untouched_others|done].
Qed.

(** A connection that was conversing before [s], and is over, ends. *)
Lemma finish_over N i err s0 s :
  conversing s0 → apart i s0 s → accounts N 0 s → over (chan i s.2) →
  post (socket_finished i err) s (λ _ s', conversing s' ∧ apart i s0 s').
Proof.
  intros Hcv Hap Hacc Hov. eapply post_mono; [by eapply socket_finished_ended|]. simpl.
  intros _ s' Hend. assert (H : apart i s0 s') by (etrans; [exact Hap|apply Hend]).
  split; [|done]. apply (conversing_apart i s0); [done|done|].
  rewrite (en_none _ _ _ Hend). by apply (ended_over i s).
Qed.

Lemma finish_any N i err s0 s :
  conversing s0 → calm s0 s → accounts N 0 s →
  post (socket_finished i err) s (λ _ s', conversing s' ∧ apart i s0 s').
Proof.
  intros Hcv Hc Hacc. apply (finish_over N); [done|by apply calm_apart|done|].
  rewrite (cm_chan _ _ Hc i). by eapply in_state_over; [apply Hcv| |].
Qed.

Lemma conv_connecting_ready N i s :
  accounts N 0 s → conversing s → has_flag EPOLLOUT (ch_interest (chan i s.2)) = true →
  post (process_connecting_ready i) s (λ _ s', conversing s' ∧ apart i s s').
Proof.
  intros Hacc Hcv Hflag. destruct s as [e w]. apply post_bind, post_sys. intros err w1 Hw.
  pose proof (so_error_fds _ _ _ _ Hw) as Hfd. apply (se_so_error SE) in Hw.
  assert (H1 : calm (e, w) (e, w1)) by by apply calm_of_world.
  assert (Hacc1 : accounts N 0 (e, w1)) by (eapply accounts_same; [by apply (frame_world (R := same_accounts))|exact Hacc]).
  destruct (negb _); [by apply (finish_any N)|].
  apply post_bind, post_target. intros t Ht.
  assert (Hi : i ∈ dom (_lvl4_sms e)).
  { pose proof (acc_dom _ _ _ Hacc) as Hd. simpl in Hd, Ht. rewrite Hd. apply elem_of_dom. eauto. }
  apply post_bind. intros r s2 Hm.
  destruct (on_connection_calm _ _ _ _ _ _ Hm Hi) as (l & h & w2 & c' & Hl & Hw2 & _ & Hf & Hl2 & Hs2 & Hcb2).
  simpl in *. assert (Hst : connecting l (chan i w2)).
  { pose proof (cv_state _ Hcv i) as Hst. simpl in Hst. rewrite Hl in Hst. rewrite (Hw2 i), (Hw i).
    destruct Hst as [?|[_ Hno]]; [done|congruence]. }
  destruct (connect_connecting _ _ _ _ _ _ _ Hst Hf) as (-> & Ho & Htalk).
  assert (Hap2 : apart i (e, w) s2).
  { apply (on_connection_apart i _ _ c' w2); [by etrans|done|done|done|done]. }
  apply post_bind, post_bind, post_gets, post_sys_.
  destruct (se_epoll_del SE (_epoll s2.1) i s2.2) as [Ho3 Hch3]. set (w3 := sys_epoll_del _ _ _) in *.
  assert (Hap3 : apart i (e, w) (s2.1, w3)).
  { etrans; [exact Hap2|]. split; [intros; reflexivity|exact Ho3|done]. }
  assert (Hin3 : ∀ ev, has_flag EPOLLOUT ev = false → talking (c_sm c') (with_interest ev (chan i w3))).
  { intros ev Hev. rewrite Hch3, Hs2. split; [|exact Hev]. destruct Htalk. by split. }
  assert (Hcv3 : conversing (s2.1, w3)).
  { apply (conversing_apart i (e, w)); [done|done|]. simpl. rewrite Hl2, lookup_insert_eq. right.
    specialize (Hin3 0 eq_refl). by rewrite Hch3 in Hin3 |- *. }
  apply post_bind. eapply post_mono; [apply (conversing_register i EPOLLIN _ Hcv3)|].
  { simpl. rewrite Hl2, lookup_insert_eq. right. by apply Hin3. }
  simpl. intros _ s4 (H4 & Hap4 & Hl4).
  eapply post_mono; [apply (frame_update_ts (R := calm)); rewrite Hl4, Hl2; set_solver|].
  simpl. intros _ s5 H5. split; [by eapply conversing_calm|].
  etrans; [exact Hap3|]. etrans; [exact Hap4|by apply calm_apart].
Qed.

Lemma conv_connected_ready N fuel i t s :
  accounts N 0 s → conversing s → has_flag EPOLLIN (ch_interest (chan i s.2)) = true →
  i ∈ dom (_lvl4_sms s.1) →
  post (process_connected_ready fuel i t) s (λ _ s', conversing s' ∧ apart i s s').
Proof.
  intros Hacc Hcv Hflag Hi. apply post_bind, post_ask. unfold socket_bytes_avail.
  assert (Hopen : i ∈ open_fds s.2) by (apply (acc_open _ _ _ Hacc); by rewrite <- (acc_dom _ _ _ Hacc)).
  pose proof (se_small SE i s.2) as Hsmall.
  rewrite (se_fionread SE) by done. rewrite u32_small by (unfold Buffer.max_size in *; lia).
  destruct (_ =? 0) eqn:E0.
  { apply post_bind, post_lvl4_sm; [done|]. intros l Hl.
    rewrite (acc_quiet _ _ _ Hacc i l Hl). by apply (finish_any N). }
  apply Z.eqb_neq in E0. set (n := zlen (ch_pending (chan i s.2))) in *.
  apply post_bind. intros r s2 Hm.
  pose proof (frame_on_connection (R := same_accounts) i t _ s Hi
    (λ c r c', runs_process_lvl4_data fuel i n t c r c') _ _ Hm) as Hk2. cbv beta in Hk2.
  destruct (on_connection_calm _ _ _ _ _ _ Hm Hi) as (l & h & w1 & c' & Hl & Hw1 & Hfd1 & Hf & Hl2 & Hs2 & Hcb2).
  assert (Hst : talking l (chan i w1)).
  { pose proof (cv_state _ Hcv i) as Hst. rewrite Hl in Hst. rewrite (Hw1 i).
    destruct Hst as [[]|?]; [congruence|done]. }
  destruct Hst as [Hst Hno].
  destruct (data_in_talk fuel i t n l h w1 r c' Hst) as (Ho & Hint & Hnext);
    [by rewrite Hfd1|by rewrite (Hw1 i)|lia|exact Hf|].
  assert (Hap : apart i s s2) by by apply (on_connection_apart i _ _ c' w1).
  assert (Hi2 : i ∈ dom (_lvl4_sms s2.1)) by (rewrite Hl2; set_solver).
  apply post_bind. intros [] s3 Hts.
  apply (frame_update_ts (R := both same_accounts calm) i s2 Hi2) in Hts as [Hk3 Hc3].
  assert (Hap3 : apart i s s3) by (etrans; [exact Hap|by apply calm_apart]).
  destruct r.
  - apply post_ret. split; [|done]. eapply conversing_calm; [|exact Hc3].
    apply (conversing_apart i s); [done|done|]. rewrite Hl2, lookup_insert_eq, Hs2. right.
    split; [done|]. by rewrite Hint.
  - apply (finish_over N); [done|done|eapply accounts_same; [exact Hk3|by eapply accounts_same]|].
    rewrite (cm_chan _ _ Hc3 i), Hs2. by right.
Qed.

Lemma conv_event N fuel ev s :
  accounts N 0 s → conversing s → expected s.2 ev →
  post (process_event fuel ev) s (λ _ s', conversing s' ∧ apart ev.1 s s').
Proof.
  intros Hacc Hcv [Hin Hout]. apply (ok_event_cases conversing N); [by split|..|done]; intros.
  - apply (conv_connecting_ready N); auto.
  - apply (conv_connected_ready N); auto.
Qed.

Lemma talking_events N fuel evs s :
  ok N s → NoDup evs.*1 → Forall (expected s.2) evs →
  post (for_each (process_event fuel) evs) s (λ _, ok N).
Proof.
  revert s; induction evs as [|ev evs IH]; intros s [Hacc Hcv] Hnd Hexp; simpl; [by apply post_ret|].
  apply NoDup_cons in Hnd as [Hnin Hnd]. apply Forall_cons in Hexp as [Hev Hexp].
  apply post_bind. intros [] s1 Hm.
  destruct (conv_event N fuel ev s Hacc Hcv Hev _ _ Hm) as [Hcv1 Hap].
  pose proof (process_event_accounts HU N fuel ev s Hacc _ _ Hm) as Hacc1.
  apply IH; [by split|done|]. rewrite Forall_forall in Hexp |- *. intros ev' Hev'.
  specialize (Hexp ev' Hev'). unfold expected in *. rewrite (ap_chan _ _ _ Hap); [done|].
  intros E. apply Hnin. rewrite <- E. by apply list_elem_of_fmap_2.
Qed.

Lemma in_state_pending l ch data : in_state l ch → in_state l (more_pending data ch).
Proof.
  destruct l; [|done]. intros [[]|[[] ?]]; [left; by split|right; split; [by split|done]].
Qed.

Lemma talking_process_events N fuel s : ok N s → post (process_events fuel) s (λ _, ok N).
Proof.
  intros [Hacc Hcv]. destruct s as [e w]. apply post_bind, post_gets, post_bind, post_sys.
  intros evs w1 Hw. pose proof (epoll_wait_fds _ _ _ _ _ Hw) as Hfd.
  destruct (se_epoll_wait SE _ _ _ _ _ Hw) as [Hp Hl].
  assert (H1 : ok N (e, w1)).
  { split; [eapply accounts_same; [by apply (frame_world (R := same_accounts))|exact Hacc]|].
    split; [apply (cv_action _ Hcv)|]. intros i. simpl. destruct (Hp i) as [data ->].
    apply in_state_pending, (cv_state _ Hcv). }
  destruct evs as [evs|]; [|by apply post_ret]. destruct (Hl evs eq_refl) as [Hnd Hexp].
  apply post_bind. eapply post_mono; [apply (talking_events N fuel evs); [done|done|]|].
  { eapply Forall_impl; [exact Hexp|]. intros ev. unfold expected. simpl.
    destruct (Hp ev.1) as [data ->]. done. }
  simpl. intros _ s2 H2. by apply post_ret.
Qed.

(** ** The rest of a round *)

Lemma talking_dirty N fuel i t s : ok N s → i ∈ dom (_lvl4_sms s.1) →
  frames (both same_accounts calm) (on_connection i t (process_buffer fuel i t)) s.
Proof.
  intros [_ Hcv] Hi r s2 Hm. split.
  { eapply (frame_on_connection (R := same_accounts)); [exact Hi| |exact Hm]. apply runs_process_buffer. }
  destruct (on_connection_calm _ _ _ _ _ _ Hm Hi) as (l & h & w1 & c' & Hl & Hw1 & _ & Hf & Hl2 & Hs2 & Hcb).
  destruct (dirty_in_state fuel i t l h w1 r c') as (_ & Hsm & Hw); [|exact Hf|].
  { rewrite (Hw1 i), <- Hl. apply Hcv. }
  split; [|by rewrite Hs2, Hw|done]. intros j. rewrite Hl2, Hsm, insert_id by done. reflexivity.
Qed.

Lemma talking_carried : carried (X := calm) conversing (λ _, True).
Proof.
  split.
  - intros s s' _ Hc Hcv. by eapply conversing_calm.
  - apply conversing_finished.
  - apply talking_process_events.
  - apply talking_dirty.
  - apply talking_process_free_socks.
Qed.

(** Nothing was done yet on any descriptor. *)
Definition blank (w : W) : Prop := ∀ i, ch_view (chan i w) = v0 ∧ ch_received (chan i w) = [].

(** C8. The conversations of a scan do not mix. In a scan with the connection
    function of SSH or SIP, or of SSL when the servers send nothing that it
    mishandles, at the head of every round and for every descriptor:
    a connection that is still connecting has shown its user nothing; one that
    is connected is exactly where the reader of Conversation.v is after the
    bytes read from the descriptor since it was opened (its trigger, what its
    buffer holds, and what the user has seen); and where there is no connection,
    either nothing was done or the user has seen what the reader makes of the
    bytes read. Other connections, the order of the events, timeouts, and new
    sockets on the same descriptors make no difference. *)
Theorem scan_conversations N fuel st0 more st1 st2 s :
  fresh_engine N st0.1 → blank st0.2 → _callback_lvl4_connected st0.1 = Some a →
  start_scan fuel st0 = Ok (more, st1) → scan_reaches fuel st1 st2 →
  let ch := chan s st2.2 in
  match _lvl4_sms st2.1 !! s with
  | Some l =>
      (ch_view ch = v0 ∧ ch_received ch = [] ∧ Buffer.contents (_buf l) = []) ∨
      talk a (ch_received ch) v0 =
        Waiting (C := protocol_closures) (_trigger l) (Buffer.contents (_buf l)) (ch_view ch)
  | None =>
      (ch_view ch = v0 ∧ ch_received ch = []) ∨
      ch_view ch = heard (talk a (ch_received ch) v0)
  end.
Proof.
  intros Hfresh Hblank Hcb Hstart Hreach.
  apply (ok_start_scan talking_carried N) in Hstart; [|done|].
  2:{ intros ep w Hep. split; [done|]. intros i. simpl. rewrite (fresh_lvl4 _ _ Hfresh), lookup_empty.
      pose proof (se_epoll_create SE _ _ _ _ Hep i) as ->. by left. }
  pose proof (ok_scan_reaches HU talking_carried N fuel st1 st2 Hstart Hreach) as Hok2.
  pose proof (cv_state _ (proj2 Hok2) s) as Hst. cbv zeta.
  destruct (_ !! s) as [l|]; [|exact Hst]. destruct Hst as [[]|[[] _]]; auto.
Qed.

End Talks.
