(* ===== verification/Outcomes.v ===== *)
(** * What the engine does with one socket

    The functional behaviour of [socket_finished], the three outcomes
    of [reconnect], what decides that a connection has timed
    out, and two ways in which a scan runs into undefined behaviour: a [socket]
    that fails, and a connection that is both to be processed and timed out. *)

From S2P Require Import Prelude Lvl4Buffer Leeloo Target HostSM Lvl4SM TargetSet Engine.
From S2P Require Import AsyncEngine Frames Sockets Rounds Accounting Stays.

Section Outcomes.
Context {L : Leeloo} {C : Closures} {M : Malloc} {W : Type}.
Context {OSW : OS W} {K : Calls W} {T : TargetSet W} {EC : EngineCalls W}.

(** ** A socket that ends *)

(** What [callback_finish] does to the world. *)
Definition finish_world (e : AsyncEngine) (t : Target) (b : Lvl4Buffer) (err : Z) (w : W) :
    result W :=
  match _callback_finish e with
  | Some f => call_finish f t (Buffer.block b) (Buffer.size b) err w
  | None => Ok w
  end.

Lemma free_socket_eq s e w :
  free_socket s (e, w) =
    Ok ((), (up_sockets (delete s) (up_avail (λ a, u32 (a + 1)) (up_lvl4 (delete s) e)),
             sys_close s (sys_epoll_del (_epoll e) s (sys_epoll_del (_epoll e) s w)))).
Proof. reflexivity. Qed.

Lemma del_host_sm_eq t e w : del_host_sm t (e, w) = Ok ((), (up_hosts (delete (ipv4 t)) e, w)).
Proof. reflexivity. Qed.

(** A connection that is changed and then forgotten, and a host likewise. *)
Lemma lvl4_hosts_forget s f g e :
  up_lvl4 (delete s) (up_hosts g (up_lvl4 (alter f s) e)) = up_lvl4 (delete s) (up_hosts g e).
Proof.
  unfold up_lvl4, up_hosts. cbn [_lvl4_sms].
  replace (delete s (alter f s (_lvl4_sms e))) with (delete s (_lvl4_sms e)); [done|].
  apply map_eq. intros i. rewrite !lookup_delete, lookup_alter. by repeat case_decide.
Qed.

Lemma hosts_forget ip h e : up_hosts (delete ip) (up_hosts (λ m, <[ip := h]> m) e) = up_hosts (delete ip) e.
Proof. unfold up_hosts. cbn [_hosts_sms]. by rewrite delete_insert_eq. Qed.

(** C20. When a socket ends, the finish function is called once, with the
    target, the bytes the connection still has in its buffer and the error;
    then the set of targets is told that the target is done, and forgets the
    host if it says so; the socket is taken out of epoll and closed, the
    connection and the target are forgotten, the target is counted as done and
    one more socket is available. Nothing else of the engine changes. *)
Theorem socket_finished_effect s err t l h e w w1 b h' w2 :
  _sockets_targets e !! s = Some t → _lvl4_sms e !! s = Some l →
  _hosts_sms e !! ipv4 t = Some h →
  finish_world e t (_buf l) err w = Ok w1 →
  ts_target_finished t h w1 = Ok (b, h', w2) →
  socket_finished s err (e, w) =
    Ok ((), (up_sockets (delete s) (up_avail (λ a, u32 (a + 1))
               (up_lvl4 (delete s)
                 (up_hosts (λ hs, if (b : bool) then delete (ipv4 t) hs else <[ipv4 t := h']> hs)
                   (up_counts (λ '(nl, nd), (nl, nd + 1)) e)))),
             sys_close s (sys_epoll_del (_epoll e) s (sys_epoll_del (_epoll e) s w2)))).
Proof.
  intros Ht Hl Hh Hfin Hts. unfold socket_finished, mbind, ST_bind, modify. simpl.
  unfold target_from_socket, mbind, ST_bind, gets, lift. simpl. rewrite Ht. simpl.
  rewrite (lvl4_sm_present s l) by done. simpl.
  unfold callback_finish, mbind, ST_bind, gets. simpl. unfold finish_world in Hfin.
  set (e1 := up_counts _ e).
  assert (Hcb : (match _callback_finish e with
                 | Some f => run_ (call_finish f t (Buffer.block (_buf l)) (Buffer.size (_buf l)) err)
                 | None => mret () end) (e1, w) = Ok ((), (e1, w1))).
  { destruct (_callback_finish e) as [f|]; [|by injection Hfin as <-].
    unfold run_. simpl. by rewrite Hfin. }
  change (_callback_finish e1) with (_callback_finish e). rewrite Hcb. simpl.
  unfold host_sm, mbind, ST_bind, gets. simpl. rewrite Hh. simpl.
  unfold engine_target_finished, target_finished, run, mbind, ST_bind. simpl. rewrite Hts. simpl.
  unfold put_host_sm, modify, mret, ST_ret. simpl.
  destruct b.
  - rewrite del_host_sm_eq. cbn [mbind result_bind].
    by rewrite free_socket_eq, hosts_forget, lvl4_hosts_forget.
  - cbn [mbind result_bind]. by rewrite free_socket_eq, lvl4_hosts_forget.
Qed.

(** ** Reconnection *)

Context {FD : OSFdLaws W OSW}.

(** [create_socket] in any state of the engine. *)
Lemma create_socket_effect t st0 :
  0 < _avail_socks st0.1 < 2 ^ 32 →
  post (create_socket t) st0 (λ '(ret, s) st1,
    (s = (-1) ∧ st1.1 = st0.1 ∧ open_fds st1.2 = open_fds st0.2) ∨
    (0 ≤ s ∧ s ∉ open_fds st0.2 ∧ open_fds st1.2 = {[s]} ∪ open_fds st0.2 ∧
     _sockets_targets st1.1 = map_insert s t (_sockets_targets st0.1) ∧
     dom (_lvl4_sms st1.1) = {[s]} ∪ dom (_lvl4_sms st0.1) ∧
     _avail_socks st1.1 = _avail_socks st0.1 - 1)).
Proof.
  intros Hav. apply post_bind, post_gets. apply post_bind, post_lift. intros [] _.
  apply post_bind, post_sys. intros s w Hw. unfold new_socket in Hw.
  destruct (sys_socket _ _ st0.2) as [s' w'] eqn:Hsock. injection Hw as <- <-.
  destruct (s' =? -1) eqn:Es.
  { apply Z.eqb_eq in Es as ->. apply post_bind, post_ask, post_ret. left.
    apply socket_fresh in Hsock as [[_ Hf]|[? _]]; [|lia].
    split_and!; [done|done|]. simpl. by rewrite set_nonblock_fds. }
  apply Z.eqb_neq in Es. apply socket_fresh in Hsock as [[? _]|(Hs0 & Hfresh & Hf)]; [lia|].
  apply post_bind, post_modify. simpl. apply post_bind, post_sys. intros ret w1 Hconn.
  apply connect_fds in Hconn. apply post_bind, post_bind, post_sys. intros l w2 Hl. simpl in *.
  assert (Hf2 : open_fds w2 = {[s']} ∪ open_fds st0.2).
  { unfold Lvl4SM_ctor, StateMachine.StateMachine_ctor in Hl.
    destruct (timestamp w1) as [now w2'] eqn:E. injection Hl as _ <-.
    apply time_fds in E. by rewrite E, Hconn, set_nonblock_fds. }
  apply post_modify. apply post_bind, post_gets. apply post_bind, post_modify.
  match goal with |- post _ ?s _ => set (st2 := s) end.
  assert (Hd2 : dom (_lvl4_sms st2.1) = {[s']} ∪ dom (_lvl4_sms st0.1)).
  { simpl. rewrite dom_alter_L. unfold map_insert. destruct (_ !! s') eqn:E.
    - apply elem_of_dom_2 in E. set_solver.
    - by rewrite dom_insert_L. }
  assert (Hin : s' ∈ dom (_lvl4_sms st2.1)) by (rewrite Hd2; set_solver).
  apply post_bind. eapply post_mono; [by apply (frame_update_ts (R := same_accounts) s' st2)|].
  simpl. intros _ st3 [Hd3 Hs3 Ha3 _ _ Hf3 _].
  apply post_bind, post_modify, post_ret. right. simpl. split_and!; try done.
  - by rewrite Hf3.
  - by rewrite Hs3.
  - by rewrite Hd3.
  - rewrite Ha3. simpl. rewrite u32_small; lia.
Qed.

(** C32. [reconnect] has three outcomes. If the kernel gives back the
    descriptor that was just closed, the engine has the same sockets as
    before. If it gives another one, the connection and the target of the
    closed descriptor stay in the engine's maps beside those of the new one: one
    more socket than the engine accounts for. If [socket] fails, a connection is
    made up for the descriptor -1 and the old ones stay too. *)
Theorem reconnect_leaks N s t l st0 st1 :
  accounts N 0 st0 → s ∈ dom (_sockets_targets st0.1) →
  reconnect s t l st0 = Ok ((), st1) →
  (_sockets_targets st1.1 = _sockets_targets st0.1 ∧
   dom (_lvl4_sms st1.1) = dom (_lvl4_sms st0.1) ∧
   _avail_socks st1.1 = _avail_socks st0.1) ∨
  (∃ s', s' ≠ s ∧ s' ∉ dom (_sockets_targets st0.1) ∧
   _sockets_targets st1.1 = <[s' := t]> (_sockets_targets st0.1) ∧
   dom (_lvl4_sms st1.1) = {[s']} ∪ dom (_lvl4_sms st0.1) ∧
   s ∉ open_fds st1.2 ∧
   _avail_socks st1.1 + Z.of_nat (size (_sockets_targets st1.1)) = N + 1) ∨
  (_sockets_targets st1.1 = _sockets_targets st0.1 ∧
   dom (_lvl4_sms st1.1) = {[-1]} ∪ dom (_lvl4_sms st0.1) ∧ s ∉ open_fds st1.2 ∧
   _avail_socks st1.1 = _avail_socks st0.1 + 1).
Proof.
  intros Hacc Hs Hrun. destruct Hacc as [Hd Ho [Ha HN] Hm Hc Hq].
  assert (Hsize : 0 < Z.of_nat (size (_sockets_targets st0.1))).
  { pose proof (size_delete_in _ _ Hs). lia. }
  revert st1 Hrun.
  match goal with |- ∀ st1, _ → @?Q st1 =>
    enough (Hpost : post (reconnect s t l) st0 (λ _, Q)) by (intros; by eapply Hpost) end.
  apply post_bind, post_bind, post_gets, post_sys_. apply post_bind, post_sys_, post_bind, post_modify.
  apply post_bind. eapply post_mono.
  { apply create_socket_effect. simpl. rewrite u32_small; lia. }
  simpl. rewrite u32_small by lia. rewrite close_fds, epoll_del_fds.
  intros [ret s'] st2 [(-> & He & Hf)|(Hs' & Hfresh & Hf & Hsock & Hl & Hav)]; simpl in *.
  - (* socket failed *)
    apply post_bind. unfold lvl4_sm. apply post_bind, post_gets.
    assert (Hneg : _lvl4_sms st2.1 !! (-1) = None).
    { rewrite He. simpl. apply not_elem_of_dom. rewrite Hd. intros Hin%Ho%open_fds_nonneg. lia. }
    rewrite Hneg. apply post_bind, post_sys. intros l' w Hl'.
    assert (Hw : open_fds w = open_fds st2.2).
    { unfold Lvl4SM_ctor, StateMachine.StateMachine_ctor in Hl'.
      destruct (timestamp st2.2) as [now w'] eqn:E. injection Hl' as _ <-. by eapply time_fds. }
    apply post_bind, post_modify, post_ret, post_bind, post_modify, post_bind, post_gets, post_sys_.
    right; right. simpl. rewrite He. simpl.
    rewrite dom_alter_L, dom_insert_L, epoll_add_fds, Hw, Hf.
    split_and!; [done|done|set_solver|by rewrite u32_small by lia].
  - apply post_bind. unfold lvl4_sm. apply post_bind, post_gets.
    assert (Hin : s' ∈ dom (_lvl4_sms st2.1)) by (rewrite Hl; set_solver).
    apply elem_of_dom in Hin as [l' Hl']. rewrite Hl'. apply post_ret.
    apply post_bind, post_modify, post_bind, post_gets, post_sys_. simpl.
    rewrite dom_alter_L, Hl, epoll_add_fds, Hf, Hsock, Hav.
    destruct (decide (s' = s)) as [->|Hne].
    + left. unfold map_insert. destruct (_sockets_targets st0.1 !! s) eqn:E.
      * split_and!; [done| |lia]. rewrite Hd. set_solver.
      * apply not_elem_of_dom in E. done.
    + right; left. assert (Hns : s' ∉ dom (_sockets_targets st0.1)) by set_solver.
      exists s'. pose proof (proj1 (not_elem_of_dom _ _) Hns) as Hns'.
      rewrite map_insert_None, map_size_insert_None by done.
      split_and!; try done; [set_solver|lia].
Qed.

(** ** Timeouts *)

(** What the watch function decides for a connection whose timeout has not come. *)
Definition watch_decision (ts s : Z) (l : Lvl4SM) (e : AsyncEngine) (w : W) :
    result (bool * AsyncEngine * W) :=
  match _watch_timeout_cb e with
  | Some f =>
      if negb (_watch_timeout e =? 0) &&
         (_watch_timeout e <=? ts - StateMachine._watch_ts (l_sm l)) then
        '(go, w') ← call_watch f (mkConnected (from_socket s w) s) w;
        if (go : bool)
        then Ok (false,
                 up_lvl4 (alter (λ l, set_sm (StateMachine.update_watch_ts ts (l_sm l)) l) s) e, w')
        else Ok (true, e, w')
      else Ok (false, e, w)
  | None => Ok (false, e, w)
  end.

(** What one pass over the connections decides for each of them: one that
    was never connected is left alone; otherwise it is to be processed if a
    trigger was installed since the last pass; it has timed out if its last
    activity is at least the timeout of its target old, and only if it is not
    does the watch function decide, when its own period has passed; it counts as
    valid if it has not timed out. *)
Theorem check_connection_cases ts s l e w timeout w1 :
  _lvl4_sms e !! s = Some l →
  (match _callback_timeout_target e with
   | Some f => call_timeout f (from_socket s w) w | None => Ok (_timeout e, w) end) =
    Ok (timeout, w1) →
  check_connection ts s (e, w) =
    if StateMachine._valid (l_sm l) then
      let e1 := up_lvl4 (λ m, <[s := (should_process_buffer l).2]> m) e in
      if timeout <=? ts - StateMachine._ts (l_sm l)
      then Ok (_reprocess l, true, false, (e1, w1))
      else '(timedout, e2, w2) ← watch_decision ts s l e1 w1;
           Ok (_reprocess l, (timedout : bool), negb timedout, (e2, w2))
    else Ok (false, false, false, (e, w)).
Proof.
  intros Hl Hto. unfold check_connection. erewrite ST_bind_Ok by (by apply (lvl4_sm_present s l)).
  destruct (StateMachine._valid (l_sm l)); [|done]. cbn [negb].
  assert (Hsp : should_process_buffer l = (_reprocess l, (should_process_buffer l).2)).
  { unfold should_process_buffer. by destruct (_reprocess l). }
  rewrite Hsp. cbv zeta. set (l1 := (should_process_buffer l).2) in *.
  set (e1 := up_lvl4 (λ m, <[s := l1]> m) e).
  assert (Hsm : l_sm l1 = l_sm l).
  { unfold l1, should_process_buffer. by destruct (_reprocess l). }
  rewrite (ST_bind_Ok _ _ _ () (e1, w)) by done.
  rewrite (ST_bind_Ok _ _ _ (from_socket s w) (e1, w)) by done.
  rewrite (ST_bind_Ok _ _ _ timeout (e1, w1)).
  2:{ unfold timeout_of_target, gets, mbind, ST_bind, run. simpl.
      destruct (_callback_timeout_target e); simpl; [by rewrite Hto|by injection Hto as -> ->]. }
  rewrite Hsm. destruct (_ <=? _); [done|].
  assert (Hw : has_watch_timedout ts s (e1, w1) =
    '(timedout, e2, w2) ← watch_decision ts s l e1 w1; Ok (timedout : bool, (e2, w2))).
  { unfold has_watch_timedout, watch_decision.
    rewrite (ST_bind_Ok _ _ _ (_watch_timeout_cb e) (e1, w1)) by done.
    rewrite (ST_bind_Ok _ _ _ (_watch_timeout e) (e1, w1)) by done.
    change (_watch_timeout_cb e1) with (_watch_timeout_cb e).
    change (_watch_timeout e1) with (_watch_timeout e).
    destruct (_watch_timeout_cb e) as [f|]; [|done].
    destruct (_watch_timeout e =? 0); [done|].
    rewrite (ST_bind_Ok _ _ _ l1 (e1, w1)).
    2:{ apply lvl4_sm_present. simpl. apply lookup_insert_eq. }
    rewrite Hsm. simpl. destruct (_ <=? _); [|done].
    rewrite (ST_bind_Ok _ _ _ (from_socket s w1) (e1, w1)) by done.
    unfold run, mbind, ST_bind. simpl. by destruct (call_watch _ _ _) as [[[] ?]|]. }
  unfold mbind at 1, ST_bind at 1. rewrite Hw.
  change (up_lvl4 _ e) with e1. by destruct (watch_decision ts s l e1 w1) as [[[] ?]|].
Qed.

(** ** Undefined behaviour *)

(** C36. When [socket] fails (the process has no descriptor left, say) while a
    target is launched, [process_free_socks] calls [socket_finished(-1)], which
    reads the target of a descriptor that has none. *)
Theorem socket_failure_is_UB fuel e w t w1 w2 :
  ts_next_target w = Ok (NextTarget t, w1) → is_end t = false →
  0 < _avail_socks e → _sockets_targets e !! (-1) = None →
  sys_socket (socket_type (_port t)) (socket_proto (_port t)) w1 = (-1, w2) →
  launch_next (S fuel) (e, w) = Fail UB.
Proof.
  intros Hnext Hend Hav Hnone Hsock. destruct (socket_errno _ _ _ _ Hsock) as [H0 Hp].
  cbn [launch_next]. unfold mbind, ST_bind, run, next_target. simpl. rewrite Hnext. simpl.
  rewrite Hend. unfold modify. simpl.
  unfold create_socket, mbind, ST_bind, gets, lift, sys, ask. simpl.
  rewrite (proj2 (Z.ltb_lt _ _) Hav). unfold new_socket. simpl. rewrite Hsock. simpl.
  rewrite (proj2 (Z.eqb_neq _ _) H0). simpl. rewrite (proj2 (Z.eqb_neq _ _) Hp).
  rewrite target_finished_missing; [done|]. simpl. by apply not_elem_of_dom.
Qed.

(** The timeout of any target is at most [n]. *)
Definition timeouts_within (n : Z) (e : AsyncEngine) : Prop :=
  match _callback_timeout_target e with
  | None => _timeout e <= n
  | Some f => ∀ t w m w', call_timeout f t w = Ok (m, w') → m <= n
  end.

(** The connections that there are stay, and so do the timeouts. *)
Definition same_timeouts (s s' : st) : Prop :=
  dom (_lvl4_sms s.1) ⊆ dom (_lvl4_sms s'.1) ∧ _timeout s'.1 = _timeout s.1 ∧
  _callback_timeout_target s'.1 = _callback_timeout_target s.1.

#[local] Instance same_timeouts_frame : Frame same_timeouts (λ _ _, True).
Proof.
  split; try done. split; [done|].
  intros s1 s2 s3 (? & ? & ?) (? & ? & ?). split_and!; [set_solver|congruence..].
Qed.
#[local] Instance same_timeouts_preorder : PreOrder same_timeouts.
Proof. apply frame_preorder. Qed.
#[local] Instance same_timeouts_touches : Touches same_timeouts.
Proof. intros e w i l l' Hl _. split; [simpl; set_solver|done]. Qed.
#[local] Instance same_timeouts_asked : Asked (λ _ _ : W, True).
Proof. by split. Qed.
#[local] Instance same_timeouts_domed : Domed same_timeouts.
Proof. by intros s s' [? _]. Qed.

(** The connection of [i] is [l]. *)
Definition has_connection (i : Z) (l : Lvl4SM) (e : AsyncEngine) : Prop :=
  _lvl4_sms e !! i = Some l.

Lemma has_connection_closed i l : closed (has_connection i l) (λ j, j ≠ i) (λ _ _, True).
Proof.
  unfold has_connection. split; try done.
  - by intros e e' ->.
  - intros e j l' Hj He _. simpl. by rewrite lookup_insert_ne.
  - intros e j Hj He. simpl. by rewrite lookup_delete_ne.
Qed.

(** The test of a connection that has a trigger to run and has timed out. *)
Lemma check_connection_both ts s l st0 :
  has_connection s l st0.1 → StateMachine._valid (l_sm l) = true → _reprocess l = true →
  timeouts_within (ts - StateMachine._ts (l_sm l)) st0.1 →
  post (check_connection ts s) st0 (λ r st1,
    (r.1.1 = true ∧ r.1.2 = true) ∧ has_connection s (should_process_buffer l).2 st1.1).
Proof.
  intros Hl Hv Hre Hto. apply post_bind. intros p st1 Hp.
  rewrite (lvl4_sm_present s l) in Hp by done. injection Hp as <- <-. rewrite Hv. cbn [negb].
  assert (Hd : (should_process_buffer l).1 = true ∧ l_sm (should_process_buffer l).2 = l_sm l).
  { unfold should_process_buffer. by rewrite Hre. }
  destruct (should_process_buffer l) as [d l']. destruct Hd as [Hd Hsm]. simpl in Hd, Hsm. subst d.
  assert (Hput : ∀ e, has_connection s l' (up_lvl4 (λ m, <[s := l']> m) e)).
  { intros e. apply lookup_insert_eq. }
  apply post_bind, post_modify, post_bind, post_ask, post_bind. unfold timeout_of_target.
  apply post_bind, post_gets. simpl. rewrite Hsm. unfold timeouts_within in Hto.
  destruct (_callback_timeout_target st0.1) as [f|].
  - apply post_run. intros m w Hm%Hto. apply post_bind. rewrite (proj2 (Z.leb_le _ _) Hm).
    apply post_ret, post_ret. split; [done|apply Hput].
  - apply post_gets, post_bind. simpl. rewrite (proj2 (Z.leb_le _ _) Hto).
    apply post_ret, post_ret. split; [done|apply Hput].
Qed.

(** Nothing but [create_socket] gives a descriptor a target. *)
Definition targetless (s : Z) (e : AsyncEngine) : Prop := _sockets_targets e !! s = None.

Ltac targetless_tac :=
  repeat first
    [ apply stays_ret; done | apply stays_gets; done | apply stays_ask | apply stays_lift; done
    | apply stays_sys; done | apply stays_sys_ | apply stays_run | apply stays_run_
    | apply stays_modify; intros ? H; exact H
    | apply stays_then; [|intros ?]
    | match goal with |- context [match ?x with _ => _ end] => destruct x end ].

Lemma targetless_lvl4_sm s i : stays (targetless s) (lvl4_sm i) (λ _, True).
Proof. unfold lvl4_sm. targetless_tac. Qed.

Lemma targetless_free_socket s i : stays (targetless s) (free_socket i) (λ _, True).
Proof.
  unfold free_socket, remove_connecting_socket, remove_connected_socket, del_lvl4_sm.
  do 5 (apply stays_then; [targetless_tac|intros _]).
  apply stays_modify. intros e He. apply lookup_delete_None. by right.
Qed.

Lemma targetless_socket_finished s i err :
  stays (targetless s) (socket_finished i err) (λ _, True).
Proof.
  unfold socket_finished, target_from_socket, callback_finish, alter_lvl4_sm, host_sm,
    engine_target_finished, put_host_sm, del_host_sm.
  do 8 (apply stays_then; [first [apply targetless_lvl4_sm|targetless_tac]|intros ?]).
  apply targetless_free_socket.
Qed.

Lemma targetless_process_dirty s fuel i : stays (targetless s) (process_dirty fuel i) (λ _, True).
Proof.
  unfold process_dirty, target_from_socket. apply stays_then; [targetless_tac|intros t].
  apply stays_then; [|intros []; [targetless_tac|apply targetless_socket_finished]].
  unfold on_connection, host_sm, put_lvl4_sm, put_host_sm.
  apply stays_then; [apply targetless_lvl4_sm|intros l].
  apply stays_then; [targetless_tac|intros h]. apply stays_then; [|intros []; targetless_tac].
  intros st0 H0 a st1 H. destruct (process_buffer _ _ _ _) as [[r c]|]; [|done].
  by injection H as <- <-.
Qed.

Lemma socket_finished_targetless s err st0 :
  post (socket_finished s err) st0 (λ _ st1, targetless s st1.1).
Proof.
  do 8 (apply post_any; intros ? ?). do 5 (apply post_any; intros ? ?).
  apply post_modify. apply lookup_delete_eq.
Qed.

(** A connection whose buffer ends it has no target left when it is processed. *)
Lemma process_dirty_targetless fuel s l st0 :
  has_connection s l st0.1 →
  (∀ t h w c, process_buffer fuel s t (mkCtx l h w) ≠ Ok (true, c)) →
  post (process_dirty fuel s) st0 (λ _ st1, targetless s st1.1).
Proof.
  intros Hl Hend. apply post_bind, post_target. intros t _. apply post_bind. intros r st1 Hr.
  apply on_connection_inv in Hr as (l1 & h & st2 & c & hs & Hl1 & _ & _ & Hf & _); [|by eapply elem_of_dom_2].
  unfold has_connection in Hl. rewrite Hl in Hl1. injection Hl1 as <-.
  destruct r; [by apply Hend in Hf|]. apply socket_finished_targetless.
Qed.

(** Both lists name the connection, and its trigger ends it in the first. *)
Lemma check_loop_both ts s l st0 :
  has_connection s l st0.1 → StateMachine._valid (l_sm l) = true → _reprocess l = true →
  timeouts_within (ts - StateMachine._ts (l_sm l)) st0.1 →
  post (check_loop ts (map_keys (_lvl4_sms st0.1))) st0 (λ '(to_process, timeouted, _) st1,
    has_connection s (should_process_buffer l).2 st1.1 ∧ s ∈ to_process ∧ s ∈ timeouted).
Proof.
  intros Hl Hv Hre Hto. set (l' := (should_process_buffer l).2). eapply post_mono.
  { apply (check_loop_at (λ s1, has_connection s l s1.1 ∧ same_timeouts st0 s1)
      (λ s1, has_connection s l' s1.1) (λ r, r.1.1 = true ∧ r.1.2 = true) ts s).
    - intros j s1 Hj Hne [H1 Hs1] r s2 Hc. split.
      + by apply (stays_check_connection _ _ _ (has_connection_closed s l) _ _ Hne s1 H1 _ _ Hc).
      + etrans; [exact Hs1|]. eapply frame_check_connection, Hc.
        apply Hs1. by apply elem_of_map_keys.
    - intros j s1 _ Hne H1 r s2 Hc.
      by apply (stays_check_connection _ _ _ (has_connection_closed s l') _ _ Hne s1 H1 _ _ Hc).
    - intros s1 (H1 & _ & H2 & H3). apply check_connection_both; [done..|].
      unfold timeouts_within in *. by rewrite H2, H3.
    - apply map_keys_NoDup.
    - apply elem_of_map_keys. by eapply elem_of_dom_2.
    - split; [done|by split]. }
  intros [[tp to] n] s1 (H1 & d & t & v & [Hd Ht] & Htp & Hto1). auto.
Qed.

(** After the first list, the connection has no target. *)
Lemma to_process_targetless fuel s l to_process st0 :
  has_connection s l st0.1 → s ∈ to_process →
  (∀ t h w c, process_buffer fuel s t (mkCtx l h w) ≠ Ok (true, c)) →
  post (for_each (process_dirty fuel) to_process) st0 (λ _ st1, targetless s st1.1).
Proof.
  intros Hl Hs Hend.
  apply (for_each_at (λ s1, has_connection s l s1.1) (λ s1, targetless s s1.1) _ s); [..|done|done].
  - intros j s1 Hj H1 a s2 Hm.
    by apply (stays_process_dirty _ _ _ (has_connection_closed s l) fuel j Hj (λ _ _ _ _ _ _, I) s1 H1 a s2 Hm).
  - intros j s1 H1 a s2 Hm. by apply (targetless_process_dirty s fuel j s1 H1 a s2 Hm).
  - intros s1 H1. by eapply process_dirty_targetless.
Qed.

Lemma for_each_stops {A} (f : A → ST ()) before a after st0 st1 :
  for_each f before st0 = Ok ((), st1) → f a st1 = Fail UB →
  for_each f (before ++ a :: after) st0 = Fail UB.
Proof.
  intros Hb Ha. revert st0 Hb. induction before as [|b before IH]; intros st0 Hb.
  - injection Hb as <-. simpl. unfold mbind, ST_bind. by rewrite Ha.
  - simpl in *. unfold mbind, ST_bind in *. destruct (f b st0) as [[[] st2]|]; [|done].
    simpl in *. by apply IH.
Qed.

(** C33. A connection that installed a trigger and whose timeout has elapsed
    ([_timeout], or any the user's function gives) is put in both lists of
    [process_dirty_and_timeouts], whatever the other connections of the engine.
    If processing its buffer does not keep it, whatever its host and the world
    then are, the pass does not return: the first list ends the connection, if
    nothing fails before; then, if ending the connections before it in the second list
    returns, [socket_finished] is called a second time, for the timeout, on a
    descriptor that has no target any more, which is undefined behaviour. *)
Theorem dirty_timeout_double_finish fuel e w s l ts w1 :
  _lvl4_sms e !! s = Some l → StateMachine._valid (l_sm l) = true → _reprocess l = true →
  timestamp w = (ts, w1) → timeouts_within (ts - StateMachine._ts (l_sm l)) e →
  (∀ t h w c, process_buffer fuel s t (mkCtx (should_process_buffer l).2 h w) ≠ Ok (true, c)) →
  (∀ r, process_dirty_and_timeouts fuel (e, w) ≠ Ok r) ∧
  ∀ to_process timeouted n st1 st2,
    check_loop ts (map_keys (_lvl4_sms e)) (e, w1) = Ok ((to_process, timeouted, n), st1) →
    for_each (process_dirty fuel) to_process st1 = Ok ((), st2) →
    s ∈ to_process ∧ ∃ before after, timeouted = before ++ s :: after ∧
      ∀ st3, for_each (λ i, socket_finished i NS_TIMEOUT) before st2 = Ok ((), st3) →
        _sockets_targets st3.1 !! s = None ∧ socket_finished s NS_TIMEOUT st3 = Fail UB ∧
        process_dirty_and_timeouts fuel (e, w) = Fail UB.
Proof.
  intros Hl Hv Hre Hts Hto Hend.
  assert (Hlists : post (check_loop ts (map_keys (_lvl4_sms e))) (e, w1) (λ '(tp, to, _) st1,
    has_connection s (should_process_buffer l).2 st1.1 ∧ s ∈ tp ∧ s ∈ to))
    by (by apply (check_loop_both ts s l (e, w1))).
  assert (Hagain : ∀ st3, targetless s st3.1 → socket_finished s NS_TIMEOUT st3 = Fail UB).
  { intros st3 H3. apply target_finished_missing. by apply not_elem_of_dom. }
  split.
  - intros [n s'] H. revert n s' H.
    change (post (process_dirty_and_timeouts fuel) (e, w) (λ _ _, False)).
    apply post_bind, post_sys. intros ts' w1' Hts'. simpl in Hts'. rewrite Hts in Hts'. injection Hts' as <- <-.
    apply post_bind, post_gets, post_bind. eapply post_mono; [exact Hlists|].
    intros [[tp to] n] st1 (H1 & Htp & Hin). apply post_bind.
    eapply post_mono; [by eapply to_process_targetless|]. intros [] st2 H2. apply post_bind.
    eapply post_mono; [apply (for_each_at (λ s1, targetless s s1.1) (λ _, False) _ s)|done]; [|done| |done|done].
    + intros j s1 _ Hs1 a s2 Hm. by apply (targetless_socket_finished s j NS_TIMEOUT s1 Hs1 a s2 Hm).
    + intros s1 Hs1 a s2 Hm. by rewrite Hagain in Hm.
  - intros tp to n st1 st2 Hc Hd. destruct (Hlists _ _ Hc) as (H1 & Htp & Hin).
    pose proof (to_process_targetless fuel s _ tp st1 H1 Htp Hend _ _ Hd) as H2.
    apply list_elem_of_split in Hin as (before & after & ->).
    split; [done|]. exists before, after. split; [done|]. intros st3 H3.
    destruct (stays_for_each (targetless s) _ before
                (λ i _, targetless_socket_finished s i NS_TIMEOUT) st2 H2 _ _ H3) as [Hs3 _].
    split; [exact Hs3|]. split; [by apply Hagain|]. unfold process_dirty_and_timeouts.
    rewrite (ST_bind_Ok _ _ (e, w) ts (e, w1)) by (unfold sys; simpl; by rewrite Hts).
    rewrite (ST_bind_Ok _ _ (e, w1) (_lvl4_sms e) (e, w1)) by done.
    rewrite (ST_bind_Ok _ _ _ _ _ Hc), (ST_bind_Ok _ _ _ _ _ Hd).
    unfold mbind at 1, ST_bind at 1. by rewrite (for_each_stops _ _ _ _ _ _ H3 (Hagain _ Hs3)).
Qed.

End Outcomes.
