(* ===== verification/PyBinding.v ===== *)
(** * The Python binding: src/bindings/python/pynodescan.cpp

    The binding turns Python objects into the functions nodescan calls: each
    lambda converts its arguments, calls the object, and extracts a C++ value
    from what it returns ([python_calls], [python_engine_calls],
    [python_target_set]). The interpreter and boost.python are parameters
    ([Python]); what the module registers with boost.python, which decides the
    conversions that succeed, is in the definitions. A conversion that fails
    and an exception of the Python code end the call with [PythonError].

    A memoryview over the buffer of a connection is a [View]: an offset and a
    size in its block, read when the Python code reads it.

    Main results: a Python trigger ends the scan with an error when the buffer
    of its connection is processed ([python_trigger_raises]), as does the first target that ends when
    the set of targets is a Python object ([python_finish_raises]) and a SIP
    header that is not UTF-8 ([python_header_not_utf8]); a size trigger keeps
    32 bits of its size ([python_size_trigger_wraps]); [==] and [hash] agree on
    targets ([python_eq_hash]). *)

From S2P Require Import Prelude Lvl4Buffer Leeloo Target HostSM Lvl4SM Framing Closures SSL SSH SIP.
From S2P Require Import Protocols Properties TargetSet Engine AsyncEngine Frames Rounds Stays.
From stdpp Require Import strings.
#[local] Open Scope Z_scope.

(** ** What the module registers *)

(** The classes and the enumerations its functions exchange with Python. *)
Inductive cpp_class := CTarget | CConnectedTarget | CLvl4SM | CHostSM | CLvl4Buffer.
Inductive cpp_enum := Eerrors | EProcessReturnCode.

(** [class_<_, boost::noncopyable>]: no conversion of a value to Python. *)
Definition noncopyable (c : cpp_class) : bool :=
  match c with CLvl4SM | CHostSM | CLvl4Buffer => true | CTarget | CConnectedTarget => false end.

(** [enum_<_>] *)
Definition registered_enum (e : cpp_enum) : bool :=
  match e with Eerrors => true | EProcessReturnCode => false end.

(** [boost::python::object] *)
Class PyObjects := py_object : Type.

(** The functions given to the library are Python objects; [HostSM] exposes no
    function to set. *)
#[export] Instance python_code {PO : PyObjects} : UserCode := {|
  user_data := py_object;
  user_connect := py_object;
  user_cipher := py_object;
  user_header := py_object;
  user_host := Empty_set;
  user_python := py_object;
|}.

Section Binding.
Context {L : Leeloo} {PO : PyObjects} {M : Malloc}.

(** ** Values given to Python *)

(** The memory behind a memoryview: a part of the buffer of the connection, or
    bytes elsewhere. *)
Inductive memory := View (off n : Z) | Region (m : list Z) (n : Z).

(** An argument of a call, before its conversion: by value, or through
    [boost::ref]. *)
Inductive cpp_arg :=
| ATarget (t : Target)
| AConnected (t : ConnectedTarget)
| AHostSM (h : HostSM)
| RefLvl4SM
| RefHostSM
| RefBuffer
| AMemory (m : memory)
| AInt (z : Z)
| ACString (l : list Z).

Definition object_from_ro_mem (null : bool) (buf : memory) : cpp_arg :=
  AMemory (if null then Region [] 0 else buf).

Inductive protocol := PSSL (p : SSL) | PSSH (p : SSH) | PSIP (p : SIP).

(** The interpreter and boost.python. [py_call] calls an object whose
    arguments refer to a connection, [py_run] one whose do not;
    [py_instance] is the C++ object in an object of the module's classes; the
    [as_] functions are boost's converters from Python, [None] when there is
    none for the object. *)
Class Python (W : Type) := {
  by_value : cpp_class → bool;                 (* a converter to Python is registered *)
  utf8 : list Z → bool;                        (* a C string makes a [str] *)
  py_call : py_object → list cpp_arg → ctx W → result (py_object * ctx W);
  py_run : py_object → list cpp_arg → W → result (py_object * W);
  attr : py_object → list Z → W → result (py_object * W);
  get_override : py_object → list Z → W → result (py_object * W);
  py_instance : py_object → W → option protocol;
  as_bool : py_object → option bool;
  as_uint32 : py_object → option Z;
  as_target : py_object → option Target;
  as_enum : cpp_enum → py_object → option Z;
}.

Section Calls.
Context {W : Type} {OSW : OS W} {PY : Python W}.

Definition convertible (a : cpp_arg) : bool :=
  match a with
  | ATarget _ => by_value CTarget
  | AConnected _ => by_value CConnectedTarget
  | AHostSM _ => by_value CHostSM
  | ACString l => utf8 l
  | RefLvl4SM | RefHostSM | RefBuffer | AMemory _ | AInt _ => true
  end.

Definition to_python (args : list cpp_arg) : result (list cpp_arg) :=
  if forallb convertible args then Ok args else Fail PythonError.

Definition extract {A} (o : option A) : result A := of_option PythonError o.

(** [f(args...)], on a connection and on the world. *)
Definition py_invoke (f : py_object) (args : list cpp_arg) (c : ctx W) :
    result (py_object * ctx W) :=
  args ← to_python args; py_call f args c.
Definition py_invoke_bool (f : py_object) (args : list cpp_arg) (c : ctx W) :
    result (bool * ctx W) :=
  '(r, c) ← py_invoke f args c; b ← extract (as_bool r); Ok (b, c).
Definition py_do (f : py_object) (args : list cpp_arg) (w : W) : result (py_object * W) :=
  args ← to_python args; py_run f args w.

(** ** The lambdas on a connection *)

(** [buf.begin()] is null while the buffer has no block. *)
Definition null_buf (c : ctx W) : bool := bool_decide (Buffer._buffer (c_buf c) = None).

Definition python_data (f : py_object) (t : ConnectedTarget) (buf size : Z) (c : ctx W) :
    result (bool * ctx W) :=
  py_invoke_bool f
    [AConnected t; RefLvl4SM; RefHostSM; object_from_ro_mem (null_buf c) (View buf size)] c.

Definition python_cipher (f : py_object) (t : ConnectedTarget) (cipher : Z) (c : ctx W) :
    result (bool * ctx W) :=
  py_invoke_bool f [AConnected t; RefLvl4SM; RefHostSM; AInt cipher] c.

Definition python_header (f : py_object) (t : ConnectedTarget) (key value : Z) (c : ctx W) :
    result (bool * ctx W) :=
  py_invoke_bool f [AConnected t; RefLvl4SM; RefHostSM;
    ACString (c_string (c_block c) key); ACString (c_string (c_block c) value)] c.

(** The call of the method, and the whole [PythonDataTrigger::process_buffer]. *)
Definition python_method (o : py_object) (t : ConnectedTarget) (prev_pos : Z) (c : ctx W) :
    result (py_object * ctx W) :=
  '(m, w) ← attr o (bytes_of_string "process_buffer") (c_world c);
  py_invoke m [AConnected t; RefLvl4SM; RefHostSM; RefBuffer; AInt prev_pos] (with_world w c).

Definition return_code (z : Z) : ProcessReturnCode :=
  if z =? 0 then NoMoreToProcess else if z =? 1 then CanProcessAgain else ConnectionEnd.

Definition PythonDataTrigger_process_buffer (_trigger : py_object) (t : ConnectedTarget)
    (prev_pos : Z) (c : ctx W) : result (ProcessReturnCode * ctx W) :=
  '(r, c) ← python_method _trigger t prev_pos c;
  z ← extract (as_enum EProcessReturnCode r);
  Ok (return_code z, c).

(** [__call__] of an object of the module's classes is its C++ [operator()]. *)
Definition call_protocol (p : protocol) (t : ConnectedTarget) (c : ctx W) :
    result (bool * ctx W) :=
  match p with
  | PSSL p => SSL_call p t c
  | PSSH p => SSH_call p t c
  | PSIP p => SIP_call p t c
  end.

Definition python_connect (f : py_object) (t : ConnectedTarget) (c : ctx W) :
    result (bool * ctx W) :=
  match py_instance f (c_world c) with
  | Some p => call_protocol p t c
  | None => py_invoke_bool f [AConnected t; RefLvl4SM; RefHostSM] c
  end.

#[export] Instance python_calls : UserCalls W := {|
  call_user_data := python_data;
  call_user_connect := python_connect;
  call_user_cipher := python_cipher;
  call_user_header := python_header;
  call_user_python := PythonDataTrigger_process_buffer;
|}.

(** ** The lambdas of the engine *)

#[export] Instance python_engine_calls : EngineCalls W := {|
  finish_closure := py_object;
  status_closure := py_object;
  watch_closure := py_object;
  timeout_closure := py_object;
  call_finish f target buf size code w :=
    '(r, w) ← py_do f [ATarget target;
        object_from_ro_mem (bool_decide (buf = [])) (Region buf size); AInt code] w;
    _ ← extract (as_bool r); Ok w;
  call_status f nlaunched ndone w := '(_, w) ← py_do f [AInt nlaunched; AInt ndone] w; Ok w;
  call_watch f t w := '(r, w) ← py_do f [AConnected t] w; b ← extract (as_bool r); Ok (b, w);
  call_timeout f t w := '(r, w) ← py_do f [ATarget t] w; n ← extract (as_uint32 r); Ok (n, w);
|}.

(** [NSTargetSetWrap], for the Python object [self]; the streams are left
    alone and [init_host_sm] is the base class's, which does nothing. *)
Definition call_override (self : py_object) (name : string) (args : list cpp_arg) (w : W) :
    result (py_object * W) :=
  '(f, w) ← get_override self (bytes_of_string name) w; py_do f args w.

Definition python_target_set (self : py_object) : TargetSet W := {|
  ts_init w := '(_, w) ← call_override self "init" [] w; Ok w;
  ts_next_target w :=
    '(r, w) ← call_override self "next_target" [] w;
    t ← extract (as_target r); Ok (NextTarget t, w);
  ts_target_finished target hsm w :=
    '(r, w) ← call_override self "target_finished" [ATarget target; AHostSM hsm] w;
    b ← extract (as_bool r); Ok (b, hsm, w);
  ts_init_host_sm _ hsm w := Ok (hsm, w);
  ts_save_state file w := '(_, w) ← call_override self "save_state" [ACString file] w; Ok w;
  ts_restore_state file w :=
    '(_, w) ← call_override self "restore_state" [ACString file] w; Ok w;
|}.

(** ** The functions of the module *)

Definition connected_target_send (t : ConnectedTarget) (s : list Z) (w : W) : W := (send t s w).2.

Definition async_engine_set_lvl4_connected_callback (f : py_object) (e : AsyncEngine) : AsyncEngine :=
  set_lvl4_connected_callback (Some (UserConnect (f : user_connect))) e.
Definition async_engine_set_lvl4_finish_callback (f : py_object) (e : AsyncEngine) : AsyncEngine :=
  set_lvl4_finish_callback (Some (f : finish_closure)) e.
Definition async_engine_set_status_display_callback (f : py_object) (timeout : Z)
    (e : AsyncEngine) : AsyncEngine :=
  set_status_display_callback (Some (f : status_closure)) timeout e.
Definition async_engine_set_watch_timeout (f : py_object) (timeout : Z) (e : AsyncEngine) :
    AsyncEngine :=
  AsyncEngine.set_watch_timeout (Some (f : watch_closure)) timeout e.
Definition async_engine_set_timeout_of_target (f : py_object) (e : AsyncEngine) : AsyncEngine :=
  set_timeout_of_target (Some (f : timeout_closure)) e.

(** A string of another length raises a [ValueError]. *)
Definition lvl4sm_set_char_data_trigger (s : list Z) (f : py_object) (l : Lvl4SM) : result Lvl4SM :=
  match s with
  | [c] => Ok (set_trigger (CharDataTrigger (u8 c) (Some (UserData (f : user_data)))) l)
  | _ => Fail PythonError
  end.

(** [n] is a [size_t], the constructor takes a [uint32_t]. *)
Definition lvl4sm_set_size_data_trigger (n : Z) (f : py_object) (l : Lvl4SM) : Lvl4SM :=
  set_trigger (SizeDataTrigger (u32 n) (Some (UserData (f : user_data)))) l.

Definition lvl4sm_set_on_connect (f : py_object) (l : Lvl4SM) : Lvl4SM :=
  set_on_connect (Some (UserConnect (f : user_connect))) l.

Definition lvl4sm_set_python_data_trigger (obj : py_object) (l : Lvl4SM) : Lvl4SM :=
  set_trigger (PythonDataTrigger (obj : user_python)) l.

Definition lvl4buffer_data (buf : Lvl4Buffer) : cpp_arg :=
  object_from_ro_mem (bool_decide (Buffer._buffer buf = None)) (View 0 (Buffer.size buf)).

Definition python_properties_init (type : py_object) : Lvl4PropertiesStorage py_object W :=
  Lvl4PropertiesStorage_ctor (Some (λ w, py_do type [] w)).
Definition python_properties_storage_get (t : ConnectedTarget)
    (s : Lvl4PropertiesStorage py_object W) (w : W) :
    result (py_object * Lvl4PropertiesStorage py_object W * W) :=
  properties_of (ct_t t) s w.
Definition python_properties_storage_set (t : Target) (o : py_object)
    (s : Lvl4PropertiesStorage py_object W) (w : W) :
    result (Lvl4PropertiesStorage py_object W * W) :=
  store_property t o s w.
Definition python_properties_storage_remove (t : ConnectedTarget)
    (s : Lvl4PropertiesStorage py_object W) : Lvl4PropertiesStorage py_object W :=
  Properties.remove (ct_t t) s.

Definition ssl_on_certificate (f : py_object) (ssl : SSL) : SSL :=
  on_certificate (Some (f : user_data)) ssl.
Definition ssl_on_cipher (f : py_object) (ssl : SSL) : SSL := on_cipher (Some (f : user_cipher)) ssl.
Definition ssl_on_protocol_failure (f : py_object) (ssl : SSL) : SSL :=
  on_protocol_failure (Some (f : user_data)) ssl.
Definition ssh_on_invalid_answer (f : py_object) (ssh : SSH) : SSH :=
  SSH_on_invalid_answer (Some (f : user_data)) ssh.
Definition ssh_on_certificate (f : py_object) (ssh : SSH) : SSH :=
  SSH_on_certificate (Some (f : user_data)) ssh.
Definition sip_on_header (f : py_object) (sip : SIP) : SIP := on_header (Some (f : user_header)) sip.
Definition sip_on_invalid_header (f : py_object) (sip : SIP) : SIP :=
  on_invalid_header (Some (f : user_data)) sip.

End Calls.
End Binding.

(** ** What boost.python documents *)

(** A class declared noncopyable has no conversion by value, another class has
    one; an enumeration that was not registered has no converter. *)
Class PythonLaws {L : Leeloo} {PO : PyObjects} {M : Malloc} {W : Type} (PY : Python W) := {
  by_value_class c : by_value c = negb (noncopyable c);
  enum_converter e o : registered_enum e = false → as_enum e o = None;
}.

Section Theorems.
Context {L : Leeloo} {LL : LeelooLaws L} {PO : PyObjects} {M : Malloc}.
Context {W : Type} {OSW : OS W} {PY : Python W} {PL : PythonLaws PY}.

(** ** Python triggers *)

(** [PythonDataTrigger::process_buffer] ends with an exception, that of the
    method if it raised one. *)
Definition method_error (o : py_object) (t : ConnectedTarget) (prev_pos : Z) (c : ctx W) : failure :=
  match python_method o t prev_pos c with Ok _ => PythonError | Fail e => e end.

Lemma python_trigger_fails o t pos (c : ctx W) :
  PythonDataTrigger_process_buffer o t pos c = Fail (method_error o t pos c).
Proof.
  unfold PythonDataTrigger_process_buffer, method_error.
  destruct (python_method o t pos c) as [[r c']|]; [|done]. simpl. by rewrite enum_converter.
Qed.

Context {TS : TargetSet W}.

Abbreviation python_triggered o l := (_trigger l = PythonDataTrigger (o : user_python)).

(** The connection of [i] has the Python trigger [o]. *)
Definition triggered (i : Z) (o : py_object) (e : AsyncEngine) : Prop :=
  ∃ l, _lvl4_sms e !! i = Some l ∧ python_triggered o l.

(** Other connections can change. *)
Lemma triggered_closed i o : closed (triggered i o) (λ j, j ≠ i) (λ _ _, True).
Proof.
  split; try done.
  - intros e e' Hl _ (l & ? & ?). exists l. by rewrite Hl.
  - intros e j l Hj (l' & ? & ?) _. exists l'. simpl. by rewrite lookup_insert_ne.
  - intros e j Hj (l' & ? & ?). exists l'. simpl. by rewrite lookup_delete_ne.
Qed.

Lemma process_dirty_raises fuel i o s :
  triggered i o s.1 → post (process_dirty fuel i) s (λ _ _, False).
Proof.
  intros (l & Hl & Htr). apply post_bind, post_target. intros t _. apply post_bind.
  apply post_bind. intros l' s1 H1. rewrite (lvl4_sm_present i l) in H1 by done.
  injection H1 as <- <-. apply post_bind. intros h s1 _. apply post_bind. intros [r c] s2 H.
  destruct fuel as [|fuel]; [done|]. unfold process_buffer in H. simpl in H.
  unfold trigger_process_buffer in H. simpl in H. rewrite Htr in H.
  by rewrite python_trigger_fails in H.
Qed.

(** One pass finds the connection whose trigger was just installed. *)
Definition installed (i : Z) (o : py_object) (e : AsyncEngine) : Prop :=
  ∃ l, _lvl4_sms e !! i = Some l ∧ python_triggered o l ∧ _reprocess l = true ∧
       StateMachine._valid (l_sm l) = true.

Lemma installed_closed i o : closed (installed i o) (λ j, j ≠ i) (λ _ _, True).
Proof.
  split; try done.
  - intros e e' Hl _ (l & ? & ?). exists l. by rewrite Hl.
  - intros e j l Hj (l' & ? & ?) _. exists l'. simpl. by rewrite lookup_insert_ne.
  - intros e j Hj (l' & ? & ?). exists l'. simpl. by rewrite lookup_delete_ne.
Qed.

Lemma check_connection_installed ts i o s :
  installed i o s.1 →
  post (check_connection ts i) s (λ '(dirty, _, _) s', dirty = true ∧ triggered i o s'.1).
Proof.
  intros (l & Hl & Htr & Hre & Hv). apply post_bind. intros l' s1 H1.
  rewrite (lvl4_sm_present i l) in H1 by done. injection H1 as <- <-. rewrite Hv. cbn [negb].
  unfold should_process_buffer. rewrite Hre. apply post_bind, post_modify.
  match goal with |- post _ ?s0 _ => assert (Hs : triggered i o s0.1) end.
  { eexists. simpl. rewrite lookup_insert_eq. split; [done|]. done. }
  apply (post_mono _ _ (λ r s', triggered i o s'.1 ∧ r.1.1 = true)); [|intros [[d a] b] s' [? ?]; done].
  revert Hs. match goal with |- _ → post ?m ?s0 _ =>
    generalize s0; change (stays (triggered i o) m (λ r, r.1.1 = true)) end.
  apply stays_then; [apply stays_ask|intros t].
  apply stays_then; [unfold timeout_of_target; apply stays_then; [by apply stays_gets|intros []];
    [apply stays_run|by apply stays_gets]|intros n].
  apply stays_then; [|intros; by apply stays_ret]. destruct (_ <=? _); [by apply stays_ret|].
  unfold has_watch_timedout. apply stays_then; [by apply stays_gets|intros [f|]];
    [|apply stays_then; [by apply stays_gets|intros]; by apply stays_ret].
  apply stays_then; [by apply stays_gets|intros k]. destruct (k =? 0); [by apply stays_ret|].
  apply stays_then.
  { intros s0 (l0 & Hl0 & Ht0) a s' H. rewrite (lvl4_sm_present i l0) in H by done.
    injection H as <- <-. split; [by exists l0|done]. }
  intros l1. destruct (_ <=? _); [|by apply stays_ret].
  apply stays_then; [apply stays_ask|intros t']. apply stays_then; [apply stays_run|intros []];
    [|by apply stays_ret].
  apply stays_then; [|intros; by apply stays_ret]. apply stays_modify.
  intros e (l0 & Hl0 & Ht0). eexists. simpl. rewrite lookup_alter_eq, Hl0. by split.
Qed.

(** C34. The module registers no converter for [ProcessReturnCode]: whatever the
    [process_buffer] method of a Python trigger returns, the call that processes
    the buffer raises an exception. So [process_dirty_and_timeouts] does not
    return while the engine holds a valid connection on which
    [set_data_trigger] was just called, whatever the other connections are and
    even if nothing was received (a connection that is ended before this pass,
    by a connection function that answers [False], say, is not concerned). *)
Theorem python_trigger_raises i o l fuel (e : AsyncEngine) w :
  let l' := lvl4sm_set_python_data_trigger o l in
  (∀ s target h, process_buffer (S fuel) s target (mkCtx l' h w) =
     Fail (method_error o (mkConnected target s) 0 (mkCtx l' h w))) ∧
  (_lvl4_sms e !! i = Some l' → StateMachine._valid (l_sm l) = true →
   ∀ r, process_dirty_and_timeouts fuel (e, w) ≠ Ok r).
Proof.
  intros l'. split.
  - intros s target h. unfold process_buffer. simpl. unfold trigger_process_buffer. simpl.
    by rewrite python_trigger_fails.
  - intros Hl Hv [n s'] H. revert n s' H. change (post (process_dirty_and_timeouts fuel) (e, w) (λ _ _, False)).
    apply post_bind, post_sys. intros ts w1 _. apply post_bind, post_gets. simpl.
    apply post_bind. eapply post_mono.
    { apply (check_loop_at (λ s, installed i o s.1) (λ s, triggered i o s.1) (λ r, r.1.1 = true)).
      - intros j s0 _ Hj Hs. eapply post_mono;
          [by apply (stays_check_connection _ _ _ (installed_closed i o))|by intros ? ? []].
      - intros j s0 _ Hj Hs. eapply post_mono;
          [by apply (stays_check_connection _ _ _ (triggered_closed i o))|by intros ? ? []].
      - intros s0 Hs. eapply post_mono; [by apply check_connection_installed|]. by intros [[] ?] s1 [].
      - apply map_keys_NoDup.
      - apply elem_of_map_keys. by eapply elem_of_dom_2.
      - by exists l'. }
    intros [[tp to] n] s1 (Hs1 & d & t & v & Hd & Htp & _). apply post_bind.
    eapply post_mono; [apply (for_each_at (λ s, triggered i o s.1) (λ _, False) _ i)|done]; [|done|..].
    + intros j s0 Hj Hs. eapply post_mono;
        [by apply (stays_process_dirty _ _ _ (triggered_closed i o))|by intros ? ? []].
    + intros s0 Hs. eapply post_mono; [by eapply process_dirty_raises|done].
    + by apply Htp.
    + done.
Qed.

(** ** A set of targets in Python *)

Lemma python_target_finished_fails self t h (w : W) r :
  ts_target_finished (TargetSet := python_target_set self) t h w ≠ Ok r.
Proof.
  cbn [ts_target_finished python_target_set]. unfold call_override, py_do, to_python.
  destruct (get_override self _ w) as [[f w1]|]; [|done]. simpl.
  by rewrite !by_value_class.
Qed.

(** C35. [target_finished] hands the [HostSM] to Python by value, and the module
    declares the class noncopyable: with a set of targets written in Python the
    end of any socket, however it ends, raises an exception, which ends the
    scan. *)
Theorem python_finish_raises self s err st r :
  socket_finished (T := python_target_set self) s err st ≠ Ok r.
Proof.
  destruct r as [u st']. intros H. revert u st' H.
  change (post (socket_finished (T := python_target_set self) s err) st (λ _ _, False)).
  do 5 (apply post_bind; intros ? ? _). apply post_bind. intros h st1 _. apply post_bind.
  intros b st2 H. unfold engine_target_finished, mbind, ST_bind, run, target_finished in H.
  destruct (ts_target_finished _ h st1.2) as [r|] eqn:E; [|done].
  by apply python_target_finished_fails in E.
Qed.

(** ** Sizes *)

(** [set_size_data_trigger] takes any [size_t] and keeps it modulo 2^32. Below
    2^32 the function is called with that many bytes; a multiple of 2^32 makes
    a trigger of size 0, on which a function that accepts its (empty) data is
    called for ever. *)
Theorem python_size_trigger_wraps n f l ct pos (c : ctx W) :
  0 ≤ n → c_sm c = lvl4sm_set_size_data_trigger n f l → Buffer.wf (c_buf c) →
  (n < 2 ^ 32 → Buffer.size (c_buf c) < n → process_loop 1 ct pos c = Ok (NoMoreToProcess, c)) ∧
  (n < 2 ^ 32 → n ≤ Buffer.size (c_buf c) →
   ∀ c1, python_data f ct 0 n c = Ok (false, c1) → process_loop 1 ct pos c = Ok (ConnectionEnd, c1)) ∧
  (n mod 2 ^ 32 = 0 → (∀ c1 : ctx W, ∃ w, python_data f ct 0 0 c1 = Ok (true, with_world w c1)) →
   ∀ fuel, process_loop fuel ct pos c = Fail OutOfFuel).
Proof.
  intros Hn Hc Hwf.
  assert (Htr : _trigger (c_sm c) = SizeDataTrigger (u32 n) (Some (UserData (f : user_data)))) by (by rewrite Hc).
  split_and!.
  - intros Hlt Hsz. simpl. unfold trigger_process_buffer, SizeDataTrigger_process_buffer.
    rewrite Htr, u32_small by lia. by rewrite (proj2 (Z.ltb_lt _ _)).
  - intros Hlt Hsz c1 Hf. simpl. unfold trigger_process_buffer, SizeDataTrigger_process_buffer.
    rewrite Htr, u32_small, (proj2 (Z.ltb_ge _ _)), assume_some by lia. simpl.
    unfold call_function. simpl. by rewrite Hf.
  - intros Hmod Hf. unfold u32 in Htr. rewrite Hmod in Htr.
    by apply (zero_size_trigger_diverges (C := protocol_closures) ct (UserData (UC := python_code) f)).
Qed.

(** ** Text *)

(** The strings of a SIP header are converted to [str]: a header whose name
    or value (as the parser cuts it) is not UTF-8 raises an exception instead
    of reaching the function, and a server can so end the whole scan. *)
Theorem python_header_not_utf8 cbi f t pre name value post (c : ctx W) :
  58 ∉ name → 0 ∉ name → 0 ∉ value →
  line_at pre (name ++ 58 :: value ++ [13]) post c →
  utf8 name && utf8 (if bool_decide (value !! 1%nat = Some 32) then drop 1 value else value) = false →
  sip_line cbi (_cb_header (sip_on_header f (mkSIP None cbi))) t
    (zlen pre) (zlen (name ++ 58 :: value ++ [13])) c = Fail PythonError.
Proof.
  intros Hd Hn Hv Hat Hutf. unfold sip_on_header, on_header. cbn [_cb_header].
  destruct (sip_header_call (UC := python_code) cbi f t pre name value post c Hd Hn Hv Hat)
    as (k & v & c' & -> & Hk & Hval).
  simpl. unfold python_header, py_invoke_bool, py_invoke, to_python. simpl.
  rewrite Hk, Hval, andb_true_r, Hutf. by rewrite andb_false_r.
Qed.

(** ** Targets as keys *)

(** Python's [==] and [hash] agree on targets, and the hash tells two
    targets apart: equal targets, and only they, have the same hash. *)
Theorem python_eq_hash t u :
  0 ≤ ipv4 t < 2 ^ 32 → 0 ≤ ipv4 u < 2 ^ 32 →
  (target_eqb t u = true ↔ target_hash t = target_hash u).
Proof.
  intros Ht Hu. rewrite target_eqb_eq. split; [by intros ->|]. by apply target_hash_eq.
Qed.

End Theorems.
