(* ===== verification/Sim.v ===== *)
(** * A small kernel, user and set of targets

    One concrete world ([sim]) for the parameters of the development: a kernel
    that follows a script, functions of the user that write what they see to a
    log, a list of targets, and lists for leeloo's random iterators. They obey
    the laws the theorems ask for. *)

From S2P Require Import Prelude Lvl4Buffer Leeloo Target HostSM Lvl4SM Framing Closures SSL SSH.
From S2P Require Import SIP Protocols Respects TargetSet IPV4Set TargetFile Engine AsyncEngine Sockets.

Record sim := mkSim {
  k_fds : gset Z;
  k_clock : list Z;                       (* the last time is repeated *)
  k_events : list (option (list (Z * Z))); (* what epoll_wait answers *)
  k_data : list Z;                        (* what can be read *)
  k_targets : list Target;
  k_errno : Z;
  k_connect : Z;                          (* errno of connect *)
  k_no_socket : bool;
  k_log : list Z;                         (* written by the user's functions *)
}.

Definition set_fds X w := mkSim X (k_clock w) (k_events w) (k_data w) (k_targets w) (k_errno w)
  (k_connect w) (k_no_socket w) (k_log w).
Definition set_clock l w := mkSim (k_fds w) l (k_events w) (k_data w) (k_targets w) (k_errno w)
  (k_connect w) (k_no_socket w) (k_log w).
Definition set_events l w := mkSim (k_fds w) (k_clock w) l (k_data w) (k_targets w) (k_errno w)
  (k_connect w) (k_no_socket w) (k_log w).
Definition set_data l w := mkSim (k_fds w) (k_clock w) (k_events w) l (k_targets w) (k_errno w)
  (k_connect w) (k_no_socket w) (k_log w).
Definition set_targets l w := mkSim (k_fds w) (k_clock w) (k_events w) (k_data w) l (k_errno w)
  (k_connect w) (k_no_socket w) (k_log w).
Definition set_errno e w := mkSim (k_fds w) (k_clock w) (k_events w) (k_data w) (k_targets w) e
  (k_connect w) (k_no_socket w) (k_log w).
Definition add_log l w := mkSim (k_fds w) (k_clock w) (k_events w) (k_data w) (k_targets w)
  (k_errno w) (k_connect w) (k_no_socket w) (k_log w ++ l).

(** A descriptor above all the others. *)
Definition fresh_fd (X : gset Z) : Z := foldr Z.max 2 (elements X) + 1.

#[export] Instance sim_os : OS sim := {|
  sys_socket _ _ w :=
    if k_no_socket w then (-1, set_errno 24 w)
    else let s := fresh_fd (k_fds w) in (s, set_fds ({[s]} ∪ k_fds w) w);
  sys_set_nonblock s w := if s <? 0 then set_errno 9 w else w;
  sys_connect _ _ w := if k_connect w =? 0 then (0, w) else (-1, set_errno (k_connect w) w);
  sys_close s w := set_fds (k_fds w ∖ {[s]}) w;
  sys_epoll_create _ w := let s := fresh_fd (k_fds w) in (s, set_fds ({[s]} ∪ k_fds w) w);
  sys_epoll_add _ _ _ w := w;
  sys_epoll_del _ _ w := w;
  sys_epoll_wait _ _ w :=
    match k_events w with
    | [] => (Some [], w)
    | e :: l => (e, set_events l w)
    end;
  sys_so_error _ w := (0, w);
  sys_so_type _ w := 1;
  sys_so_protocol _ w := 6;
  sys_getpeername _ w :=
    match k_targets w with [] => None | t :: _ => Some (to_sockaddr_in t) end;
  stack_sockaddr w := mkSockaddr 0 0 0;
  sys_fionread _ w := Some (zlen (k_data w));
  stack_int w := 0;
  sys_select_read _ w := 1;
  sys_read _ n w := (zlen (ztake n (k_data w)), ztake n (k_data w), set_data (zdrop n (k_data w)) w);
  sys_write _ data w := (zlen data, w);
  sys_time w :=
    match k_clock w with
    | [] => (0, w)
    | [t] => (t, w)
    | t :: l => (t, set_clock l w)
    end;
  errno w := k_errno w;
|}.

Lemma fresh_fd_max X s : s ∈ X → s < fresh_fd X.
Proof.
  rewrite <- elem_of_elements. unfold fresh_fd. induction (elements X) as [|a l IH]; [by intros ?%elem_of_nil|].
  intros [->|Hs]%elem_of_cons; simpl; [lia|]. specialize (IH Hs). lia.
Qed.

Lemma fresh_fd_pos X : 0 ≤ fresh_fd X.
Proof. unfold fresh_fd. induction (elements X); simpl; lia. Qed.

Lemma filter_add (s : Z) (X : gset Z) :
  0 ≤ s → filter (λ z, 0 ≤ z) ({[s]} ∪ X) = {[s]} ∪ filter (λ z, 0 ≤ z) X.
Proof. intros. set_solver. Qed.

#[export] Instance sim_fds : OSFdLaws sim sim_os.
Proof.
  refine {| open_fds w := filter (λ z, 0 ≤ z) (k_fds w) |}; simpl; intros.
  - destruct (k_no_socket w); injection H as <- <-; [by left|]. right.
    split; [apply fresh_fd_pos|]. split; [|apply filter_add, fresh_fd_pos].
    intros [_ Hs]%elem_of_filter. apply fresh_fd_max in Hs. lia.
  - by apply elem_of_filter in H as [? _].
  - destruct (k_no_socket w); [|injection H as H _; pose proof (fresh_fd_pos (k_fds w)); lia].
    by injection H as <-.
  - set_solver.
  - by destruct (_ <? _).
  - destruct (_ =? _); by injection H as _ <-.
  - injection H as _ <-. simpl. rewrite filter_add by apply fresh_fd_pos. set_solver.
  - done.
  - done.
  - destruct (k_events w); by injection H as _ <-.
  - by injection H as _ <-.
  - by injection H as _ _ <-.
  - by injection H as _ <-.
  - destruct (k_clock w) as [|? []]; by injection H as _ <-.
Defined.

(** ** The user *)

(** A function of the user is known by its answer. *)
#[export] Instance sim_code : UserCode := {|
  user_data := bool;
  user_connect := bool;
  user_cipher := bool;
  user_header := bool;
  user_host := unit;
  user_python := unit;
|}.

#[export] Instance sim_malloc : Malloc := λ _, 0xAA.

(** Data functions log the bytes they are given. *)
#[export] Instance sim_user : UserCalls sim := {|
  call_user_data (u : user_data) _ off n c :=
    Ok (u : bool, with_world (add_log (ztake n (zdrop off (c_block c))) (c_world c)) c);
  call_user_connect (u : user_connect) _ c := Ok (u : bool, c);
  call_user_cipher (u : user_cipher) _ z c :=
    Ok (u : bool, with_world (add_log [z] (c_world c)) c);
  call_user_header (u : user_header) _ k v c :=
    Ok (u : bool, with_world (add_log (c_string (c_block c) k ++ c_string (c_block c) v)
                                 (c_world c)) c);
  call_user_python _ _ _ c := Ok (NoMoreToProcess, c);
|}.

#[export] Instance sim_engine_calls : EngineCalls sim := {|
  finish_closure := unit;
  status_closure := unit;
  watch_closure := bool;
  timeout_closure := unit;
  call_finish _ _ _ _ err w := Ok (add_log [err] w);
  call_status _ nl nd w := Ok (add_log [nl; nd] w);
  call_watch b _ w := Ok (b, w);
  call_timeout _ _ w := Ok (5, w);
|}.

#[export] Instance sim_targets : TargetSet sim := {|
  ts_init w := Ok w;
  ts_next_target w :=
    match k_targets w with
    | [] => Ok (NextTarget Target_end, w)
    | t :: l => Ok (NextTarget t, set_targets l w)
    end;
  ts_target_finished _ h w := Ok (true, h, w);
  ts_init_host_sm _ h w := Ok (h, w);
  ts_save_state _ w := Ok w;
  ts_restore_state _ w := Ok w;
|}.

(** The simulated user's functions, under the protocols. *)
Lemma sim_respected : respected (ctx_keeps (C := protocol_closures) (W := sim)).
Proof.
  split; try (by intros * [= <- <-]); try (by intros * [= <-]); try done.
  intros off b c c' _ H. unfold store_c in H. by inv_ok.
Qed.

Lemma sim_keeps : user_keeps (C := protocol_closures) (W := sim).
Proof.
  split.
  - intros d t off n c r c' H. pose proof (call_closure_respects _ sim_respected d t off n c) as Hk.
    change (call_closure d t off n c = Ok (r, c')) in H. by rewrite H in Hk.
  - intros a t c r c' H. pose proof (call_action_respects _ sim_respected a t c) as Hk.
    change (call_action a t c = Ok (r, c')) in H. by rewrite H in Hk.
  - by intros * [= <- <-].
  - by intros * [= <-].
  - by intros * [= <-].
  - by intros * [= <- <-].
  - by intros * [= <- <-].
  - by intros * [= <-].
  - intros w r w'. simpl. destruct (k_targets w); by intros [= <- <-].
  - by intros * [= <- <- <-].
  - by intros * [= <- <-].
  - by intros * [= <-].
Qed.

(** Functions of the user that always return. *)
Lemma sim_users_return : users_return (W := sim).
Proof. split; intros; by eexists _, _. Qed.

(** ** leeloo's random iterators, without randomness *)

(** The iterator on addresses: those it has left, those left to come, and the
    steps that are done. A step is its address. *)
Definition sim_walk : Type := list Z * list Z * list Z.
Definition walk_left (v : sim_walk) : list Z := v.1.2.
(** What it would be restored to: the steps that are not done come again. *)
Definition walk_saved (v : sim_walk) : list Z := filter (.∉ v.2) v.1.1 ++ walk_left v.
Definition walk_next (v : sim_walk) : sim_walk :=
  (v.1.1 ++ take 1 (walk_left v), tail (walk_left v), v.2).

#[export] Instance sim_random : LeelooRandom (L := LeelooPair) := {|
  ip_list := list Z;
  il_aggregate := remove_dups;
  il_create_index_cache _ l := l;
  pl_create_index_cache _ l := l;
  random_state := unit;
  v4_random := sim_walk;
  v4_init l g := (([], l, []), g);
  v4_next := walk_next;
  v4_end v := bool_decide (walk_left v = []);
  v4_get_current _ v := default 0 (head (walk_left v));
  v4_get_current_step v := default 0 (head (walk_left v));
  v4_step_done a v := (v.1, a :: v.2);
  port_random := list Z * Z;
  rp_init l g := ((port_as_u32 <$> (l : list PairPort), zlen (l : list PairPort)), g);
  rp_end r := bool_decide (r.1 = []);
  rp_call _ r := (default 0 (head r.1), (tail r.1, r.2));
  rp_size_original r := r.2;
|}.

Lemma port_of_as_u32 (p : PairPort) : port_of_u32 (port_as_u32 (p : port)) = p.
Proof.
  apply pair_port_eq. destruct (pair_port_range p). simpl.
  rewrite (surjective_pairing (`p)). simpl. f_equal; zlia.
Qed.

Lemma port_of_as_u32_list (l : list port) : port_of_u32 <$> (port_as_u32 <$> l) = l.
Proof.
  induction l as [|p l IH]; [done|]. rewrite !fmap_cons. f_equal; [|done]. apply port_of_as_u32.
Qed.

Lemma remove_dups_NoDup_id {A} `{EqDecision A} (l : list A) : NoDup l → remove_dups l ≡ₚ l.
Proof.
  intros Hl. apply NoDup_Permutation; [apply NoDup_remove_dups|done|].
  intros x. apply elem_of_remove_dups.
Qed.

#[export] Instance sim_random_laws : LeelooRandomLaws sim_random.
Proof.
  refine {| il_addrs (l : ip_list) := l : list Z; pl_elems (l : port_list) := l : list port;
            v4_left _ (v : v4_random) := walk_left v; rp_left _ (r : port_random) := r.1 |};
    simpl; try done.
  - intros l. apply remove_dups_NoDup_id.
  - intros l. apply remove_dups_NoDup_id.
  - intros l v. by rewrite bool_decide_eq_true.
  - by intros l v a q ->.
  - intros l g. pose proof (port_of_as_u32_list l) as H. simpl in H. by rewrite H.
  - intros l r. by rewrite bool_decide_eq_true.
  - by intros l [r n] p q [= ->].
Defined.

(** ** Archives and files *)

(** An item as a tag and numbers, an archive as one number. *)
Definition item_code (x : archived (R := sim_random)) : Z * sim_walk * Z :=
  match x with
  | AIps l => (0, ([], l : list Z, []), 0)
  | APorts l => (1, ([], port_as_u32 <$> (l : list port), []), 0)
  | AV4 v => (2, v : sim_walk, 0)
  | ARp r => (3, ([], r.1, []), r.2)
  end.

Definition item_of_code (x : Z * sim_walk * Z) : archived (R := sim_random) :=
  let '(tag, v, n) := x in
  if tag =? 0 then AIps (walk_left v : ip_list)
  else if tag =? 1 then APorts (port_of_u32 <$> walk_left v : port_list)
  else if tag =? 2 then AV4 (v : v4_random) else ARp ((walk_left v, n) : port_random).

Lemma item_of_item_code x : item_of_code (item_code x) = x.
Proof.
  destruct x as [l|l|v|[r n]]; unfold item_of_code, item_code; simpl; try done.
  f_equal. apply port_of_as_u32_list.
Qed.

#[export] Instance sim_archives : Archives sim_random := {|
  oarchive := list archived;
  iarchive := list archived;
  xml_oarchive os := match os with Some _ => Ok [] | None => Fail ArchiveException end;
  oarchive_end o := Some [Z.pos (encode (map item_code o))];
  put_ips l o := o ++ [AIps l];
  put_ports l o := o ++ [APorts l];
  v4_save_state v o := o ++ [AV4 v];
  rp_save_state r o := o ++ [ARp r];
  xml_iarchive is_ :=
    match is_ with
    | Some [Z.pos n] => of_option ArchiveException (map item_of_code <$> decode n)
    | _ => Fail ArchiveException
    end;
  get_ips i _ := match i with AIps l :: i => Ok (l, i) | _ => Fail ArchiveException end;
  get_ports i _ := match i with APorts l :: i => Ok (l, i) | _ => Fail ArchiveException end;
  v4_restore_state i _ g _ :=
    match i with AV4 v :: i => Ok (([], walk_saved v, []), i, g) | _ => Fail ArchiveException end;
  rp_restore_state i _ g _ :=
    match i with ARp r :: i => Ok (r, i, g) | _ => Fail ArchiveException end;
|}.

#[export] Instance sim_archive_laws : ArchiveLaws sim_archives.
Proof.
  refine {| written (o : oarchive) := o; pending (i : iarchive) := i;
            v4_saved _ (v : v4_random) := walk_saved v |}; simpl; try done.
  - by exists [].
  - intros o. eexists _, o. split; [done|]. split; [|done]. rewrite decode_encode. simpl. f_equal.
    induction o as [|x o IH]; [done|]. simpl. by rewrite item_of_item_code, IH.
  - intros i _ l items ->. by eexists _, _.
  - intros i _ l items ->. by eexists _, _.
  - intros i l l0 g _ v items -> _. by eexists _, _, _.
  - intros i l l0 g _ r items -> _. by eexists _, _, _.
Defined.

(** A file system is its files. *)
#[export] Instance sim_files : Files (gmap (list Z) (list Z)) := {|
  open_out file fs := (Some [], <[file := []]> fs);
  close_out file os fs := match os with Some bytes => <[file := bytes]> fs | None => fs end;
  open_in file fs := fs !! file;
|}.

#[export] Instance sim_files_laws : FilesLaws sim_files.
Proof.
  refine {| writable _ _ := True |}; [done|].
  intros file bytes fs _. simpl. apply lookup_insert_eq.
Defined.

#[export] Instance sim_parser : AddressParser := λ l, if bool_decide (l = []) then None else Some (le_value l).
