(* ===== verification/Scenarios.v ===== *)
(** * Scans on the simulated kernel

    Whole runs of [launch], and scans stopped after a number of rounds, evaluated. *)

From S2P Require Import Prelude Lvl4Buffer Leeloo Target HostSM Lvl4SM Closures Protocols TargetSet Engine.
From S2P Require Import AsyncEngine Frames Sockets Rounds Accounting Sim.

(** ** Scans of a number of rounds *)

Section Scans.
Context {L : Leeloo} {C : Closures} {M : Malloc} {W : Type}.
Context {OSW : OS W} {K : Calls W} {T : TargetSet W} {EC : EngineCalls W}.

Fixpoint after_rounds (fuel n : nat) (s : st) : result st :=
  match n with
  | O => Ok s
  | S n => s1 ← after_rounds fuel n s; '(_, s2) ← scan_round fuel s1; Ok s2
  end.

(** Did it return? *)
Definition is_ok {A} (r : result A) : bool := match r with Ok _ => true | Fail _ => false end.

(** The state [n] rounds after the start. *)
Definition scan_for (fuel n : nat) (s : st) : result st :=
  '(_, s1) ← start_scan fuel s; after_rounds fuel n s1.

Lemma after_rounds_reaches fuel n s s' : after_rounds fuel n s = Ok s' → scan_reaches fuel s s'.
Proof.
  revert s'; induction n as [|n IH]; simpl; intros s' H; [injection H as <-; constructor|].
  destruct (after_rounds fuel n s) as [s1|]; [|done]. cbn in H.
  destruct (scan_round fuel s1) as [[stop s2]|] eqn:E; [|done].
  injection H as <-. econstructor; [by apply IH|exact E].
Qed.

Lemma scan_for_reaches fuel n s s' :
  scan_for fuel n s = Ok s' → ∃ more s1, start_scan fuel s = Ok (more, s1) ∧ scan_reaches fuel s1 s'.
Proof.
  unfold scan_for. destruct (start_scan fuel s) as [[more s1]|]; [|done].
  intros H. exists more, s1. split; [done|]. by eapply after_rounds_reaches.
Qed.

End Scans.

(** ** Concrete scans *)

Definition sim_port : port := make_port 443 6.
Definition sim_target (n : Z) : Target := mkTarget (0x0A000000 + n) sim_port.

Definition quiet_kernel (clock : list Z) (events : list (option (list (Z * Z)))) (data : list Z)
    (targets : list Target) : sim :=
  mkSim ∅ clock events data targets 0 EINPROGRESS false [].

(** The number of sockets in flight, the targets launched and those done. *)
Definition scan_summary {E A} (r : result (A * (AsyncEngine * E))) : option (nat * Z * Z) :=
  match r with
  | Ok (_, (e, _)) => Some (size (_sockets_targets e), _nlaunched e, _ndone e)
  | Fail _ => None
  end.

(** Two sockets and three targets, no answer from the peers. The first two
    targets are launched at time 0; at time 100 they time out. *)
Definition early_exit_world : sim :=
  quiet_kernel [0; 0; 0; 0; 0; 0; 100] [] [] [sim_target 1; sim_target 2; sim_target 3].

(** The scan loop can leave a target in flight: the connections that are
    valid are counted before [process_free_socks] launches the last target, and
    the loop stops on that count. Here the third target has its socket open
    and is neither answered nor timed out when [launch] returns. *)
Theorem scan_stops_in_flight :
  scan_summary (launch (C := protocol_closures) 10 2 (AsyncEngine_ctor 2 5, early_exit_world)) =
    Some (1%nat, 3, 2).
Proof. vm_compute. reflexivity. Qed.

(** A scan that ends as it should: a target that connects, and whose function
    ends the connection. *)
Example scan_connects :
  scan_summary (launch (C := protocol_closures) 10 3
    (set_lvl4_connected_callback (Some (UserConnect (UC := sim_code) false)) (AsyncEngine_ctor 2 5),
     quiet_kernel [0] [Some [(4, EPOLLOUT)]; Some []] [] [sim_target 1])) =
    Some (0%nat, 1, 1).
Proof. vm_compute. reflexivity. Qed.
