(* ===== verification/WitnessesData.v ===== *)
(** * The theorems at work: data and connections

    Each lemma applies one theorem of the development to a concrete input, on
    the simulated world of Sim.v, and discharges its hypotheses there. *)

From S2P Require Import Prelude Lvl4Buffer Leeloo Target HostSM Lvl4SM Framing Closures SSL SSH.
From S2P Require Import SIP Protocols Respects Rescan Properties TargetSet TargetFile Engine AsyncEngine.
From S2P Require Import Accounting Sim Scenarios.
From stdpp Require Import strings.
#[local] Open Scope Z_scope.

(** ** Targets *)

Lemma target_order_witness :
  target_neqb (sim_target 1) (sim_target 2) = negb (target_eqb (sim_target 1) (sim_target 2)).
Proof. apply target_order. Defined.

Lemma from_socket_to_sockaddr_witness :
  from_socket 3 (quiet_kernel [] [] [] [sim_target 1]) = sim_target 1.
Proof.
  apply from_socket_to_sockaddr; [vm_compute; split; congruence|reflexivity|reflexivity|reflexivity].
Defined.

Lemma ipstr_reads_back_witness :
  ipstr 0x7F000001 = ipstr_full 0x7F000001 ∧ (length (ipstr 0x7F000001) ≤ 15)%nat ∧
  parse_dotted (ipstr 0x7F000001) = Some 0x7F000001.
Proof. apply ipstr_reads_back. lia. Defined.

(** ** The buffer *)

Lemma buffer_refines_list_witness :
  ∃ b', Buffer.run_ops [Buffer.Append [1; 2; 3]; Buffer.Pop 2; Buffer.Copy; Buffer.Append [4]]
          Buffer.Buffer_ctor = Ok b' ∧ Buffer.wf b' ∧ Buffer.contents b' = [3; 4].
Proof.
  apply (Buffer.buffer_refines_list
    [Buffer.Append [1; 2; 3]; Buffer.Pop 2; Buffer.Copy; Buffer.Append [4]] Buffer.Buffer_ctor);
    [exact Buffer.wf_ctor|reflexivity].
Defined.

(** A buffer that holds some bytes, its block being filled with zeros. *)
Definition sim_buffer (l : list Z) : Lvl4Buffer :=
  Buffer.mkBuffer (Some (l ++ replicate (3 * length l) 0)) (zlen l) (zlen l).

Lemma grow_by_wraps_witness :
  let r := Buffer.grow_by (2 ^ 30 - 1) (sim_buffer [7]) in
  r.2 = 1 ∧ Buffer.size r.1 = Buffer.max_size ∧ Buffer.allocated_size r.1 = Buffer.max_size ∧
  Buffer.block r.1 = [].
Proof.
  apply (Buffer.grow_by_wraps (sim_buffer [7]) _ _ (2 ^ 30 - 1)).
  - unfold Buffer.wf. vm_compute. repeat split; congruence.
  - done.
  - reflexivity.
  - reflexivity.
  - apply surjective_pairing.
Defined.

(** ** Connections *)

(** The user's data function that answers [b]. *)
Definition sim_data (b : bool) : closure := UserData (UC := sim_code) b.

Definition sim_connection (t : trigger) (b : Lvl4Buffer) : Lvl4SM :=
  mkLvl4SM (StateMachine.mkSM true 0 0) false false None t b.
Definition sim_host : HostSM :=
  mkHostSM (StateMachine.mkSM false 0 0) None (pl_empty : port_list) (Some 0).
Definition sim_ctx (t : trigger) (bytes : list Z) (w : sim) : ctx sim :=
  mkCtx (sim_connection t (sim_buffer bytes)) sim_host w.

Definition sim_server : ConnectedTarget := mkConnected (sim_target 1) 3.

Definition log_lines (line : list Z) (u : list Z) : bool * list Z := (true, u ++ line).

Lemma sim_runs_handler s t :
  runs_handler (C := protocol_closures) log_lines k_log k_data s t (sim_data true).
Proof.
  intros n c. exists (add_log (ztake n (Buffer.block (c_buf c))) (c_world c)).
  split; [|done]. simpl. unfold c_block. by rewrite drop_0.
Defined.

Lemma deliver_refines_consume_witness :
  let c := sim_ctx (CharDataTrigger 10 (Some (sim_data true))) []
             (quiet_kernel [] [] [97; 98; 10; 99; 10; 100] []) in
  ∃ c', deliver 3 (sim_target 1) 10 [2; 4] c = Ok (true, c') ∧ same_but_data c c' ∧
        k_log (c_world c') = [97; 98; 99] ∧
        (true = true → Buffer.contents (c_buf c') = [100] ∧
                       k_data (c_world c') = zdrop 6 (k_data (c_world c))).
Proof.
  intros c.
  apply (deliver_refines_consume (C := protocol_closures) 10 log_lines k_log k_data 3 (sim_target 1)
           (sim_data true)).
  - apply sim_runs_handler.
  - intros n w Hn. exists (set_data (zdrop n (k_data w)) w). done.
  - reflexivity.
  - unfold Buffer.wf. vm_compute. repeat split; congruence.
  - vm_compute. apply not_elem_of_nil.
  - repeat constructor.
  - vm_compute. congruence.
  - reflexivity.
  - reflexivity.
  - reflexivity.
Defined.

Lemma sim_ctx_wf t l w : zlen l < Buffer.max_size → Buffer.wf (c_buf (sim_ctx t l w)).
Proof.
  intros Hl. unfold Buffer.wf, Buffer.block. simpl. rewrite length_app, length_replicate.
  split_and!; lia.
Qed.

Lemma process_loop_terminates_witness :
  let c := sim_ctx (CharDataTrigger 10 (Some (SipLine None None))) [97; 10; 98; 10; 99]
             (quiet_kernel [] [] [] []) in
  ∃ r c', process_loop 6 sim_server 0 c = Ok (r, c') ∧ r ≠ CanProcessAgain ∧
          Buffer.wf (c_buf c') ∧ usable ssh_sip (_trigger (c_sm c')) ∧
          Buffer.size (c_buf c') ≤ Buffer.size (c_buf c).
Proof.
  intros c. apply (process_loop_terminates (C := protocol_closures) ssh_sip).
  - apply protocols_keep_usable, sim_users_return.
  - by apply sim_ctx_wf.
  - by eexists.
  - vm_compute. split; congruence.
  - reflexivity.
Defined.

Lemma sim_tame : tame_user (W := sim).
Proof. by split; intros * [= <- <-]. Qed.

(** A SIP header cut in the middle of its line. *)
Lemma rescan_equivalent_witness :
  let c := sim_ctx (CharDataTrigger 10 (Some (SipLine None (Some true)))) [97]
             (quiet_kernel [] [] [58; 98; 13; 10; 99; 58; 13; 10] []) in
  reads (λ n, process_lvl4_data 9 3 n (sim_target 1)) [2; 3; 3] c =
  reads (λ n, process_lvl4_data_rescan 9 3 n (sim_target 1)) [2; 3; 3] c.
Proof.
  intros c. apply (rescan_equivalent 9 3 (sim_target 1) [2; 3; 3] c).
  - exact sim_tame.
  - by apply sim_ctx_wf.
  - split; [vm_compute; split; congruence|by apply (bool_decide_unpack _)].
  - repeat constructor; lia.
  - reflexivity.
Defined.

Lemma short_read_leaves_junk_witness :
  let c := sim_ctx (CharDataTrigger 10 None) [97] (quiet_kernel [] [] [] []) in
  ∃ c' junk, process_lvl4_data (C := protocol_closures) 1 3 2 (sim_target 1) c = Ok (false, c') ∧
             zlen junk = 2 ∧
             Buffer.contents (c_buf c') = Buffer.contents (c_buf c) ++ junk.
Proof.
  intros c. eapply (short_read_leaves_junk (C := protocol_closures)).
  - by apply sim_ctx_wf.
  - lia.
  - reflexivity.
  - reflexivity.
  - reflexivity.
  - reflexivity.
Defined.

(** ** Properties of targets *)

(** A counter gives each new target its number. *)
Lemma properties_storage_refines_witness :
  let t n := Get (P := Z) (sim_target n) in
  run_storage [t 1; t 2; t 1; Put (sim_target 2) 9; Remove (sim_target 1); t 2; t 1]
    (Lvl4PropertiesStorage_ctor (Some (λ n : Z, Ok (n, n + 1)))) 5 =
  Ok ([5; 6; 5; 9; 7], 8).
Proof. intros t. rewrite properties_storage_refines. vm_compute. reflexivity. Defined.
