(* ===== verification/WitnessesProtocols.v ===== *)
(** * The theorems at work: protocols *)

From S2P Require Import Prelude Lvl4Buffer Leeloo Target HostSM Lvl4SM Framing Closures SSL SSH.
From S2P Require Import SIP Protocols TargetSet TargetFile Engine AsyncEngine Frames Sockets Rounds Accounting Sim.
From S2P Require Import Scenarios WitnessesData.
From stdpp Require Import strings.
#[local] Open Scope Z_scope.

Definition sim_world : sim := quiet_kernel [] [] [] [].

(** A connection whose buffer holds [l], seen from a callback. *)
Definition callback_ctx (l : list Z) : ctx sim := sim_ctx DataTrigger l sim_world.

Lemma callback_bytes_at l : bytes_at (c_block (callback_ctx l)) 0 l.
Proof. exists [], (replicate (3 * length l) 0). by split. Qed.

Definition sim_ssl : SSL := @mkSSL sim_code [] (Some true) (Some true) (Some true).

(** ** SSL *)

Lemma on_handshake1_out_of_bounds_witness :
  on_handshake1 sim_ssl sim_server 0 4 (callback_ctx (handshake 2 [])) = Fail UB.
Proof.
  apply (on_handshake1_out_of_bounds sim_ssl sim_server 0 _ []).
  - by apply sim_ctx_wf.
  - apply callback_bytes_at.
  - reflexivity.
Defined.

Definition short_chain : list Z := be_bytes 3 5 ++ be_bytes 3 4 ++ [1; 2].

Lemma certificate_overruns_witness :
  0 + 10 + 4 = 0 + zlen (handshake 11 short_chain) + 2 ∧
  on_handshake2 2 sim_ssl sim_server 0 (zlen (handshake 11 short_chain))
    (callback_ctx (handshake 11 short_chain)) =
    '(_, c) ← call_user_data (UC := sim_code) true sim_server 10 4
                (callback_ctx (handshake 11 short_chain));
    Ok (false, c).
Proof.
  apply (certificate_overruns 2 sim_ssl sim_server true 0 2 [1; 2] short_chain).
  - lia.
  - reflexivity.
  - reflexivity.
  - apply callback_bytes_at.
  - reflexivity.
  - lia.
Defined.

Lemma certificates_loop_terminates_witness :
  certificates_loop 11 sim_ssl sim_server 0 10 10
    (callback_ctx [0; 0; 1; 7; 0; 0; 2; 8; 9; 0]) ≠ Fail OutOfFuel.
Proof.
  apply certificates_loop_terminates.
  - by intros u t off n c Hc.
  - vm_compute. repeat constructor; vm_compute; congruence.
  - reflexivity.
Defined.

(** The user's handlers: everything is logged, and every answer is [true]. *)
Definition log_cipher (z : Z) (u : list Z) : bool * list Z := (true, u ++ [z]).

Lemma sim_runs_certif t : runs_certif log_lines k_log t (true : @user_data sim_code).
Proof.
  intros off n c data Hload. exists (add_log data (c_world c)). split; [|done]. simpl.
  unfold load_n in Hload. destruct (assume_defined _); [|done]. by injection Hload as ->.
Qed.

Definition sim_hello : list Z := server_hello [3; 0] (replicate 32 7) [] 0x35 0.
Definition sim_chain : list (list Z) := [[1; 2; 3]; [4; 5]].
Definition sim_certificates : list Z :=
  be_bytes 3 (zlen (encode_certificates sim_chain)) ++ encode_certificates sim_chain.
Definition sim_flight : list Z :=
  tls_record 3 0 (handshake 2 sim_hello) ++ tls_record 3 0 (handshake 11 sim_certificates) ++ [].

Lemma sim_ctx_contents t l w : Buffer.contents (c_buf (sim_ctx t l w)) = l.
Proof.
  unfold Buffer.contents, Buffer.block. simpl. by rewrite Nat2Z.id, take_app_length.
Qed.

Lemma ssl_handshake_delivers_witness :
  ∃ c', process_loop 5 sim_server 0
          (sim_ctx (SizeDataTrigger 5 (Some (OnTlsHeader sim_ssl handshake1))) sim_flight
             sim_world) = Ok (ConnectionEnd, c') ∧
        k_log (c_world c') = [0x3500; 1; 2; 3; 4; 5].
Proof.
  apply (ssl_handshake_delivers log_cipher log_lines k_log 5 sim_server sim_ssl true true
           [3; 0] (replicate 32 7) [] 0x35 0 sim_chain sim_hello sim_certificates 3 0 []).
  - by apply sim_ctx_wf.
  - reflexivity.
  - reflexivity.
  - reflexivity.
  - intros z c. by exists (add_log [z] (c_world c)).
  - apply sim_runs_certif.
  - reflexivity.
  - lia.
  - reflexivity.
  - reflexivity.
  - reflexivity.
  - apply sim_ctx_contents.
  - lia.
Defined.

Lemma empty_record_diverges_witness :
  process_loop 1000 sim_server 0
    (sim_ctx (SizeDataTrigger 5 (Some (OnTlsHeader sim_ssl handshake1)))
       (tls_record 3 0 [] ++ [1]) sim_world) = Fail OutOfFuel.
Proof.
  apply (empty_record_diverges sim_server 0 sim_ssl handshake1 true 3 0 [1]).
  - intros off n c. by eexists.
  - reflexivity.
  - by apply sim_ctx_wf.
  - reflexivity.
  - apply sim_ctx_contents.
Defined.

(** ** SSH *)

Lemma ssh_answer_length_witness :
  ssh_answer (Some (sim_data true)) sim_server 0 5 (callback_ctx (packet_header 20 6)) =
    Ok (true, awaits_payload 19 (sim_data true) (callback_ctx (packet_header 20 6))).
Proof.
  apply (ssh_answer_length sim_server 0 5 20 6 (sim_data true)).
  - apply callback_bytes_at.
  - lia.
  - lia.
  - lia.
Defined.

Lemma ssh_get_certificate_cases_witness :
  ssh_get_certificate (Some true : option (@user_data sim_code)) None sim_server 0 8
    (callback_ctx (31 :: be_bytes 4 3 ++ [7; 8; 9])) =
  call_data_cb false (Some true : option (@user_data sim_code)) sim_server 5 3
    (callback_ctx (31 :: be_bytes 4 3 ++ [7; 8; 9])).
Proof.
  refine (eq_trans (ssh_get_certificate_cases (Some true : option (@user_data sim_code)) None
                      sim_server 0 8 _ _ _ _) _).
  - lia.
  - lia.
  - vm_compute. congruence.
  - reflexivity.
Defined.

Definition sim_banner : list Z := bytes_of_string "SSH-2.0-sim" ++ [13].

Lemma ssh_handshake_delivers_witness :
  ∃ c', process_loop 6 sim_server 0
          (sim_ctx (CharDataTrigger 10 (Some (SshBanner (Some true : option (@user_data sim_code))
                                                None)))
             (sim_banner ++ 10 :: ssh_packet [20; 1] (replicate 6 0) ++
              ssh_packet (ecdh_reply [42; 43] [9]) (replicate 6 0)) sim_world) =
          Ok (NoMoreToProcess, c') ∧
        k_log (c_world c') = [42; 43; 9; 0; 0; 0; 0; 0; 0].
Proof.
  apply (ssh_handshake_delivers (UC := sim_code) log_lines k_log 6 sim_server true None sim_banner [20; 1] [42; 43]
           [9] (replicate 6 0) (replicate 6 0)).
  - by apply sim_ctx_wf.
  - reflexivity.
  - intros ct data w. reflexivity.
  - apply sim_runs_certif.
  - reflexivity.
  - by apply (bool_decide_unpack _).
  - reflexivity.
  - reflexivity.
  - vm_compute. split; congruence.
  - reflexivity.
  - apply sim_ctx_contents.
  - lia.
Defined.

Lemma ssh_sip_process_terminates_witness :
  let c := sim_ctx (CharDataTrigger 10 (Some (SshBanner None None))) [83; 10; 98; 10; 99] sim_world in
  ∃ r c', process_loop 6 sim_server 0 c = Ok (r, c') ∧ r ≠ CanProcessAgain ∧
          Buffer.wf (c_buf c') ∧ usable ssh_sip (_trigger (c_sm c')).
Proof.
  intros c. apply ssh_sip_process_terminates.
  - apply sim_users_return.
  - by apply sim_ctx_wf.
  - by eexists.
  - vm_compute. split; congruence.
  - reflexivity.
Defined.

(** ** SIP *)

Definition sip_header : list Z := bytes_of_string "To: me" ++ [13].

Lemma callback_line_at l : line_at [] l (replicate (3 * length l) 0) (callback_ctx l).
Proof. by split. Qed.

Lemma sip_line_cases_witness :
  sip_line (UC := sim_code) None (Some true) sim_server 0 7 (callback_ctx sip_header) =
    call_user_header (UC := sim_code) true sim_server 0 3
      (with_block (<[2%nat := 0]> (cut_line sip_header) ++ replicate 21 0) (callback_ctx sip_header)).
Proof.
  refine (eq_trans (sip_line_cases (UC := sim_code) None (Some true) sim_server [] sip_header
                      (replicate (3 * length sip_header) 0) _ _) _).
  - apply callback_line_at.
  - reflexivity.
Defined.

Lemma sip_header_strings_witness :
  ∃ k v c', sip_line (UC := sim_code) None (Some true) sim_server 0 7 (callback_ctx sip_header) =
              call_user_header (UC := sim_code) true sim_server k v c' ∧
            c_string (c_block c') k = bytes_of_string "To" ∧
            c_string (c_block c') v = bytes_of_string " me".
Proof.
  apply (sip_header_strings (UC := sim_code) None true sim_server [] (bytes_of_string "To")
           (bytes_of_string " me") (replicate 21 0) (callback_ctx sip_header)).
  - by apply (bool_decide_unpack _).
  - by apply (bool_decide_unpack _).
  - by apply (bool_decide_unpack _).
  - apply (callback_line_at sip_header).
Defined.
