(* ===== verification/WitnessesServers.v ===== *)
(** * The theorems at work: conversations with servers *)

From stdpp Require Import strings.
From S2P Require Import Prelude Lvl4Buffer Leeloo Target HostSM Lvl4SM Framing Stream Closures SSL SSH.
From S2P Require Import SIP Protocols Speak Conversation Servers TargetSet Engine AsyncEngine Frames Sockets Rounds Accounting Sim.
From S2P Require Import Scenarios WitnessesData WitnessesProtocols.
#[local] Open Scope Z_scope.

(** A new connection to a server that sends [bytes]. *)
Definition new_connection (bytes : list Z) : ctx sim :=
  sim_ctx DataTrigger [] (quiet_kernel [] [] bytes []).

(** The functions of the simulated user as handlers. *)
Definition sim_handlers : handlers (UC := sim_code) (list Z) := @mkHandlers _ sim_code _
  (λ f msg u, (f : bool, u ++ msg)) (λ f k v u, (f : bool, u ++ (k ++ v)))
  (λ f z u, (f : bool, u ++ [z])) (λ _ u, u).

Lemma sim_speaks t :
  users_speak (UC := sim_code) sim_handlers k_log k_data t.
Proof.
  split.
  - intros f off msg c Hat. exists (add_log msg (c_world c)). split; [|done]. simpl.
    destruct Hat as (pre & post & Hb & ->). rewrite Hb.
    by rewrite !Nat2Z.id, drop_app_length, take_app_length.
  - intros f k v ks vs c Hk Hks Hv Hvs. exists (add_log (ks ++ vs) (c_world c)). split; [|done]. simpl.
    by rewrite (c_string_at _ _ ks), (c_string_at _ _ vs).
  - intros f z c. by exists (add_log [z] (c_world c)).
  - done.
Qed.

Lemma sim_reads_stream : reads_stream k_log k_data 3.
Proof. intros n w Hn. by exists (set_data (zdrop n (k_data w)) w). Qed.

(** A line that is no header, and the start of another one, in two pieces. *)
Definition junk_sip : SIP := @mkSIP sim_code (Some true) (Some true).

Lemma protocol_conversation_witness :
  ∃ c1 c', call_action (SIPConnect junk_sip) sim_server (new_connection [97; 98; 10; 99; 13]) =
             Ok (true, c1) ∧
           deliver (C := protocol_closures) 3 (sim_target 1) 6 [1; 4] c1 = Ok (true, c') ∧
           Buffer.contents (c_buf c') = [99; 13] ∧ k_log (c_world c') = [97; 98].
Proof.
  destruct (protocol_conversation (UC := sim_code) sim_handlers k_log k_data
              3 (sim_target 1) (sim_speaks _) (SIPConnect junk_sip) 6 [1; 4]
              (new_connection [97; 98; 10; 99; 13])) as (_ & c1 & Hcall & H).
  - exact I.
  - apply sim_reads_stream.
  - by apply sim_ctx_wf.
  - reflexivity.
  - repeat constructor.
  - vm_compute. congruence.
  - reflexivity.
  - reflexivity.
  - set (o := talk _ _ _ _) in H. vm_compute in o. unfold o, agrees in H. clear o.
    destruct H as (c' & Hd & [_ _ Hc Hs _]). by exists c1, c'.
Defined.

(** A whole SSH answer, a byte at a time. *)
Definition sim_ssh : SSH := @mkSSH sim_code (Some true) None.
Definition sim_ssh_bytes : list Z :=
  ssh_server sim_banner [20; 1] (replicate 6 0) [42; 43] [9] (replicate 6 0).

Lemma sim_arrives bytes ns :
  take (length bytes) bytes = bytes → Forall (Z.lt 0) ns → total ns = zlen bytes →
  zlen bytes < Buffer.max_size → arrives k_data bytes ns (new_connection bytes).
Proof. intros. by split; [apply sim_ctx_wf| | | | |]. Qed.

Lemma ssh_server_delivers_witness :
  ∃ c1 c', call_action (SSHConnect sim_ssh) sim_server (new_connection sim_ssh_bytes) = Ok (true, c1) ∧
           deliver (C := protocol_closures) 3 (sim_target 1) 100
             (replicate (length sim_ssh_bytes) 1) c1 = Ok (true, c') ∧
           k_log (c_world c') = [42; 43; 9; 0; 0; 0; 0; 0; 0].
Proof.
  apply (ssh_server_delivers (UC := sim_code) sim_handlers k_log k_data
           3 (sim_target 1) (sim_speaks _) sim_reads_stream sim_ssh true sim_banner [20; 1]
           (replicate 6 0) [42; 43] [9] (replicate 6 0)).
  - reflexivity.
  - reflexivity.
  - by apply (bool_decide_unpack _).
  - reflexivity.
  - reflexivity.
  - vm_compute. split; congruence.
  - reflexivity.
  - apply sim_arrives; [reflexivity|by apply (bool_decide_unpack _)|reflexivity|reflexivity].
  - vm_compute. lia.
Defined.

(** The flight of an SSL server in pieces that cut its headers. *)
Lemma ssl_server_delivers_witness :
  let bytes := ssl_server 3 0 sim_hello sim_certificates in
  (∃ c1 c', call_action (SSLConnect sim_ssl) sim_server (new_connection bytes) = Ok (true, c1) ∧
            deliver (C := protocol_closures) 3 (sim_target 1) 100 [3; 30; 17; 20] c1 = Ok (false, c') ∧
            k_log (c_world c') = [0x3500; 1; 2; 3; 4; 5]) ∧
  suite_read sim_hello = htons 0x35.
Proof.
  destruct (ssl_server_delivers (UC := sim_code) sim_handlers k_log k_data
           3 (sim_target 1) (sim_speaks _) sim_reads_stream sim_ssl 3 0
           sim_hello sim_chain sim_certificates [3; 30; 17; 20] 100
           (new_connection (ssl_server 3 0 sim_hello sim_certificates))) as [Hrun Hsuite].
  - reflexivity.
  - split; split; try (split; reflexivity); try discriminate; try reflexivity; by apply (bool_decide_unpack _).
  - apply sim_arrives; [reflexivity|by apply (bool_decide_unpack _)|reflexivity|reflexivity].
  - vm_compute. lia.
  - split; [exact Hrun|]. by apply (Hsuite [3; 0] (replicate 32 7) [] 0x35 0).
Defined.

(** A SIP answer with two headers, in three pieces that cut its lines. *)
Definition sim_sip : SIP := @mkSIP sim_code (Some true) None.
Definition sim_status : list Z := bytes_of_string "SIP/2.0 200 OK".
Definition sim_headers : list (list Z * list Z) :=
  [(bytes_of_string "To", bytes_of_string " me"); (bytes_of_string "From", bytes_of_string "you")].

Lemma sip_answer_delivers_witness :
  ∃ c1 c', call_action (SIPConnect sim_sip) sim_server
             (new_connection (sip_answer sim_status sim_headers)) = Ok (true, c1) ∧
           deliver (C := protocol_closures) 3 (sim_target 1) 50 [15; 4; 17] c1 = Ok (false, c') ∧
           k_log (c_world c') = bytes_of_string "To meFromyou".
Proof.
  apply (sip_answer_delivers (UC := sim_code) sim_handlers k_log k_data
           3 (sim_target 1) (sim_speaks _) sim_reads_stream sim_sip true sim_status sim_headers).
  - reflexivity.
  - reflexivity.
  - by apply (bool_decide_unpack _).
  - by apply (bool_decide_unpack _).
  - repeat constructor; by apply (bool_decide_unpack _).
  - apply sim_arrives; [reflexivity|by apply (bool_decide_unpack _)|reflexivity|reflexivity].
  - vm_compute. lia.
Defined.
