(* ===== verification/WitnessesEngine.v ===== *)
(** * The theorems at work: target sets and the engine *)

From S2P Require Import Prelude Lvl4Buffer Leeloo Target HostSM Lvl4SM Framing Closures SSL SSH.
From S2P Require Import SIP Protocols TargetSet IPV4Set TargetFile Engine AsyncEngine Frames Sockets Rounds Accounting Outcomes.
From S2P Require Import Sim Scenarios WitnessesData.

(** ** Sets of targets *)

Definition sim_set : SimpleTargetSet := mkSimple [sim_target 1; sim_target 2; sim_target 3] ItEnd.

Lemma sim_set_sorted : StronglySorted target_lt (_targets sim_set).
Proof. repeat constructor. Qed.

(** Adding to a set that came to its end gives back the greater targets. *)
Lemma simple_target_set_queue_witness :
  remaining (add_target (sim_target 2) sim_set) = [sim_target 2; sim_target 3].
Proof.
  destruct (simple_target_set_queue sim_set (sim_target 2)) as (_ & _ & [_ Hadd] & _).
  - split; [exact sim_set_sorted|exact I].
  - rewrite Hadd. reflexivity.
Defined.

Definition sim_disk : gmap (list Z) (list Z) := ∅.

Lemma repeatable_cycles_witness :
  ∃ s', next_targets (H := RepeatableTargetSet (C := protocol_closures) simple_target_set) 4
                  (sim_set, sim_disk) =
          Ok ([sim_target 1; sim_target 2; sim_target 3; sim_target 1], (s', sim_disk)).
Proof.
  apply (repeatable_cycles (C := protocol_closures) 4 sim_set sim_disk).
  - split; [exact sim_set_sorted|exact I].
  - discriminate.
  - repeat constructor.
Defined.

Definition sim_ipv4 : IPV4TargetSet :=
  @mkIPV4 LeelooPair sim_random [1; 2] [sim_port; make_port 80 6] ([], [], []) ([], 2) ().

Lemma ipv4_enumerates_witness : ∃ blocks,
  gives (C := protocol_closures) (F := gmap (list Z) (list Z)) (ipv4_init sim_ipv4)
    (by_address blocks) ∧
  blocks.*1 ≡ₚ [1; 2] ∧ all_ports [sim_port; make_port 80 6] blocks ∧
  by_address blocks ≡ₚ targets_of [1; 2] [sim_port; make_port 80 6] ∧ NoDup (by_address blocks).
Proof.
  apply (ipv4_enumerates (C := protocol_closures) (RL := sim_random_laws) sim_ipv4).
  - by apply (bool_decide_unpack _).
  - by apply (bool_decide_unpack _).
  - discriminate.
Defined.

(** A scan of two addresses, saved with one port of the first one left. *)
Definition sim_saved : IPV4TargetSet :=
  @mkIPV4 LeelooPair sim_random [1; 2] [sim_port; make_port 80 6] ([], [1; 2], [])
    ([port_as_u32 sim_port], 2) ().
Definition sim_empty : IPV4TargetSet :=
  @mkIPV4 LeelooPair sim_random [] [] ([], [], []) ([], 0) ().

Lemma ipv4_restored_gives_witness : ∃ fs' s1 blocks1,
  ts_save_state (TargetSet := ipv4_target_set (C := protocol_closures)) [102] (sim_saved, sim_disk) =
    Ok (sim_saved, fs') ∧
  ts_restore_state (TargetSet := ipv4_target_set (C := protocol_closures)) [102] (sim_empty, fs') =
    Ok (s1, fs') ∧
  gives (C := protocol_closures) (F := gmap (list Z) (list Z)) s1
    (mkTarget 1 sim_port :: by_address blocks1) ∧
  blocks1.*1 = [2] ∧ all_ports [sim_port; make_port 80 6] blocks1.
Proof.
  destruct (ipv4_restored_gives (C := protocol_closures) (FL := sim_files_laws) [102] sim_saved
              sim_empty sim_disk 1 [2])
    as (fs' & s1 & blocks & blocks1 & Hs & Hr & _ & _ & Hg & _ & Hb & _ & Hall).
  - exact I.
  - discriminate.
  - reflexivity.
  - reflexivity.
  - exists fs', s1, blocks1. split; [exact Hs|]. split; [exact Hr|]. split; [|by split].
    assert (Hp : port_of_u32 (port_as_u32 (sim_port : port)) = sim_port) by apply port_of_as_u32.
    unfold by_address in Hg |- *. simpl in Hg, Hp. rewrite Hp in Hg. exact Hg.
Defined.

(** The same scan, saved at the second address, while port 80 of the first one
    is not done. *)
Definition sim_between : IPV4TargetSet :=
  @mkIPV4 LeelooPair sim_random [1; 2] [sim_port; make_port 80 6] ([1], [2], [])
    ([port_as_u32 sim_port], 2) ().

Lemma ipv4_restored_forgets_witness : ∃ fs' s1,
  ts_save_state (TargetSet := ipv4_target_set (C := protocol_closures)) [102] (sim_between, sim_disk) =
    Ok (sim_between, fs') ∧
  ts_restore_state (TargetSet := ipv4_target_set (C := protocol_closures)) [102] (sim_empty, fs') =
    Ok (s1, fs') ∧
  ∀ n fs2 ts w,
    next_targets (H := ipv4_target_set (C := protocol_closures)) n (s1, fs2) = Ok (ts, w) →
    mkTarget 1 (make_port 80 6) ∉ ts.
Proof.
  apply (ipv4_restored_forgets (C := protocol_closures) (FL := sim_files_laws) [102] sim_between
           sim_empty sim_disk 1 [2]).
  - exact I.
  - reflexivity.
  - by apply (bool_decide_unpack _).
  - by apply (bool_decide_unpack _).
  - by apply (bool_decide_unpack _).
  - by apply (bool_decide_unpack _).
Defined.

Lemma target_finished_last_port_witness :
  ∃ hsm', finish_ports 1 [make_port 80 6; sim_port] sim_host sim_ipv4 =
    Ok ([false; true], hsm',
        @mkIPV4 LeelooPair sim_random [1; 2] [sim_port; make_port 80 6] ([], [], [0]) ([], 2) ()).
Proof.
  apply (target_finished_last_port (RL := sim_random_laws) 1 [make_port 80 6; sim_port] sim_host sim_ipv4 0).
  - discriminate.
  - by apply (bool_decide_unpack _).
  - reflexivity.
  - reflexivity.
  - reflexivity.
Defined.

Definition sim_new_host : HostSM := set_rand_idx_ip 0 sim_host.

Lemma target_finished_uninitialised_witness :
  ipv4_target_finished (sim_target 1)
    (mkHostSM (h_sm sim_host) None [make_port 80 6] None) sim_ipv4 = Fail UB.
Proof. apply target_finished_uninitialised; reflexivity. Defined.

(** ** Targets in a file *)

Definition sim_file (l : list Z) : TargetAsyncFile := mkFile (sim_buffer l) 0 sim_port.

Lemma sim_file_holds l : zlen l < Buffer.max_size → holds (sim_file l) l.
Proof.
  intros Hl. split.
  - unfold Buffer.wf, Buffer.block. simpl. rewrite length_app, length_replicate. split_and!; lia.
  - unfold Buffer.contents, Buffer.block. simpl. by rewrite Nat2Z.id, take_app_length.
Qed.

Lemma sim_full_reads : full_reads (W := sim).
Proof.
  intros fd n w nread data w' [= <-] Hn [= <- <- _].
  rewrite Nat2Z.id, take_ge by lia. done.
Qed.

Lemma async_file_refines_witness :
  let w := quiet_kernel [] [] [2; 10; 3] [] in
  ∃ r f' l' w', file_next_target (sim_file [1]) w = Ok (r, (f', w')) ∧
    spec_next_target sim_port 0 [1] w = (r, l', w') ∧ holds f' l'.
Proof.
  intros w. apply (async_file_refines (sim_file [1])).
  - by apply sim_file_holds.
  - apply sim_full_reads.
  - intros navail [= <-]. vm_compute. split; congruence.
Defined.

Lemma invalid_line_hides_lines_witness :
  ∃ f', file_next_target (sim_file ([] ++ 10 :: [1; 10])) (quiet_kernel [] [] [] []) =
          Ok (NextTarget Target_end, (f', quiet_kernel [] [] [] [])) ∧ holds f' [1; 10].
Proof.
  apply (invalid_line_hides_lines (sim_file ([] ++ 10 :: [1; 10])) _ []).
  - by apply sim_file_holds.
  - apply not_elem_of_nil.
  - reflexivity.
  - reflexivity.
  - reflexivity.
Defined.

(** ** The engine *)

Lemma autosave_period_witness :
  length [true; false; true] = length [7; 9; 12] ∧
  spaced 5 0 (saves [7; 9; 12] [true; false; true]) ∧
  ∀ i now, [7; 9; 12] !! i = Some now → [true; false; true] !! i = Some false →
    now - default 0 (last (saves (take i [7; 9; 12]) (take i [true; false; true]))) < 5.
Proof.
  eapply (autosave_period Engine_ctor (Some [115]) 5 [7; 9; 12] [true; false; true]).
  eapply (asked_cons _ (quiet_kernel [7] [] [] [])); [reflexivity|reflexivity|].
  eapply (asked_cons _ (quiet_kernel [9] [] [] [])); [reflexivity|reflexivity|].
  eapply (asked_cons _ (quiet_kernel [12] [] [] [])); [reflexivity|reflexivity|].
  apply asked_nil.
Defined.

Definition sim_engine : AsyncEngine (W := sim) (C := protocol_closures) :=
  set_lvl4_connected_callback (Some (UserConnect (UC := sim_code) true)) (AsyncEngine_ctor 2 5).

Definition sim_scan_world : sim :=
  quiet_kernel [0] [Some [(4, EPOLLOUT)]] [] [sim_target 1; sim_target 2; sim_target 3].

Lemma sim_scan_ok :
  is_ok ((start_scan 10 ≫= λ _, scan_round 10) (sim_engine, sim_scan_world)) = true.
Proof. vm_compute. reflexivity. Qed.

Lemma early_exit_ok :
  is_ok (launch (C := protocol_closures) 10 2 (AsyncEngine_ctor 2 5, early_exit_world)) = true.
Proof. vm_compute. reflexivity. Qed.

Lemma scan_accounts_witness :
  match start_scan 10 (sim_engine, sim_scan_world) with
  | Ok (_, st1) =>
      match scan_round 10 st1 with
      | Ok (_, st2) => accounts 2 0 st2 ∧ Z.of_nat (size (_sockets_targets st2.1)) ≤ 2
      | Fail _ => False
      end
  | Fail _ => False
  end.
Proof.
  pose proof sim_scan_ok as Hok. unfold mbind, ST_bind in Hok.
  destruct (start_scan 10 (sim_engine, sim_scan_world)) as [[more st1]|] eqn:E1.
  - destruct (scan_round 10 st1) as [[stop st2]|] eqn:E2.
    + apply (scan_accounts sim_keeps 2 10 (sim_engine, sim_scan_world) more st1).
      * constructor; [reflexivity|reflexivity|reflexivity|lia].
      * exact E1.
      * eapply scan_next; [apply scan_start|exact E2].
    + cbn [mbind result_bind] in Hok. rewrite E2 in Hok. discriminate Hok.
  - discriminate Hok.
Defined.

Lemma launch_accounts_witness :
  match launch (C := protocol_closures) 10 2 (AsyncEngine_ctor 2 5, early_exit_world) with
  | Ok (_, st1) =>
      accounts 2 0 st1 ∧
      _nlaunched st1.1 = _ndone st1.1 + Z.of_nat (size (_sockets_targets st1.1)) ∧
      _avail_socks st1.1 = 2 - Z.of_nat (size (_sockets_targets st1.1))
  | Fail _ => False
  end.
Proof.
  pose proof early_exit_ok as Hok.
  destruct (launch 10 2 (AsyncEngine_ctor 2 5, early_exit_world)) as [[[] st1]|] eqn:E.
  - eapply (launch_accounts sim_keeps 2 10 2); [|exact E].
    constructor; [reflexivity|reflexivity|reflexivity|lia].
  - discriminate Hok.
Defined.

(** ** One socket *)

(** An engine with one connection on the descriptor 5. *)
Definition busy_engine (l : Lvl4SM) : AsyncEngine (W := sim) (C := protocol_closures) :=
  up_sockets (λ _, {[5 := sim_target 1]}) (up_lvl4 (λ _, {[5 := l]})
    (up_hosts (λ _, {[ipv4 (sim_target 1) := sim_host]})
      (up_avail (λ _, 1) (up_counts (λ _, (1, 0)) (AsyncEngine_ctor 2 5))))).
Definition busy_world : sim := set_fds {[5]} (quiet_kernel [100] [] [] []).
Definition idle_connection : Lvl4SM := sim_connection DataTrigger (sim_buffer [1; 2]).

Lemma socket_finished_effect_witness :
  socket_finished 5 0 (busy_engine idle_connection, busy_world) =
    Ok ((), (up_sockets (delete 5) (up_avail (λ a, u32 (a + 1))
               (up_lvl4 (delete 5)
                 (up_hosts (λ hs, delete (ipv4 (sim_target 1)) hs)
                   (up_counts (λ '(nl, nd), (nl, nd + 1)) (busy_engine idle_connection))))),
             sys_close 5 busy_world)).
Proof.
  refine (eq_trans (socket_finished_effect 5 0 (sim_target 1) idle_connection sim_host
           (busy_engine idle_connection) busy_world busy_world true sim_host busy_world
           _ _ _ _ _) _).
  - reflexivity.
  - reflexivity.
  - reflexivity.
  - reflexivity.
  - reflexivity.
  - reflexivity.
Defined.

Lemma busy_accounts l : _reconnect l = false → accounts 2 0 (busy_engine l, busy_world).
Proof.
  intros Hl. split; simpl.
  - by rewrite !dom_singleton_L.
  - rewrite dom_singleton_L. intros s ->%elem_of_singleton. apply elem_of_filter.
    split; [lia|]. by apply elem_of_singleton.
  - rewrite map_size_singleton. lia.
  - lia.
  - by rewrite map_size_singleton.
  - by apply map_Forall_singleton.
Qed.

Definition reconnected : result (() * (AsyncEngine (W := sim) (C := protocol_closures) * sim)) :=
  reconnect 5 (sim_target 1) idle_connection (busy_engine idle_connection, busy_world).

Lemma reconnect_leaks_witness :
  match reconnected with
  | Ok (_, st1) =>
      ∃ s', s' ≠ 5 ∧ _sockets_targets st1.1 = <[s' := sim_target 1]> {[5 := sim_target 1]}
  | Fail _ => False
  end.
Proof.
  assert (Hok : is_ok reconnected = true) by (vm_compute; reflexivity).
  assert (Hav : match reconnected with
                | Ok (_, st1) => size (_sockets_targets st1.1) = 2%nat | Fail _ => True end)
    by (vm_compute; reflexivity).
  destruct reconnected as [[[] st1]|] eqn:E; [|discriminate Hok].
  assert (Hs : 5 ∈ dom (_sockets_targets (busy_engine idle_connection))).
  { simpl. rewrite dom_singleton_L. by apply elem_of_singleton. }
  destruct (reconnect_leaks 2 5 (sim_target 1) idle_connection _ st1
              (busy_accounts idle_connection eq_refl) Hs E)
    as [(H & _)|[(s' & Hs' & _ & Hsock & _)|(H & _)]].
  - rewrite H in Hav. simpl in Hav. by rewrite map_size_singleton in Hav.
  - by exists s'.
  - rewrite H in Hav. simpl in Hav. by rewrite map_size_singleton in Hav.
Defined.

Lemma check_connection_cases_witness :
  check_connection 100 5 (busy_engine idle_connection, busy_world) =
    Ok (false, true, false,
        (up_lvl4 (λ m, <[5 := idle_connection]> m) (busy_engine idle_connection), busy_world)).
Proof.
  apply (check_connection_cases 100 5 idle_connection (busy_engine idle_connection) busy_world 5).
  - reflexivity.
  - reflexivity.
Defined.

Definition full_world : sim := mkSim ∅ [0] [] [] [sim_target 1] 0 EINPROGRESS true [].

Lemma socket_failure_is_UB_witness :
  launch_next 1 (AsyncEngine_ctor (C := protocol_closures) 2 5, full_world) = Fail UB.
Proof.
  eapply socket_failure_is_UB.
  - reflexivity.
  - reflexivity.
  - reflexivity.
  - reflexivity.
  - reflexivity.
Defined.

(** The connection was given a trigger at time 0 and has timed out at 100; its
    function ends the connection. Another one, on the descriptor 3, has only
    timed out. *)
Definition late_connection : Lvl4SM :=
  set_trigger (SizeDataTrigger 2 (Some (sim_data false))) idle_connection.

Definition late_engine : AsyncEngine (W := sim) (C := protocol_closures) :=
  up_sockets (λ m, <[3 := sim_target 2]> m) (up_lvl4 (λ m, <[3 := idle_connection]> m)
    (up_hosts (λ m, <[ipv4 (sim_target 2) := sim_host]> m) (busy_engine late_connection))).

Lemma late_connection_ends t h w c :
  process_buffer (W := sim) 1 5 t (mkCtx (should_process_buffer late_connection).2 h w) ≠ Ok (true, c).
Proof.
  unfold process_buffer. cbn. unfold SizeDataTrigger_process_buffer.
  replace (Buffer.size _ <? 2) with false by reflexivity. cbn. discriminate.
Qed.

Definition late_lists := check_loop 100 (map_keys (_lvl4_sms late_engine)) (late_engine, busy_world).
Definition late_processed st1 := for_each (process_dirty (W := sim) (C := protocol_closures) 1) [5] st1.
Definition late_finished st2 :=
  for_each (λ i, socket_finished (W := sim) (C := protocol_closures) i NS_TIMEOUT) [3] st2.

Lemma late_runs :
  match late_lists with
  | Ok ((to_process, timeouted, _), st1) =>
      match late_processed st1 with
      | Ok (_, st2) => (to_process, timeouted, is_ok (late_finished st2)) = ([5], [3; 5], true)
      | Fail _ => False
      end
  | Fail _ => False
  end.
Proof. vm_compute. reflexivity. Qed.

Lemma dirty_timeout_double_finish_witness :
  process_dirty_and_timeouts 1 (late_engine, busy_world) = Fail UB.
Proof.
  destruct (dirty_timeout_double_finish 1 late_engine busy_world 5 late_connection
             100 busy_world) as [_ H].
  - reflexivity.
  - reflexivity.
  - reflexivity.
  - reflexivity.
  - vm_compute. discriminate.
  - exact late_connection_ends.
  - pose proof late_runs as Hruns. unfold late_lists in Hruns.
    destruct (check_loop _ _ _) as [[[[tp to] n] st1]|]; [|done].
    destruct (late_processed st1) as [[[] st2]|] eqn:E2; [|done]. injection Hruns as -> -> Hfin.
    destruct (late_finished st2) as [[[] st3]|] eqn:E3; [|discriminate Hfin].
    destruct (H [5] [3; 5] n st1 st2 eq_refl E2) as (_ & before & after & Hb & Hstop).
    assert (before = [3]) as ->.
    { destruct before as [|b [|b2 l]]; [discriminate Hb|by injection Hb as <-|by destruct l]. }
    apply (Hstop st3 E3).
Defined.
