(* ===== verification/Lab.v ===== *)
(** * A world where nobody answers

    A second concrete world: a kernel with a clock in milliseconds and no
    packet, a list of targets, and a finish function that is logged; and the
    same with an [IPV4TargetSet]. They obey the laws of Liveness.v, Ledger.v and
    IPV4Scan.v; their theorems are applied in them. *)

From S2P Require Import Prelude Lvl4Buffer Leeloo Target HostSM Lvl4SM TargetSet Engine AsyncEngine.
From S2P Require Import Frames Sockets Rounds Accounting Liveness Ledger IPV4Set IPV4Scan IPV4Silent Sim Scenarios WitnessesEngine.

Record lab := mkLab {
  lab_fds : gset Z;
  lab_ms : Z;
  lab_targets : list Target;
  lab_given : list Target;
  lab_told : list Target;
  lab_reported : list Target;
}.

Definition lab_open (s : Z) (w : lab) : lab :=
  mkLab ({[s]} ∪ lab_fds w) (lab_ms w) (lab_targets w) (lab_given w) (lab_told w) (lab_reported w).
Definition lab_close (s : Z) (w : lab) : lab :=
  mkLab (lab_fds w ∖ {[s]}) (lab_ms w) (lab_targets w) (lab_given w) (lab_told w) (lab_reported w).
Definition lab_tick (w : lab) : lab :=
  mkLab (lab_fds w) (lab_ms w + 1) (lab_targets w) (lab_given w) (lab_told w) (lab_reported w).

#[export] Instance lab_os : OS lab := {|
  sys_socket _ _ w := let s := fresh_fd (lab_fds w) in (s, lab_open s w);
  sys_set_nonblock _ w := w;
  sys_connect _ _ w := (-1, w);
  sys_close := lab_close;
  sys_epoll_create _ w := (0, w);
  sys_epoll_add _ _ _ w := w;
  sys_epoll_del _ _ w := w;
  sys_epoll_wait _ _ w := (Some [], lab_tick w);
  sys_so_error _ w := (0, w);
  sys_so_type _ w := 1;
  sys_so_protocol _ w := 6;
  sys_getpeername _ w := None;
  stack_sockaddr w := mkSockaddr 0 0 0;
  sys_fionread _ w := Some 0;
  stack_int w := 0;
  sys_select_read _ w := 0;
  sys_read _ n w := (0, [], w);
  sys_write _ data w := (zlen data, w);
  sys_time w := (lab_ms w / 1000, w);
  errno w := EINPROGRESS;
|}.

#[export] Instance lab_fd_laws : OSFdLaws lab lab_os.
Proof.
  refine {| open_fds w := filter (λ z, 0 ≤ z) (lab_fds w) |}; simpl; intros;
    try done; try (injection H as _ <-; done); try (injection H as _ _ <-; done).
  - injection H as <- <-. right. split; [apply fresh_fd_pos|]. split; [|apply filter_add, fresh_fd_pos].
    intros [_ Hs]%elem_of_filter. apply fresh_fd_max in Hs. lia.
  - by apply elem_of_filter in H as [? _].
  - injection H as H _. pose proof (fresh_fd_pos (lab_fds w)). lia.
  - set_solver.
Defined.

(** No function runs on a connection. *)
#[export] Instance lab_code : Closures := {|
  data_closure := Empty_set;
  connect_closure := Empty_set;
  host_closure := Empty_set;
  python_object := Empty_set;
|}.

#[export] Instance lab_calls : Calls lab := {|
  call_data d := match d : Empty_set with end;
  call_connect d := match d : Empty_set with end;
  call_python d := match d : Empty_set with end;
|}.

#[export] Instance lab_engine_calls : EngineCalls lab := {|
  finish_closure := unit;
  status_closure := unit;
  watch_closure := unit;
  timeout_closure := Z;
  call_finish _ t _ _ _ w :=
    Ok (mkLab (lab_fds w) (lab_ms w) (lab_targets w) (lab_given w) (lab_told w) (lab_reported w ++ [t]));
  call_status _ _ _ w := Ok w;
  call_watch _ _ w := Ok (true, w);
  call_timeout n _ w := Ok (Z.min n 3, w);
|}.

(** Targets past the end of the addresses are not in the list. *)
#[export] Instance lab_set : TargetSet lab := {|
  ts_init w := Ok w;
  ts_next_target w :=
    match lab_targets w with
    | [] => Ok (NextTarget Target_end, w)
    | t :: l => Ok (NextTarget t, mkLab (lab_fds w) (lab_ms w) l
                      (lab_given w ++ (if is_end t then [] else [t])) (lab_told w) (lab_reported w))
    end;
  ts_target_finished t h w :=
    Ok (true, h, mkLab (lab_fds w) (lab_ms w) (lab_targets w) (lab_given w) (lab_told w ++ [t])
                   (lab_reported w));
  ts_init_host_sm _ h w := Ok (h, w);
  ts_save_state _ w := Ok w;
  ts_restore_state _ w := Ok w;
|}.

(** A call of the world that succeeded, taken apart. *)
Ltac lab_inv :=
  simpl; intros; try match goal with x : Empty_set |- _ => destruct x end;
  try match goal with
      | H : Ok _ = Ok _ |- _ => injection H as H; subst; simplify_eq
      | H : (_, _) = (_, _) |- _ => simplify_eq
      end.

Lemma lab_keeps : user_keeps (W := lab).
Proof.
  split; lab_inv; try done. by destruct (lab_targets w) as [|t l]; simplify_eq.
Qed.

(** Every target to come is one. *)
Definition lab_good (w : lab) : Prop := Forall (λ t, is_end t = false) (lab_targets w).

(** This set needs nothing of the hosts. *)
Definition lab_fits (hs : gmap Z HostSM) (ts : gmap Z Target) (po : option Target) (w : lab) : Prop :=
  True.

Lemma lab_apart w w' :
  lab_good w → lab_targets w' = lab_targets w → lab_ms w ≤ lab_ms w' →
  apart lab_ms (λ w, length (lab_targets w)) lab_good lab_fits w w'.
Proof. intros Hg Ht Hm. split; [|done]. split; [by unfold lab_good; rewrite Ht|done|by rewrite Ht]. Qed.

Lemma lab_kernel :
  silent_kernel lab_ms 3 True (apart lab_ms (λ w, length (lab_targets w)) lab_good lab_fits) lab_good.
Proof.
  split; lab_inv; try done; try (by apply lab_apart);
    try (by eexists; split; [done|apply lab_apart]);
    try (by eexists _, _; split; [done|apply lab_apart]).
  - split; [pose proof (fresh_fd_pos (lab_fds w)); lia|by apply lab_apart].
  - split; [by apply lab_apart|by left].
  - split; [done|]. split; [by apply lab_apart; simpl; [| |lia]|simpl; lia].
  - eexists _, _. split; [done|]. split; [lia|by apply lab_apart].
Qed.

Lemma lab_silent_set :
  silent_set lab_ms (λ w, length (lab_targets w)) lab_good lab_fits True.
Proof.
  split; lab_inv; try done;
    try (by eexists _, _; split; [done|]; split; [apply lab_apart|]);
    try (by eexists _, _, _; split; [done|]; split; [apply lab_apart|]);
    try (by eexists; split; [done|apply lab_apart]).
  destruct (lab_targets w) as [|t l] eqn:E; eexists _, _; (split; [done|]).
  - rewrite (is_end_Target_end (L := LeelooPair)). split; [done|]. by apply lab_apart.
  - unfold lab_good in *. rewrite E in H. inversion_clear H as [|? ? Ht Hl].
    rewrite Ht. simpl. split_and!; [done|done|lia|done].
Qed.

Lemma lab_observed : observed (W := lab) (logged lab_given lab_told lab_reported).
Proof.
  split; [| |split|..]; unfold same_logs, logged; lab_inv; rewrite ?app_nil_r; try done.
  - destruct H0 as (-> & -> & ->), H as (-> & -> & ->). by rewrite !app_assoc.
  - destruct (lab_targets w) as [|t l]; simplify_eq; simpl; [by rewrite app_nil_r|done].
Qed.

Definition lab_world : lab := mkLab ∅ 5000 [sim_target 1; sim_target 2; sim_target 3] [] [] [].
Definition lab_engine : AsyncEngine (W := lab) :=
  set_lvl4_finish_callback (Some ()) (AsyncEngine_ctor 2 3).

Lemma silent_scan_ends_witness :
  ∃ e' w', launch 10 (Z.to_nat (3002 * 3 + 1)) (lab_engine, lab_world) = Ok ((), (e', w')) ∧
    length (lab_targets w') = 0%nat ∧ _nlaunched e' = 3 ∧
    _ndone e' + Z.of_nat (size (_sockets_targets e')) = 3 ∧
    _avail_socks e' + Z.of_nat (size (_sockets_targets e')) = 2.
Proof.
  apply (silent_scan_ends lab_ms (λ w, length (lab_targets w)) lab_good 3 lab_fits True lab_kernel
           lab_silent_set lab_keeps 2 10 _ lab_engine lab_world lab_world).
  - constructor; [reflexivity|reflexivity|reflexivity|lia].
  - lia.
  - vm_compute. congruence.
  - left. reflexivity.
  - reflexivity.
  - repeat constructor.
  - exact I.
  - vm_compute. lia.
  - vm_compute. congruence.
Defined.

Lemma lab_scan_ok :
  is_ok ((start_scan 10 ≫= λ _, scan_round 10) (lab_engine, lab_world)) = true.
Proof. vm_compute. reflexivity. Qed.

Lemma every_target_once_witness :
  match start_scan 10 (lab_engine, lab_world) with
  | Ok (_, st1) =>
      match scan_round 10 st1 with
      | Ok (_, st2) => ∃ launched finished,
          lab_given st2.2 = lab_given lab_world ++ launched ∧
          lab_told st2.2 = lab_told lab_world ++ finished ∧
          lab_reported st2.2 = lab_reported lab_world ++ finished ∧
          launched ≡ₚ in_flight st2 ++ finished
      | Fail _ => False
      end
  | Fail _ => False
  end.
Proof.
  pose proof lab_scan_ok as Hok. unfold mbind, ST_bind in Hok.
  destruct (start_scan 10 (lab_engine, lab_world)) as [[more st1]|] eqn:E1.
  - destruct (scan_round 10 st1) as [[stop st2]|] eqn:E2.
    + eapply (every_target_once lab_given lab_told lab_reported 2 10 (lab_engine, lab_world)).
      * exact lab_observed.
      * exact lab_keeps.
      * constructor; [reflexivity|reflexivity|reflexivity|lia].
      * exists (). reflexivity.
      * exact E1.
      * eapply scan_next; [apply scan_start|exact E2].
    + cbn [mbind result_bind] in Hok. rewrite E2 in Hok. discriminate Hok.
  - discriminate Hok.
Defined.

(** ** A set of addresses and ports beside the lab *)

(** The lab's kernel and functions, next to an [IPV4TargetSet]; what is
    written to files is lost. *)
Section Beside.

Abbreviation both := (IPV4TargetSet (L := LeelooPair) (R := sim_random) * lab)%type.

Definition on_lab (f : lab → lab) (w : both) : both := (w.1, f w.2).
Definition on_lab_with {A} (f : lab → A * lab) (w : both) : A * both :=
  ((f w.2).1, (w.1, (f w.2).2)).

#[export] Instance both_os : OS both := {|
  sys_socket ty pr := on_lab_with (sys_socket ty pr);
  sys_set_nonblock s := on_lab (sys_set_nonblock s);
  sys_connect s a := on_lab_with (sys_connect s a);
  sys_close s := on_lab (sys_close s);
  sys_epoll_create n := on_lab_with (sys_epoll_create n);
  sys_epoll_add ep s ev := on_lab (sys_epoll_add ep s ev);
  sys_epoll_del ep s := on_lab (sys_epoll_del ep s);
  sys_epoll_wait ep n := on_lab_with (sys_epoll_wait ep n);
  sys_so_error s := on_lab_with (sys_so_error s);
  sys_so_type s w := sys_so_type s w.2;
  sys_so_protocol s w := sys_so_protocol s w.2;
  sys_getpeername s w := sys_getpeername s w.2;
  stack_sockaddr w := stack_sockaddr w.2;
  sys_fionread s w := sys_fionread s w.2;
  stack_int w := stack_int w.2;
  sys_select_read s w := sys_select_read s w.2;
  sys_read s n := on_lab_with (sys_read s n);
  sys_write s data := on_lab_with (sys_write s data);
  sys_time := on_lab_with sys_time;
  errno w := errno w.2;
|}.

#[export] Instance both_fd_laws : OSFdLaws both both_os.
Proof.
  refine {| open_fds w := open_fds w.2 |}; simpl; unfold on_lab_with, on_lab; intros; simpl in *;
    simplify_eq; try done.
  - by apply (socket_fresh (OSFdLaws := lab_fd_laws) ty pr w.2).
  - by apply (open_fds_nonneg (OSFdLaws := lab_fd_laws) s w.2).
  - by apply (socket_errno (OSFdLaws := lab_fd_laws) 0 0 w.2 (lab_open (-1) w.2)); simpl; rewrite H.
  - by apply (close_fds (OSFdLaws := lab_fd_laws) s w.2).
Defined.

#[export] Instance both_calls : Calls both := {|
  call_data d := match d : Empty_set with end;
  call_connect d := match d : Empty_set with end;
  call_python d := match d : Empty_set with end;
|}.

#[export] Instance both_engine_calls : EngineCalls both := {|
  finish_closure := unit;
  status_closure := unit;
  watch_closure := unit;
  timeout_closure := unit;
  call_finish _ t buf n err w :=
    w' ← call_finish (EngineCalls := lab_engine_calls) () t buf n err w.2; Ok (w.1, w');
  call_status _ _ _ w := Ok w;
  call_watch _ _ w := Ok (true, w);
  call_timeout _ _ w := Ok (1, w);
|}.

#[export] Instance lab_files : Files lab := {|
  open_out _ w := (Some [], w);
  close_out _ _ w := w;
  open_in _ _ := None;
|}.

#[local] Existing Instance ipv4_target_set.

Lemma both_surroundings : surroundings lab_reported.
Proof.
  split; [split|..]; simpl; unfold on_lab_with, on_lab; intros; simplify_eq; try done;
    match goal with x : Empty_set |- _ => destruct x end.
Qed.

Lemma both_keeps : user_keeps (W := both).
Proof.
  split; simpl; unfold on_lab_with, on_lab; intros; simplify_eq; try done;
    try match goal with x : Empty_set |- _ => destruct x end; destruct w as [s y].
  - by simplify_eq.
  - destruct (ipv4_next_target s). by simplify_eq.
  - by inv_ok.
  - by simplify_eq.
  - unfold TargetSet_save_state in H. simpl in H. by inv_ok.
Qed.

Lemma both_silence : ipv4_silence (F := lab) lab_ms (λ _, True) 3.
Proof.
  split; [split|]; simpl; unfold on_lab_with, on_lab, beside; intros; simpl in *; simplify_eq;
    try match goal with x : Empty_set |- _ => destruct x end; simpl;
    try done; try (by split_and!; try lia);
    try (by eexists; split_and!; try lia);
    try (by eexists _, _; split_and!; try lia).
  pose proof (fresh_fd_pos (lab_fds w.2)). split_and!; [lia|done|done|lia].
Qed.

Definition both_set : IPV4TargetSet :=
  @mkIPV4 LeelooPair sim_random [1; 2] [sim_port; make_port 80 6] ([], [], []) ([], 2) ().
Definition both_engine : AsyncEngine (W := both) :=
  set_lvl4_finish_callback (Some ()) (AsyncEngine_ctor 3 1).

(** Both theorems on this scan: four targets on three sockets. *)
Definition both_targets : list Target := targets_of [1; 2] [sim_port; make_port 80 6].

Lemma both_launch_ok :
  is_ok (launch 10 1500 (both_engine, (both_set, lab_world))) = true.
Proof. vm_compute. reflexivity. Qed.

Lemma both_round_ok :
  is_ok ((start_scan 10 ≫= λ _, scan_round 10) (both_engine, (ipv4_init both_set, lab_world))) = true.
Proof. vm_compute. reflexivity. Qed.

Lemma both_fresh : fresh_engine 3 both_engine.
Proof. constructor; [reflexivity|reflexivity|reflexivity|lia]. Qed.

Lemma ipv4_scan_complete_witness :
  match launch 10 1500 (both_engine, (both_set, lab_world)) with
  | Ok (_, st2) => ∃ finished,
      lab_reported st2.2.2 = finished ∧
      in_flight st2 ++ finished ≡ₚ both_targets ∧ NoDup (in_flight st2 ++ finished)
  | Fail _ => False
  end.
Proof.
  pose proof both_launch_ok as Hok.
  destruct (launch 10 1500 (both_engine, (both_set, lab_world))) as [[[] st2]|] eqn:E; [|discriminate Hok].
  apply (ipv4_scan_complete (RL := sim_random_laws) lab_reported both_surroundings both_keeps 3
           both_engine both_set lab_world both_fresh) with (fuel := 10%nat) (rounds := 1500%nat).
  - exists (). reflexivity.
  - by apply (bool_decide_unpack _).
  - by apply (bool_decide_unpack _).
  - discriminate.
  - repeat constructor.
  - exact E.
Defined.

Lemma ipv4_scan_partitions_witness :
  match start_scan 10 (both_engine, (ipv4_init both_set, lab_world)) with
  | Ok (_, st1) =>
      match scan_round 10 st1 with
      | Ok (_, st2) => ∃ left finished,
          gives (F := lab) st2.2.1 left ∧ lab_reported st2.2.2 = finished ∧
          left ++ in_flight st2 ++ finished ≡ₚ both_targets ∧
          NoDup (left ++ in_flight st2 ++ finished)
      | Fail _ => False
      end
  | Fail _ => False
  end.
Proof.
  pose proof both_round_ok as Hok. unfold mbind, ST_bind in Hok.
  destruct (start_scan 10 _) as [[more st1]|] eqn:E1; [|discriminate Hok].
  cbn [mbind result_bind] in Hok.
  destruct (scan_round 10 st1) as [[stop st2]|] eqn:E2; [|discriminate Hok].
  apply (ipv4_scan_partitions (RL := sim_random_laws) lab_reported both_surroundings both_keeps 3
           both_engine both_set lab_world both_fresh) with (fuel := 10%nat) (more := more) (st1 := st1).
  - exists (). reflexivity.
  - by apply (bool_decide_unpack _).
  - by apply (bool_decide_unpack _).
  - discriminate.
  - repeat constructor.
  - exact E1.
  - eapply scan_next; [apply scan_start|exact E2].
Defined.

Lemma ipv4_silent_scan_witness :
  ∃ st' finished, launch 10 (Z.to_nat (3002 * 4 + 1)) (both_engine, (both_set, lab_world)) = Ok ((), st') ∧
    lab_reported st'.2.2 = finished ∧
    in_flight st' ++ finished ≡ₚ both_targets ∧ NoDup (in_flight st' ++ finished) ∧
    ∀ ip, is_Some (_hosts_sms st'.1 !! ip) ↔
          ∃ i t, _sockets_targets st'.1 !! i = Some t ∧ ipv4 t = ip.
Proof.
  apply (ipv4_silent_scan (RL := sim_random_laws) lab_ms (λ _, True) 3 both_silence lab_reported
           both_surroundings both_keeps 3 10 _ both_engine both_set lab_world both_fresh).
  - lia.
  - reflexivity.
  - exists (). reflexivity.
  - vm_compute. congruence.
  - left. reflexivity.
  - by apply (bool_decide_unpack _).
  - by apply (bool_decide_unpack _).
  - discriminate.
  - vm_compute. reflexivity.
  - exact I.
  - repeat constructor.
  - vm_compute. lia.
  - vm_compute. congruence.
Defined.

End Beside.
