(* ===== verification/Snake.v ===== *)
(** * A small Python

    A concrete interpreter for the parameters of PyBinding.v: objects are
    numbers, every call returns the object 7, which is a true value, the number
    7 and the target 0.0.0.7, and the strings are those of ASCII. The theorems
    of PyBinding.v are applied in it, on the silent kernel of Lab.v. *)

From S2P Require Import Prelude Lvl4Buffer Leeloo Target HostSM Lvl4SM Closures SSL SSH SIP Protocols.
From S2P Require Import TargetSet Engine AsyncEngine Frames Sockets Rounds Accounting PyBinding Sim Scenarios.
From S2P Require Import WitnessesData WitnessesEngine Lab.

#[local] Remove Hints lab_code lab_calls lab_set lab_engine_calls : typeclass_instances.
#[local] Remove Hints sim_code sim_user sim_targets sim_engine_calls : typeclass_instances.

#[export] Instance snake_objects : PyObjects := Z.

Definition seven : py_object := 7.

#[export] Instance snake : Python lab := {|
  by_value c := negb (noncopyable c);
  utf8 := forallb (λ b, b <? 128);
  py_call _ _ c := Ok (seven, c);
  py_run _ _ w := Ok (seven, w);
  attr o _ w := Ok (o, w);
  get_override o _ w := Ok (o, w);
  py_instance _ _ := None;
  as_bool o := Some (negb (Z.eqb o 0));
  as_uint32 o := Some o;
  as_target o := Some (mkTarget o sim_port);
  as_enum e o := match e with Eerrors => Some o | EProcessReturnCode => None end;
|}.

#[export] Instance snake_laws : PythonLaws snake.
Proof. split; [done|]. by intros [] o. Defined.

Definition snake_connection (l : list Z) : Lvl4SM (C := protocol_closures) :=
  mkLvl4SM (StateMachine.mkSM true 0 0) false false None DataTrigger (sim_buffer l).
Definition snake_host : HostSM (C := protocol_closures) :=
  mkHostSM (StateMachine.mkSM false 0 0) None (pl_empty : port_list) (Some 0).

(** ** The binding *)

#[export] Instance snake_set : TargetSet lab := python_target_set (W := lab) seven.

(** A connection that is up, with a Python trigger. *)
Definition snake_triggered : Lvl4SM := lvl4sm_set_python_data_trigger seven (snake_connection [1]).
Definition snake_engine : AsyncEngine (W := lab) :=
  async_engine_set_lvl4_finish_callback seven (AsyncEngine_ctor 2 3).
Definition snake_engine_triggered : AsyncEngine (W := lab) :=
  up_lvl4 (λ _, {[3 := snake_triggered]}) (up_sockets (λ _, {[3 := sim_target 1]}) snake_engine).

Lemma python_trigger_raises_witness :
  process_buffer (W := lab) 5 3 (sim_target 1) (mkCtx snake_triggered snake_host lab_world) =
    Fail PythonError ∧
  process_dirty_and_timeouts 5 (snake_engine_triggered, lab_world) ≠ Ok (1, (snake_engine, lab_world)).
Proof.
  destruct (python_trigger_raises (W := lab) 3 seven (snake_connection [1]) 4 snake_engine_triggered
              lab_world) as [Hrun _].
  destruct (python_trigger_raises (W := lab) 3 seven (snake_connection [1]) 5 snake_engine_triggered
              lab_world) as [_ Hround].
  split; [exact (Hrun 3 (sim_target 1) snake_host)|].
  apply Hround; [reflexivity|reflexivity].
Defined.

Lemma python_finish_raises_witness :
  socket_finished 3 NS_TIMEOUT (snake_engine_triggered, lab_world) ≠
    Ok ((), (snake_engine, lab_world)).
Proof. apply (python_finish_raises (W := lab) seven). Defined.

Lemma python_size_trigger_wraps_witness :
  process_loop (W := lab) 9 (mkConnected (sim_target 1) 3) 0
    (mkCtx (lvl4sm_set_size_data_trigger (2 ^ 32) seven (snake_connection [1])) snake_host lab_world) =
    Fail OutOfFuel.
Proof.
  apply (python_size_trigger_wraps (W := lab) (2 ^ 32) seven (snake_connection [1])).
  - lia.
  - reflexivity.
  - unfold Buffer.wf. vm_compute. repeat split; congruence.
  - reflexivity.
  - intros [sm h w]. exists w. reflexivity.
Defined.

(** The header "a:\xE9". *)
Lemma python_header_not_utf8_witness :
  sip_line (UC := python_code) (W := lab) None (_cb_header (sip_on_header seven (mkSIP None None)))
    (mkConnected (sim_target 1) 3) 0 4
    (mkCtx (snake_connection [97; 58; 233; 13]) snake_host lab_world) = Fail PythonError.
Proof.
  apply (python_header_not_utf8 (W := lab) None seven (mkConnected (sim_target 1) 3) [] [97] [233]
           (replicate 12 0)).
  - by apply (bool_decide_unpack _).
  - by apply (bool_decide_unpack _).
  - by apply (bool_decide_unpack _).
  - split. reflexivity.
  - reflexivity.
Defined.

Lemma python_eq_hash_witness :
  target_eqb (sim_target 1) (sim_target 1) = true ↔
  target_hash (sim_target 1) = target_hash (sim_target 1).
Proof. apply python_eq_hash; vm_compute; split; congruence. Defined.
