(* ===== verification/Switchboard.v ===== *)
(** * A world of servers that answer

    A third concrete world: every server sends the same bytes, those of the two
    records of an SSL server, twelve more at each [epoll_wait], until the lines
    go dead; what the user is told and what is sent on a descriptor is kept with
    it. It keeps its channels apart as Talks.v asks, and gives finitely much, as
    Ends.v asks: a scan of three servers with two sockets is followed in it. *)

From stdpp Require Import strings.
From S2P Require Import Prelude Lvl4Buffer Leeloo Target HostSM Lvl4SM Framing Stream Closures SSL SSH.
From S2P Require Import SIP Protocols Speak Conversation Respects Servers TargetSet Engine AsyncEngine.
From S2P Require Import Frames Sockets Rounds Accounting Ledger Ends Talks Sim Scenarios WitnessesData.
#[local] Open Scope Z_scope.

(** One line of the switchboard: what was heard and sent on it, how many bytes
    were read, how many are there to be read, and the events asked for. *)
Record line := mkLine { l_heard : list (list Z); l_pos : nat; l_avail : nat; l_events : Z }.

(** [b_waits] calls of [epoll_wait] are still to report events. *)
Record board := mkBoard {
  b_fds : gset Z;
  b_lines : gmap Z line;
  b_targets : list Target;
  b_ms : Z;
  b_waits : nat;
}.

(** What every server sends. *)
Definition board_hello : list Z := server_hello [3; 0] (replicate 32 7) [] 0x35 0.
Definition board_chain : list (list Z) := [[1; 2; 3]; [4; 5]].
Definition board_certificates : list Z :=
  be_bytes 3 (zlen (encode_certificates board_chain)) ++ encode_certificates board_chain.
Definition answer_bytes : list Z := ssl_server 3 0 board_hello board_certificates.

Definition no_line : line := mkLine [] 0 0 0.
Definition line_of (s : Z) (w : board) : line := default no_line (b_lines w !! s).
Definition set_line (s : Z) (l : line) (w : board) : board :=
  mkBoard (b_fds w) (<[s := l]> (b_lines w)) (b_targets w) (b_ms w) (b_waits w).
Definition up_line (s : Z) (f : line → line) (w : board) : board := set_line s (f (line_of s w)) w.

Definition hears (l : list (list Z)) (x : line) : line :=
  mkLine (l_heard x ++ l) (l_pos x) (l_avail x) (l_events x).
Definition waits_for (ev : Z) (x : line) : line := mkLine (l_heard x) (l_pos x) (l_avail x) ev.
Definition reads (n : Z) (x : line) : line :=
  mkLine (l_heard x) (l_pos x + Z.to_nat n) (l_avail x - Z.to_nat n) (l_events x).
Definition some_more (x : line) : line :=
  mkLine (l_heard x) (l_pos x) (l_avail x + 12) (l_events x).

Definition to_read (x : line) : list Z := take (l_avail x) (drop (l_pos x) answer_bytes).

(** The events of the lines that are open. *)
Definition ready (w : board) : list (Z * Z) :=
  prod_map id l_events <$> filter (λ p, p.1 ∈ b_fds w) (map_to_list (b_lines w)).

Definition board_channel (s : Z) (w : board) : channel (U := list (list Z)) :=
  let x := line_of s w in
  mkChannel (l_heard x) (take (l_pos x) answer_bytes) (to_read x) (l_events x).

#[export] Instance board_os : OS board := {|
  sys_socket _ _ w :=
    let s := fresh_fd (b_fds w) in
    (s, mkBoard ({[s]} ∪ b_fds w) (<[s := no_line]> (b_lines w)) (b_targets w) (b_ms w) (b_waits w));
  sys_set_nonblock _ w := w;
  sys_connect _ _ w := (-1, w);
  sys_close s w := mkBoard (b_fds w ∖ {[s]}) (b_lines w) (b_targets w) (b_ms w) (b_waits w);
  sys_epoll_create _ w := (0, w);
  sys_epoll_add _ s ev := up_line s (waits_for ev);
  sys_epoll_del _ s := up_line s (waits_for 0);
  sys_epoll_wait _ _ w :=
    match b_waits w with
    | O => (Some [], mkBoard (b_fds w) (b_lines w) (b_targets w) (b_ms w + 1) 0)
    | S n => (Some (ready w), mkBoard (b_fds w) (some_more <$> b_lines w) (b_targets w) (b_ms w + 1) n)
    end;
  sys_so_error _ w := (0, w);
  sys_so_type _ w := 1;
  sys_so_protocol _ w := 6;
  sys_getpeername _ w := None;
  stack_sockaddr w := mkSockaddr 0 0 0;
  sys_fionread s w := Some (zlen (to_read (line_of s w)));
  stack_int w := 0;
  sys_select_read _ w := 0;
  sys_read s n w := (n, ztake n (to_read (line_of s w)), up_line s (reads n) w);
  sys_write s data w := (zlen data, up_line s (hears [data]) w);
  sys_time w := (b_ms w / 1000, w);
  errno w := EINPROGRESS;
|}.

#[export] Instance board_fd_laws : OSFdLaws board board_os.
Proof.
  refine {| open_fds w := filter (λ z, 0 ≤ z) (b_fds w) |}; simpl; intros;
    try done; try (injection H as _ <-; done); try (injection H as _ _ <-; done);
    try (by destruct (b_waits w); injection H as _ <-).
  - injection H as <- <-. right. split; [apply fresh_fd_pos|]. split; [|apply filter_add, fresh_fd_pos].
    intros [_ Hs]%elem_of_filter. apply fresh_fd_max in Hs. lia.
  - by apply elem_of_filter in H as [? _].
  - injection H as H _. pose proof (fresh_fd_pos (b_fds w)). lia.
  - set_solver.
Defined.

(** A function of the user is known by its answer, and repeats what it hears. *)
#[export] Instance board_user : UserCalls board := {|
  call_user_data (u : user_data) t off n c :=
    Ok (u : bool, with_world (up_line (ct_s t) (hears [ztake n (zdrop off (c_block c))]) (c_world c)) c);
  call_user_connect (u : user_connect) _ c := Ok (u : bool, c);
  call_user_cipher (u : user_cipher) t z c :=
    Ok (u : bool, with_world (up_line (ct_s t) (hears [[z]]) (c_world c)) c);
  call_user_header (u : user_header) t k v c :=
    Ok (u : bool, with_world (up_line (ct_s t) (hears [c_string (c_block c) k; c_string (c_block c) v])
                                (c_world c)) c);
  call_user_python _ _ _ c := Ok (NoMoreToProcess, c);
|}.

#[export] Instance board_engine_calls : EngineCalls board := {|
  finish_closure := unit;
  status_closure := unit;
  watch_closure := unit;
  timeout_closure := unit;
  call_finish _ _ _ _ _ w := Ok w;
  call_status _ _ _ w := Ok w;
  call_watch _ _ w := Ok (true, w);
  call_timeout _ _ w := Ok (3, w);
|}.

#[export] Instance board_set : TargetSet board := {|
  ts_init w := Ok w;
  ts_next_target w :=
    match b_targets w with
    | [] => Ok (NextTarget Target_end, w)
    | t :: l => Ok (NextTarget t, mkBoard (b_fds w) (b_lines w) l (b_ms w) (b_waits w))
    end;
  ts_target_finished _ h w := Ok (true, h, w);
  ts_init_host_sm _ h w := Ok (h, w);
  ts_save_state _ w := Ok w;
  ts_restore_state _ w := Ok w;
|}.

(** ** The board keeps its lines apart *)

Lemma line_of_set s i l w : line_of i (set_line s l w) = if decide (s = i) then l else line_of i w.
Proof. unfold line_of. simpl. rewrite lookup_insert. by case_decide. Qed.

Lemma set_line_channel s l w :
  (∀ i, i ≠ s → board_channel i (set_line s l w) = board_channel i w) ∧
  board_channel s (set_line s l w) =
    mkChannel (l_heard l) (take (l_pos l) answer_bytes) (to_read l) (l_events l).
Proof.
  unfold board_channel. split; [intros i Hi|]; rewrite line_of_set; [by rewrite decide_False|].
  by rewrite decide_True.
Qed.

(** All but what was heard on a line. *)
Definition board_outside (s : Z) (w : board) :
    gset Z * gmap Z line * list Target * (Z * nat) * (nat * nat * Z) :=
  let x := line_of s w in
  (b_fds w, delete s (b_lines w), b_targets w, (b_ms w, b_waits w), (l_pos x, l_avail x, l_events x)).

Lemma hears_outside s l w :
  board_outside s (up_line s (hears l) w) = board_outside s w ∧
  ch_view (board_channel s (up_line s (hears l) w)) = ch_view (board_channel s w) ++ l.
Proof.
  unfold board_outside, up_line. rewrite line_of_set, decide_True by done. simpl.
  rewrite delete_insert_eq. split; [done|].
  by rewrite line_of_set, decide_True by done.
Qed.

Lemma outside_line s w w' :
  board_outside s w' = board_outside s w →
  (∀ i, i ≠ s → line_of i w' = line_of i w) ∧ l_pos (line_of s w') = l_pos (line_of s w) ∧
  l_avail (line_of s w') = l_avail (line_of s w) ∧ l_events (line_of s w') = l_events (line_of s w).
Proof.
  unfold board_outside. cbv zeta. intros H. injection H as _ Hl _ _ _ Hp Ha He. split; [|done].
  intros i Hi. unfold line_of. f_equal.
  rewrite <- (lookup_delete_ne (b_lines w) s i), <- (lookup_delete_ne (b_lines w') s i) by done.
  by rewrite Hl.
Qed.

Lemma ready_events w :
  NoDup (ready w).*1 ∧ Forall (expected (λ i, board_channel i) w) (ready w).
Proof.
  unfold ready. split.
  - rewrite <- list_fmap_compose.
    rewrite (list_fmap_ext (fst ∘ prod_map id l_events) fst) by by intros ? [] _.
    apply NoDup_fmap_fst, NoDup_filter, NoDup_map_to_list.
    intros i x y [_ Hx%elem_of_map_to_list]%list_elem_of_filter [_ Hy%elem_of_map_to_list]%list_elem_of_filter.
    congruence.
  - apply Forall_fmap, Forall_forall. intros [i x] [_ H%elem_of_map_to_list]%list_elem_of_filter.
    unfold expected. simpl. unfold line_of. by rewrite H.
Qed.

Definition board_handlers : handlers (UC := sim_code) (list (list Z)) := @mkHandlers _ sim_code _
  (λ f msg u, (f : bool, u ++ [msg])) (λ f k v u, (f : bool, u ++ [k; v]))
  (λ f z u, (f : bool, u ++ [[z]])) (λ data u, u ++ [data]).

Lemma board_users_speak s t :
  users_speak (UC := sim_code) board_handlers
    (λ w, ch_view (board_channel s w)) (board_outside s) (mkConnected t s).
Proof.
  split.
  - intros f off msg c Hat. eexists. split; [reflexivity|].
    destruct (hears_outside s [ztake (zlen msg) (zdrop off (c_block c))] (c_world c)) as [Ho Hv].
    split; [|exact Ho]. etrans; [exact Hv|]. simpl.
    destruct Hat as (pre & post & Hb & ->). by rewrite Hb, !Nat2Z.id, drop_app_length, take_app_length.
  - intros f k v ks vs c Hk Hks Hv Hvs. eexists. split; [reflexivity|].
    destruct (hears_outside s [c_string (c_block c) k; c_string (c_block c) v] (c_world c)) as [Ho Hu].
    split; [|exact Ho]. etrans; [exact Hu|]. simpl.
    by rewrite (c_string_at _ _ ks), (c_string_at _ _ vs).
  - intros f z c. eexists. split; [reflexivity|].
    destruct (hears_outside s [[z]] (c_world c)) as [Ho Hv]. split; [exact Hv|exact Ho].
  - intros data w. destruct (hears_outside s [data] w) as [Ho Hv]. split; [exact Hv|exact Ho].
Qed.

Lemma line_of_more i w w' :
  b_lines w' = b_lines w ∨ b_lines w' = some_more <$> b_lines w →
  ∃ data, board_channel i w' = more_pending data (board_channel i w).
Proof.
  unfold board_channel, line_of, more_pending, to_read.
  intros [->| ->]; [exists []; simpl; by rewrite app_nil_r|]. rewrite lookup_fmap.
  destruct (b_lines w !! i) as [x|]; simpl; [|by exists []].
  eexists. rewrite take_more. reflexivity.
Qed.

Lemma reads_channel s n w :
  0 ≤ n ≤ zlen (to_read (line_of s w)) →
  board_channel s (up_line s (reads n) w) = after_read n (board_channel s w).
Proof.
  intros Hn. unfold up_line. rewrite (proj2 (set_line_channel _ _ _)).
  set (x := line_of s w) in *. unfold to_read in Hn. rewrite length_take in Hn.
  unfold board_channel, after_read, to_read. fold x. simpl.
  rewrite take_more, take_take, Nat.min_l by lia. f_equal.
  rewrite <- drop_drop, take_drop_commute. by rewrite <- Nat.le_add_sub by lia.
Qed.

Lemma answer_short s w :
  zlen (take (l_pos (line_of s w)) answer_bytes) + zlen (to_read (line_of s w)) < Buffer.max_size.
Proof.
  unfold to_read. rewrite !length_take, length_drop.
  assert (zlen answer_bytes = 70) by reflexivity. unfold Buffer.max_size. lia.
Qed.

Lemma board_separate :
  separate (UC := sim_code) board_handlers
    board_channel [] board_outside.
Proof.
  split; simpl; [|intros; simplify_eq; try done; try (by intros ?)..].
  - intros s w w' H. destruct (outside_line s w w' H) as (Ho & Hp & Ha & He). split.
    + intros i Hi. unfold board_channel. by rewrite Ho.
    + eexists. unfold board_channel, with_view, to_read. by rewrite Hp, Ha, He.
  - apply board_users_speak.
  - destruct (_ =? -1) eqn:E; [pose proof (fresh_fd_pos (b_fds w)); lia|].
    unfold others, board_channel, line_of. simpl. split.
    + intros i Hi. by rewrite lookup_insert_ne.
    + by rewrite lookup_insert_eq.
  - apply set_line_channel.
  - apply set_line_channel.
  - destruct (b_waits w); simplify_eq; (split; [intros i; apply line_of_more; simpl; auto|]);
      intros l [= <-]; [split; constructor|apply ready_events].
  - eexists. split; [reflexivity|]. split; [intros i Hi; by apply (proj1 (set_line_channel s _ w))|by apply reads_channel].
  - apply answer_short.
  - destruct (b_targets w); by simplify_eq.
Qed.

Lemma board_respected : respected (ctx_keeps (C := protocol_closures) (W := board)).
Proof.
  split; try (by intros * [= <- <-]); try (by intros * [= <-]); try done.
  intros off b c c' _ H. unfold store_c in H. by inv_ok.
Qed.

Lemma board_keeps : user_keeps (C := protocol_closures) (W := board).
Proof.
  split; try (by intros * [= <- <-]); try (by intros * [= <-]); try (by intros * [= <- <- <-]).
  - intros d t off n c r c' H. pose proof (call_closure_respects _ board_respected d t off n c) as Hk.
    change (call_closure d t off n c = Ok (r, c')) in H. by rewrite H in Hk.
  - intros a t c r c' H. pose proof (call_action_respects _ board_respected a t c) as Hk.
    change (call_action a t c = Ok (r, c')) in H. by rewrite H in Hk.
  - intros w r w'. simpl. destruct (b_targets w); by intros [= <- <-].
Qed.

(** ** Three SSL servers and two sockets *)

Definition board_ssl : SSL :=
  on_cipher (Some true) (on_certificate (Some true) (SSL_ctor (UC := sim_code) 5)).

Definition new_board : board := mkBoard ∅ ∅ [sim_target 1; sim_target 2; sim_target 3] 5000 11.

Definition board_engine : AsyncEngine (C := protocol_closures) (W := board) :=
  set_lvl4_connected_callback (Some (SSLConnect board_ssl)) (AsyncEngine_ctor 2 3).

Abbreviation board_state := (AsyncEngine (C := protocol_closures) (W := board) * board)%type.

Definition board_scan (n : nat) : result board_state := scan_for 50 n (board_engine, new_board).

(** What was heard on a line, what was read from it, and whether its
    connection is there. *)
Definition on_line (s : Z) (st : board_state) : list (list Z) * list Z * bool :=
  (ch_view (board_channel s st.2), ch_received (board_channel s st.2),
   bool_decide (is_Some (_lvl4_sms st.1 !! s))).

(** After ten rounds line 3 carries its second connection, which has shown the
    cipher suite and has the first byte of the next record in its buffer, and
    the connection of line 4 is over. *)
Lemma board_scan_10 :
  (st ← board_scan 10; Ok (on_line 3 st, on_line 4 st)) =
  Ok (([client_hello board_ssl; [0x3500]], take 48 answer_bytes, true),
      ([client_hello board_ssl; [0x3500]; [1; 2; 3]; [4; 5]], answer_bytes, false)).
Proof. vm_compute. reflexivity. Qed.

(** No beginning of what the servers send breaks the reader. *)
Lemma board_unbroken i w :
  unbroken (C := protocol_closures)
    (talk board_handlers (SSLConnect board_ssl) (ch_received (board_channel i w)) []).
Proof. apply (talk_unbroken_take board_handlers); [exact I|]. vm_compute. exact I. Qed.

Lemma scan_conversations_witness :
  ∃ st2, board_scan 10 = Ok st2 ∧
    ch_view (board_channel 4 st2.2) =
      heard (UC := sim_code)
        (talk board_handlers (SSLConnect board_ssl) answer_bytes []).
Proof.
  pose proof board_scan_10 as H10. destruct (board_scan 10) as [st2|] eqn:E; [|discriminate H10].
  exists st2. split; [reflexivity|]. injection H10 as _ _ _ Hview Hrec Hnone.
  destruct (scan_for_reaches 50 10 _ st2 E) as (more & st1 & Hstart & Hreach).
  pose proof (scan_conversations board_handlers board_channel []
    board_outside board_separate (SSLConnect board_ssl) I board_unbroken board_keeps
    2 50 (board_engine, new_board) more st1 st2 4) as H.
  cbv zeta in H. apply bool_decide_eq_false in Hnone.
  change (ch_received (board_channel 4 st2.2) = answer_bytes) in Hrec.
  destruct (_lvl4_sms st2.1 !! 4) as [l|]; [destruct Hnone; by eexists|].
  destruct H as [[Hv _]|H].
  - constructor; [reflexivity|reflexivity|reflexivity|lia].
  - intros i. split; reflexivity.
  - reflexivity.
  - exact Hstart.
  - exact Hreach.
  - change (l_heard (line_of 4 st2.2) = []) in Hv. rewrite Hv in Hview. discriminate Hview.
  - rewrite Hrec in H. exact H.
Defined.

(** ** The board gives finitely much *)

Definition board_todo (w : board) : nat := b_waits w + length (b_targets w).

Abbreviation board_goes := (goes b_ms board_todo).

Lemma board_goes_same w w' :
  b_ms w' = b_ms w → b_waits w' = b_waits w → b_targets w' = b_targets w → board_goes w w'.
Proof. intros Hm Hw Ht. split; unfold board_todo; [by rewrite Hm|by rewrite Hw, Ht]. Qed.

(** The protocols and the user write to the lines only. *)
Definition board_ctx : ctx (C := protocol_closures) board → ctx (C := protocol_closures) board → Prop :=
  ctx_still b_ms board_todo.

#[local] Instance board_ctx_preorder : PreOrder board_ctx.
Proof.
  split; [by split|]. intros c1 c2 c3 [[] ?] [[] ?]. split; [split; [by etrans|lia]|by etrans].
Qed.

Lemma board_ctx_respected : respected board_ctx.
Proof.
  split; try (by intros * [= <- <-]); try (by intros * [= <-]); try done.
  intros off b c c' _ H. unfold store_c in H. by inv_ok.
Qed.

Lemma board_data d t off n (c : ctx (C := protocol_closures) board) r c' :
  call_closure d t off n c = Ok (r, c') → board_ctx c c'.
Proof.
  intros H. pose proof (call_closure_respects _ board_ctx_respected d t off n c) as Hk.
  by rewrite H in Hk.
Qed.

Lemma board_connect a t (c : ctx (C := protocol_closures) board) r c' :
  call_action a t c = Ok (r, c') → board_ctx c c'.
Proof.
  intros H. pose proof (call_action_respects _ board_ctx_respected a t c) as Hk. by rewrite H in Hk.
Qed.

Lemma board_finite : finite_world (C := protocol_closures) b_ms board_todo 3.
Proof.
  split; [lia|split|..]; simpl; intros; simplify_eq; try done; try (by apply board_goes_same);
    try (by eapply board_data); try (by eapply board_connect).
  - destruct (b_waits w) eqn:E; simplify_eq; split; unfold board_todo; simpl; rewrite ?E; lia.
  - destruct (b_waits w) eqn:E; simplify_eq; unfold board_todo; simpl; [right; split; [done|lia]|left; lia].
  - unfold board_todo. destruct (b_targets w) as [|t l] eqn:E; simplify_eq; simpl; rewrite ?E.
    + split; [done|left]. apply (is_end_Target_end (L := LeelooPair)).
    + split; [split; unfold board_todo; simpl; rewrite ?E; simpl; lia|right; lia].
Qed.

(** The lines go dead while the third server is in the middle of its second
    record; it runs into its timeout, and the scan ends. *)
Lemma board_scan_over :
  ('(_, st) ← do_async_scan 50 (Z.to_nat 42029) (board_engine, new_board);
   Ok (on_line 3 st, _ndone st.1, b_ms st.2)) =
  Ok ([client_hello board_ssl; [0x3500]], take 60 answer_bytes, false, 3, 8000).
Proof. vm_compute. reflexivity. Qed.

Lemma board_start_ok : is_ok (start_scan 50 (board_engine, new_board)) = true.
Proof. vm_compute. reflexivity. Qed.

Lemma scan_ends_witness :
  match start_scan 50 (board_engine, new_board) with
  | Ok (_, st1) =>
      (∃ st2, do_async_scan 50 (Z.to_nat 42029) (board_engine, new_board) = Ok ((), st2)) ∨
      (∃ st2 e, scan_reaches 50 st1 st2 ∧ scan_round 50 st2 = Fail e)
  | Fail _ => False
  end.
Proof.
  pose proof board_start_ok as Hok.
  destruct (start_scan 50 (board_engine, new_board)) as [[more st1]|] eqn:E; [|discriminate Hok].
  apply (scan_ends b_ms board_todo 3 board_finite board_keeps 2) with (more := more).
  - constructor; [reflexivity|reflexivity|reflexivity|lia].
  - lia.
  - vm_compute. congruence.
  - vm_compute. congruence.
  - exact E.
Defined.
