(* ===== verification/Tape.v ===== *)
(** * A world with a list of addresses to read

    The kernel of Lab.v, where nobody answers, next to a descriptor that gives
    the bytes of a file five at a time. The theorem of FileScan.v is applied to a
    scan of it. *)

From S2P Require Import Prelude Lvl4Buffer Leeloo Target HostSM Lvl4SM TargetSet TargetFile Engine.
From S2P Require Import AsyncEngine Frames Sockets Rounds Ledger FileScan Sim Scenarios WitnessesData Lab.

(** How many bytes were read, and the lab. *)
Record tape := mkTape { tp_pos : nat; tp_lab : lab }.

(** Four addresses and a line that is none. *)
Definition tape_bytes : list Z := [1; 10; 2; 2; 2; 10; 10; 3; 10; 4; 4; 10].

Definition tape_left (w : tape) : list Z := drop (tp_pos w) tape_bytes.

Definition in_lab {A} (f : lab → A * lab) (w : tape) : A * tape :=
  ((f (tp_lab w)).1, mkTape (tp_pos w) (f (tp_lab w)).2).
Definition in_lab_ (f : lab → lab) (w : tape) : tape := mkTape (tp_pos w) (f (tp_lab w)).

(** What the set sees of the kernel. *)
#[export] Instance tape_os : OS tape := {|
  sys_socket ty pr := in_lab (sys_socket ty pr);
  sys_set_nonblock s := in_lab_ (sys_set_nonblock s);
  sys_connect s a := in_lab (sys_connect s a);
  sys_close s := in_lab_ (sys_close s);
  sys_epoll_create n := in_lab (sys_epoll_create n);
  sys_epoll_add ep s ev := in_lab_ (sys_epoll_add ep s ev);
  sys_epoll_del ep s := in_lab_ (sys_epoll_del ep s);
  sys_epoll_wait ep n := in_lab (sys_epoll_wait ep n);
  sys_so_error s := in_lab (sys_so_error s);
  sys_so_type s w := 1;
  sys_so_protocol s w := 6;
  sys_getpeername s w := None;
  stack_sockaddr w := mkSockaddr 0 0 0;
  sys_fionread s w := Some (zlen (take 5 (tape_left w)));
  stack_int w := 0;
  sys_select_read s w := 1;
  sys_read s n w :=
    let data := ztake n (tape_left w) in
    (zlen data, data, mkTape (tp_pos w + Z.to_nat n) (tp_lab w));
  sys_write s data := in_lab (sys_write s data);
  sys_time := in_lab sys_time;
  errno w := EINPROGRESS;
|}.

Abbreviation file_tape := (TargetAsyncFile * tape)%type.

Definition on_tape {A} (f : tape → A * tape) (w : file_tape) : A * file_tape :=
  ((f w.2).1, (w.1, (f w.2).2)).
Definition on_tape_ (f : tape → tape) (w : file_tape) : file_tape := (w.1, f w.2).

(** And what the engine sees of it: no socket has anything to read. *)
#[export] Instance file_tape_os : OS file_tape := {|
  sys_socket ty pr := on_tape (sys_socket ty pr);
  sys_set_nonblock s := on_tape_ (sys_set_nonblock s);
  sys_connect s a := on_tape (sys_connect s a);
  sys_close s := on_tape_ (sys_close s);
  sys_epoll_create n := on_tape (sys_epoll_create n);
  sys_epoll_add ep s ev := on_tape_ (sys_epoll_add ep s ev);
  sys_epoll_del ep s := on_tape_ (sys_epoll_del ep s);
  sys_epoll_wait ep n := on_tape (sys_epoll_wait ep n);
  sys_so_error s := on_tape (sys_so_error s);
  sys_so_type s w := 1;
  sys_so_protocol s w := 6;
  sys_getpeername s w := None;
  stack_sockaddr w := mkSockaddr 0 0 0;
  sys_fionread s w := Some 0;
  stack_int w := 0;
  sys_select_read s w := 0;
  sys_read s n w := (0, [], w);
  sys_write s data := on_tape (sys_write s data);
  sys_time := on_tape sys_time;
  errno w := EINPROGRESS;
|}.

#[export] Instance file_tape_fds : OSFdLaws file_tape file_tape_os.
Proof.
  refine {| open_fds w := open_fds (tp_lab w.2) |}; simpl; unfold on_tape, on_tape_, in_lab, in_lab_;
    intros; simpl in *; simplify_eq; try done.
  - by apply (socket_fresh (OSFdLaws := lab_fd_laws) ty pr (tp_lab w.2)).
  - by apply elem_of_filter in H as [? _].
  - pose proof (fresh_fd_pos (lab_fds (tp_lab w.2))). lia.
  - set_solver.
Defined.

#[export] Instance file_tape_calls : Calls file_tape := {|
  call_data d := match d : Empty_set with end;
  call_connect d := match d : Empty_set with end;
  call_python d := match d : Empty_set with end;
|}.

#[export] Instance file_tape_engine_calls : EngineCalls file_tape := {|
  finish_closure := unit;
  status_closure := unit;
  watch_closure := unit;
  timeout_closure := unit;
  call_finish _ t buf n err w :=
    l ← call_finish (EngineCalls := lab_engine_calls) () t buf n err (tp_lab w.2);
    Ok (w.1, mkTape (tp_pos w.2) l);
  call_status _ _ _ w := Ok w;
  call_watch _ _ w := Ok (true, w);
  call_timeout _ _ w := Ok (1, w);
|}.

#[local] Existing Instance target_async_file.

Definition tape_read (w : tape) : list Z := take (tp_pos w) tape_bytes.
Definition tape_reported (w : tape) : list Target := lab_reported (tp_lab w).

Lemma tape_reads_input : reads_input tape_read tape_reported 0.
Proof.
  split; unfold tape_read, tape_left; simpl.
  - intros fd n w nread data w' [= <-] Hn [= <- <- _].
    rewrite Nat2Z.id, !length_take. split; lia.
  - intros n w [= <-]. unfold tape_left. rewrite !length_take, length_drop.
    assert (length tape_bytes = 12%nat) by reflexivity. unfold Buffer.max_size. lia.
  - intros n w r data w' [= _ <- <-]. unfold tape_left. simpl. by rewrite take_more.
Qed.

Ltac tape_inv :=
  simpl; unfold on_tape, on_tape_, in_lab, in_lab_; intros;
  try match goal with x : Empty_set |- _ => destruct x end; simplify_eq; try done.

Lemma tape_surroundings : file_surroundings tape_read tape_reported.
Proof. split; [split|]; tape_inv. Qed.

(** Reading the file is all that asking for a target does to the kernel. *)
Lemma tape_read_lab f w r f' w' :
  read_next_target f w = Ok (r, (f', w')) → tp_lab w' = tp_lab w.
Proof.
  unfold read_next_target. simpl. destruct (zlen _ =? 0); [by intros [= _ _ <-]|]. intros Hread.
  apply bind_Ok_inv in Hread as (b' & _ & Hread). destruct (_ <=? 0); [by injection Hread as _ _ <-|].
  apply bind_Ok_inv in Hread as ([t f1] & _ & Hread). by destruct (target_eqb _ _); injection Hread as _ _ <-.
Qed.

Lemma tape_next_lab f w r f' w' :
  file_next_target f w = Ok (r, (f', w')) → tp_lab w' = tp_lab w.
Proof.
  unfold file_next_target. destruct (0 <? _); [|apply tape_read_lab]. intros Hnext.
  apply bind_Ok_inv in Hnext as ([t f1] & _ & Hnext).
  destruct (target_neqb _ _); [by injection Hnext as _ _ <-|by eapply tape_read_lab].
Qed.

Lemma tape_keeps : user_keeps (W := file_tape).
Proof.
  split; tape_inv.
  - by destruct w; simplify_eq.
  - destruct w as [f w], w' as [f' w']. simpl. by rewrite (tape_next_lab f w r f' w').
Qed.

Definition tape_engine : AsyncEngine (W := file_tape) :=
  set_lvl4_finish_callback (Some ()) (AsyncEngine_ctor 2 1).

Definition tape_scan (n : nat) : result (AsyncEngine (W := file_tape) * file_tape) :=
  scan_for 10 n (tape_engine, (TargetAsyncFile_ctor 0 sim_port, mkTape 0 lab_world)).

(** When the lab has timed out once and the set was asked again, ten and then
    twelve bytes were read, two addresses are reported and two are in flight;
    the reads of five bytes cut the second and the last line. *)
Lemma tape_scan_1001 :
  (st ← tape_scan 1001; Ok (tape_read st.2.2, length (tape_reported st.2.2), length (in_flight st))) =
  Ok (tape_bytes, 2%nat, 2%nat).
Proof. vm_compute. reflexivity. Qed.

Lemma file_scan_launches_witness :
  ∃ st2 eaten rest finished, tape_scan 1001 = Ok st2 ∧
    tape_bytes = eaten ++ rest ∧ holds st2.2.1 rest ∧ tape_reported st2.2.2 = finished ∧
    addresses sim_port eaten ≡ₚ in_flight st2 ++ finished.
Proof.
  pose proof tape_scan_1001 as Hok. destruct (tape_scan 1001) as [st2|] eqn:E; [|discriminate Hok].
  injection Hok as Hread _ _.
  destruct (scan_for_reaches 10 1001 _ st2 E) as (more & st1 & Hstart & Hreach).
  destruct (file_scan_launches tape_read tape_reported 0 sim_port 2 10 tape_engine
    (mkTape 0 lab_world) more st1 st2 tape_reads_input tape_surroundings tape_keeps)
    as (eaten & rest & finished & Hin & _ & Hheld & Hrep & Hp).
  - constructor; [reflexivity|reflexivity|reflexivity|lia].
  - exists (). reflexivity.
  - exact Hstart.
  - exact Hreach.
  - exists st2, eaten, rest, finished. rewrite Hread in Hin. split_and!; done.
Defined.
